(** * A shallow embedding of the nautilus_core backtesting engine

    The development follows the Python sources module by module:
    [decimal] (the standard library's decimal arithmetic, as far as the engine
    uses it), [objects], [enums], [events], [orders], [position], [account],
    [cache], [risk_engine], [msgbus], [clock], [order_factory],
    [execution_engine], [backtest/exchange] and the event loop of
    [backtest/engine].  Mutable Python objects are modelled by
    explicit state passing; a raised exception leaves behind the state reached
    when it was raised.  The execution engine and the exchanges come twice:
    on their own, as they run while no handler subscribed to the bus acts on
    them, and in [Live], with the handlers called where the source calls
    them.  *)

From Stdlib Require Import ZArith Lia Bool QArith Qpower Qfield Qabs Lqa.
From stdpp Require Import gmap strings list fin_maps pretty.

Local Open Scope Z_scope.

(** ** enums *)

Inductive OrderSide := BUY | SELL.

Inductive OrderType := MARKET | LIMIT | STOP_MARKET | STOP_LIMIT.

Inductive TimeInForce := GTC | IOC | FOK | GTD | DAY.

Inductive OrderStatus :=
| INITIALIZED | DENIED | SUBMITTED | ACCEPTED | REJECTED | CANCELED | EXPIRED
| TRIGGERED | PENDING_UPDATE | PENDING_CANCEL | PARTIALLY_FILLED | FILLED.

Inductive PositionSide := FLAT | LONG | SHORT.

Inductive AccountType := CASH | MARGIN.

Inductive OmsType := HEDGING | NETTING.

Inductive CurrencyType := FIAT | CRYPTO.

Inductive TradingState := ACTIVE | REDUCING | HALTED.

#[global] Instance OrderSide_eq_dec : EqDecision OrderSide.
Proof. solve_decision. Defined.
#[global] Instance OrderType_eq_dec : EqDecision OrderType.
Proof. solve_decision. Defined.
#[global] Instance OrderStatus_eq_dec : EqDecision OrderStatus.
Proof. solve_decision. Defined.
#[global] Instance PositionSide_eq_dec : EqDecision PositionSide.
Proof. solve_decision. Defined.
#[global] Instance OmsType_eq_dec : EqDecision OmsType.
Proof. solve_decision. Defined.
#[global] Instance CurrencyType_eq_dec : EqDecision CurrencyType.
Proof. solve_decision. Defined.
#[global] Instance TradingState_eq_dec : EqDecision TradingState.
Proof. solve_decision. Defined.

(** The exceptions the modelled code can raise.  [InvalidOperation] and
    [DivisionByZero] are the signals of the decimal module that the default
    context traps.  [ReferenceError] is what the model answers when an object
    reference or a venue it is asked to work on does not exist; Python has no
    dangling references, and the engine never produces one. *)
Inductive Exception :=
| ValueError (msg : string)
| RuntimeError_invalid_transition (from to : OrderStatus)
| AttributeError (attr : string)
| InvalidOperation
| DivisionByZero
| ReferenceError (what : string).

Inductive Result (A : Type) :=
| Ok (a : A)
| Raise (e : Exception).
Arguments Ok {A} a.
Arguments Raise {A} e.

Definition is_ok {A} (r : Result A) : bool :=
  match r with Ok _ => true | Raise _ => false end.

#[global] Instance Result_ret : MRet Result := fun A a => Ok a.
#[global] Instance Result_bind : MBind Result := fun A B f r =>
  match r with Ok a => f a | Raise e => Raise e end.
#[global] Instance Result_fmap : FMap Result := fun A B f r =>
  match r with Ok a => Ok (f a) | Raise e => Raise e end.

(** ** decimal: Python's decimal.Decimal under the default context *)

Module decimal.

(** A finite decimal [dcoeff * 10 ^ dexp].  The coefficient carries the sign;
    the sign of a zero is not represented (no comparison or arithmetic result
    of the engine depends on it).  NaN and infinities are outside the model,
    and so are the exponent limits Emin/Emax of the context. *)
Record Decimal := mkDecimal { dcoeff : Z; dexp : Z }.

#[global] Instance Decimal_eq_dec : EqDecision Decimal.
Proof. solve_decision. Defined.

(** getcontext().prec *)
Definition context_prec : Z := 28.

Fixpoint ndigits_fuel (fuel : nat) (n : Z) : Z :=
  match fuel with
  | O => 1
  | S f => if n <? 10 then 1 else 1 + ndigits_fuel f (n / 10)
  end.

(** len(self._int): the number of decimal digits of the coefficient. *)
Definition ndigits (c : Z) : Z :=
  ndigits_fuel (Z.to_nat (Z.log2 (Z.abs c))) (Z.abs c).

(** n / 10^k for n >= 0, ties to the even quotient (ROUND_HALF_EVEN). *)
Definition round_half_even_div (n k : Z) : Z :=
  let p := 10 ^ k in
  let q := n / p in
  let r := n mod p in
  if (p <? 2 * r) || ((2 * r =? p) && Z.odd q) then q + 1 else q.

(** n / 10^k for n >= 0, ties away from zero (ROUND_HALF_UP). *)
Definition round_half_up_div (n k : Z) : Z :=
  let p := 10 ^ k in
  let q := n / p in
  let r := n mod p in
  if p <=? 2 * r then q + 1 else q.

(** Decimal._fix: round to the context precision. *)
Definition _fix (d : Decimal) : Decimal :=
  let n := ndigits (dcoeff d) in
  if n <=? context_prec then d
  else
    let k := n - context_prec in
    let q := round_half_even_div (Z.abs (dcoeff d)) k in
    if context_prec <? ndigits q
    then mkDecimal (Z.sgn (dcoeff d) * (q / 10)) (dexp d + k + 1)
    else mkDecimal (Z.sgn (dcoeff d) * q) (dexp d + k).

Definition zero : Decimal := mkDecimal 0 0.

(** Both coefficients brought to the smaller exponent. *)
Definition align (a b : Decimal) : Z * Z * Z :=
  let e := Z.min (dexp a) (dexp b) in
  (dcoeff a * 10 ^ (dexp a - e), dcoeff b * 10 ^ (dexp b - e), e).

Definition add (a b : Decimal) : Decimal :=
  let '(x, y, e) := align a b in _fix (mkDecimal (x + y) e).

Definition sub (a b : Decimal) : Decimal :=
  let '(x, y, e) := align a b in _fix (mkDecimal (x - y) e).

Definition mul (a b : Decimal) : Decimal :=
  _fix (mkDecimal (dcoeff a * dcoeff b) (dexp a + dexp b)).

Definition neg (a : Decimal) : Decimal :=
  _fix (mkDecimal (- dcoeff a) (dexp a)).

Definition abs (a : Decimal) : Decimal :=
  _fix (mkDecimal (Z.abs (dcoeff a)) (dexp a)).

Definition compare (a b : Decimal) : comparison :=
  let '(x, y, _) := align a b in x ?= y.

Definition ltb (a b : Decimal) : bool :=
  match compare a b with Lt => true | _ => false end.
Definition leb (a b : Decimal) : bool :=
  match compare a b with Gt => false | _ => true end.
Definition gtb (a b : Decimal) : bool := ltb b a.
Definition geb (a b : Decimal) : bool := leb b a.
Definition eqb (a b : Decimal) : bool :=
  match compare a b with Eq => true | _ => false end.

(** The builtins min(a, b) and max(a, b): the first argument wins a tie. *)
Definition min (a b : Decimal) : Decimal := if ltb b a then b else a.
Definition max (a b : Decimal) : Decimal := if gtb b a then b else a.

(** The loop of __truediv__ that strips trailing zeros of an exact quotient
    while the exponent is below the ideal one. *)
Fixpoint strip_zeros (fuel : nat) (coeff exp ideal : Z) : Z * Z :=
  match fuel with
  | O => (coeff, exp)
  | S f =>
      if (exp <? ideal) && (coeff mod 10 =? 0)
      then strip_zeros f (coeff / 10) (exp + 1) ideal
      else (coeff, exp)
  end.

(** Decimal.__truediv__ *)
Definition div (a b : Decimal) : Result Decimal :=
  if dcoeff b =? 0 then
    (if dcoeff a =? 0 then Raise InvalidOperation else Raise DivisionByZero)
  else if dcoeff a =? 0 then Ok (_fix (mkDecimal 0 (dexp a - dexp b)))
  else
    let sign := Z.sgn (dcoeff a) * Z.sgn (dcoeff b) in
    let x := Z.abs (dcoeff a) in
    let y := Z.abs (dcoeff b) in
    let shift := ndigits y - ndigits x + context_prec + 1 in
    let exp := dexp a - dexp b - shift in
    let '(coeff, remainder) :=
      if 0 <=? shift
      then (x * 10 ^ shift / y, (x * 10 ^ shift) mod y)
      else (x / (y * 10 ^ (- shift)), x mod (y * 10 ^ (- shift))) in
    if remainder =? 0 then
      let ideal := dexp a - dexp b in
      let '(c, e) := strip_zeros (Z.to_nat (ideal - exp)) coeff exp ideal in
      Ok (_fix (mkDecimal (sign * c) e))
    else
      let coeff' := if coeff mod 5 =? 0 then coeff + 1 else coeff in
      Ok (_fix (mkDecimal (sign * coeff') exp)).

(** Decimal._rescale with rounding=ROUND_HALF_UP *)
Definition _rescale (d : Decimal) (exp : Z) : Decimal :=
  if dcoeff d =? 0 then mkDecimal 0 exp
  else if exp <=? dexp d then mkDecimal (dcoeff d * 10 ^ (dexp d - exp)) exp
  else mkDecimal
         (Z.sgn (dcoeff d) * round_half_up_div (Z.abs (dcoeff d)) (exp - dexp d))
         exp.

(** d.quantize(Decimal(10) ** -precision, rounding=ROUND_HALF_UP), given the
    exponent of the quantum. *)
Definition quantize (d : Decimal) (exp : Z) : Result Decimal :=
  if dcoeff d =? 0 then Ok (mkDecimal 0 exp)
  else if context_prec <? (dexp d + ndigits (dcoeff d) - 1) - exp + 1
  then Raise InvalidOperation
  else
    let ans := _rescale d exp in
    if context_prec <? ndigits (dcoeff ans) then Raise InvalidOperation
    else Ok ans.

(** The exponent of [Decimal(10) ** -precision]: 10 ** -p is 1E-p for p >= 0;
    for p < 0 the power is the integer 10^(-p), of exponent 0 until it is
    rounded to 28 digits. *)
Definition quantum_exp (precision : Z) : Z :=
  if 0 <=? precision then - precision else Z.max 0 (- precision - 27).

Fixpoint zeros (n : nat) : string :=
  match n with O => "" | S k => "0" +:+ zeros k end.

(** Decimal.__str__ (scientific notation, capitals=1). *)
Definition __str__ (d : Decimal) : string :=
  let int := pretty (Z.abs (dcoeff d)) in
  let sign := if dcoeff d <? 0 then "-" else "" in
  let len := Z.of_nat (String.length int) in
  let leftdigits := dexp d + len in
  let dotplace :=
    if (dexp d <=? 0) && (-6 <? leftdigits) then leftdigits else 1 in
  let '(intpart, fracpart) :=
    if dotplace <=? 0
    then ("0", "." +:+ zeros (Z.to_nat (- dotplace)) +:+ int)
    else if len <=? dotplace
    then (int +:+ zeros (Z.to_nat (dotplace - len)), "")
    else (String.substring 0 (Z.to_nat dotplace) int,
          "." +:+ String.substring (Z.to_nat dotplace) (Z.to_nat (len - dotplace)) int) in
  let exp :=
    if leftdigits =? dotplace then ""
    else "E" +:+ (if 0 <=? leftdigits - dotplace then "+" else "-")
             +:+ pretty (Z.abs (leftdigits - dotplace)) in
  sign +:+ intpart +:+ fracpart +:+ exp.

End decimal.


(** ** Mutable objects: a state monad in which a raised exception keeps the
    state reached so far *)

Definition M (S A : Type) : Type := S → S * Result A.

#[global] Instance M_ret {S} : MRet (M S) := λ A a s, (s, Ok a).
#[global] Instance M_bind {S} : MBind (M S) := λ A B f m s,
  match m s with
  | (s', Ok a) => f a s'
  | (s', Raise e) => (s', Raise e)
  end.

Definition get {S} : M S S := λ s, (s, Ok s).
Definition modify {S} (f : S → S) : M S unit := λ s, (f s, Ok tt).
Definition raise {S A} (e : Exception) : M S A := λ s, (s, Raise e).
Definition lift {S A} (r : Result A) : M S A := λ s, (s, r).
Definition skip {S} : M S unit := mret tt.

(** ** identifiers *)

(** An identifier is its string value; dictionaries keyed by identifiers are
    keyed by that string, as _Identifier.__eq__ and __hash__ have it. *)
Abbreviation StrategyId := string (only parsing).
Abbreviation Venue := string (only parsing).
Abbreviation ClientOrderId := string (only parsing).
Abbreviation VenueOrderId := string (only parsing).
Abbreviation PositionId := string (only parsing).
Abbreviation TradeId := string (only parsing).
Abbreviation AccountId := string (only parsing).

Module InstrumentId.
Record t := mk { symbol : string; venue : Venue }.
(** super().__init__(f"{symbol.value}.{venue.value}") *)
Definition value (i : t) : string := symbol i +:+ "." +:+ venue i.
(** _Identifier.__eq__ compares the values. *)
Definition eqb (a b : t) : bool := bool_decide (value a = value b).
End InstrumentId.

(** ** objects *)

Module Currency.
Record t := mk { code : string; precision : Z; currency_type : CurrencyType }.
#[global] Instance eq_dec : EqDecision t.
Proof. solve_decision. Defined.
#[global] Instance countable : Countable t.
Proof.
  refine (inj_countable'
    (λ c, (code c, precision c, bool_decide (currency_type c = FIAT)))
    (λ '(c, p, b), mk c p (if b then FIAT else CRYPTO)) _).
  intros [c p []]; reflexivity.
Defined.
End Currency.

Definition USD : Currency.t := Currency.mk "USD" 2 FIAT.

Module Price.
Record t := mk { value : decimal.Decimal; precision : Z }.
(** Price.__init__ *)
Definition new (v : decimal.Decimal) (precision : Z) : Result t :=
  q ← decimal.quantize v (decimal.quantum_exp precision);
  mret (mk q precision).
Definition le (a b : t) : bool := decimal.leb (value a) (value b).
Definition ge (a b : t) : bool := decimal.geb (value a) (value b).
(** Price.__add__ and __sub__ with a Price operand, and __neg__ *)
Definition add (a b : t) : Result t :=
  new (decimal.add (value a) (value b)) (Z.max (precision a) (precision b)).
Definition sub (a b : t) : Result t :=
  new (decimal.sub (value a) (value b)) (Z.max (precision a) (precision b)).
Definition neg (a : t) : Result t := new (decimal.neg (value a)) (precision a).
End Price.

Module Quantity.
Record t := mk { value : decimal.Decimal; precision : Z }.
(** Quantity.__init__ *)
Definition new (v : decimal.Decimal) (precision : Z) : Result t :=
  q ← decimal.quantize v (decimal.quantum_exp precision);
  if decimal.ltb q decimal.zero
  then Raise (ValueError "Quantity value must be non-negative")
  else mret (mk q precision).
Definition lt (a b : t) : bool := decimal.ltb (value a) (value b).
Definition gt (a b : t) : bool := decimal.gtb (value a) (value b).
(** Quantity.__bool__ *)
Definition bool (a : t) : bool := decimal.gtb (value a) decimal.zero.
(** Quantity.__add__ and __sub__ with a Quantity operand *)
Definition add (a b : t) : Result t :=
  new (decimal.add (value a) (value b)) (Z.max (precision a) (precision b)).
Definition sub (a b : t) : Result t :=
  new (decimal.sub (value a) (value b)) (Z.max (precision a) (precision b)).
End Quantity.

Module Money.
Record t := mk { amount : decimal.Decimal; currency : Currency.t }.
(** Money.__init__ *)
Definition new (a : decimal.Decimal) (currency : Currency.t) : Result t :=
  q ← decimal.quantize a (decimal.quantum_exp (Currency.precision currency));
  mret (mk q currency).
(** Money.__add__, __sub__ and __neg__ *)
Definition add (a b : t) : Result t :=
  if bool_decide (currency a ≠ currency b)
  then Raise (ValueError ("Cannot add " +:+ Currency.code (currency a)
                         +:+ " and " +:+ Currency.code (currency b)))
  else new (decimal.add (amount a) (amount b)) (currency a).
Definition sub (a b : t) : Result t :=
  if bool_decide (currency a ≠ currency b)
  then Raise (ValueError ("Cannot subtract " +:+ Currency.code (currency b)
                         +:+ " from " +:+ Currency.code (currency a)))
  else new (decimal.sub (amount a) (amount b)) (currency a).
Definition neg (a : t) : Result t := new (decimal.neg (amount a)) (currency a).
End Money.

Module AccountBalance.
Record t := mk { total : Money.t; locked : Money.t; free : Money.t }.
(** The dataclass constructor with its __post_init__ check. *)
Definition new (total locked free : Money.t) : Result t :=
  if bool_decide (Money.currency total ≠ Money.currency locked)
     || bool_decide (Money.currency total ≠ Money.currency free)
  then Raise (ValueError "All balance components must be in the same currency")
  else mret (mk total locked free).
End AccountBalance.

(** ** events *)

(** The event dataclasses, with the fields the engine reads.  The uuid
    event_id and the identification fields no modelled code reads are left
    out. *)

Module OrderInitialized.
Record t := mk {
  strategy_id : option StrategyId;
  instrument_id : InstrumentId.t;
  client_order_id : ClientOrderId;
  order_side : OrderSide;
  order_type : OrderType;
  quantity : Quantity.t;
  time_in_force : TimeInForce;
  price : option Price.t;
  trigger_price : option Price.t;
  ts_event : Z;
  ts_init : Z }.
End OrderInitialized.

Module OrderDenied.
Record t := mk {
  strategy_id : option StrategyId;
  instrument_id : InstrumentId.t;
  client_order_id : ClientOrderId;
  reason : string;
  ts_event : Z;
  ts_init : Z }.
End OrderDenied.

Module OrderSubmitted.
Record t := mk {
  strategy_id : option StrategyId;
  instrument_id : InstrumentId.t;
  client_order_id : ClientOrderId;
  ts_event : Z;
  ts_init : Z }.
End OrderSubmitted.

Module OrderAccepted.
Record t := mk {
  strategy_id : option StrategyId;
  instrument_id : InstrumentId.t;
  client_order_id : ClientOrderId;
  venue_order_id : option VenueOrderId;
  account_id : option AccountId;
  ts_event : Z;
  ts_init : Z }.
End OrderAccepted.

Module OrderRejected.
Record t := mk {
  client_order_id : ClientOrderId;
  reason : string;
  ts_event : Z;
  ts_init : Z }.
End OrderRejected.

Module OrderCanceled.
Record t := mk {
  client_order_id : ClientOrderId;
  venue_order_id : option VenueOrderId;
  ts_event : Z;
  ts_init : Z }.
End OrderCanceled.

Module OrderExpired.
Record t := mk {
  client_order_id : ClientOrderId;
  venue_order_id : option VenueOrderId;
  ts_event : Z;
  ts_init : Z }.
End OrderExpired.

Module OrderUpdated.
Record t := mk {
  client_order_id : ClientOrderId;
  venue_order_id : option VenueOrderId;
  quantity : option Quantity.t;
  price : option Price.t;
  trigger_price : option Price.t;
  ts_event : Z;
  ts_init : Z }.
End OrderUpdated.

Module OrderFilled.
Record t := mk {
  strategy_id : option StrategyId;
  instrument_id : InstrumentId.t;
  client_order_id : ClientOrderId;
  venue_order_id : option VenueOrderId;
  account_id : option AccountId;
  trade_id : option TradeId;
  position_id : option PositionId;
  order_side : OrderSide;
  order_type : OrderType;
  last_qty : Quantity.t;
  last_px : Price.t;
  currency : Currency.t;
  commission : option Money.t;
  ts_event : Z;
  ts_init : Z }.
End OrderFilled.

(** What Order.apply dispatches on with isinstance. *)
Inductive OrderEvent :=
| EvInitialized (e : OrderInitialized.t)
| EvDenied (e : OrderDenied.t)
| EvSubmitted (e : OrderSubmitted.t)
| EvAccepted (e : OrderAccepted.t)
| EvRejected (e : OrderRejected.t)
| EvCanceled (e : OrderCanceled.t)
| EvExpired (e : OrderExpired.t)
| EvUpdated (e : OrderUpdated.t)
| EvFilled (e : OrderFilled.t).

(** event.ts_event *)
Definition event_ts_event (ev : OrderEvent) : Z :=
  match ev with
  | EvInitialized e => OrderInitialized.ts_event e
  | EvDenied e => OrderDenied.ts_event e
  | EvSubmitted e => OrderSubmitted.ts_event e
  | EvAccepted e => OrderAccepted.ts_event e
  | EvRejected e => OrderRejected.ts_event e
  | EvCanceled e => OrderCanceled.ts_event e
  | EvExpired e => OrderExpired.ts_event e
  | EvUpdated e => OrderUpdated.ts_event e
  | EvFilled e => OrderFilled.ts_event e
  end.

(** event.client_order_id *)
Definition event_client_order_id (ev : OrderEvent) : ClientOrderId :=
  match ev with
  | EvInitialized e => OrderInitialized.client_order_id e
  | EvDenied e => OrderDenied.client_order_id e
  | EvSubmitted e => OrderSubmitted.client_order_id e
  | EvAccepted e => OrderAccepted.client_order_id e
  | EvRejected e => OrderRejected.client_order_id e
  | EvCanceled e => OrderCanceled.client_order_id e
  | EvExpired e => OrderExpired.client_order_id e
  | EvUpdated e => OrderUpdated.client_order_id e
  | EvFilled e => OrderFilled.client_order_id e
  end.

Module PositionOpened.
Record t := mk {
  strategy_id : option StrategyId;
  instrument_id : InstrumentId.t;
  position_id : PositionId;
  position_side : PositionSide;
  signed_qty : decimal.Decimal;
  quantity : Quantity.t;
  avg_px_open : decimal.Decimal;
  last_px : Price.t;
  ts_event : Z }.
End PositionOpened.

Module PositionChanged.
Record t := mk {
  strategy_id : option StrategyId;
  instrument_id : InstrumentId.t;
  position_id : PositionId;
  position_side : PositionSide;
  signed_qty : decimal.Decimal;
  ts_event : Z }.
End PositionChanged.

Module PositionClosed.
Record t := mk {
  strategy_id : option StrategyId;
  instrument_id : InstrumentId.t;
  position_id : PositionId;
  ts_event : Z }.
End PositionClosed.

(** ORDER_STATUS_TRANSITIONS.get(status, set()) *)
Definition ORDER_STATUS_TRANSITIONS (from : OrderStatus) : list OrderStatus :=
  match from with
  | INITIALIZED => [DENIED; SUBMITTED]
  | SUBMITTED => [ACCEPTED; REJECTED; CANCELED]
  | ACCEPTED =>
      [CANCELED; EXPIRED; TRIGGERED; PENDING_UPDATE; PENDING_CANCEL;
       PARTIALLY_FILLED; FILLED]
  | TRIGGERED =>
      [CANCELED; EXPIRED; PENDING_UPDATE; PENDING_CANCEL; PARTIALLY_FILLED;
       FILLED]
  | PENDING_UPDATE =>
      [ACCEPTED; CANCELED; EXPIRED; TRIGGERED; PARTIALLY_FILLED; FILLED]
  | PENDING_CANCEL => [CANCELED; ACCEPTED; PARTIALLY_FILLED; FILLED]
  | PARTIALLY_FILLED =>
      [CANCELED; EXPIRED; PENDING_UPDATE; PENDING_CANCEL; PARTIALLY_FILLED;
       FILLED]
  | DENIED | REJECTED | CANCELED | EXPIRED | FILLED => []
  end.

(** ** orders *)

(** The class of an order object: [Order] itself or one of its subclasses;
    _apply_updated is overridden in three of them. *)
Inductive OrderClass :=
| OrderBase | MarketOrder | LimitOrder | StopMarketOrder | StopLimitOrder.

Module Order.

(** The attributes of an order object.  [price] and [trigger_price] exist on
    the subclasses that set them only; [None] stands for an absent
    attribute (where the attribute exists it is never None). *)
Record t := mk {
  cls : OrderClass;
  client_order_id : ClientOrderId;
  instrument_id : InstrumentId.t;
  strategy_id : option StrategyId;
  side : OrderSide;
  order_type : OrderType;
  quantity : Quantity.t;
  time_in_force : TimeInForce;
  status : OrderStatus;
  filled_qty : Quantity.t;
  leaves_qty : Quantity.t;
  avg_px : decimal.Decimal;
  venue_order_id : option VenueOrderId;
  events : list OrderEvent;
  ts_init : Z;
  ts_last : Z;
  price : option Price.t;
  trigger_price : option Price.t }.

Definition set_quantity (x : Quantity.t) (o : t) : t :=
  mk (cls o) (client_order_id o) (instrument_id o) (strategy_id o) (side o)
     (order_type o) x (time_in_force o) (status o) (filled_qty o)
     (leaves_qty o) (avg_px o) (venue_order_id o) (events o) (ts_init o)
     (ts_last o) (price o) (trigger_price o).
Definition set_status (x : OrderStatus) (o : t) : t :=
  mk (cls o) (client_order_id o) (instrument_id o) (strategy_id o) (side o)
     (order_type o) (quantity o) (time_in_force o) x (filled_qty o)
     (leaves_qty o) (avg_px o) (venue_order_id o) (events o) (ts_init o)
     (ts_last o) (price o) (trigger_price o).
Definition set_filled_qty (x : Quantity.t) (o : t) : t :=
  mk (cls o) (client_order_id o) (instrument_id o) (strategy_id o) (side o)
     (order_type o) (quantity o) (time_in_force o) (status o) x
     (leaves_qty o) (avg_px o) (venue_order_id o) (events o) (ts_init o)
     (ts_last o) (price o) (trigger_price o).
Definition set_leaves_qty (x : Quantity.t) (o : t) : t :=
  mk (cls o) (client_order_id o) (instrument_id o) (strategy_id o) (side o)
     (order_type o) (quantity o) (time_in_force o) (status o) (filled_qty o)
     x (avg_px o) (venue_order_id o) (events o) (ts_init o)
     (ts_last o) (price o) (trigger_price o).
Definition set_avg_px (x : decimal.Decimal) (o : t) : t :=
  mk (cls o) (client_order_id o) (instrument_id o) (strategy_id o) (side o)
     (order_type o) (quantity o) (time_in_force o) (status o) (filled_qty o)
     (leaves_qty o) x (venue_order_id o) (events o) (ts_init o)
     (ts_last o) (price o) (trigger_price o).
Definition set_venue_order_id (x : option VenueOrderId) (o : t) : t :=
  mk (cls o) (client_order_id o) (instrument_id o) (strategy_id o) (side o)
     (order_type o) (quantity o) (time_in_force o) (status o) (filled_qty o)
     (leaves_qty o) (avg_px o) x (events o) (ts_init o)
     (ts_last o) (price o) (trigger_price o).
Definition set_events (x : list OrderEvent) (o : t) : t :=
  mk (cls o) (client_order_id o) (instrument_id o) (strategy_id o) (side o)
     (order_type o) (quantity o) (time_in_force o) (status o) (filled_qty o)
     (leaves_qty o) (avg_px o) (venue_order_id o) x (ts_init o)
     (ts_last o) (price o) (trigger_price o).
Definition set_ts_last (x : Z) (o : t) : t :=
  mk (cls o) (client_order_id o) (instrument_id o) (strategy_id o) (side o)
     (order_type o) (quantity o) (time_in_force o) (status o) (filled_qty o)
     (leaves_qty o) (avg_px o) (venue_order_id o) (events o) (ts_init o)
     x (price o) (trigger_price o).
Definition set_price (x : option Price.t) (o : t) : t :=
  mk (cls o) (client_order_id o) (instrument_id o) (strategy_id o) (side o)
     (order_type o) (quantity o) (time_in_force o) (status o) (filled_qty o)
     (leaves_qty o) (avg_px o) (venue_order_id o) (events o) (ts_init o)
     (ts_last o) x (trigger_price o).
Definition set_trigger_price (x : option Price.t) (o : t) : t :=
  mk (cls o) (client_order_id o) (instrument_id o) (strategy_id o) (side o)
     (order_type o) (quantity o) (time_in_force o) (status o) (filled_qty o)
     (leaves_qty o) (avg_px o) (venue_order_id o) (events o) (ts_init o)
     (ts_last o) (price o) x.

(** Order.__init__ *)
Definition __init__ (c : OrderClass) (init : OrderInitialized.t) : Result t :=
  let q := OrderInitialized.quantity init in
  filled ← Quantity.new decimal.zero (Quantity.precision q);
  leaves ← Quantity.new (Quantity.value q) (Quantity.precision q);
  mret (mk c (OrderInitialized.client_order_id init)
          (OrderInitialized.instrument_id init)
          (OrderInitialized.strategy_id init)
          (OrderInitialized.order_side init)
          (OrderInitialized.order_type init)
          q (OrderInitialized.time_in_force init) INITIALIZED
          filled leaves decimal.zero None [EvInitialized init]
          (OrderInitialized.ts_init init) (OrderInitialized.ts_event init)
          None None).

(** MarketOrder.__init__ *)
Definition new_market (init : OrderInitialized.t) : Result t :=
  if bool_decide (OrderInitialized.order_type init ≠ MARKET)
  then Raise (ValueError "Expected MARKET order type")
  else __init__ MarketOrder init.

(** LimitOrder.__init__ *)
Definition new_limit (init : OrderInitialized.t) : Result t :=
  if bool_decide (OrderInitialized.order_type init ≠ LIMIT)
  then Raise (ValueError "Expected LIMIT order type")
  else match OrderInitialized.price init with
       | None => Raise (ValueError "LimitOrder requires a price")
       | Some p => o ← __init__ LimitOrder init; mret (set_price (Some p) o)
       end.

(** StopMarketOrder.__init__ *)
Definition new_stop_market (init : OrderInitialized.t) : Result t :=
  if bool_decide (OrderInitialized.order_type init ≠ STOP_MARKET)
  then Raise (ValueError "Expected STOP_MARKET order type")
  else match OrderInitialized.trigger_price init with
       | None => Raise (ValueError "StopMarketOrder requires a trigger_price")
       | Some p =>
           o ← __init__ StopMarketOrder init; mret (set_trigger_price (Some p) o)
       end.

(** StopLimitOrder.__init__ *)
Definition new_stop_limit (init : OrderInitialized.t) : Result t :=
  if bool_decide (OrderInitialized.order_type init ≠ STOP_LIMIT)
  then Raise (ValueError "Expected STOP_LIMIT order type")
  else match OrderInitialized.trigger_price init with
       | None => Raise (ValueError "StopLimitOrder requires a trigger_price")
       | Some tp =>
           match OrderInitialized.price init with
           | None => Raise (ValueError "StopLimitOrder requires a price")
           | Some p =>
               o ← __init__ StopLimitOrder init;
               mret (set_price (Some p) (set_trigger_price (Some tp) o))
           end
       end.

Definition is_open (o : t) : bool :=
  bool_decide (status o ∈
    [ACCEPTED; TRIGGERED; PENDING_UPDATE; PENDING_CANCEL; PARTIALLY_FILLED]).

Definition is_closed (o : t) : bool :=
  bool_decide (status o ∈ [DENIED; REJECTED; CANCELED; EXPIRED; FILLED]).

(** _EVENT_TO_STATUS.get(type(event)) *)
Definition _EVENT_TO_STATUS (ev : OrderEvent) : option OrderStatus :=
  match ev with
  | EvInitialized _ => Some INITIALIZED
  | EvDenied _ => Some DENIED
  | EvSubmitted _ => Some SUBMITTED
  | EvAccepted _ => Some ACCEPTED
  | EvRejected _ => Some REJECTED
  | EvCanceled _ => Some CANCELED
  | EvExpired _ => Some EXPIRED
  | EvUpdated _ => None
  | EvFilled _ => None
  end.

Definition _check_transition (new_status : OrderStatus) : M t unit :=
  self ← get;
  if bool_decide (new_status ∈ ORDER_STATUS_TRANSITIONS (status self))
  then skip
  else raise (RuntimeError_invalid_transition (status self) new_status).

Definition _apply_filled (event : OrderFilled.t) : M t unit :=
  self ← get;
  let fill_qty := Quantity.value (OrderFilled.last_qty event) in
  let fill_px := Price.value (OrderFilled.last_px event) in
  let prev_filled := Quantity.value (filled_qty self) in
  let new_filled := decimal.add prev_filled fill_qty in
  (if decimal.gtb new_filled decimal.zero then
     a ← lift (decimal.div
                 (decimal.add (decimal.mul (avg_px self) prev_filled)
                              (decimal.mul fill_px fill_qty))
                 new_filled);
     modify (set_avg_px a)
   else skip);;
  fq ← lift (Quantity.new new_filled (Quantity.precision (quantity self)));
  modify (set_filled_qty fq);;
  lq ← lift (Quantity.new (decimal.sub (Quantity.value (quantity self)) new_filled)
                          (Quantity.precision (quantity self)));
  modify (set_leaves_qty lq);;
  let new_status :=
    if decimal.eqb (Quantity.value lq) decimal.zero
    then FILLED else PARTIALLY_FILLED in
  _check_transition new_status;;
  modify (set_status new_status);;
  match OrderFilled.venue_order_id event with
  | Some v => modify (set_venue_order_id (Some v))
  | None => skip
  end.

(** Order._apply_updated, the method of the base class *)
Definition _apply_updated_base (event : OrderUpdated.t) : M t unit :=
  match OrderUpdated.quantity event with
  | Some q =>
      modify (set_quantity q);;
      self ← get;
      lq ← lift (Quantity.new
                   (decimal.sub (Quantity.value q)
                                (Quantity.value (filled_qty self)))
                   (Quantity.precision q));
      modify (set_leaves_qty lq)
  | None => skip
  end;;
  _check_transition ACCEPTED;;
  modify (set_status ACCEPTED).

Definition update_price (event : OrderUpdated.t) : M t unit :=
  match OrderUpdated.price event with
  | Some p => modify (set_price (Some p))
  | None => skip
  end.

Definition update_trigger_price (event : OrderUpdated.t) : M t unit :=
  match OrderUpdated.trigger_price event with
  | Some p => modify (set_trigger_price (Some p))
  | None => skip
  end.

(** _apply_updated as the object's class dispatches it *)
Definition _apply_updated (event : OrderUpdated.t) : M t unit :=
  self ← get;
  _apply_updated_base event;;
  match cls self with
  | OrderBase | MarketOrder => skip
  | LimitOrder => update_price event
  | StopMarketOrder => update_trigger_price event
  | StopLimitOrder => update_price event;; update_trigger_price event
  end.

(** Order.apply *)
Definition apply (event : OrderEvent) : M t unit :=
  match event with
  | EvFilled e => _apply_filled e
  | EvUpdated e => _apply_updated e
  | _ =>
      match _EVENT_TO_STATUS event with
      | None => raise (ValueError "Unknown order event type")
      | Some new_status =>
          _check_transition new_status;;
          modify (set_status new_status);;
          match event with
          | EvAccepted e =>
              match OrderAccepted.venue_order_id e with
              | Some v => modify (set_venue_order_id (Some v))
              | None => skip
              end
          | _ => skip
          end
      end
  end;;
  self ← get;
  modify (set_events (events self ++ [event]));;
  modify (set_ts_last (event_ts_event event)).

End Order.

(** ** order_factory *)

Module OrderFactory.

Record t := mk { strategy_id : StrategyId; _counter : Z }.

Definition __init__ (strategy_id : StrategyId) : t := mk strategy_id 0.

Definition _next_order_id : M t ClientOrderId :=
  modify (λ self, mk (strategy_id self) (_counter self + 1));;
  self ← get;
  mret ("O-" +:+ strategy_id self +:+ "-" +:+ pretty (_counter self)).

Definition reset : M t unit := modify (λ self, mk (strategy_id self) 0).

(** The OrderInitialized event every method of the factory builds;
    ts_event keeps the default of the dataclass. *)
Definition init (self : t) (instrument_id : InstrumentId.t)
    (client_order_id : ClientOrderId) (side : OrderSide) (order_type : OrderType)
    (quantity : Quantity.t) (time_in_force : TimeInForce)
    (price trigger_price : option Price.t) (ts_init : Z) : OrderInitialized.t :=
  OrderInitialized.mk (Some (strategy_id self)) instrument_id client_order_id
    side order_type quantity time_in_force price trigger_price 0 ts_init.

Definition market (instrument_id : InstrumentId.t) (side : OrderSide)
    (quantity : Quantity.t) (time_in_force : TimeInForce) (ts_init : Z)
    : M t Order.t :=
  id ← _next_order_id;
  self ← get;
  lift (Order.new_market
          (init self instrument_id id side MARKET quantity time_in_force
                None None ts_init)).

Definition limit (instrument_id : InstrumentId.t) (side : OrderSide)
    (quantity : Quantity.t) (price : Price.t) (time_in_force : TimeInForce)
    (ts_init : Z) : M t Order.t :=
  id ← _next_order_id;
  self ← get;
  lift (Order.new_limit
          (init self instrument_id id side LIMIT quantity time_in_force
                (Some price) None ts_init)).

Definition stop_market (instrument_id : InstrumentId.t) (side : OrderSide)
    (quantity : Quantity.t) (trigger_price : Price.t)
    (time_in_force : TimeInForce) (ts_init : Z) : M t Order.t :=
  id ← _next_order_id;
  self ← get;
  lift (Order.new_stop_market
          (init self instrument_id id side STOP_MARKET quantity time_in_force
                None (Some trigger_price) ts_init)).

Definition stop_limit (instrument_id : InstrumentId.t) (side : OrderSide)
    (quantity : Quantity.t) (price trigger_price : Price.t)
    (time_in_force : TimeInForce) (ts_init : Z) : M t Order.t :=
  id ← _next_order_id;
  self ← get;
  lift (Order.new_stop_limit
          (init self instrument_id id side STOP_LIMIT quantity time_in_force
                (Some price) (Some trigger_price) ts_init)).

End OrderFactory.

(** ** position *)

Module Position.

Record t := mk {
  instrument_id : InstrumentId.t;
  id : PositionId;
  strategy_id : option StrategyId;
  currency : Currency.t;
  side : PositionSide;
  quantity : Quantity.t;
  signed_qty : decimal.Decimal;
  avg_px_open : decimal.Decimal;
  avg_px_close : decimal.Decimal;
  realized_pnl : decimal.Decimal;
  commissions : gmap Currency.t decimal.Decimal;
  _events : list OrderFilled.t;
  _qty_precision : Z;
  _px_precision : Z }.

Definition set_side (x : PositionSide) (p : t) : t :=
  mk (instrument_id p) (id p) (strategy_id p) (currency p) x (quantity p)
     (signed_qty p) (avg_px_open p) (avg_px_close p) (realized_pnl p)
     (commissions p) (_events p) (_qty_precision p) (_px_precision p).
Definition set_quantity (x : Quantity.t) (p : t) : t :=
  mk (instrument_id p) (id p) (strategy_id p) (currency p) (side p) x
     (signed_qty p) (avg_px_open p) (avg_px_close p) (realized_pnl p)
     (commissions p) (_events p) (_qty_precision p) (_px_precision p).
Definition set_signed_qty (x : decimal.Decimal) (p : t) : t :=
  mk (instrument_id p) (id p) (strategy_id p) (currency p) (side p) (quantity p)
     x (avg_px_open p) (avg_px_close p) (realized_pnl p)
     (commissions p) (_events p) (_qty_precision p) (_px_precision p).
Definition set_avg_px_open (x : decimal.Decimal) (p : t) : t :=
  mk (instrument_id p) (id p) (strategy_id p) (currency p) (side p) (quantity p)
     (signed_qty p) x (avg_px_close p) (realized_pnl p)
     (commissions p) (_events p) (_qty_precision p) (_px_precision p).
Definition set_avg_px_close (x : decimal.Decimal) (p : t) : t :=
  mk (instrument_id p) (id p) (strategy_id p) (currency p) (side p) (quantity p)
     (signed_qty p) (avg_px_open p) x (realized_pnl p)
     (commissions p) (_events p) (_qty_precision p) (_px_precision p).
Definition set_realized_pnl (x : decimal.Decimal) (p : t) : t :=
  mk (instrument_id p) (id p) (strategy_id p) (currency p) (side p) (quantity p)
     (signed_qty p) (avg_px_open p) (avg_px_close p) x
     (commissions p) (_events p) (_qty_precision p) (_px_precision p).
Definition set_commissions (x : gmap Currency.t decimal.Decimal) (p : t) : t :=
  mk (instrument_id p) (id p) (strategy_id p) (currency p) (side p) (quantity p)
     (signed_qty p) (avg_px_open p) (avg_px_close p) (realized_pnl p)
     x (_events p) (_qty_precision p) (_px_precision p).
Definition set_events (x : list OrderFilled.t) (p : t) : t :=
  mk (instrument_id p) (id p) (strategy_id p) (currency p) (side p) (quantity p)
     (signed_qty p) (avg_px_open p) (avg_px_close p) (realized_pnl p)
     (commissions p) x (_qty_precision p) (_px_precision p).

Definition is_open (p : t) : bool := bool_decide (side p ≠ FLAT).

Definition is_closed (p : t) : bool :=
  bool_decide (side p = FLAT) && bool_decide (0 < length (_events p))%nat.

Definition is_long (p : t) : bool := bool_decide (side p = LONG).

Definition _update_side_and_qty : M t unit :=
  self ← get;
  (if decimal.gtb (signed_qty self) decimal.zero then modify (set_side LONG)
   else if decimal.ltb (signed_qty self) decimal.zero then modify (set_side SHORT)
   else modify (set_side FLAT));;
  q ← lift (Quantity.new (decimal.abs (signed_qty self)) (_qty_precision self));
  modify (set_quantity q).

Definition _apply_buy (fill_qty fill_px : decimal.Decimal) : M t unit :=
  self ← get;
  match side self with
  | FLAT | LONG =>
      let total_qty := decimal.add (decimal.abs (signed_qty self)) fill_qty in
      (if decimal.gtb total_qty decimal.zero then
         a ← lift (decimal.div
                     (decimal.add
                        (decimal.mul (avg_px_open self)
                                     (decimal.abs (signed_qty self)))
                        (decimal.mul fill_px fill_qty))
                     total_qty);
         modify (set_avg_px_open a)
       else skip);;
      modify (set_signed_qty (decimal.add (signed_qty self) fill_qty))
  | SHORT =>
      let close_qty := decimal.min fill_qty (decimal.abs (signed_qty self)) in
      let pnl := decimal.mul close_qty (decimal.sub (avg_px_open self) fill_px) in
      modify (set_realized_pnl (decimal.add (realized_pnl self) pnl));;
      let remaining := decimal.sub fill_qty close_qty in
      let new_signed := decimal.add (signed_qty self) fill_qty in
      modify (set_signed_qty new_signed);;
      if decimal.gtb remaining decimal.zero then
        modify (set_avg_px_open fill_px);; modify (set_avg_px_close fill_px)
      else if decimal.eqb new_signed decimal.zero then
        modify (set_avg_px_close fill_px)
      else skip
  end;;
  _update_side_and_qty.

Definition _apply_sell (fill_qty fill_px : decimal.Decimal) : M t unit :=
  self ← get;
  match side self with
  | FLAT | SHORT =>
      let total_qty := decimal.add (decimal.abs (signed_qty self)) fill_qty in
      (if decimal.gtb total_qty decimal.zero then
         a ← lift (decimal.div
                     (decimal.add
                        (decimal.mul (avg_px_open self)
                                     (decimal.abs (signed_qty self)))
                        (decimal.mul fill_px fill_qty))
                     total_qty);
         modify (set_avg_px_open a)
       else skip);;
      modify (set_signed_qty (decimal.sub (signed_qty self) fill_qty))
  | LONG =>
      let close_qty := decimal.min fill_qty (decimal.abs (signed_qty self)) in
      let pnl := decimal.mul close_qty (decimal.sub fill_px (avg_px_open self)) in
      modify (set_realized_pnl (decimal.add (realized_pnl self) pnl));;
      let remaining := decimal.sub fill_qty close_qty in
      let new_signed := decimal.sub (signed_qty self) fill_qty in
      modify (set_signed_qty new_signed);;
      if decimal.gtb remaining decimal.zero then
        modify (set_avg_px_open fill_px);; modify (set_avg_px_close fill_px)
      else if decimal.eqb new_signed decimal.zero then
        modify (set_avg_px_close fill_px)
      else skip
  end;;
  _update_side_and_qty.

(** Position.apply *)
Definition apply (fill : OrderFilled.t) : M t unit :=
  let fill_qty := Quantity.value (OrderFilled.last_qty fill) in
  let fill_px := Price.value (OrderFilled.last_px fill) in
  match OrderFilled.commission fill with
  | Some c =>
      self ← get;
      let curr := Money.currency c in
      modify (set_commissions
                (<[curr := decimal.add
                             (default decimal.zero (commissions self !! curr))
                             (Money.amount c)]> (commissions self)))
  | None => skip
  end;;
  (if bool_decide (OrderFilled.order_side fill = BUY)
   then _apply_buy fill_qty fill_px
   else _apply_sell fill_qty fill_px);;
  self ← get;
  modify (set_events (_events self ++ [fill])).

(** Position.__init__: the attributes are initialised, then the opening fill
    is applied; an exception raised by it leaves no object. *)
Definition __init__ (instrument_id : InstrumentId.t) (position_id : PositionId)
    (fill : OrderFilled.t) : Result t :=
  q ← Quantity.new decimal.zero (Quantity.precision (OrderFilled.last_qty fill));
  let p0 := mk instrument_id position_id (OrderFilled.strategy_id fill)
               (OrderFilled.currency fill) FLAT q decimal.zero decimal.zero
               decimal.zero decimal.zero ∅ []
               (Quantity.precision (OrderFilled.last_qty fill))
               (Price.precision (OrderFilled.last_px fill)) in
  match apply fill p0 with
  | (p, Ok _) => Ok p
  | (_, Raise e) => Raise e
  end.

(** Position.unrealized_pnl, total_pnl and notional_value *)
Definition unrealized_pnl (last_price : Price.t) (p : t) : decimal.Decimal :=
  match side p with
  | FLAT => decimal.zero
  | LONG =>
      decimal.mul (decimal.abs (signed_qty p))
                  (decimal.sub (Price.value last_price) (avg_px_open p))
  | SHORT =>
      decimal.mul (decimal.abs (signed_qty p))
                  (decimal.sub (avg_px_open p) (Price.value last_price))
  end.

Definition total_pnl (last_price : Price.t) (p : t) : decimal.Decimal :=
  decimal.add (realized_pnl p) (unrealized_pnl last_price p).

Definition notional_value (last_price : Price.t) (p : t) : decimal.Decimal :=
  decimal.mul (decimal.abs (signed_qty p)) (Price.value last_price).

End Position.

(** ** account *)

Module Account.

(** The leverage of a MarginAccount is stored and never read; it is left
    out. *)
Record t := mk {
  id : AccountId;
  account_type : AccountType;
  base_currency : Currency.t;
  balances : gmap Currency.t AccountBalance.t;
  commissions : gmap Currency.t decimal.Decimal }.

Definition set_balances (x : gmap Currency.t AccountBalance.t) (a : t) : t :=
  mk (id a) (account_type a) (base_currency a) x (commissions a).
Definition set_commissions (x : gmap Currency.t decimal.Decimal) (a : t) : t :=
  mk (id a) (account_type a) (base_currency a) (balances a) x.

Definition balance_total (currency : option Currency.t) (a : t) : option Money.t :=
  let c := default (base_currency a) currency in
  AccountBalance.total <$> balances a !! c.

Definition balance_free (currency : option Currency.t) (a : t) : option Money.t :=
  let c := default (base_currency a) currency in
  AccountBalance.free <$> balances a !! c.

Definition update_balance (currency : Currency.t) (total locked : decimal.Decimal)
    : M t unit :=
  let free := decimal.sub total locked in
  mt ← lift (Money.new total currency);
  ml ← lift (Money.new locked currency);
  mf ← lift (Money.new free currency);
  bal ← lift (AccountBalance.new mt ml mf);
  self ← get;
  modify (set_balances (<[currency := bal]> (balances self))).

Definition update_commissions (currency : Currency.t) (amount : decimal.Decimal)
    : M t unit :=
  self ← get;
  modify (set_commissions
            (<[currency := decimal.add
                             (default decimal.zero (commissions self !! currency))
                             amount]> (commissions self))).

End Account.

(** ** instruments *)

Module Instrument.
Record t := mk {
  id : InstrumentId.t;
  price_precision : Z;
  size_precision : Z;
  taker_fee : decimal.Decimal;
  min_quantity : option Quantity.t;
  max_quantity : option Quantity.t }.
End Instrument.

(** ** data *)

Module Bar.
Record t := mk {
  instrument_id : InstrumentId.t;   (* bar_type.instrument_id *)
  open : Price.t;
  high : Price.t;
  low : Price.t;
  close : Price.t;
  volume : Quantity.t;
  ts_event : Z;
  ts_init : Z }.
End Bar.

Module QuoteTick.
Record t := mk { instrument_id : InstrumentId.t; ts_event : Z; ts_init : Z }.
End QuoteTick.

Module TradeTick.
Record t := mk { instrument_id : InstrumentId.t; ts_event : Z; ts_init : Z }.
End TradeTick.

(** ** cache *)

(** Order objects are shared between the strategy that created them, the
    cache and the exchange on which they rest: they live in a heap and are
    referred to by location. *)
Abbreviation loc := positive (only parsing).

Module Cache.

(** Dictionaries keyed by an InstrumentId are keyed by its string value.  A
    Position object is reachable through [_positions] only, under its own
    id, so the dictionary holds it by value.  Accounts, bars and ticks are
    stored by the engine and read by no modelled code; they are left out. *)
Record t := mk {
  _instruments : gmap string Instrument.t;
  _orders : gmap ClientOrderId loc;
  _positions : gmap PositionId Position.t;
  _orders_by_venue : gmap Venue (list ClientOrderId);
  _orders_by_strategy : gmap StrategyId (list ClientOrderId);
  _orders_by_instrument : gmap string (list ClientOrderId);
  _positions_by_venue : gmap Venue (list PositionId);
  _positions_by_strategy : gmap StrategyId (list PositionId);
  _positions_by_instrument : gmap string (list PositionId) }.

Definition empty : t := mk ∅ ∅ ∅ ∅ ∅ ∅ ∅ ∅ ∅.

Definition set_instruments (x : gmap string Instrument.t) (c : t) : t :=
  mk x (_orders c) (_positions c) (_orders_by_venue c) (_orders_by_strategy c)
     (_orders_by_instrument c) (_positions_by_venue c)
     (_positions_by_strategy c) (_positions_by_instrument c).
Definition set_orders (x : gmap ClientOrderId loc) (c : t) : t :=
  mk (_instruments c) x (_positions c) (_orders_by_venue c)
     (_orders_by_strategy c) (_orders_by_instrument c) (_positions_by_venue c)
     (_positions_by_strategy c) (_positions_by_instrument c).
Definition set_positions (x : gmap PositionId Position.t) (c : t) : t :=
  mk (_instruments c) (_orders c) x (_orders_by_venue c)
     (_orders_by_strategy c) (_orders_by_instrument c) (_positions_by_venue c)
     (_positions_by_strategy c) (_positions_by_instrument c).
Definition set_orders_by_venue (x : gmap Venue (list ClientOrderId)) (c : t) : t :=
  mk (_instruments c) (_orders c) (_positions c) x
     (_orders_by_strategy c) (_orders_by_instrument c) (_positions_by_venue c)
     (_positions_by_strategy c) (_positions_by_instrument c).
Definition set_orders_by_strategy (x : gmap StrategyId (list ClientOrderId))
    (c : t) : t :=
  mk (_instruments c) (_orders c) (_positions c) (_orders_by_venue c)
     x (_orders_by_instrument c) (_positions_by_venue c)
     (_positions_by_strategy c) (_positions_by_instrument c).
Definition set_orders_by_instrument (x : gmap string (list ClientOrderId))
    (c : t) : t :=
  mk (_instruments c) (_orders c) (_positions c) (_orders_by_venue c)
     (_orders_by_strategy c) x (_positions_by_venue c)
     (_positions_by_strategy c) (_positions_by_instrument c).
Definition set_positions_by_venue (x : gmap Venue (list PositionId)) (c : t) : t :=
  mk (_instruments c) (_orders c) (_positions c) (_orders_by_venue c)
     (_orders_by_strategy c) (_orders_by_instrument c) x
     (_positions_by_strategy c) (_positions_by_instrument c).
Definition set_positions_by_strategy (x : gmap StrategyId (list PositionId))
    (c : t) : t :=
  mk (_instruments c) (_orders c) (_positions c) (_orders_by_venue c)
     (_orders_by_strategy c) (_orders_by_instrument c) (_positions_by_venue c)
     x (_positions_by_instrument c).
Definition set_positions_by_instrument (x : gmap string (list PositionId))
    (c : t) : t :=
  mk (_instruments c) (_orders c) (_positions c) (_orders_by_venue c)
     (_orders_by_strategy c) (_orders_by_instrument c) (_positions_by_venue c)
     (_positions_by_strategy c) x.

(** d.setdefault(k, []).append(x) *)
Definition setdefault_append {A} (k : string) (x : A)
    (d : gmap string (list A)) : gmap string (list A) :=
  <[k := default [] (d !! k) ++ [x]]> d.

Definition add_instrument (i : Instrument.t) (c : t) : t :=
  set_instruments (<[InstrumentId.value (Instrument.id i) := i]> (_instruments c)) c.

Definition instrument (instrument_id : InstrumentId.t) (c : t)
    : option Instrument.t :=
  _instruments c !! InstrumentId.value instrument_id.

(** add_order(order), for the order object [order] at location [l] *)
Definition add_order (l : loc) (order : Order.t) (c : t) : t :=
  let oid := Order.client_order_id order in
  let c := set_orders (<[oid := l]> (_orders c)) c in
  let venue := InstrumentId.venue (Order.instrument_id order) in
  let c := set_orders_by_venue (setdefault_append venue oid (_orders_by_venue c)) c in
  let c := match Order.strategy_id order with
           | Some s =>
               set_orders_by_strategy
                 (setdefault_append s oid (_orders_by_strategy c)) c
           | None => c
           end in
  set_orders_by_instrument
    (setdefault_append (InstrumentId.value (Order.instrument_id order)) oid
                       (_orders_by_instrument c)) c.

Definition update_order (l : loc) (order : Order.t) (c : t) : t :=
  set_orders (<[Order.client_order_id order := l]> (_orders c)) c.

Definition order (client_order_id : ClientOrderId) (c : t) : option loc :=
  _orders c !! client_order_id.

(** [self._orders[oid] for oid in ids if oid in self._orders] *)
Definition orders_of_ids (ids : list ClientOrderId) (c : t) : list loc :=
  omap (λ oid, _orders c !! oid) ids.

(** Cache.orders; without a filter the order objects come in the order of
    the dictionary, which the finite map does not keep. *)
Definition orders (instrument_id : option InstrumentId.t)
    (strategy_id : option StrategyId) (c : t) : list loc :=
  match instrument_id with
  | Some i =>
      orders_of_ids (default [] (_orders_by_instrument c !! InstrumentId.value i)) c
  | None =>
      match strategy_id with
      | Some s => orders_of_ids (default [] (_orders_by_strategy c !! s)) c
      | None => (map_to_list (_orders c)).*2
      end
  end.

Definition orders_for_venue (venue : Venue) (c : t) : list loc :=
  orders_of_ids (default [] (_orders_by_venue c !! venue)) c.

Definition add_position (p : Position.t) (c : t) : t :=
  let pid := Position.id p in
  let c := set_positions (<[pid := p]> (_positions c)) c in
  let venue := InstrumentId.venue (Position.instrument_id p) in
  let c := set_positions_by_venue
             (setdefault_append venue pid (_positions_by_venue c)) c in
  let c := match Position.strategy_id p with
           | Some s =>
               set_positions_by_strategy
                 (setdefault_append s pid (_positions_by_strategy c)) c
           | None => c
           end in
  set_positions_by_instrument
    (setdefault_append (InstrumentId.value (Position.instrument_id p)) pid
                       (_positions_by_instrument c)) c.

Definition update_position (p : Position.t) (c : t) : t :=
  set_positions (<[Position.id p := p]> (_positions c)) c.

Definition position (position_id : PositionId) (c : t) : option Position.t :=
  _positions c !! position_id.

(** The position objects of a query, each with the key it is stored under. *)
Definition positions_of_ids (ids : list PositionId) (c : t)
    : list (PositionId * Position.t) :=
  omap (λ pid, (λ p, (pid, p)) <$> _positions c !! pid) ids.

Definition positions (instrument_id : option InstrumentId.t)
    (strategy_id : option StrategyId) (c : t) : list (PositionId * Position.t) :=
  match instrument_id with
  | Some i =>
      positions_of_ids
        (default [] (_positions_by_instrument c !! InstrumentId.value i)) c
  | None =>
      match strategy_id with
      | Some s => positions_of_ids (default [] (_positions_by_strategy c !! s)) c
      | None => map_to_list (_positions c)
      end
  end.

Definition positions_open (instrument_id : option InstrumentId.t)
    (strategy_id : option StrategyId) (c : t) : list (PositionId * Position.t) :=
  filter (λ kp, Position.is_open kp.2 = true) (positions instrument_id strategy_id c).

End Cache.

(** ** portfolio *)

Module Portfolio.

(** Portfolio.net_position *)
Definition net_position (instrument_id : InstrumentId.t) (c : Cache.t)
    : decimal.Decimal :=
  foldl (λ total kp, decimal.add total (Position.signed_qty kp.2))
        decimal.zero (Cache.positions_open (Some instrument_id) None c).

End Portfolio.

(** ** risk_engine *)

Module RiskEngine.

Record t := mk { trading_state : TradingState }.

Definition deny (order : Order.t) (reason : string) : OrderDenied.t :=
  OrderDenied.mk (Order.strategy_id order) (Order.instrument_id order)
                 (Order.client_order_id order) reason 0 0.

(** str() of a Quantity is the str() of its value *)
Definition qty_str (q : Quantity.t) : string := decimal.__str__ (Quantity.value q).

(** RiskEngine.validate_order, on the cache the engine shares with the
    execution engine *)
Definition validate_order (self : t) (c : Cache.t) (order : Order.t)
    : option OrderDenied.t :=
  if bool_decide (trading_state self = HALTED) then
    Some (deny order "Trading is HALTED")
  else
  match Cache.instrument (Order.instrument_id order) c with
  | None =>
      Some (deny order ("No instrument found for "
                        +:+ InstrumentId.value (Order.instrument_id order)))
  | Some instrument =>
  if bool_decide (Quantity.precision (Order.quantity order)
                  ≠ Instrument.size_precision instrument) then
    Some (deny order ("Invalid quantity precision "
                      +:+ pretty (Quantity.precision (Order.quantity order))
                      +:+ ", expected "
                      +:+ pretty (Instrument.size_precision instrument)))
  else
  match
    (match Instrument.min_quantity instrument with
     | Some m =>
         if Quantity.bool m && Quantity.lt (Order.quantity order) m
         then Some (deny order ("Quantity " +:+ qty_str (Order.quantity order)
                                +:+ " below minimum " +:+ qty_str m))
         else None
     | None => None
     end)
  with
  | Some d => Some d
  | None =>
  match
    (match Instrument.max_quantity instrument with
     | Some m =>
         if Quantity.bool m && Quantity.gt (Order.quantity order) m
         then Some (deny order ("Quantity " +:+ qty_str (Order.quantity order)
                                +:+ " above maximum " +:+ qty_str m))
         else None
     | None => None
     end)
  with
  | Some d => Some d
  | None =>
  match
    (match Order.price order with
     | Some p =>
         if decimal.leb (Price.value p) decimal.zero
         then Some (deny order "Price must be positive")
         else if bool_decide (Price.precision p
                              ≠ Instrument.price_precision instrument)
         then Some (deny order ("Invalid price precision "
                                +:+ pretty (Price.precision p) +:+ ", expected "
                                +:+ pretty (Instrument.price_precision instrument)))
         else None
     | None => None
     end)
  with
  | Some d => Some d
  | None =>
  if bool_decide (trading_state self = REDUCING) then
    let net := Portfolio.net_position (Order.instrument_id order) c in
    if (bool_decide (Order.side order = BUY) && decimal.geb net decimal.zero)
       || (bool_decide (Order.side order = SELL) && decimal.leb net decimal.zero)
    then Some (deny order "Trading state is REDUCING, only reducing orders allowed")
    else None
  else None
  end end end end.

End RiskEngine.

(** ** msgbus *)

(** What the execution engine publishes on the bus.  A publication is
    recorded in the log of the bus, in publishing order. *)
Inductive Message :=
| MsgOrderEvent (e : OrderEvent)
| MsgPositionOpened (e : PositionOpened.t)
| MsgPositionChanged (e : PositionChanged.t)
| MsgPositionClosed (e : PositionClosed.t).

(** The subscriptions of the bus.  A handler is a callable; the bus compares
    handlers with ==. *)
Module MessageBus.
Section Handlers.
Context {Callable : Type} `{EqDecision Callable}.

(** _subscriptions, a defaultdict(list) *)
Abbreviation t := (gmap string (list Callable)) (only parsing).

Definition __init__ : t := ∅.

(** list.remove: the first occurrence *)
Fixpoint list_remove (h : Callable) (l : list Callable) : list Callable :=
  match l with
  | [] => []
  | x :: rest => if bool_decide (x = h) then rest else x :: list_remove h rest
  end.

(** MessageBus.subscribe: the lookup in the defaultdict creates the entry
    of the topic. *)
Definition subscribe (topic : string) (handler : Callable) (self : t) : t :=
  let subs := default [] (self !! topic) in
  if bool_decide (handler ∉ subs)
  then <[topic := subs ++ [handler]]> self
  else <[topic := subs]> self.

(** MessageBus.unsubscribe *)
Definition unsubscribe (topic : string) (handler : Callable) (self : t) : t :=
  match self !! topic with
  | Some subs =>
      if bool_decide (handler ∈ subs)
      then <[topic := list_remove handler subs]> self
      else self
  | None => self
  end.

(** MessageBus.subscriptions *)
Definition subscriptions (topic : string) (self : t) : list Callable :=
  default [] (self !! topic).

(** MessageBus.has_subscribers *)
Definition has_subscribers (topic : string) (self : t) : bool :=
  match self !! topic with
  | Some (_ :: _) => true
  | _ => false
  end.

End Handlers.
End MessageBus.

(** ** clock *)

Module Timer.
Record t (Callable : Type) := mk {
  name : string;
  callback : Callable;
  interval_ns : Z;
  start_time_ns : Z;
  next_time_ns : Z;
  stop_time_ns : option Z }.
Arguments mk {Callable} _ _ _ _ _ _.
Arguments name {Callable} _.
Arguments callback {Callable} _.
Arguments interval_ns {Callable} _.
Arguments start_time_ns {Callable} _.
Arguments next_time_ns {Callable} _.
Arguments stop_time_ns {Callable} _.
Definition set_next_time_ns {Callable} (x : Z) (timer : t Callable) : t Callable :=
  mk (name timer) (callback timer) (interval_ns timer) (start_time_ns timer) x
     (stop_time_ns timer).
End Timer.

Module TimeEvent.
Record t (Callable : Type) := mk {
  name : string;
  ts_event : Z;
  ts_init : Z;
  callback : option Callable }.
Arguments mk {Callable} _ _ _ _.
Arguments name {Callable} _.
Arguments ts_event {Callable} _.
Arguments ts_init {Callable} _.
Arguments callback {Callable} _.
End TimeEvent.

Module TestClock.
Section Callbacks.
Context {Callable : Type}.

(** _timers is a dict, which keeps its keys in insertion order: a list of
    items with distinct keys. *)
Record t := mk { _timers : list (string * Timer.t Callable); _time_ns : Z }.

(** d[k] = v *)
Fixpoint dict_set {A} (k : string) (v : A) (d : list (string * A))
    : list (string * A) :=
  match d with
  | [] => [(k, v)]
  | (k', v') :: rest =>
      if bool_decide (k' = k) then (k, v) :: rest
      else (k', v') :: dict_set k v rest
  end.

(** d.pop(k, None) *)
Definition dict_pop {A} (k : string) (d : list (string * A)) : list (string * A) :=
  filter (λ kv, kv.1 ≠ k) d.

Definition __init__ (initial_ns : Z) : t := mk [] initial_ns.

Definition timestamp_ns (self : t) : Z := _time_ns self.

(** Clock.set_timer; [start_time_ns or self.timestamp_ns] takes the clock's
    time for a start time of None and of 0. *)
Definition set_timer (name : string) (interval_ns : Z) (callback : Callable)
    (start_time_ns stop_time_ns : option Z) (self : t) : t :=
  let start :=
    match start_time_ns with
    | Some s => if s =? 0 then timestamp_ns self else s
    | None => timestamp_ns self
    end in
  mk (dict_set name
        (Timer.mk name callback interval_ns start (start + interval_ns)
                  stop_time_ns)
        (_timers self))
     (_time_ns self).

Definition cancel_timer (name : string) (self : t) : t :=
  mk (dict_pop name (_timers self)) (_time_ns self).

Definition timer_names (self : t) : list string := (_timers self).*1.

Definition set_time (time_ns : Z) (self : t) : t := mk (_timers self) time_ns.

(** The while loop of advance_time over one timer.  It returns the timer,
    the events and whether the timer has expired; None when the fuel runs
    out, that is when the loop is still running after [fuel] events. *)
Fixpoint fire (fuel : nat) (to_time_ns : Z) (timer : Timer.t Callable)
    (events : list (TimeEvent.t Callable))
    : option (Timer.t Callable * list (TimeEvent.t Callable) * bool) :=
  if negb (Timer.next_time_ns timer <=? to_time_ns)
  then Some (timer, events, false)
  else if match Timer.stop_time_ns timer with
          | Some stop => stop <? Timer.next_time_ns timer
          | None => false
          end
  then Some (timer, events, true)
  else
    match fuel with
    | O => None
    | S fuel =>
        let event := TimeEvent.mk (Timer.name timer) (Timer.next_time_ns timer)
                       (Timer.next_time_ns timer) (Some (Timer.callback timer)) in
        fire fuel to_time_ns
          (Timer.set_next_time_ns
             (Timer.next_time_ns timer + Timer.interval_ns timer) timer)
          (events ++ [event])
    end.

(** The for loop of advance_time over the items of _timers. *)
Fixpoint fire_timers (fuel : nat) (to_time_ns : Z)
    (timers : list (string * Timer.t Callable))
    (events : list (TimeEvent.t Callable)) (expired : list string)
    : option (list (string * Timer.t Callable)
              * list (TimeEvent.t Callable) * list string) :=
  match timers with
  | [] => Some ([], events, expired)
  | (name, timer) :: rest =>
      match fire fuel to_time_ns timer events with
      | None => None
      | Some (timer, events, is_expired) =>
          match fire_timers fuel to_time_ns rest events
                  (if is_expired then expired ++ [name] else expired) with
          | None => None
          | Some (rest, events, expired) =>
              Some ((name, timer) :: rest, events, expired)
          end
      end
  end.

(** events.sort(key=lambda e: e.ts_event): a stable sort. *)
Fixpoint insert_event (e : TimeEvent.t Callable)
    (sorted : list (TimeEvent.t Callable)) : list (TimeEvent.t Callable) :=
  match sorted with
  | [] => [e]
  | x :: rest =>
      if TimeEvent.ts_event e <=? TimeEvent.ts_event x then e :: x :: rest
      else x :: insert_event e rest
  end.

Definition sort_events (events : list (TimeEvent.t Callable))
    : list (TimeEvent.t Callable) :=
  foldr insert_event [] events.

(** TestClock.advance_time *)
Definition advance_time (fuel : nat) (to_time_ns : Z) (self : t)
    : option (t * list (TimeEvent.t Callable)) :=
  match fire_timers fuel to_time_ns (_timers self) [] [] with
  | None => None
  | Some (timers, events, expired) =>
      Some (mk (foldl (λ d name, dict_pop name d) timers expired) to_time_ns,
            sort_events events)
  end.

End Callbacks.
Arguments t : clear implicits.
End TestClock.

(** ** backtest/exchange: the state of a SimulatedExchange *)

Module SimulatedExchange.

(** [has_exec_engine] says whether _exec_engine is set; when it is, it is the
    execution engine of the world the exchange lives in. *)
Record t := mk {
  venue : Venue;
  oms_type : OmsType;
  account_type : AccountType;
  base_currency : Currency.t;
  account : Account.t;
  has_exec_engine : bool;
  _instruments : gmap string Instrument.t;
  _open_orders : list loc;
  _venue_order_counter : Z;
  _trade_counter : Z }.

Definition set_account (x : Account.t) (e : t) : t :=
  mk (venue e) (oms_type e) (account_type e) (base_currency e) x
     (has_exec_engine e) (_instruments e) (_open_orders e)
     (_venue_order_counter e) (_trade_counter e).
Definition set_instruments (x : gmap string Instrument.t) (e : t) : t :=
  mk (venue e) (oms_type e) (account_type e) (base_currency e) (account e)
     (has_exec_engine e) x (_open_orders e)
     (_venue_order_counter e) (_trade_counter e).
Definition set_open_orders (x : list loc) (e : t) : t :=
  mk (venue e) (oms_type e) (account_type e) (base_currency e) (account e)
     (has_exec_engine e) (_instruments e) x
     (_venue_order_counter e) (_trade_counter e).
Definition set_venue_order_counter (x : Z) (e : t) : t :=
  mk (venue e) (oms_type e) (account_type e) (base_currency e) (account e)
     (has_exec_engine e) (_instruments e) (_open_orders e)
     x (_trade_counter e).
Definition set_trade_counter (x : Z) (e : t) : t :=
  mk (venue e) (oms_type e) (account_type e) (base_currency e) (account e)
     (has_exec_engine e) (_instruments e) (_open_orders e)
     (_venue_order_counter e) x.

(** The loop of __init__ over the starting balances. *)
Fixpoint set_starting_balances (l : list Money.t) : M Account.t unit :=
  match l with
  | [] => skip
  | money :: rest =>
      Account.update_balance (Money.currency money) (Money.amount money)
                             decimal.zero;;
      set_starting_balances rest
  end.

(** SimulatedExchange.__init__ *)
Definition __init__ (venue : Venue) (oms_type : OmsType)
    (account_type : AccountType) (base_currency : Currency.t)
    (starting_balances : list Money.t) (exec_engine : bool) : Result t :=
  let account_id := venue +:+ "-001" in
  match set_starting_balances starting_balances
          (Account.mk account_id account_type base_currency ∅ ∅) with
  | (acc, Ok _) =>
      Ok (mk venue oms_type account_type base_currency acc exec_engine ∅ [] 0 0)
  | (_, Raise e) => Raise e
  end.

Definition add_instrument (i : Instrument.t) (e : t) : t :=
  set_instruments (<[InstrumentId.value (Instrument.id i) := i]> (_instruments e)) e.

(** SimulatedExchange._check_fill *)
Definition _check_fill (self : t) (order : Order.t) (bar : Bar.t)
    : Result (option Price.t) :=
  let instrument := _instruments self !! InstrumentId.value (Order.instrument_id order) in
  let price_prec :=
    match instrument with
    | Some i => Instrument.price_precision i
    | None => Price.precision (Bar.open bar)
    end in
  let open := Price.value (Bar.open bar) in
  match Order.order_type order with
  | MARKET => Ok (Some (Bar.open bar))
  | LIMIT =>
      match Order.price order with
      | None => Raise (AttributeError "price")
      | Some limit_px =>
          if bool_decide (Order.side order = BUY) then
            if Price.le (Bar.low bar) limit_px
            then Some <$> Price.new (decimal.min (Price.value limit_px) open) price_prec
            else Ok None
          else
            if Price.ge (Bar.high bar) limit_px
            then Some <$> Price.new (decimal.max (Price.value limit_px) open) price_prec
            else Ok None
      end
  | STOP_MARKET =>
      match Order.trigger_price order with
      | None => Raise (AttributeError "trigger_price")
      | Some trigger_px =>
          if bool_decide (Order.side order = BUY) then
            if Price.ge (Bar.high bar) trigger_px
            then Some <$> Price.new (decimal.max (Price.value trigger_px) open) price_prec
            else Ok None
          else
            if Price.le (Bar.low bar) trigger_px
            then Some <$> Price.new (decimal.min (Price.value trigger_px) open) price_prec
            else Ok None
      end
  | STOP_LIMIT =>
      match Order.trigger_price order with
      | None => Raise (AttributeError "trigger_price")
      | Some trigger_px =>
          match Order.price order with
          | None => Raise (AttributeError "price")
          | Some limit_px =>
              if bool_decide (Order.side order = BUY) then
                if Price.ge (Bar.high bar) trigger_px then
                  if Price.le (Bar.low bar) limit_px
                  then Some <$> Price.new
                         (decimal.min (Price.value limit_px)
                                      (decimal.max (Price.value trigger_px) open))
                         price_prec
                  else Ok None
                else Ok None
              else
                if Price.le (Bar.low bar) trigger_px then
                  if Price.ge (Bar.high bar) limit_px
                  then Some <$> Price.new
                         (decimal.max (Price.value limit_px)
                                      (decimal.min (Price.value trigger_px) open))
                         price_prec
                  else Ok None
                else Ok None
          end
      end
  end.

End SimulatedExchange.

(** ** The world of one execution engine

    The objects that BacktestEngine.__init__ wires together: the order heap,
    the cache shared by the risk and the execution engine, the risk engine
    (absent when the execution engine was built without one), the execution
    engine's own attributes, the exchanges it routes to (the objects are the
    ones in BacktestEngine._exchanges, under the same venues) and the log of
    the message bus. *)
Record World := mkWorld {
  heap : gmap loc Order.t;
  cache : Cache.t;
  risk_engine : option RiskEngine.t;
  _venues : gmap Venue SimulatedExchange.t;
  _oms_types : gmap Venue OmsType;
  _position_counter : Z;
  published : list (string * Message) }.

Definition set_heap (x : gmap loc Order.t) (w : World) : World :=
  mkWorld x (cache w) (risk_engine w) (_venues w) (_oms_types w)
          (_position_counter w) (published w).
Definition set_cache (x : Cache.t) (w : World) : World :=
  mkWorld (heap w) x (risk_engine w) (_venues w) (_oms_types w)
          (_position_counter w) (published w).
Definition set_venues (x : gmap Venue SimulatedExchange.t) (w : World) : World :=
  mkWorld (heap w) (cache w) (risk_engine w) x (_oms_types w)
          (_position_counter w) (published w).
Definition set_oms_types (x : gmap Venue OmsType) (w : World) : World :=
  mkWorld (heap w) (cache w) (risk_engine w) (_venues w) x
          (_position_counter w) (published w).
Definition set_position_counter (x : Z) (w : World) : World :=
  mkWorld (heap w) (cache w) (risk_engine w) (_venues w) (_oms_types w)
          x (published w).
Definition set_published (x : list (string * Message)) (w : World) : World :=
  mkWorld (heap w) (cache w) (risk_engine w) (_venues w) (_oms_types w)
          (_position_counter w) x.

(** Reading the attributes of the order object at a location. *)
Definition deref (l : loc) : M World Order.t :=
  w ← get;
  match heap w !! l with
  | Some o => mret o
  | None => raise (ReferenceError "order")
  end.

(** order.apply(event) on the order object at a location: the object keeps
    what the call did to it also when the call raises. *)
Definition order_apply (l : loc) (event : OrderEvent) : M World unit :=
  λ w, match heap w !! l with
       | Some o =>
           let '(o', r) := Order.apply event o in
           (set_heap (<[l := o']> (heap w)) w, r)
       | None => (w, Raise (ReferenceError "order"))
       end.

(** position.apply(event) on the position object stored under a key. *)
Definition position_apply (pid : PositionId) (fill : OrderFilled.t)
    : M World Position.t :=
  λ w, match Cache._positions (cache w) !! pid with
       | Some p =>
           let '(p', r) := Position.apply fill p in
           (set_cache (Cache.set_positions (<[pid := p']> (Cache._positions (cache w)))
                                           (cache w)) w,
            match r with Ok _ => Ok p' | Raise e => Raise e end)
       | None => (w, Raise (ReferenceError "position"))
       end.

Definition modify_cache (f : Cache.t → Cache.t) : M World unit :=
  modify (λ w, set_cache (f (cache w)) w).

(** The exchange object registered under a venue, as the [self] of its
    methods. *)
Definition get_exchange (v : Venue) : M World SimulatedExchange.t :=
  w ← get;
  match _venues w !! v with
  | Some e => mret e
  | None => raise (ReferenceError "exchange")
  end.

Definition modify_exchange (v : Venue)
    (f : SimulatedExchange.t → SimulatedExchange.t) : M World unit :=
  self ← get_exchange v;
  modify (λ w, set_venues (<[v := f self]> (_venues w)) w).

(** A method of the exchange's account run on the exchange under a venue. *)
Definition on_account {A} (v : Venue) (m : M Account.t A) : M World A :=
  self ← get_exchange v;
  let '(acc, r) := m (SimulatedExchange.account self) in
  modify_exchange v (SimulatedExchange.set_account acc);;
  lift r.

(** MessageBus.publish on a bus whose handlers leave the engine alone: the
    publication is recorded, and the calls of the handlers change nothing
    of the world.  [Live.MessageBus.publish] below calls the handlers. *)
Definition publish (topic : string) (msg : Message) : M World unit :=
  modify (λ w, set_published (published w ++ [(topic, msg)]) w).

(** str() of an optional strategy id inside an f-string *)
Definition strategy_str (s : option StrategyId) : string := default "None" s.

Definition order_topic (order : Order.t) : string :=
  "events.order." +:+ strategy_str (Order.strategy_id order).

Definition position_topic (order : Order.t) : string :=
  "events.position." +:+ strategy_str (Order.strategy_id order).

(** ** execution_engine *)

Module ExecutionEngine.

Definition register_venue (venue : Venue) (exchange : SimulatedExchange.t)
    (oms_type : OmsType) : M World unit :=
  modify (λ w, set_oms_types (<[venue := oms_type]> (_oms_types w))
                 (set_venues (<[venue := exchange]> (_venues w)) w)).

Definition _handle_order_event (event : OrderEvent) : M World unit :=
  w ← get;
  match Cache.order (event_client_order_id event) (cache w) with
  | None => skip
  | Some l =>
      order_apply l event;;
      order ← deref l;
      modify_cache (Cache.update_order l order);;
      publish (order_topic order) (MsgOrderEvent event)
  end.

(** The tail shared by the three places that apply a fill to an existing
    position: update the cache, publish PositionClosed or PositionChanged. *)
Definition publish_position_update (event : OrderFilled.t) (order : Order.t)
    (position : Position.t) : M World unit :=
  modify_cache (Cache.update_position position);;
  if Position.is_closed position then
    publish (position_topic order)
      (MsgPositionClosed
         (PositionClosed.mk (OrderFilled.strategy_id event)
            (Order.instrument_id order) (Position.id position)
            (OrderFilled.ts_event event)))
  else
    publish (position_topic order)
      (MsgPositionChanged
         (PositionChanged.mk (OrderFilled.strategy_id event)
            (Order.instrument_id order) (Position.id position)
            (Position.side position) (Position.signed_qty position)
            (OrderFilled.ts_event event))).

Definition _open_position (event : OrderFilled.t) (order : Order.t)
    : M World unit :=
  w ← get;
  let counter := _position_counter w + 1 in
  modify (set_position_counter counter);;
  let position_id := "P-" +:+ pretty counter in
  position ← lift (Position.__init__ (Order.instrument_id order) position_id event);
  modify_cache (Cache.add_position position);;
  publish (position_topic order)
    (MsgPositionOpened
       (PositionOpened.mk (OrderFilled.strategy_id event)
          (Order.instrument_id order) position_id (Position.side position)
          (Position.signed_qty position) (Position.quantity position)
          (Position.avg_px_open position) (OrderFilled.last_px event)
          (OrderFilled.ts_event event))).

(** Apply the fill to the first open position of the instrument, or open a
    position: the body of _handle_fill_netting and the fallback of
    _handle_fill_hedging. *)
Definition fill_first_open_position (event : OrderFilled.t) (order : Order.t)
    : M World unit :=
  w ← get;
  match Cache.positions_open (Some (Order.instrument_id order)) None (cache w) with
  | (pid, _) :: _ =>
      position ← position_apply pid event;
      publish_position_update event order position
  | [] => _open_position event order
  end.

Definition _handle_fill_netting (event : OrderFilled.t) (order : Order.t)
    : M World unit :=
  fill_first_open_position event order.

Definition _handle_fill_hedging (event : OrderFilled.t) (order : Order.t)
    : M World unit :=
  w ← get;
  match OrderFilled.position_id event with
  | Some pid =>
      match Cache.position pid (cache w) with
      | Some _ =>
          position ← position_apply pid event;
          publish_position_update event order position
      | None => fill_first_open_position event order
      end
  | None => fill_first_open_position event order
  end.

Definition _handle_fill (event : OrderFilled.t) : M World unit :=
  w ← get;
  match Cache.order (OrderFilled.client_order_id event) (cache w) with
  | None => skip
  | Some l =>
      order_apply l (EvFilled event);;
      order ← deref l;
      modify_cache (Cache.update_order l order);;
      publish (order_topic order) (MsgOrderEvent (EvFilled event));;
      let venue := InstrumentId.venue (Order.instrument_id order) in
      w ← get;
      let oms_type := default HEDGING (_oms_types w !! venue) in
      if bool_decide (oms_type = NETTING)
      then _handle_fill_netting event order
      else _handle_fill_hedging event order
  end.

(** ExecutionEngine.process_event *)
Definition process_event (event : OrderEvent) : M World unit :=
  match event with
  | EvFilled e => _handle_fill e
  | EvAccepted _ | EvRejected _ | EvCanceled _ => _handle_order_event event
  | _ => skip
  end.

End ExecutionEngine.

(** ** backtest/exchange: the methods that call back into the execution
    engine, on the exchange registered under venue [v] *)

Module Exchange.

Import SimulatedExchange.

Definition call_exec_engine (v : Venue) (event : OrderEvent) : M World unit :=
  self ← get_exchange v;
  if has_exec_engine self then ExecutionEngine.process_event event else skip.

(** SimulatedExchange.process_order *)
Definition process_order (v : Venue) (l : loc) : M World unit :=
  order ← deref l;
  self ← get_exchange v;
  let counter := _venue_order_counter self + 1 in
  modify_exchange v (set_venue_order_counter counter);;
  let venue_order_id := "V-" +:+ venue self +:+ "-" +:+ pretty counter in
  let accepted :=
    OrderAccepted.mk (Order.strategy_id order) (Order.instrument_id order)
      (Order.client_order_id order) (Some venue_order_id)
      (Some (Account.id (account self))) (Order.ts_init order)
      (Order.ts_init order) in
  call_exec_engine v (EvAccepted accepted);;
  match Order.order_type order with
  | MARKET => modify_exchange v (λ e, set_open_orders (_open_orders e ++ [l]) e)
  | LIMIT | STOP_MARKET | STOP_LIMIT =>
      modify_exchange v (λ e, set_open_orders (_open_orders e ++ [l]) e)
  end.

(** list.remove: the first occurrence *)
Fixpoint remove_first (l : loc) (ls : list loc) : list loc :=
  match ls with
  | [] => []
  | x :: rest => if bool_decide (x = l) then rest else x :: remove_first l rest
  end.

(** SimulatedExchange.cancel_order *)
Definition cancel_order (v : Venue) (l : loc) : M World unit :=
  order ← deref l;
  self ← get_exchange v;
  if bool_decide (l ∈ _open_orders self) then
    modify_exchange v (λ e, set_open_orders (remove_first l (_open_orders e)) e);;
    call_exec_engine v
      (EvCanceled (OrderCanceled.mk (Order.client_order_id order)
                     (Order.venue_order_id order) (Order.ts_last order)
                     (Order.ts_last order)))
  else skip.

(** SimulatedExchange.modify_order *)
Definition modify_order (v : Venue) (l : loc) (quantity : option Quantity.t)
    (price trigger_price : option Price.t) : M World unit :=
  order ← deref l;
  call_exec_engine v
    (EvUpdated (OrderUpdated.mk (Order.client_order_id order)
                  (Order.venue_order_id order) quantity price trigger_price
                  (Order.ts_last order) (Order.ts_last order))).

(** SimulatedExchange._fill_order *)
Definition _fill_order (v : Venue) (l : loc) (fill_px : Price.t) (ts_event : Z)
    : M World unit :=
  order ← deref l;
  self ← get_exchange v;
  let instrument := _instruments self !! InstrumentId.value (Order.instrument_id order) in
  let commission_rate :=
    match instrument with
    | Some i => Instrument.taker_fee i
    | None => decimal.zero
    end in
  let fill_qty := Order.leaves_qty order in
  let notional := decimal.mul (Quantity.value fill_qty) (Price.value fill_px) in
  let commission_amount := decimal.mul notional commission_rate in
  commission ← lift (Money.new commission_amount (base_currency self));
  let counter := _trade_counter self + 1 in
  modify_exchange v (set_trade_counter counter);;
  let trade_id := "T-" +:+ venue self +:+ "-" +:+ pretty counter in
  let filled :=
    OrderFilled.mk (Order.strategy_id order) (Order.instrument_id order)
      (Order.client_order_id order) (Order.venue_order_id order)
      (Some (Account.id (account self))) (Some trade_id) None
      (Order.side order) (Order.order_type order) fill_qty fill_px
      (base_currency self) (Some commission) ts_event ts_event in
  (if bool_decide (Order.side order = BUY) then
     let cost := decimal.add notional commission_amount in
     match Account.balance_free (Some (base_currency self)) (account self) with
     | Some current =>
         on_account v (Account.update_balance (base_currency self)
                         (decimal.sub (Money.amount current) cost) decimal.zero)
     | None => skip
     end
   else
     let revenue := decimal.sub notional commission_amount in
     match Account.balance_free (Some (base_currency self)) (account self) with
     | Some current =>
         on_account v (Account.update_balance (base_currency self)
                         (decimal.add (Money.amount current) revenue) decimal.zero)
     | None => skip
     end);;
  on_account v (Account.update_commissions (base_currency self) commission_amount);;
  call_exec_engine v (EvFilled filled).

(** The first loop of process_bar, over the resting orders, while no
    handler changes the list: the loop then walks the list that is there
    when it starts.  [Live.Exchange.match_orders] below walks the list as
    the handlers leave it. *)
Fixpoint match_orders (v : Venue) (bar : Bar.t) (orders : list loc)
    (orders_to_remove : list loc) : M World (list loc) :=
  match orders with
  | [] => mret orders_to_remove
  | l :: rest =>
      order ← deref l;
      if negb (InstrumentId.eqb (Order.instrument_id order) (Bar.instrument_id bar))
      then match_orders v bar rest orders_to_remove
      else if negb (Order.is_open order)
      then match_orders v bar rest (orders_to_remove ++ [l])
      else
        self ← get_exchange v;
        fill_px ← lift (_check_fill self order bar);
        match fill_px with
        | Some px =>
            _fill_order v l px (Bar.ts_event bar);;
            match_orders v bar rest (orders_to_remove ++ [l])
        | None => match_orders v bar rest orders_to_remove
        end
  end.

(** The second loop of process_bar. *)
Definition remove_orders (orders_to_remove : list loc) (open : list loc)
    : list loc :=
  foldl (λ open l, if bool_decide (l ∈ open) then remove_first l open else open)
        open orders_to_remove.

(** SimulatedExchange.process_bar *)
Definition process_bar (v : Venue) (bar : Bar.t) : M World unit :=
  self ← get_exchange v;
  orders_to_remove ← match_orders v bar (_open_orders self) [];
  modify_exchange v (λ e, set_open_orders
                            (remove_orders orders_to_remove (_open_orders e)) e).

End Exchange.

Module ExecutionEngineCommands.

(** ExecutionEngine.submit_order *)
Definition submit_order (l : loc) : M World unit :=
  order ← deref l;
  w ← get;
  match
    (match risk_engine w with
     | Some r => RiskEngine.validate_order r (cache w) order
     | None => None
     end)
  with
  | Some denied =>
      order_apply l (EvDenied denied);;
      modify_cache (Cache.update_order l order);;
      publish (order_topic order) (MsgOrderEvent (EvDenied denied))
  | None =>
      let submitted :=
        OrderSubmitted.mk (Order.strategy_id order) (Order.instrument_id order)
          (Order.client_order_id order) (Order.ts_init order)
          (Order.ts_init order) in
      order_apply l (EvSubmitted submitted);;
      modify_cache (Cache.add_order l order);;
      publish (order_topic order) (MsgOrderEvent (EvSubmitted submitted));;
      let venue := InstrumentId.venue (Order.instrument_id order) in
      w ← get;
      match _venues w !! venue with
      | Some _ => Exchange.process_order venue l
      | None => skip
      end
  end.

(** ExecutionEngine.cancel_order *)
Definition cancel_order (l : loc) : M World unit :=
  order ← deref l;
  let venue := InstrumentId.venue (Order.instrument_id order) in
  w ← get;
  match _venues w !! venue with
  | Some _ => Exchange.cancel_order venue l
  | None => skip
  end.

(** ExecutionEngine.modify_order *)
Definition modify_order (l : loc) (quantity : option Quantity.t)
    (price trigger_price : option Price.t) : M World unit :=
  order ← deref l;
  let venue := InstrumentId.venue (Order.instrument_id order) in
  w ← get;
  match _venues w !! venue with
  | Some _ => Exchange.modify_order venue l quantity price trigger_price
  | None => skip
  end.

End ExecutionEngineCommands.

(** ** backtest/engine *)

Module BacktestEngine.

(** BacktestEngine.__init__: an empty world with a risk engine in the
    ACTIVE trading state. *)
Definition __init__ : World :=
  mkWorld ∅ Cache.empty (Some (RiskEngine.mk ACTIVE)) ∅ ∅ 0 [].

(** BacktestEngine.add_venue.  The base currency is the one given or, by
    the defaulting of add_venue, the currency of the first balance;
    SimulatedExchange declares it a Currency, and an exchange without one is
    outside the model. *)
Definition add_venue (venue_name : Venue) (oms_type : OmsType)
    (account_type : AccountType) (base_currency : Currency.t)
    (starting_balances : list Money.t) : M World unit :=
  exchange ← lift (SimulatedExchange.__init__ venue_name oms_type account_type
                     base_currency starting_balances true);
  ExecutionEngine.register_venue venue_name exchange oms_type.

(** BacktestEngine.add_instrument *)
Definition add_instrument (instrument : Instrument.t) : M World unit :=
  modify_cache (Cache.add_instrument instrument);;
  let venue := InstrumentId.venue (Instrument.id instrument) in
  w ← get;
  match _venues w !! venue with
  | Some _ => modify_exchange venue (SimulatedExchange.add_instrument instrument)
  | None => skip
  end.

Inductive Datum :=
| DBar (b : Bar.t)
| DQuoteTick (q : QuoteTick.t)
| DTradeTick (t : TradeTick.t).

Definition ts_event (d : Datum) : Z :=
  match d with
  | DBar b => Bar.ts_event b
  | DQuoteTick q => QuoteTick.ts_event q
  | DTradeTick t => TradeTick.ts_event t
  end.

(** self._data.sort(key=lambda d: d.ts_event): list.sort is stable, and so
    is this insertion sort. *)
Fixpoint insert_datum (d : Datum) (sorted : list Datum) : list Datum :=
  match sorted with
  | [] => [d]
  | x :: rest =>
      if ts_event d <=? ts_event x then d :: x :: rest
      else x :: insert_datum d rest
  end.

Definition sort (data : list Datum) : list Datum := foldr insert_datum [] data.

(** The two list comprehensions that filter by time range. *)
Definition filter_range (start end_ : option Z) (data : list Datum) : list Datum :=
  let data := match start with
              | Some s => filter (λ d, s ≤ ts_event d) data
              | None => data
              end in
  match end_ with
  | Some e => filter (λ d, ts_event d ≤ e) data
  | None => data
  end.

(** What the event loop calls, on a state [S] that holds everything the
    callees can reach: the world above, the clock, and the strategies with
    their own attributes.  Strategy callbacks and timer callbacks are user
    code; the loop is defined for any of them. *)
Record Components (S : Type) := mkComponents {
  strategies_on_start : M S unit;
  strategies_on_stop : M S unit;
  (** clock.set_time, clock.advance_time and the callbacks of the time
      events *)
  clock_advance : Z → M S unit;
  (** the lookup of the bar's venue in _exchanges and exchange.process_bar *)
  exchange_process_bar : Bar.t → M S unit;
  data_engine_process_bar : Bar.t → M S unit;
  data_engine_process_quote_tick : QuoteTick.t → M S unit;
  data_engine_process_trade_tick : TradeTick.t → M S unit;
  _get_total_balance : S → decimal.Decimal }.
Arguments strategies_on_start {S} _.
Arguments strategies_on_stop {S} _.
Arguments clock_advance {S} _ _.
Arguments exchange_process_bar {S} _ _.
Arguments data_engine_process_bar {S} _ _.
Arguments data_engine_process_quote_tick {S} _ _.
Arguments data_engine_process_trade_tick {S} _ _.
Arguments _get_total_balance {S} _ _.

(** The part of BacktestResult that the loop itself produces; the
    statistics _build_result derives from it and from the cache (Sharpe
    ratio in floating point among them) are not modelled. *)
Record BacktestResult := mkResult {
  start_time_ns : Z;
  end_time_ns : Z;
  starting_balance : decimal.Decimal;
  ending_balance : decimal.Decimal;
  balance_curve : list (Z * decimal.Decimal) }.

Section Run.
Context {S : Type} (c : Components S).

(** What the loop does with one datum; for a bar the balance is recorded
    afterwards. *)
Definition process_datum (datum : Datum) : M S unit :=
  clock_advance c (ts_event datum);;
  match datum with
  | DBar b => exchange_process_bar c b;; data_engine_process_bar c b
  | DQuoteTick q => data_engine_process_quote_tick c q
  | DTradeTick t => data_engine_process_trade_tick c t
  end.

(** The main event loop. *)
Fixpoint event_loop (data : list Datum) (balance_curve : list (Z * decimal.Decimal))
    : M S (list (Z * decimal.Decimal)) :=
  match data with
  | [] => mret balance_curve
  | datum :: rest =>
      process_datum datum;;
      match datum with
      | DBar b =>
          s ← get;
          event_loop rest (balance_curve ++ [(Bar.ts_event b, _get_total_balance c s)])
      | _ => event_loop rest balance_curve
      end
  end.

(** BacktestEngine.run followed by get_result, on the data added so far. *)
Definition run (_data : list Datum) (start end_ : option Z) : M S BacktestResult :=
  let data := filter_range start end_ (sort _data) in
  strategies_on_start c;;
  s ← get;
  let starting_balance := _get_total_balance c s in
  let balance_curve :=
    match data with
    | d :: _ => [(ts_event d, starting_balance)]
    | [] => []
    end in
  balance_curve ← event_loop data balance_curve;
  strategies_on_stop c;;
  s ← get;
  mret (mkResult (default 0 (fst <$> head balance_curve))
                 (default 0 (fst <$> last balance_curve))
                 starting_balance (_get_total_balance c s) balance_curve).

End Run.

(** The components of an engine whose strategies do nothing: the state is
    the world, and a bar reaches the exchange of its venue only. *)
Definition world_total_balance (w : World) : decimal.Decimal :=
  foldl (λ total kv,
           match Account.balance_total
                   (Some (SimulatedExchange.base_currency kv.2))
                   (SimulatedExchange.account kv.2) with
           | Some bal => decimal.add total (Money.amount bal)
           | None => total
           end)
        decimal.zero (map_to_list (_venues w)).

Definition idle_components : Components World :=
  mkComponents World skip skip (λ _, skip)
    (λ bar, w ← get;
            match _venues w !! InstrumentId.venue (Bar.instrument_id bar) with
            | Some _ => Exchange.process_bar
                          (InstrumentId.venue (Bar.instrument_id bar)) bar
            | None => skip
            end)
    (λ _, skip) (λ _, skip) (λ _, skip) world_total_balance.

(** The loop of _build_result that computes the maximum drawdown; the
    state is (max_drawdown, peak). *)
Definition drawdown_step (st : decimal.Decimal * decimal.Decimal)
    (entry : Z * decimal.Decimal) : decimal.Decimal * decimal.Decimal :=
  let '(max_drawdown, peak) := st in
  let bal := entry.2 in
  let peak := if decimal.gtb bal peak then bal else peak in
  let dd := decimal.sub peak bal in
  (if decimal.gtb dd max_drawdown then dd else max_drawdown, peak).

Definition max_drawdown (starting_balance : decimal.Decimal)
    (balance_curve : list (Z * decimal.Decimal)) : decimal.Decimal :=
  (foldl drawdown_step (decimal.zero, starting_balance) balance_curve).1.

End BacktestEngine.

(** ** The engine with its subscribers

    MessageBus.publish calls every handler subscribed to the topic before it
    returns, and a handler is strategy code: while the execution engine or
    an exchange is in the middle of a method, it can submit, cancel and
    modify orders, subscribe, unsubscribe and publish.  The definitions
    above are the engine on a bus whose handlers leave it alone; the ones of
    [Live] run the handlers where the source runs them.  The two loops that
    the source writes over a list that a handler can change, the one of
    MessageBus.publish over the handlers of the topic and the one of
    SimulatedExchange.process_bar over _open_orders, are run as Python's list
    iterator runs them: by an index into the list as it is when the next
    element is asked for. *)

Module Live.

(** A call that may not return: [None] is a computation that has not
    returned when the bound on its loops and nested calls is used up. *)
Definition D (S A : Type) : Type := S → option (S * Result A).

#[global] Instance D_ret {S} : MRet (D S) := λ A a s, Some (s, Ok a).
#[global] Instance D_bind {S} : MBind (D S) := λ A B f m s,
  match m s with
  | Some (s', Ok a) => f a s'
  | Some (s', Raise e) => Some (s', Raise e)
  | None => None
  end.

Definition diverge {S A} : D S A := λ _, None.
Definition get_state {S} : D S S := λ s, Some (s, Ok s).

(** The objects a handler can reach: the world of the execution engine, the
    subscriptions of the bus (the list of a topic is changed in place by
    subscribe and unsubscribe) and [user], whatever the strategies keep for
    themselves. *)
Record State (Callable U : Type) := mkState {
  world : World;
  _subscriptions : gmap string (list Callable);
  user : U }.
Arguments mkState {Callable U} world _subscriptions user.
Arguments world {Callable U} s.
Arguments _subscriptions {Callable U} s.
Arguments user {Callable U} s.

Definition set_world {Callable U} (w : World) (s : State Callable U)
    : State Callable U :=
  mkState w (_subscriptions s) (user s).

(** A step of the engine that calls no handler. *)
Definition on_world {Callable U A} (m : M World A) : D (State Callable U) A :=
  λ s, let '(w, r) := m (world s) in Some (set_world w s, r).

(** What a handler calls back into: the commands of Strategy, which go to
    the execution engine, and the bus. *)
Record Api (Callable U : Type) := mkApi {
  api_submit_order : loc → D (State Callable U) unit;
  api_cancel_order : loc → D (State Callable U) unit;
  api_modify_order : loc → option Quantity.t → option Price.t → option Price.t
                     → D (State Callable U) unit;
  api_publish : string → Message → D (State Callable U) unit }.
Arguments mkApi {Callable U} _ _ _ _.
Arguments api_submit_order {Callable U} a.
Arguments api_cancel_order {Callable U} a.
Arguments api_modify_order {Callable U} a.
Arguments api_publish {Callable U} a.

(** The code of the handlers: what the callable does when the bus calls it
    with a message, given the engine it calls back into. *)
Abbreviation Handlers Callable U :=
  (Callable → Api Callable U → Message → D (State Callable U) unit)
  (only parsing).

Module MessageBus.
Section Handlers.
Context {Callable U : Type}.
Variable handler : Handlers Callable U.
Variable api : Api Callable U.

(** The loop of publish, from the [i]-th handler of the topic on. *)
Fixpoint call_handlers (fuel : nat) (topic : string) (msg : Message) (i : nat)
    : D (State Callable U) unit :=
  match fuel with
  | O => diverge
  | S fuel =>
      s ← get_state;
      match default [] (_subscriptions s !! topic) !! i with
      | None => mret tt
      | Some h =>
          handler h api msg;;
          call_handlers fuel topic msg (S i)
      end
  end.

(** MessageBus.publish: the publication is recorded as by [publish] above;
    _subscriptions.get(topic, []) is the list of the topic, or a new empty
    list when the topic has none. *)
Definition publish (fuel : nat) (topic : string) (msg : Message)
    : D (State Callable U) unit :=
  on_world (publish topic msg);;
  s ← get_state;
  match _subscriptions s !! topic with
  | Some _ => call_handlers fuel topic msg 0
  | None => mret tt
  end.

End Handlers.
End MessageBus.

Module ExecutionEngine.
Section Handlers.
Context {Callable U : Type}.
Variable handler : Handlers Callable U.
Variable api : Api Callable U.
Variable fuel : nat.

Definition _handle_order_event (event : OrderEvent) : D (State Callable U) unit :=
  w ← on_world get;
  match Cache.order (event_client_order_id event) (cache w) with
  | None => mret tt
  | Some l =>
      on_world (order_apply l event);;
      order ← on_world (deref l);
      on_world (modify_cache (Cache.update_order l order));;
      MessageBus.publish handler api fuel (order_topic order) (MsgOrderEvent event)
  end.

Definition publish_position_update (event : OrderFilled.t) (order : Order.t)
    (position : Position.t) : D (State Callable U) unit :=
  on_world (modify_cache (Cache.update_position position));;
  if Position.is_closed position then
    MessageBus.publish handler api fuel (position_topic order)
      (MsgPositionClosed
         (PositionClosed.mk (OrderFilled.strategy_id event)
            (Order.instrument_id order) (Position.id position)
            (OrderFilled.ts_event event)))
  else
    MessageBus.publish handler api fuel (position_topic order)
      (MsgPositionChanged
         (PositionChanged.mk (OrderFilled.strategy_id event)
            (Order.instrument_id order) (Position.id position)
            (Position.side position) (Position.signed_qty position)
            (OrderFilled.ts_event event))).

Definition _open_position (event : OrderFilled.t) (order : Order.t)
    : D (State Callable U) unit :=
  w ← on_world get;
  let counter := _position_counter w + 1 in
  on_world (modify (set_position_counter counter));;
  let position_id := "P-" +:+ pretty counter in
  position ← on_world (lift (Position.__init__ (Order.instrument_id order)
                               position_id event));
  on_world (modify_cache (Cache.add_position position));;
  MessageBus.publish handler api fuel (position_topic order)
    (MsgPositionOpened
       (PositionOpened.mk (OrderFilled.strategy_id event)
          (Order.instrument_id order) position_id (Position.side position)
          (Position.signed_qty position) (Position.quantity position)
          (Position.avg_px_open position) (OrderFilled.last_px event)
          (OrderFilled.ts_event event))).

Definition fill_first_open_position (event : OrderFilled.t) (order : Order.t)
    : D (State Callable U) unit :=
  w ← on_world get;
  match Cache.positions_open (Some (Order.instrument_id order)) None (cache w) with
  | (pid, _) :: _ =>
      position ← on_world (position_apply pid event);
      publish_position_update event order position
  | [] => _open_position event order
  end.

Definition _handle_fill_netting (event : OrderFilled.t) (order : Order.t)
    : D (State Callable U) unit :=
  fill_first_open_position event order.

Definition _handle_fill_hedging (event : OrderFilled.t) (order : Order.t)
    : D (State Callable U) unit :=
  w ← on_world get;
  match OrderFilled.position_id event with
  | Some pid =>
      match Cache.position pid (cache w) with
      | Some _ =>
          position ← on_world (position_apply pid event);
          publish_position_update event order position
      | None => fill_first_open_position event order
      end
  | None => fill_first_open_position event order
  end.

(** After the handlers of the fill have run, order.instrument_id is read
    from the order object again. *)
Definition _handle_fill (event : OrderFilled.t) : D (State Callable U) unit :=
  w ← on_world get;
  match Cache.order (OrderFilled.client_order_id event) (cache w) with
  | None => mret tt
  | Some l =>
      on_world (order_apply l (EvFilled event));;
      order ← on_world (deref l);
      on_world (modify_cache (Cache.update_order l order));;
      MessageBus.publish handler api fuel (order_topic order)
        (MsgOrderEvent (EvFilled event));;
      order ← on_world (deref l);
      let venue := InstrumentId.venue (Order.instrument_id order) in
      w ← on_world get;
      let oms_type := default HEDGING (_oms_types w !! venue) in
      if bool_decide (oms_type = NETTING)
      then _handle_fill_netting event order
      else _handle_fill_hedging event order
  end.

(** ExecutionEngine.process_event *)
Definition process_event (event : OrderEvent) : D (State Callable U) unit :=
  match event with
  | EvFilled e => _handle_fill e
  | EvAccepted _ | EvRejected _ | EvCanceled _ => _handle_order_event event
  | _ => mret tt
  end.

End Handlers.
End ExecutionEngine.

Module Exchange.
Section Handlers.
Import SimulatedExchange.
Context {Callable U : Type}.
Variable handler : Handlers Callable U.
Variable api : Api Callable U.
Variable fuel : nat.

Definition call_exec_engine (v : Venue) (event : OrderEvent)
    : D (State Callable U) unit :=
  self ← on_world (get_exchange v);
  if has_exec_engine self
  then ExecutionEngine.process_event handler api fuel event
  else mret tt.

(** SimulatedExchange.process_order: order.order_type is read after the
    handlers of the acceptance have run. *)
Definition process_order (v : Venue) (l : loc) : D (State Callable U) unit :=
  order ← on_world (deref l);
  self ← on_world (get_exchange v);
  let counter := _venue_order_counter self + 1 in
  on_world (modify_exchange v (set_venue_order_counter counter));;
  let venue_order_id := "V-" +:+ venue self +:+ "-" +:+ pretty counter in
  let accepted :=
    OrderAccepted.mk (Order.strategy_id order) (Order.instrument_id order)
      (Order.client_order_id order) (Some venue_order_id)
      (Some (Account.id (account self))) (Order.ts_init order)
      (Order.ts_init order) in
  call_exec_engine v (EvAccepted accepted);;
  order ← on_world (deref l);
  match Order.order_type order with
  | MARKET =>
      on_world (modify_exchange v (λ e, set_open_orders (_open_orders e ++ [l]) e))
  | LIMIT | STOP_MARKET | STOP_LIMIT =>
      on_world (modify_exchange v (λ e, set_open_orders (_open_orders e ++ [l]) e))
  end.

(** SimulatedExchange.cancel_order *)
Definition cancel_order (v : Venue) (l : loc) : D (State Callable U) unit :=
  order ← on_world (deref l);
  self ← on_world (get_exchange v);
  if bool_decide (l ∈ _open_orders self) then
    on_world (modify_exchange v
                (λ e, set_open_orders (Exchange.remove_first l (_open_orders e)) e));;
    call_exec_engine v
      (EvCanceled (OrderCanceled.mk (Order.client_order_id order)
                     (Order.venue_order_id order) (Order.ts_last order)
                     (Order.ts_last order)))
  else mret tt.

(** SimulatedExchange.modify_order *)
Definition modify_order (v : Venue) (l : loc) (quantity : option Quantity.t)
    (price trigger_price : option Price.t) : D (State Callable U) unit :=
  order ← on_world (deref l);
  call_exec_engine v
    (EvUpdated (OrderUpdated.mk (Order.client_order_id order)
                  (Order.venue_order_id order) quantity price trigger_price
                  (Order.ts_last order) (Order.ts_last order))).

(** SimulatedExchange._fill_order *)
Definition _fill_order (v : Venue) (l : loc) (fill_px : Price.t) (ts_event : Z)
    : D (State Callable U) unit :=
  order ← on_world (deref l);
  self ← on_world (get_exchange v);
  let instrument := _instruments self !! InstrumentId.value (Order.instrument_id order) in
  let commission_rate :=
    match instrument with
    | Some i => Instrument.taker_fee i
    | None => decimal.zero
    end in
  let fill_qty := Order.leaves_qty order in
  let notional := decimal.mul (Quantity.value fill_qty) (Price.value fill_px) in
  let commission_amount := decimal.mul notional commission_rate in
  commission ← on_world (lift (Money.new commission_amount (base_currency self)));
  let counter := _trade_counter self + 1 in
  on_world (modify_exchange v (set_trade_counter counter));;
  let trade_id := "T-" +:+ venue self +:+ "-" +:+ pretty counter in
  let filled :=
    OrderFilled.mk (Order.strategy_id order) (Order.instrument_id order)
      (Order.client_order_id order) (Order.venue_order_id order)
      (Some (Account.id (account self))) (Some trade_id) None
      (Order.side order) (Order.order_type order) fill_qty fill_px
      (base_currency self) (Some commission) ts_event ts_event in
  (if bool_decide (Order.side order = BUY) then
     let cost := decimal.add notional commission_amount in
     match Account.balance_free (Some (base_currency self)) (account self) with
     | Some current =>
         on_world
           (on_account v (Account.update_balance (base_currency self)
                            (decimal.sub (Money.amount current) cost) decimal.zero))
     | None => mret tt
     end
   else
     let revenue := decimal.sub notional commission_amount in
     match Account.balance_free (Some (base_currency self)) (account self) with
     | Some current =>
         on_world
           (on_account v (Account.update_balance (base_currency self)
                            (decimal.add (Money.amount current) revenue) decimal.zero))
     | None => mret tt
     end);;
  on_world (on_account v (Account.update_commissions (base_currency self)
                            commission_amount));;
  call_exec_engine v (EvFilled filled).

(** The first loop of process_bar, from the [i]-th element of _open_orders
    on: the list is the one the exchange holds when the element is asked
    for. *)
Fixpoint match_orders (n : nat) (v : Venue) (bar : Bar.t) (i : nat)
    (orders_to_remove : list loc) : D (State Callable U) (list loc) :=
  match n with
  | O => diverge
  | S n =>
      self ← on_world (get_exchange v);
      match _open_orders self !! i with
      | None => mret orders_to_remove
      | Some l =>
          order ← on_world (deref l);
          if negb (InstrumentId.eqb (Order.instrument_id order) (Bar.instrument_id bar))
          then match_orders n v bar (S i) orders_to_remove
          else if negb (Order.is_open order)
          then match_orders n v bar (S i) (orders_to_remove ++ [l])
          else
            self ← on_world (get_exchange v);
            fill_px ← on_world (lift (_check_fill self order bar));
            match fill_px with
            | Some px =>
                _fill_order v l px (Bar.ts_event bar);;
                match_orders n v bar (S i) (orders_to_remove ++ [l])
            | None => match_orders n v bar (S i) orders_to_remove
            end
      end
  end.

(** SimulatedExchange.process_bar *)
Definition process_bar (v : Venue) (bar : Bar.t) : D (State Callable U) unit :=
  orders_to_remove ← match_orders fuel v bar 0 [];
  on_world (modify_exchange v
              (λ e, set_open_orders
                      (Exchange.remove_orders orders_to_remove (_open_orders e)) e)).

End Handlers.
End Exchange.

Module ExecutionEngineCommands.
Section Handlers.
Context {Callable U : Type}.
Variable handler : Handlers Callable U.
Variable api : Api Callable U.
Variable fuel : nat.

(** ExecutionEngine.submit_order: order.instrument_id is read after the
    handlers of the submission have run. *)
Definition submit_order (l : loc) : D (State Callable U) unit :=
  order ← on_world (deref l);
  w ← on_world get;
  match
    (match risk_engine w with
     | Some r => RiskEngine.validate_order r (cache w) order
     | None => None
     end)
  with
  | Some denied =>
      on_world (order_apply l (EvDenied denied));;
      on_world (modify_cache (Cache.update_order l order));;
      MessageBus.publish handler api fuel (order_topic order)
        (MsgOrderEvent (EvDenied denied))
  | None =>
      let submitted :=
        OrderSubmitted.mk (Order.strategy_id order) (Order.instrument_id order)
          (Order.client_order_id order) (Order.ts_init order)
          (Order.ts_init order) in
      on_world (order_apply l (EvSubmitted submitted));;
      on_world (modify_cache (Cache.add_order l order));;
      MessageBus.publish handler api fuel (order_topic order)
        (MsgOrderEvent (EvSubmitted submitted));;
      order ← on_world (deref l);
      let venue := InstrumentId.venue (Order.instrument_id order) in
      w ← on_world get;
      match _venues w !! venue with
      | Some _ => Exchange.process_order handler api fuel venue l
      | None => mret tt
      end
  end.

(** ExecutionEngine.cancel_order *)
Definition cancel_order (l : loc) : D (State Callable U) unit :=
  order ← on_world (deref l);
  let venue := InstrumentId.venue (Order.instrument_id order) in
  w ← on_world get;
  match _venues w !! venue with
  | Some _ => Exchange.cancel_order handler api fuel venue l
  | None => mret tt
  end.

(** ExecutionEngine.modify_order *)
Definition modify_order (l : loc) (quantity : option Quantity.t)
    (price trigger_price : option Price.t) : D (State Callable U) unit :=
  order ← on_world (deref l);
  let venue := InstrumentId.venue (Order.instrument_id order) in
  w ← on_world get;
  match _venues w !! venue with
  | Some _ =>
      Exchange.modify_order handler api fuel venue l quantity price
        trigger_price
  | None => mret tt
  end.

End Handlers.
End ExecutionEngineCommands.

(** The engine as the handlers reach it when [n] bounds the loops and the
    depth of the calls from handlers back into the engine. *)
Fixpoint engine {Callable U} (handler : Handlers Callable U) (n : nat)
    : Api Callable U :=
  match n with
  | O => mkApi (λ _, diverge) (λ _, diverge) (λ _ _ _ _, diverge) (λ _ _, diverge)
  | S n =>
      mkApi (ExecutionEngineCommands.submit_order handler (engine handler n) n)
            (ExecutionEngineCommands.cancel_order handler (engine handler n) n)
            (ExecutionEngineCommands.modify_order handler (engine handler n) n)
            (MessageBus.publish handler (engine handler n) n)
  end.

(** The methods as the event loop and the strategies call them. *)
Definition submit_order {Callable U} (handler : Handlers Callable U) (n : nat)
    (l : loc) : D (State Callable U) unit :=
  ExecutionEngineCommands.submit_order handler (engine handler n) n l.

Definition cancel_order {Callable U} (handler : Handlers Callable U) (n : nat)
    (l : loc) : D (State Callable U) unit :=
  ExecutionEngineCommands.cancel_order handler (engine handler n) n l.

Definition process_bar {Callable U} (handler : Handlers Callable U) (n : nat)
    (v : Venue) (bar : Bar.t) : D (State Callable U) unit :=
  Exchange.process_bar handler (engine handler n) n v bar.

End Live.

(** * Properties *)

(** Unfold the operations of the two monads. *)
Ltac munfold :=
  unfold mbind, mret, fmap, M_bind, M_ret, Result_bind, Result_ret,
    Result_fmap, get, modify, skip, raise, lift; cbn beta iota zeta.

Ltac munfold_in H :=
  unfold mbind, mret, fmap, M_bind, M_ret, Result_bind, Result_ret,
    Result_fmap, get, modify, skip, raise, lift in H; cbn beta iota zeta in H.

(** ** Facts about the decimal arithmetic *)

Section DecimalFacts.
Import decimal.

Lemma pow10_pos (k : Z) : 0 ≤ k → 0 < 10 ^ k.
Proof. intros. apply Z.pow_pos_nonneg; lia. Qed.

Lemma ndigits_fuel_bounds (fuel : nat) (n : Z) :
  0 < n < 10 ^ (Z.of_nat fuel + 1) →
  1 ≤ ndigits_fuel fuel n ∧
  10 ^ (ndigits_fuel fuel n - 1) ≤ n < 10 ^ ndigits_fuel fuel n.
Proof.
  revert n. induction fuel as [|f IH]; intros n Hn.
  - simpl in *. change (10 ^ (0 + 1)) with 10 in Hn.
    change (10 ^ (1 - 1)) with 1. change (10 ^ 1) with 10. lia.
  - cbn [ndigits_fuel]. destruct (Z.ltb_spec n 10) as [Hlt|Hge].
    + change (10 ^ (1 - 1)) with 1. change (10 ^ 1) with 10. lia.
    + assert (Hdiv : 0 < n / 10 < 10 ^ (Z.of_nat f + 1)).
      { split.
        - apply Z.div_str_pos; lia.
        - apply Z.div_lt_upper_bound; [lia|].
          replace (Z.of_nat (S f) + 1) with (Z.succ (Z.of_nat f + 1)) in Hn by lia.
          rewrite Z.pow_succ_r in Hn by lia. lia. }
      destruct (IH _ Hdiv) as (H1 & H2 & H3).
      set (d := ndigits_fuel f (n / 10)) in *.
      replace (1 + d - 1) with (Z.succ (d - 1)) by lia.
      replace (1 + d) with (Z.succ d) by lia.
      rewrite !Z.pow_succ_r by lia.
      pose proof (Z.div_mod n 10 ltac:(lia)) as Hdm.
      pose proof (Z.mod_pos_bound n 10 ltac:(lia)) as Hmod.
      lia.
Qed.

Lemma ndigits_bounds (c : Z) :
  c ≠ 0 →
  1 ≤ ndigits c ∧ 10 ^ (ndigits c - 1) ≤ Z.abs c < 10 ^ ndigits c.
Proof.
  intros Hc. unfold ndigits. apply ndigits_fuel_bounds.
  split; [lia|].
  rewrite Z2Nat.id by apply Z.log2_nonneg.
  destruct (Z.log2_spec (Z.abs c) ltac:(lia)) as [_ Hlt].
  eapply Z.lt_le_trans; [exact Hlt|].
  replace (Z.succ (Z.log2 (Z.abs c))) with (Z.log2 (Z.abs c) + 1) by lia.
  apply Z.pow_le_mono_l. pose proof (Z.log2_nonneg (Z.abs c)). lia.
Qed.

Lemma ndigits_zero : ndigits 0 = 1.
Proof. reflexivity. Qed.

Lemma ndigits_pos (c : Z) : 1 ≤ ndigits c.
Proof.
  destruct (decide (c = 0)) as [->|Hc]; [rewrite ndigits_zero; lia|].
  apply ndigits_bounds; assumption.
Qed.

Lemma ndigits_le (c k : Z) : 1 ≤ k → Z.abs c < 10 ^ k → ndigits c ≤ k.
Proof.
  intros Hk Hlt.
  destruct (decide (c = 0)) as [->|Hc]; [rewrite ndigits_zero; lia|].
  destruct (ndigits_bounds c Hc) as (H1 & H2 & _).
  destruct (Z.le_gt_cases (ndigits c) k) as [|Hgt]; [assumption|].
  exfalso.
  assert (10 ^ k ≤ 10 ^ (ndigits c - 1)) by (apply Z.pow_le_mono_r; lia).
  lia.
Qed.

Lemma ndigits_lt_pow (c : Z) : Z.abs c < 10 ^ ndigits c.
Proof.
  destruct (decide (c = 0)) as [->|Hc]; [reflexivity|].
  apply ndigits_bounds; assumption.
Qed.

Lemma ndigits_gt (c k : Z) : 0 ≤ k → 10 ^ k ≤ Z.abs c → k < ndigits c.
Proof.
  intros Hk Hle.
  pose proof (ndigits_lt_pow c) as Hlt. pose proof (ndigits_pos c).
  destruct (Z.lt_ge_cases k (ndigits c)) as [|Hge]; [assumption|].
  exfalso.
  assert (10 ^ ndigits c ≤ 10 ^ k) by (apply Z.pow_le_mono_r; lia).
  lia.
Qed.

Lemma ndigits_abs (c : Z) : ndigits (Z.abs c) = ndigits c.
Proof. unfold ndigits. rewrite Z.abs_idemp. reflexivity. Qed.

Lemma ndigits_opp (c : Z) : ndigits (- c) = ndigits c.
Proof. unfold ndigits. rewrite Z.abs_opp. reflexivity. Qed.

(** A coefficient of at most 28 digits is not rounded. *)
Lemma fix_small (c e : Z) :
  Z.abs c < 10 ^ 28 → _fix (mkDecimal c e) = mkDecimal c e.
Proof.
  intros Hc. unfold _fix. cbn [dcoeff dexp].
  pose proof (ndigits_le c 28 ltac:(lia) Hc) as Hle.
  unfold context_prec.
  destruct (Z.leb_spec (ndigits c) 28); [reflexivity|lia].
Qed.

Lemma compare_zero_r (c e : Z) : compare (mkDecimal c e) zero = (c ?= 0).
Proof.
  unfold compare, align, zero. cbn [dcoeff dexp].
  rewrite Z.mul_0_l.
  assert (H : 0 < 10 ^ (e - Z.min e 0)) by (apply pow10_pos; lia).
  destruct (Z.compare_spec c 0) as [->|Hlt|Hgt].
  - rewrite Z.mul_0_l. reflexivity.
  - apply Z.compare_lt_iff. nia.
  - apply Z.compare_gt_iff. nia.
Qed.

Lemma ltb_zero_r (c e : Z) : ltb (mkDecimal c e) zero = (c <? 0).
Proof.
  unfold ltb. rewrite compare_zero_r. unfold Z.ltb. reflexivity.
Qed.

Lemma gtb_zero_r (c e : Z) : gtb (mkDecimal c e) zero = (0 <? c).
Proof.
  unfold gtb, ltb, compare, align, zero. cbn [dcoeff dexp].
  rewrite Z.mul_0_l.
  assert (H : 0 < 10 ^ (e - Z.min 0 e)) by (apply pow10_pos; lia).
  unfold Z.ltb.
  destruct (Z.compare_spec 0 c) as [<-|Hlt|Hgt].
  - rewrite Z.mul_0_l. reflexivity.
  - assert (Hc : (0 ?= c * 10 ^ (e - Z.min 0 e)) = Lt)
      by (apply Z.compare_lt_iff; nia).
    rewrite Hc. reflexivity.
  - assert (Hc : (0 ?= c * 10 ^ (e - Z.min 0 e)) = Gt)
      by (apply Z.compare_gt_iff; nia).
    rewrite Hc. reflexivity.
Qed.

Lemma eqb_zero_r (c e : Z) : eqb (mkDecimal c e) zero = (c =? 0).
Proof.
  unfold eqb. rewrite compare_zero_r. unfold Z.eqb.
  destruct c; reflexivity.
Qed.

End DecimalFacts.

(** ** The exact value of a decimal *)

Section DecimalValue.
Import decimal.

Definition ten : Q := inject_Z 10.

(** The exact rational value of a decimal. *)
Definition to_Q (d : Decimal) : Q := (inject_Z (dcoeff d) * ten ^ dexp d)%Q.

Lemma ten_neq_0 : ¬ (ten == 0)%Q.
Proof. unfold ten. intros H. discriminate H. Qed.

Lemma ten_pow_pos (e : Z) : (0 < ten ^ e)%Q.
Proof. apply Qpower_0_lt. reflexivity. Qed.

Lemma ten_pow_neq_0 (e : Z) : ¬ (ten ^ e == 0)%Q.
Proof. pose proof (ten_pow_pos e) as H. intros E. rewrite E in H. discriminate H. Qed.

Lemma to_Q_scale (c e j : Z) :
  0 ≤ j → (to_Q (mkDecimal (c * 10 ^ j) e) == to_Q (mkDecimal c (e + j)))%Q.
Proof.
  intros Hj. unfold to_Q. cbn [dcoeff dexp].
  rewrite inject_Z_mult, (Zpower_Qpower 10 j Hj).
  rewrite (Qpower_plus ten e j ten_neq_0). fold ten. ring.
Qed.

Lemma to_Q_inj_same_exp (c m e : Z) :
  (to_Q (mkDecimal c e) == to_Q (mkDecimal m e))%Q → c = m.
Proof.
  unfold to_Q. cbn [dcoeff dexp]. intros H.
  apply Qmult_inj_r in H; [|apply ten_pow_neq_0].
  apply inject_Z_injective. exact H.
Qed.

Lemma to_Q_eq_coeff (c e m t : Z) :
  e ≤ t → (to_Q (mkDecimal c e) == to_Q (mkDecimal m t))%Q → c = m * 10 ^ (t - e).
Proof.
  intros Het H. apply (to_Q_inj_same_exp _ _ e).
  rewrite H. rewrite to_Q_scale by lia.
  replace (e + (t - e)) with t by lia. reflexivity.
Qed.

Lemma align_to_Q (a b : Decimal) :
  let '(x, y, e) := align a b in
  (to_Q a == to_Q (mkDecimal x e))%Q ∧ (to_Q b == to_Q (mkDecimal y e))%Q.
Proof.
  unfold align. split.
  - rewrite to_Q_scale by lia.
    replace (Z.min (dexp a) (dexp b) + (dexp a - Z.min (dexp a) (dexp b)))
      with (dexp a) by lia.
    destruct a; reflexivity.
  - rewrite to_Q_scale by lia.
    replace (Z.min (dexp a) (dexp b) + (dexp b - Z.min (dexp a) (dexp b)))
      with (dexp b) by lia.
    destruct b; reflexivity.
Qed.

Lemma to_Q_same_exp_compare (x y e : Z) :
  (to_Q (mkDecimal x e) ?= to_Q (mkDecimal y e))%Q = (x ?= y).
Proof.
  unfold to_Q. cbn [dcoeff dexp].
  pose proof (ten_pow_pos e) as Hp.
  destruct (Z.compare_spec x y) as [->|Hlt|Hgt].
  - apply Qeq_alt. reflexivity.
  - apply Qlt_alt. apply Qmult_lt_compat_r; [exact Hp|].
    rewrite <- Zlt_Qlt. exact Hlt.
  - apply Qgt_alt. apply Qmult_lt_compat_r; [exact Hp|].
    rewrite <- Zlt_Qlt. exact Hgt.
Qed.

Lemma compare_to_Q (a b : Decimal) :
  compare a b = (to_Q a ?= to_Q b)%Q.
Proof.
  pose proof (align_to_Q a b) as H. unfold compare.
  destruct (align a b) as [[x y] e]. destruct H as [Ha Hb].
  rewrite Ha, Hb. symmetry. apply to_Q_same_exp_compare.
Qed.

Lemma eqb_to_Q (a b : Decimal) : eqb a b = true ↔ (to_Q a == to_Q b)%Q.
Proof.
  unfold eqb. rewrite compare_to_Q, Qeq_alt.
  destruct (to_Q a ?= to_Q b)%Q; split; congruence.
Qed.

Lemma ltb_to_Q (a b : Decimal) : ltb a b = true ↔ (to_Q a < to_Q b)%Q.
Proof.
  unfold ltb. rewrite compare_to_Q, Qlt_alt.
  destruct (to_Q a ?= to_Q b)%Q; split; congruence.
Qed.

Lemma leb_to_Q (a b : Decimal) : leb a b = true ↔ (to_Q a <= to_Q b)%Q.
Proof.
  unfold leb. rewrite compare_to_Q, Qle_alt.
  destruct (to_Q a ?= to_Q b)%Q; split; congruence.
Qed.


Lemma sgn_mul_abs (c : Z) : Z.sgn c * Z.abs c = c.
Proof. destruct c; reflexivity. Qed.

Lemma ndigits_unique (c d : Z) :
  1 ≤ d → 10 ^ (d - 1) ≤ Z.abs c < 10 ^ d → ndigits c = d.
Proof.
  intros Hd [Hlo Hhi].
  pose proof (ndigits_le c d Hd Hhi).
  pose proof (ndigits_gt c (d - 1) ltac:(lia) Hlo). lia.
Qed.

Lemma ndigits_mul_pow10 (m j : Z) :
  m ≠ 0 → 0 ≤ j → ndigits (m * 10 ^ j) = ndigits m + j.
Proof.
  intros Hm Hj. destruct (ndigits_bounds m Hm) as (H1 & Hlo & Hhi).
  assert (Hp : 0 < 10 ^ j) by (apply pow10_pos; lia).
  apply ndigits_unique; [lia|].
  rewrite Z.abs_mul, (Z.abs_eq (10 ^ j)) by lia.
  replace (ndigits m + j - 1) with (ndigits m - 1 + j) by lia.
  rewrite !Z.pow_add_r by lia. nia.
Qed.

(** A rational that can be written with at most 28 significant digits. *)
Definition fits (q : Q) : Prop :=
  ∃ m t, Z.abs m < 10 ^ 28 ∧ (q == to_Q (mkDecimal m t))%Q.

#[global] Instance fits_proper : Proper (Qeq ==> iff) fits.
Proof.
  intros q q' E. unfold fits. split; intros (m & t & Hm & H); exists m, t;
    (split; [exact Hm|]); [rewrite <- E|rewrite E]; exact H.
Qed.

Lemma fits_small (c e : Z) : Z.abs c < 10 ^ 28 → fits (to_Q (mkDecimal c e)).
Proof. intros H. exists c, e. split; [exact H|reflexivity]. Qed.

Lemma to_Q_zero_coeff (e : Z) : (to_Q (mkDecimal 0 e) == 0)%Q.
Proof. unfold to_Q. cbn [dcoeff dexp]. ring. Qed.

Lemma fits_0 : fits 0%Q.
Proof. exists 0, 0. split; [reflexivity|]. rewrite to_Q_zero_coeff. reflexivity. Qed.

Lemma to_Q_coeff_0 (d : Decimal) : (to_Q d == 0)%Q → dcoeff d = 0.
Proof.
  destruct d as [c e]. intros H. cbn [dcoeff].
  apply (to_Q_inj_same_exp c 0 e). rewrite H, to_Q_zero_coeff. reflexivity.
Qed.

(** Rounding to the context precision keeps a value that fits. *)
Lemma fix_to_Q (d : Decimal) : fits (to_Q d) → (to_Q (_fix d) == to_Q d)%Q.
Proof.
  destruct d as [c e]. intros (m & t & Hm & Heq).
  unfold _fix. cbn [dcoeff dexp]. unfold context_prec.
  destruct (Z.leb_spec (ndigits c) 28) as [|Hbig]; [reflexivity|].
  assert (Hc : 10 ^ 28 ≤ Z.abs c).
  { destruct (Z.le_gt_cases (10 ^ 28) (Z.abs c)) as [|Hlt]; [assumption|].
    pose proof (ndigits_le c 28 ltac:(lia) Hlt). lia. }
  assert (Het : e < t).
  { destruct (Z.lt_ge_cases e t) as [|Hge]; [assumption|]. exfalso.
    symmetry in Heq. apply to_Q_eq_coeff in Heq; [|lia].
    assert (0 < 10 ^ (e - t)) by (apply pow10_pos; lia).
    assert (Z.abs m = Z.abs c * 10 ^ (e - t))
      by (rewrite Heq, Z.abs_mul, (Z.abs_eq (10 ^ (e - t))); lia).
    nia. }
  apply to_Q_eq_coeff in Heq; [|lia].
  assert (Hm0 : m ≠ 0) by (intros ->; rewrite Z.mul_0_l in Heq; lia).
  pose proof (ndigits_mul_pow10 m (t - e) Hm0 ltac:(lia)) as Hnd.
  rewrite <- Heq in Hnd.
  pose proof (ndigits_le m 28 ltac:(lia) Hm) as Hndm.
  pose proof (ndigits_pos m) as Hndm1.
  set (k := ndigits c - 28) in *.
  assert (Hk : 0 < k ≤ t - e) by lia.
  assert (Hp : 0 < 10 ^ k) by (apply pow10_pos; lia).
  assert (Habs : Z.abs c = Z.abs m * 10 ^ (t - e - k) * 10 ^ k).
  { rewrite Heq, Z.abs_mul, (Z.abs_eq (10 ^ (t - e))) by (apply Z.pow_nonneg; lia).
    rewrite <- Z.mul_assoc, <- Z.pow_add_r by lia.
    replace (t - e - k + k) with (t - e) by lia. reflexivity. }
  unfold round_half_even_div. cbv zeta.
  rewrite Habs. rewrite Z.div_mul, Z.mod_mul by lia.
  rewrite Z.mul_0_r.
  destruct (Z.ltb_spec (10 ^ k) 0) as [|_]; [lia|].
  destruct (Z.eqb_spec 0 (10 ^ k)) as [|_]; [lia|]. cbn [orb andb].
  assert (Hq : ndigits (Z.abs m * 10 ^ (t - e - k)) = 28).
  { rewrite ndigits_mul_pow10 by lia. rewrite ndigits_abs. lia. }
  rewrite Hq. cbn [Z.ltb Z.compare Pos.compare Pos.compare_cont].
  change (28 <? 28) with false. cbn iota.
  rewrite <- (to_Q_scale _ e k) by lia.
  replace (Z.sgn c * (Z.abs m * 10 ^ (t - e - k)) * 10 ^ k) with c; [reflexivity|].
  rewrite <- Z.mul_assoc, <- Habs. symmetry. apply sgn_mul_abs.
Qed.

Lemma exact_add_to_Q (x y e : Z) :
  (to_Q (mkDecimal (x + y) e) == to_Q (mkDecimal x e) + to_Q (mkDecimal y e))%Q.
Proof. unfold to_Q. cbn [dcoeff dexp]. rewrite inject_Z_plus. ring. Qed.

Lemma exact_sub_to_Q (x y e : Z) :
  (to_Q (mkDecimal (x - y) e) == to_Q (mkDecimal x e) - to_Q (mkDecimal y e))%Q.
Proof.
  unfold to_Q. cbn [dcoeff dexp]. unfold Z.sub.
  rewrite inject_Z_plus, inject_Z_opp. ring.
Qed.

Lemma exact_mul_to_Q (a b : Decimal) :
  (to_Q (mkDecimal (dcoeff a * dcoeff b) (dexp a + dexp b)) == to_Q a * to_Q b)%Q.
Proof.
  unfold to_Q. cbn [dcoeff dexp].
  rewrite inject_Z_mult, (Qpower_plus ten _ _ ten_neq_0). ring.
Qed.

Lemma add_to_Q (a b : Decimal) :
  fits (to_Q a + to_Q b) → (to_Q (add a b) == to_Q a + to_Q b)%Q.
Proof.
  intros Hf. pose proof (align_to_Q a b) as H. unfold add.
  destruct (align a b) as [[x y] e]. destruct H as [Ha Hb].
  rewrite Ha, Hb in *. rewrite <- exact_add_to_Q in *.
  apply fix_to_Q. exact Hf.
Qed.

Lemma sub_to_Q (a b : Decimal) :
  fits (to_Q a - to_Q b) → (to_Q (sub a b) == to_Q a - to_Q b)%Q.
Proof.
  intros Hf. pose proof (align_to_Q a b) as H. unfold sub.
  destruct (align a b) as [[x y] e]. destruct H as [Ha Hb].
  rewrite Ha, Hb in *. rewrite <- exact_sub_to_Q in *.
  apply fix_to_Q. exact Hf.
Qed.

Lemma mul_to_Q (a b : Decimal) :
  fits (to_Q a * to_Q b) → (to_Q (mul a b) == to_Q a * to_Q b)%Q.
Proof.
  intros Hf. unfold mul. rewrite <- exact_mul_to_Q in *.
  apply fix_to_Q. exact Hf.
Qed.


Lemma strip_zeros_value (fuel : nat) :
  ∀ coeff exp ideal,
    let '(c, e) := strip_zeros fuel coeff exp ideal in
    exp ≤ e ∧ coeff = c * 10 ^ (e - exp).
Proof.
  induction fuel as [|f IH]; intros coeff exp ideal; cbn [strip_zeros].
  - split; [lia|]. rewrite Z.sub_diag. cbn. lia.
  - destruct ((exp <? ideal) && (coeff mod 10 =? 0)) eqn:Hc.
    + apply andb_true_iff in Hc as [_ Hmod]. apply Z.eqb_eq in Hmod.
      specialize (IH (coeff / 10) (exp + 1) ideal).
      destruct (strip_zeros f (coeff / 10) (exp + 1) ideal) as [c e].
      destruct IH as [Hle Hval]. split; [lia|].
      replace (e - exp) with (Z.succ (e - (exp + 1))) by lia.
      rewrite Z.pow_succ_r by lia.
      pose proof (Z.div_mod coeff 10 ltac:(lia)). lia.
    + split; [lia|]. rewrite Z.sub_diag. cbn. lia.
Qed.

Lemma sgn_mul_self_abs (c : Z) : Z.sgn c * c = Z.abs c.
Proof. destruct c; reflexivity. Qed.

(** Division is exact when the quotient fits. *)
Lemma div_to_Q (a b : Decimal) :
  dcoeff b ≠ 0 → fits (to_Q a / to_Q b) →
  ∃ d, div a b = Ok d ∧ (to_Q d == to_Q a / to_Q b)%Q.
Proof.
  destruct a as [ca ea], b as [cb eb]. cbn [dcoeff]. intros Hcb Hfits.
  assert (Hb0 : ¬ (to_Q (mkDecimal cb eb) == 0)%Q).
  { intros H. apply to_Q_coeff_0 in H. exact (Hcb H). }
  unfold div. cbn [dcoeff dexp].
  destruct (Z.eqb_spec cb 0) as [|_]; [contradiction|].
  destruct (Z.eqb_spec ca 0) as [->|Hca].
  { eexists. split; [reflexivity|].
    rewrite fix_small by (cbn; lia). rewrite !to_Q_zero_coeff. field. exact Hb0. }
  destruct Hfits as (m & t & Hm & Hq).
  assert (Hval : (to_Q (mkDecimal ca ea) == to_Q (mkDecimal (m * cb) (t + eb)))%Q).
  { rewrite (exact_mul_to_Q (mkDecimal m t) (mkDecimal cb eb)), <- Hq.
    field. exact Hb0. }
  set (x := Z.abs ca). set (y := Z.abs cb).
  assert (Hy : 0 < y) by (unfold y; lia).
  assert (Hx : 0 < x) by (unfold x; lia).
  set (shift := ndigits y - ndigits x + context_prec + 1).
  set (u := t + eb - ea + shift).
  destruct (ndigits_bounds ca Hca) as (_ & Hxlo & _).
  pose proof (ndigits_lt_pow cb) as Hyhi.
  assert (Hnx : ndigits x = ndigits ca) by apply ndigits_abs.
  assert (Hny : ndigits y = ndigits cb) by apply ndigits_abs.
  pose proof (ndigits_pos ca). pose proof (ndigits_pos cb).
  assert (Hmcb : Z.abs (m * cb) < 10 ^ (28 + ndigits cb)).
  { rewrite Z.abs_mul, Z.pow_add_r by lia.
    assert (0 < 10 ^ ndigits cb) by (apply pow10_pos; lia). nia. }
  (* the dividend is a multiple of the divisor *)
  assert (Hupos : 0 < u).
  { unfold u, shift, context_prec. rewrite Hnx, Hny.
    destruct (Z.le_gt_cases ea (t + eb)) as [Hle|Hgt].
    - pose proof (to_Q_eq_coeff _ _ _ _ Hle Hval) as E.
      assert (Hp : 0 < 10 ^ (t + eb - ea)) by (apply pow10_pos; lia).
      assert (Z.abs ca = Z.abs (m * cb) * 10 ^ (t + eb - ea))
        by (rewrite E, Z.abs_mul, (Z.abs_eq (10 ^ _)); lia).
      assert (Hlt : 10 ^ (ndigits ca - 1) < 10 ^ (28 + ndigits cb) * 10 ^ (t + eb - ea))
        by nia.
      rewrite <- Z.pow_add_r in Hlt by lia.
      apply Z.pow_lt_mono_r_iff in Hlt; lia.
    - symmetry in Hval.
      pose proof (to_Q_eq_coeff (m * cb) (t + eb) ca ea ltac:(lia) Hval) as E.
      assert (Hp : 0 < 10 ^ (ea - (t + eb))) by (apply pow10_pos; lia).
      assert (Z.abs (m * cb) = Z.abs ca * 10 ^ (ea - (t + eb)))
        by (rewrite E, Z.abs_mul, (Z.abs_eq (10 ^ _)); lia).
      assert (Hlt : 10 ^ (ndigits ca - 1) * 10 ^ (ea - (t + eb)) < 10 ^ (28 + ndigits cb))
        by nia.
      rewrite <- Z.pow_add_r in Hlt by lia.
      apply Z.pow_lt_mono_r_iff in Hlt; lia. }
  assert (Hcoeff : ∃ coeff,
    (if 0 <=? shift
     then (x * 10 ^ shift / y, (x * 10 ^ shift) mod y)
     else (x / (y * 10 ^ (- shift)), x mod (y * 10 ^ (- shift)))) = (coeff, 0)
    ∧ (to_Q (mkDecimal (Z.sgn ca * Z.sgn cb * coeff) (ea - eb - shift))
       * to_Q (mkDecimal cb eb) == to_Q (mkDecimal ca ea))%Q).
  { destruct (Z.leb_spec 0 shift) as [Hs|Hs].
    - assert (E : ca * 10 ^ shift = m * cb * 10 ^ u).
      { replace u with (t + eb - (ea - shift)) by (unfold u; lia).
        apply (to_Q_eq_coeff _ (ea - shift) _ (t + eb)); [unfold u in *; lia|].
        rewrite to_Q_scale by lia. replace (ea - shift + shift) with ea by lia.
        exact Hval. }
      assert (Ex : x * 10 ^ shift = Z.abs m * 10 ^ u * y).
      { unfold x, y. rewrite <- (Z.abs_eq (10 ^ shift)), <- Z.abs_mul, E
          by (apply Z.pow_nonneg; lia).
        rewrite !Z.abs_mul, (Z.abs_eq (10 ^ u)) by (apply Z.pow_nonneg; lia). ring. }
      exists (Z.abs m * 10 ^ u). rewrite Ex, Z.div_mul, Z.mod_mul by lia.
      split; [reflexivity|].
      rewrite <- (exact_mul_to_Q (mkDecimal _ _) (mkDecimal cb eb)). cbn [dcoeff dexp].
      replace (Z.sgn ca * Z.sgn cb * (Z.abs m * 10 ^ u) * cb)
        with (ca * 10 ^ shift).
      2:{ replace (Z.sgn ca * Z.sgn cb * (Z.abs m * 10 ^ u) * cb)
            with (Z.sgn ca * (Z.abs m * 10 ^ u * (Z.sgn cb * cb))) by ring.
          rewrite sgn_mul_self_abs. fold y. rewrite <- Ex. unfold x.
          rewrite Z.mul_assoc, sgn_mul_abs. reflexivity. }
      rewrite to_Q_scale by lia. f_equiv. f_equal. lia.
    - assert (E : ca = m * cb * 10 ^ (t + eb - ea)).
      { apply to_Q_eq_coeff; [unfold u in *; lia|exact Hval]. }
      assert (Hsplit : t + eb - ea = u + - shift) by (unfold u; lia).
      assert (Ex : x = Z.abs m * 10 ^ u * (y * 10 ^ (- shift))).
      { unfold x, y. rewrite E, !Z.abs_mul, (Z.abs_eq (10 ^ _))
          by (apply Z.pow_nonneg; unfold u in *; lia).
        rewrite Hsplit, Z.pow_add_r by lia. ring. }
      assert (0 < 10 ^ (- shift)) by (apply pow10_pos; lia).
      exists (Z.abs m * 10 ^ u). rewrite Ex at 1 2.
      rewrite Z.div_mul, Z.mod_mul by nia.
      split; [reflexivity|].
      rewrite <- (exact_mul_to_Q (mkDecimal _ _) (mkDecimal cb eb)). cbn [dcoeff dexp].
      replace (Z.sgn ca * Z.sgn cb * (Z.abs m * 10 ^ u) * cb)
        with (Z.sgn ca * (Z.abs m * 10 ^ u * y))
        by (unfold y; rewrite <- (sgn_mul_self_abs cb); ring).
      assert (Eca : Z.sgn ca * (Z.abs m * 10 ^ u * y) * 10 ^ (- shift) = ca).
      { replace (Z.sgn ca * (Z.abs m * 10 ^ u * y) * 10 ^ (- shift))
          with (Z.sgn ca * (Z.abs m * 10 ^ u * (y * 10 ^ (- shift)))) by ring.
        rewrite <- Ex. unfold x. apply sgn_mul_abs. }
      transitivity (to_Q (mkDecimal
                      (Z.sgn ca * (Z.abs m * 10 ^ u * y) * 10 ^ (- shift)) ea)).
      + rewrite to_Q_scale by lia.
        replace (ea + - shift) with (ea - eb - shift + eb) by lia. reflexivity.
      + rewrite Eca. reflexivity. }
  destruct Hcoeff as (coeff & -> & Hcv).
  cbn [Z.eqb].
  pose proof (strip_zeros_value (Z.to_nat (ea - eb - (ea - eb - shift))) coeff
                (ea - eb - shift) (ea - eb)) as Hstrip.
  destruct (strip_zeros _ coeff (ea - eb - shift) (ea - eb)) as [c' e'].
  destruct Hstrip as [Hle Hc'].
  eexists. split; [reflexivity|].
  assert (Hq' : (to_Q (mkDecimal (Z.sgn ca * Z.sgn cb * c') e')
                 == to_Q (mkDecimal ca ea) / to_Q (mkDecimal cb eb))%Q).
  { rewrite <- Hcv. rewrite Hc'.
    replace (Z.sgn ca * Z.sgn cb * (c' * 10 ^ (e' - (ea - eb - shift))))
      with (Z.sgn ca * Z.sgn cb * c' * 10 ^ (e' - (ea - eb - shift))) by ring.
    rewrite to_Q_scale by lia.
    replace (ea - eb - shift + (e' - (ea - eb - shift))) with e' by lia.
    field. exact Hb0. }
  rewrite <- Hq'. apply fix_to_Q. rewrite Hq', Hq. apply fits_small. exact Hm.
Qed.


(** Quantizing a value that lies on the grid of the target exponent and has
    at most 28 digits there gives that value. *)
Lemma quantize_exact (d : Decimal) (c q : Z) :
  (to_Q d == to_Q (mkDecimal c q))%Q → Z.abs c < 10 ^ 28 →
  quantize d q = Ok (mkDecimal c q).
Proof.
  destruct d as [cd ed]. intros Hv Hc. unfold quantize. cbn [dcoeff dexp].
  destruct (Z.eqb_spec cd 0) as [->|Hcd].
  { rewrite to_Q_zero_coeff in Hv. symmetry in Hv. apply to_Q_coeff_0 in Hv.
    cbn in Hv. subst c. reflexivity. }
  assert (Hc0 : c ≠ 0).
  { intros ->. rewrite to_Q_zero_coeff in Hv. apply to_Q_coeff_0 in Hv.
    exact (Hcd Hv). }
  pose proof (ndigits_le c 28 ltac:(lia) Hc) as Hndc.
  unfold context_prec, _rescale. cbn [dcoeff dexp].
  destruct (Z.eqb_spec cd 0) as [|_]; [contradiction|].
  destruct (Z.leb_spec q ed) as [Hle|Hgt].
  - symmetry in Hv. apply to_Q_eq_coeff in Hv; [|lia]. rewrite <- Hv.
    assert (Hnd : ndigits c = ndigits cd + (ed - q))
      by (rewrite Hv; apply ndigits_mul_pow10; lia).
    destruct (Z.ltb_spec 28 (ed + ndigits cd - 1 - q + 1)) as [|_]; [lia|].
    cbn [dcoeff dexp].
    destruct (Z.ltb_spec 28 (ndigits c)) as [|_]; [lia|]. reflexivity.
  - apply to_Q_eq_coeff in Hv; [|lia].
    assert (Hnd : ndigits cd = ndigits c + (q - ed))
      by (rewrite Hv; apply ndigits_mul_pow10; lia).
    destruct (Z.ltb_spec 28 (ed + ndigits cd - 1 - q + 1)) as [|_]; [lia|].
    assert (Hp : 0 < 10 ^ (q - ed)) by (apply pow10_pos; lia).
    unfold round_half_up_div. cbv zeta.
    assert (Habs : Z.abs cd = Z.abs c * 10 ^ (q - ed))
      by (rewrite Hv, Z.abs_mul, (Z.abs_eq (10 ^ _)); lia).
    rewrite Habs, Z.div_mul, Z.mod_mul by lia. rewrite Z.mul_0_r.
    destruct (Z.leb_spec (10 ^ (q - ed)) 0) as [|_]; [lia|].
    assert (Hs : Z.sgn cd = Z.sgn c).
    { rewrite Hv, Z.sgn_mul, (Z.sgn_pos (10 ^ _)) by lia. lia. }
    rewrite Hs, sgn_mul_abs. cbn [dcoeff dexp].
    destruct (Z.ltb_spec 28 (ndigits c)) as [|_]; [lia|]. reflexivity.
Qed.

Lemma quantize_same_exp (c e : Z) :
  Z.abs c < 10 ^ 28 → quantize (mkDecimal c e) e = Ok (mkDecimal c e).
Proof. intros H. apply quantize_exact; [reflexivity|exact H]. Qed.

(** A coefficient of more than 28 digits is rounded to exactly 28 digits at
    a larger exponent, and no longer quantizes to the original exponent. *)
Lemma quantize_fix_overflow (n e : Z) :
  10 ^ 28 ≤ Z.abs n → quantize (_fix (mkDecimal n e)) e = Raise InvalidOperation.
Proof.
  intros Hn.
  assert (Hn0 : n ≠ 0) by (intros ->; cbn in Hn; lia).
  pose proof (ndigits_gt n 28 ltac:(lia) Hn) as Hnd.
  destruct (ndigits_bounds n Hn0) as (_ & Hlo & Hhi).
  unfold _fix. cbn [dcoeff dexp]. unfold context_prec.
  destruct (Z.leb_spec (ndigits n) 28) as [|_]; [lia|].
  set (k := ndigits n - 28) in *.
  assert (Hk : 0 < k) by lia.
  assert (Hp : 0 < 10 ^ k) by (apply pow10_pos; lia).
  assert (Hsplit : 10 ^ (ndigits n - 1) = 10 ^ 27 * 10 ^ k).
  { rewrite <- Z.pow_add_r by lia. f_equal. unfold k. lia. }
  assert (Hsplit' : 10 ^ ndigits n = 10 ^ 28 * 10 ^ k).
  { rewrite <- Z.pow_add_r by lia. f_equal. unfold k. lia. }
  assert (Hfloor : 10 ^ 27 ≤ Z.abs n / 10 ^ k < 10 ^ 28).
  { split.
    - apply Z.div_le_lower_bound; lia.
    - apply Z.div_lt_upper_bound; lia. }
  set (q := round_half_even_div (Z.abs n) k).
  assert (Hq : 10 ^ 27 ≤ q ≤ 10 ^ 28).
  { unfold q, round_half_even_div. cbv zeta.
    destruct (_ || _); lia. }
  assert (Hsgn : ∀ z, Z.abs (Z.sgn n * z) = Z.abs z).
  { intros z. rewrite Z.abs_mul. destruct n; cbn; lia. }
  assert (Hraise : ∀ c' e', 10 ^ 27 ≤ Z.abs c' < 10 ^ 28 → e < e' →
            quantize (mkDecimal c' e') e = Raise InvalidOperation).
  { intros c' e' Hc' He'. unfold quantize. cbn [dcoeff dexp].
    destruct (Z.eqb_spec c' 0) as [->|_]; [cbn in Hc'; lia|].
    rewrite (ndigits_unique c' 28) by (cbn; lia). unfold context_prec.
    destruct (Z.ltb_spec 28 (e' + 28 - 1 - e + 1)) as [|]; [reflexivity|lia]. }
  destruct (Z.ltb_spec 28 (ndigits q)) as [Hbig|Hsmall].
  - assert (Hq28 : q = 10 ^ 28).
    { destruct (Z.eq_dec q (10 ^ 28)) as [|Hne]; [assumption|].
      pose proof (ndigits_le q 28 ltac:(lia) ltac:(lia)). lia. }
    apply Hraise; [|lia]. rewrite Hsgn, Hq28.
    replace (Z.abs (10 ^ 28 / 10)) with (10 ^ 27) by (vm_compute; reflexivity).
    clear. lia.
  - apply Hraise; [|lia]. rewrite Hsgn.
    destruct (Z.eq_dec q (10 ^ 28)) as [E|Hne].
    + rewrite E in Hsmall. vm_compute in Hsmall. exfalso. apply Hsmall. reflexivity.
    + clearbody q. rewrite Z.abs_eq; lia.
Qed.

Lemma abs_to_Q (a : Decimal) :
  fits (to_Q a) → (to_Q (abs a) == Qabs (to_Q a))%Q.
Proof.
  destruct a as [c e]. intros Hf. unfold abs. cbn [dcoeff dexp].
  assert (E : (to_Q (mkDecimal (Z.abs c) e) == Qabs (to_Q (mkDecimal c e)))%Q).
  { unfold to_Q. cbn [dcoeff dexp]. rewrite Qabs_Qmult.
    rewrite (Qabs_pos (ten ^ e)) by (apply Qlt_le_weak, ten_pow_pos).
    apply Qmult_comp; [|reflexivity]. destruct c; reflexivity. }
  rewrite <- E. apply fix_to_Q.
  destruct Hf as (m & t & Hm & Hq). exists (Z.abs m), t.
  split; [rewrite Z.abs_idemp; exact Hm|].
  rewrite E, Hq. unfold to_Q. cbn [dcoeff dexp]. rewrite Qabs_Qmult.
  rewrite (Qabs_pos (ten ^ t)) by (apply Qlt_le_weak, ten_pow_pos).
  apply Qmult_comp; [|reflexivity]. destruct m; reflexivity.
Qed.

Lemma min_cases (a b : Decimal) : min a b = a ∨ min a b = b.
Proof. unfold min. destruct (ltb b a); auto. Qed.

Lemma max_cases (a b : Decimal) : max a b = a ∨ max a b = b.
Proof. unfold max. destruct (gtb b a); auto. Qed.

Lemma gtb_to_Q (a b : Decimal) : gtb a b = true ↔ (to_Q b < to_Q a)%Q.
Proof. unfold gtb. apply ltb_to_Q. Qed.

Lemma to_Q_zero : (to_Q zero == 0)%Q.
Proof. apply to_Q_zero_coeff. Qed.

End DecimalValue.

(** ** C8: Quantity construction and negative values *)

Section QuantityConstruction.
Import decimal.

(** What half-up rescaling does to a negative value below half a quantum. *)
Lemma quantize_small (c e q : Z) :
  c ≠ 0 → e < q → 2 * Z.abs c < 10 ^ (q - e) →
  quantize (mkDecimal c e) q = Ok (mkDecimal 0 q).
Proof.
  intros Hc Heq Hsmall. unfold quantize. cbn [dcoeff dexp].
  destruct (Z.eqb_spec c 0) as [|_]; [contradiction|].
  assert (Hpow : 0 < 10 ^ (q - e)) by (apply pow10_pos; lia).
  assert (Hnd : ndigits c ≤ q - e).
  { apply ndigits_le; [lia|lia]. }
  unfold context_prec.
  destruct (Z.ltb_spec 28 (e + ndigits c - 1 - q + 1)) as [Hbad|_]; [lia|].
  unfold _rescale. cbn [dcoeff dexp].
  destruct (Z.eqb_spec c 0) as [|_]; [contradiction|].
  destruct (Z.leb_spec q e) as [|_]; [lia|].
  unfold round_half_up_div.
  rewrite Z.div_small by lia. rewrite Z.mod_small by lia.
  destruct (Z.leb_spec (10 ^ (q - e)) (2 * Z.abs c)) as [|_]; [lia|].
  rewrite Z.mul_0_r. cbn [dcoeff]. reflexivity.
Qed.

(** C8 (the code departs from the claim): a negative value smaller in
    magnitude than half a quantum of the declared precision is quantized to
    zero before the sign is tested, so the construction succeeds, with
    value zero. *)
Theorem Quantity_new_accepts_small_negative (c e precision : Z) :
  c < 0 → e < quantum_exp precision →
  2 * Z.abs c < 10 ^ (quantum_exp precision - e) →
  Quantity.new (mkDecimal c e) precision
  = Ok (Quantity.mk (mkDecimal 0 (quantum_exp precision)) precision).
Proof.
  intros Hc He Hsmall. unfold Quantity.new.
  rewrite quantize_small by lia.
  munfold. rewrite ltb_zero_r. reflexivity.
Qed.

Lemma Quantity_new_accepts_small_negative_witness :
  Quantity.new (mkDecimal (-1) (-3)) 2
  = Ok (Quantity.mk (mkDecimal 0 (-2)) 2).
Proof.
  apply (Quantity_new_accepts_small_negative (-1) (-3) 2); vm_compute; reflexivity.
Defined.

(** Whenever the construction succeeds the stored value is non-negative:
    the test is on the quantized value. *)
Lemma Quantity_new_value_nonneg (v : Decimal) (precision : Z) (q : Quantity.t) :
  Quantity.new v precision = Ok q → ltb (Quantity.value q) zero = false.
Proof.
  unfold Quantity.new. destruct (quantize v (quantum_exp precision)) as [d|x];
    munfold; [|discriminate].
  destruct (ltb d zero) eqn:Hlt; [discriminate|].
  intros [= <-]. exact Hlt.
Qed.

End QuantityConstruction.

(** ** C2: Order.apply and the transition graph *)

Section OrderTransitions.



(** A market order for 100 units taken through submission, acceptance and a
    complete fill at 150.00, by the methods of the model. *)
Definition sample_instrument_id : InstrumentId.t := InstrumentId.mk "AAPL" "SIM".

Definition qty (c e precision : Z) : Quantity.t :=
  Quantity.mk (decimal.mkDecimal c e) precision.

Definition px (c e precision : Z) : Price.t :=
  Price.mk (decimal.mkDecimal c e) precision.

Definition sample_init : OrderInitialized.t :=
  OrderInitialized.mk (Some "S-001") sample_instrument_id "O-001" BUY MARKET
    (qty 100 0 0) GTC None None 0 0.

Definition sample_fill (q : Quantity.t) (p : Price.t) : OrderFilled.t :=
  OrderFilled.mk (Some "S-001") sample_instrument_id "O-001" (Some "V-001")
    (Some "SIM-001") (Some "T-001") None BUY MARKET q p USD None 0 0.

Definition sample_submitted : OrderEvent :=
  EvSubmitted (OrderSubmitted.mk (Some "S-001") sample_instrument_id "O-001" 0 0).

Definition sample_accepted : OrderEvent :=
  EvAccepted (OrderAccepted.mk (Some "S-001") sample_instrument_id "O-001"
                (Some "V-001") (Some "SIM-001") 0 0).

Definition sample_canceled : OrderEvent :=
  EvCanceled (OrderCanceled.mk "O-001" (Some "V-001") 0 0).

(** Apply the events in turn, stopping at the first exception. *)
Fixpoint apply_all (evs : list OrderEvent) : M Order.t unit :=
  match evs with
  | [] => skip
  | ev :: rest => Order.apply ev;; apply_all rest
  end.

Definition after_events (evs : list OrderEvent) : Result (Order.t * Result unit) :=
  o ← Order.new_market sample_init; mret (apply_all evs o).

Definition sample_filled_order : Order.t :=
  Eval vm_compute in
    match after_events [sample_submitted; sample_accepted;
                        EvFilled (sample_fill (qty 100 0 0) (px 15000 (-2) 2))] with
    | Ok (o, _) => o
    | Raise _ => Order.mk OrderBase "" sample_instrument_id None BUY MARKET
                   (qty 0 0 0) GTC INITIALIZED (qty 0 0 0) (qty 0 0 0)
                   decimal.zero None [] 0 0 None None
    end.

Definition sample_canceled_order : Order.t :=
  Eval vm_compute in
    match after_events [sample_submitted; sample_accepted; sample_canceled] with
    | Ok (o, _) => o
    | Raise _ => sample_filled_order
    end.

Lemma sample_filled_order_reached :
  after_events [sample_submitted; sample_accepted;
                EvFilled (sample_fill (qty 100 0 0) (px 15000 (-2) 2))]
  = Ok (sample_filled_order, Ok tt)
  ∧ Order.status sample_filled_order = FILLED.
Proof. split; vm_compute; reflexivity. Qed.

Lemma sample_canceled_order_reached :
  after_events [sample_submitted; sample_accepted; sample_canceled]
  = Ok (sample_canceled_order, Ok tt)
  ∧ Order.status sample_canceled_order = CANCELED.
Proof. split; vm_compute; reflexivity. Qed.

(** C2 (the code departs from the claim): a fill applied to an order in a
    terminal status fails, but not before the order has been changed.  On
    the FILLED order the fill of 10 at 160.00 does not even reach the
    transition check: it raises the ValueError of a negative Quantity after
    avg_px and filled_qty have been overwritten.  On the CANCELED order the
    fill of 40 at 10 raises the transition error after avg_px, filled_qty
    and leaves_qty have been overwritten. *)
Theorem apply_fill_on_terminal_order_mutates :
  (let '(o', r) := Order.apply (EvFilled (sample_fill (qty 10 0 0) (px 16000 (-2) 2)))
                               sample_filled_order in
   r = Raise (ValueError "Quantity value must be non-negative")
   ∧ Order.status o' = FILLED
   ∧ Order.filled_qty sample_filled_order = qty 100 0 0
   ∧ Order.filled_qty o' = qty 110 0 0
   ∧ Order.avg_px sample_filled_order = decimal.mkDecimal 15000 (-2)
   ∧ Order.avg_px o' = decimal.mkDecimal 1509090909090909090909090909 (-25)
   ∧ Order.events o' = Order.events sample_filled_order)
  ∧
  (let '(o', r) := Order.apply (EvFilled (sample_fill (qty 40 0 0) (px 10 0 0)))
                               sample_canceled_order in
   r = Raise (RuntimeError_invalid_transition CANCELED PARTIALLY_FILLED)
   ∧ Order.status o' = CANCELED
   ∧ Order.filled_qty sample_canceled_order = qty 0 0 0
   ∧ Order.filled_qty o' = qty 40 0 0
   ∧ Order.leaves_qty sample_canceled_order = qty 100 0 0
   ∧ Order.leaves_qty o' = qty 60 0 0
   ∧ Order.avg_px sample_canceled_order = decimal.zero
   ∧ Order.avg_px o' = decimal.mkDecimal 10 0).
Proof. vm_compute. repeat split. Qed.

End OrderTransitions.

(** ** C10: the balance curve of a run *)

Section BalanceCurve.
Import BacktestEngine.
Context {S : Type} (c : Components S).

(** The timestamps of the bars of a data list, in order. *)
Definition bar_timestamps (data : list Datum) : list Z :=
  omap (λ d, match d with DBar b => Some (Bar.ts_event b) | _ => None end) data.

(** The loop extends the curve by one entry per bar and by nothing else. *)
Lemma event_loop_appends (data : list Datum) :
  ∀ (curve out : list (Z * decimal.Decimal)) (s s' : S),
    event_loop c data curve s = (s', Ok out) →
    ∃ appended, out = curve ++ appended ∧ appended.*1 = bar_timestamps data.
Proof.
  induction data as [|datum rest IH]; intros curve out s s' Hrun.
  - cbn in Hrun. munfold_in Hrun. injection Hrun as _ <-.
    exists []. rewrite app_nil_r. split; reflexivity.
  - cbn [event_loop] in Hrun. munfold_in Hrun.
    destruct (process_datum c datum s) as [s1 [[]|e]] eqn:Hstep; [|discriminate].
    destruct datum as [b|q|t].
    + apply IH in Hrun as (appended & -> & Happ).
      exists ((Bar.ts_event b, _get_total_balance c s1) :: appended).
      rewrite <- app_assoc. split; [reflexivity|].
      rewrite fmap_cons, Happ. reflexivity.
    + apply IH in Hrun as (appended & -> & Happ).
      exists appended. split; [reflexivity|]. cbn. exact Happ.
    + apply IH in Hrun as (appended & -> & Happ).
      exists appended. split; [reflexivity|]. cbn. exact Happ.
Qed.

(** C10: when the first datum of a run, after sorting and range filtering,
    is a bar, the balance curve of the result starts with two entries that
    carry the bar's ts_event: the first holds the starting balance (the
    total balance after the strategies were started, before the loop), the
    second the total balance after the bar was processed.  The curve has no
    other entries than the first one and one per bar of the data, in
    order. *)
Theorem run_balance_curve_first_bar (_data : list Datum) (start end_ : option Z)
    (s s' : S) (result : BacktestResult) (b : Bar.t) (rest : list Datum) :
  run c _data start end_ s = (s', Ok result) →
  filter_range start end_ (sort _data) = DBar b :: rest →
  ∃ s0 s1 tail,
    strategies_on_start c s = (s0, Ok tt)
    ∧ process_datum c (DBar b) s0 = (s1, Ok tt)
    ∧ starting_balance result = _get_total_balance c s0
    ∧ balance_curve result
      = (Bar.ts_event b, _get_total_balance c s0)
        :: (Bar.ts_event b, _get_total_balance c s1) :: tail
    ∧ (balance_curve result).*1
      = Bar.ts_event b :: bar_timestamps (DBar b :: rest).
Proof.
  intros Hrun Hdata. unfold run in Hrun. rewrite Hdata in Hrun.
  munfold_in Hrun.
  destruct (strategies_on_start c s) as [s0 [[]|e]] eqn:Hstart; [|discriminate].
  cbn [event_loop ts_event] in Hrun. munfold_in Hrun.
  destruct (process_datum c (DBar b) s0) as [s1 [[]|e]] eqn:Hstep; [|discriminate].
  destruct (event_loop c rest _ s1) as [s2 [curve|e]] eqn:Hloop; [|discriminate].
  destruct (strategies_on_stop c s2) as [s3 [[]|e]] eqn:Hstop; [|discriminate].
  injection Hrun as _ <-. cbn [balance_curve starting_balance].
  apply event_loop_appends in Hloop as (appended & -> & Happ).
  exists s0, s1, appended.
  split; [reflexivity|]. split; [exact Hstep|]. split; [reflexivity|].
  split; [reflexivity|].
  rewrite !fmap_app, Happ. reflexivity.
Qed.

End BalanceCurve.

(** A world as the engine sets it up: the venue SIM with 100000.00 USD and
    the instrument AAPL.SIM, and two bars on either side of a quote tick. *)
Definition money (c e : Z) (currency : Currency.t) : Money.t :=
  Money.mk (decimal.mkDecimal c e) currency.

Definition sample_instrument : Instrument.t :=
  Instrument.mk sample_instrument_id 2 0 (decimal.mkDecimal 1 (-4)) None None.

Definition sample_world : World :=
  fst ((BacktestEngine.add_venue "SIM" NETTING CASH USD [money 10000000 (-2) USD];;
        BacktestEngine.add_instrument sample_instrument)
       BacktestEngine.__init__).

Definition sample_bar (o h l c ts : Z) : Bar.t :=
  Bar.mk sample_instrument_id (px o (-2) 2) (px h (-2) 2) (px l (-2) 2)
         (px c (-2) 2) (qty 1000 0 0) ts ts.

Definition sample_data : list BacktestEngine.Datum :=
  [BacktestEngine.DBar (sample_bar 10050 10150 9950 10100 120);
   BacktestEngine.DQuoteTick (QuoteTick.mk sample_instrument_id 90 90);
   BacktestEngine.DBar (sample_bar 10000 10100 9900 10050 60)].

Definition sample_run : World * Result BacktestEngine.BacktestResult :=
  BacktestEngine.run BacktestEngine.idle_components sample_data (Some 60) None
                     sample_world.

Definition sample_result : BacktestEngine.BacktestResult :=
  match sample_run.2 with
  | Ok r => r
  | Raise _ => BacktestEngine.mkResult 0 0 decimal.zero decimal.zero []
  end.

Lemma run_balance_curve_first_bar_witness :
  BacktestEngine.run BacktestEngine.idle_components sample_data (Some 60) None
                     sample_world
  = (sample_run.1, Ok sample_result)
  ∧ BacktestEngine.filter_range (Some 60) None (BacktestEngine.sort sample_data)
    = BacktestEngine.DBar (sample_bar 10000 10100 9900 10050 60)
      :: [BacktestEngine.DQuoteTick (QuoteTick.mk sample_instrument_id 90 90);
          BacktestEngine.DBar (sample_bar 10050 10150 9950 10100 120)]
  ∧ ∃ s0 s1 tail,
      BacktestEngine.strategies_on_start BacktestEngine.idle_components sample_world
      = (s0, Ok tt)
      ∧ BacktestEngine.process_datum BacktestEngine.idle_components
          (BacktestEngine.DBar (sample_bar 10000 10100 9900 10050 60)) s0
        = (s1, Ok tt)
      ∧ BacktestEngine.starting_balance sample_result
        = BacktestEngine._get_total_balance BacktestEngine.idle_components s0
      ∧ BacktestEngine.balance_curve sample_result
        = (60, BacktestEngine._get_total_balance BacktestEngine.idle_components s0)
          :: (60, BacktestEngine._get_total_balance BacktestEngine.idle_components s1)
          :: tail
      ∧ (BacktestEngine.balance_curve sample_result).*1
        = 60 :: bar_timestamps
                  (BacktestEngine.DBar (sample_bar 10000 10100 9900 10050 60)
                   :: [BacktestEngine.DQuoteTick (QuoteTick.mk sample_instrument_id 90 90);
          BacktestEngine.DBar (sample_bar 10050 10150 9950 10100 120)]).
Proof.
  assert (Hrun : BacktestEngine.run BacktestEngine.idle_components sample_data
                   (Some 60) None sample_world
                 = (sample_run.1, Ok sample_result))
    by (vm_compute; reflexivity).
  assert (Hdata : BacktestEngine.filter_range (Some 60) None
                    (BacktestEngine.sort sample_data)
                  = BacktestEngine.DBar (sample_bar 10000 10100 9900 10050 60)
                    :: [BacktestEngine.DQuoteTick (QuoteTick.mk sample_instrument_id 90 90);
          BacktestEngine.DBar (sample_bar 10050 10150 9950 10100 120)])
    by (vm_compute; reflexivity).
  split; [exact Hrun|]. split; [exact Hdata|].
  exact (run_balance_curve_first_bar BacktestEngine.idle_components sample_data
           (Some 60) None sample_world _ _ _ _ Hrun Hdata).
Defined.

(** ** C7 and C9: a risk denial in submit_order *)

Section RiskDenial.
Import ExecutionEngineCommands.

(** The order object after [order.apply(denied)]. *)
Definition denied_order (denied : OrderDenied.t) (order : Order.t) : Order.t :=
  Order.set_ts_last (OrderDenied.ts_event denied)
    (Order.set_events (Order.events order ++ [EvDenied denied])
       (Order.set_status DENIED order)).

(** The world after the denial branch of submit_order. *)
Definition denied_world (l : loc) (denied : OrderDenied.t) (order : Order.t)
    (w : World) : World :=
  set_published
    (published w ++ [(order_topic order, MsgOrderEvent (EvDenied denied))])
    (set_cache (Cache.update_order l order (cache w))
       (set_heap (<[l := denied_order denied order]> (heap w)) w)).

Lemma submit_order_denied (w : World) (l : loc) (order : Order.t)
    (r : RiskEngine.t) (denied : OrderDenied.t) :
  heap w !! l = Some order →
  Order.status order = INITIALIZED →
  risk_engine w = Some r →
  RiskEngine.validate_order r (cache w) order = Some denied →
  submit_order l w = (denied_world l denied order w, Ok tt).
Proof.
  intros Hl Hst Hr Hv.
  unfold submit_order, deref, order_apply, modify_cache, publish. munfold.
  rewrite Hl, Hr, Hv. munfold.
  rewrite Hl. unfold Order.apply, Order._check_transition, Order._EVENT_TO_STATUS.
  munfold. rewrite Hst. cbn [ORDER_STATUS_TRANSITIONS].
  rewrite bool_decide_eq_true_2 by (apply list_elem_of_here).
  reflexivity.
Qed.

(** needle in haystack *)
Fixpoint contains (needle haystack : string) : bool :=
  String.prefix needle haystack
  || match haystack with
     | EmptyString => false
     | String _ rest => contains needle rest
     end.

Lemma prefix_app (s t : string) : String.prefix s (s +:+ t) = true.
Proof.
  induction s as [|a s IH].
  - destruct t; reflexivity.
  - change (String a s +:+ t) with (String a (s +:+ t)). cbn [String.prefix].
    destruct (Ascii.ascii_dec a a); [exact IH|contradiction].
Qed.

Lemma prefix_inv (s t : string) :
  String.prefix s t = true → ∃ post, t = s +:+ post.
Proof.
  revert t. induction s as [|a s IH]; intros t H.
  - exists t. reflexivity.
  - destruct t as [|b t]; cbn in H; [discriminate|].
    destruct (Ascii.ascii_dec a b) as [->|]; [|discriminate].
    destruct (IH _ H) as [post ->]. exists post. reflexivity.
Qed.

(** [contains] is the substring test. *)
Lemma contains_spec (needle haystack : string) :
  contains needle haystack = true
  ↔ ∃ pre post, haystack = pre +:+ needle +:+ post.
Proof.
  split.
  - induction haystack as [|a h IH]; cbn [contains]; intros H.
    + rewrite orb_false_r in H. apply prefix_inv in H as [post ->].
      exists EmptyString, post. reflexivity.
    + apply orb_true_iff in H as [H|H].
      * apply prefix_inv in H as [post ->]. exists EmptyString, post. reflexivity.
      * destruct (IH H) as (pre & post & ->). exists (String a pre), post.
        reflexivity.
  - intros (pre & post & ->). induction pre as [|a pre IH].
    + change (EmptyString +:+ needle +:+ post) with (needle +:+ post).
      destruct (needle +:+ post) eqn:E; cbn [contains];
        rewrite <- E, prefix_app; reflexivity.
    + change (String a pre +:+ needle +:+ post)
        with (String a (pre +:+ needle +:+ post)).
      cbn [contains]. rewrite IH. apply orb_true_r.
Qed.



End RiskDenial.

Section RiskDenialCache.
Import ExecutionEngineCommands.


Definition with_order (l : loc) (o : Order.t) (w : World) : World :=
  set_heap (<[l := o]> (heap w)) w.





(** What the queries of the cache answer in the world that the denial of
    an order new to the cache leaves. *)
Lemma denied_world_queries (w : World) (l : loc) (order : Order.t)
    (denied : OrderDenied.t) :
  Cache._orders (cache w) !! Order.client_order_id order = None →
  (∀ oid, Cache._orders (cache w) !! oid ≠ Some l) →
  (∀ k ids, Cache._orders_by_instrument (cache w) !! k = Some ids →
            Order.client_order_id order ∉ ids) →
  (∀ k ids, Cache._orders_by_strategy (cache w) !! k = Some ids →
            Order.client_order_id order ∉ ids) →
  (∀ k ids, Cache._orders_by_venue (cache w) !! k = Some ids →
            Order.client_order_id order ∉ ids) →
  Cache.order (Order.client_order_id order) (cache (denied_world l denied order w))
  = Some l
  ∧ l ∈ Cache.orders None None (cache (denied_world l denied order w))
  ∧ length (Cache.orders None None (cache (denied_world l denied order w)))
    = S (length (Cache.orders None None (cache w)))
  ∧ (∀ instrument_id strategy_id,
       l ∉ Cache.orders (Some instrument_id) strategy_id
             (cache (denied_world l denied order w)))
  ∧ (∀ strategy_id,
       l ∉ Cache.orders None (Some strategy_id) (cache (denied_world l denied order w)))
  ∧ (∀ venue, l ∉ Cache.orders_for_venue venue (cache (denied_world l denied order w)))
  ∧ Cache._orders_by_instrument (cache (denied_world l denied order w))
    = Cache._orders_by_instrument (cache w)
  ∧ Cache._orders_by_strategy (cache (denied_world l denied order w))
    = Cache._orders_by_strategy (cache w)
  ∧ Cache._orders_by_venue (cache (denied_world l denied order w))
    = Cache._orders_by_venue (cache w).
Proof.
  intros Hfresh Hobj Hi Hs Hve.
  assert (Hnot : ∀ (d : gmap string (list string)) k,
             (∀ k ids, d !! k = Some ids → Order.client_order_id order ∉ ids) →
             l ∉ Cache.orders_of_ids (default [] (d !! k))
                   (Cache.update_order l order (cache w))).
  { intros d k Hd Hin. unfold Cache.orders_of_ids in Hin.
    apply list_elem_of_omap in Hin as (oid & Hoid & Hlook).
    cbn in Hlook.
    destruct (d !! k) as [ids|] eqn:Hk; cbn in Hoid; [|inversion Hoid].
    destruct (decide (oid = Order.client_order_id order)) as [->|Hne].
    - exact (Hd _ _ Hk Hoid).
    - rewrite lookup_insert_ne in Hlook by congruence.
      exact (Hobj _ Hlook). }
  cbn [denied_world cache set_published set_cache set_heap].
  split; [unfold Cache.order; cbn; apply lookup_insert_eq|].
  split.
  { unfold Cache.orders. cbn. apply list_elem_of_fmap.
    exists (Order.client_order_id order, l). split; [reflexivity|].
    apply elem_of_map_to_list. apply lookup_insert_eq. }
  split.
  { unfold Cache.orders. cbn. rewrite !length_fmap, !length_map_to_list.
    apply map_size_insert_None. exact Hfresh. }
  split; [intros i s; unfold Cache.orders; apply Hnot; exact Hi|].
  split; [intros s; unfold Cache.orders; apply Hnot; exact Hs|].
  split; [intros v; unfold Cache.orders_for_venue; apply Hnot; exact Hve|].
  repeat split.
Qed.







End RiskDenialCache.

(** ** Well-formed scalars: what the constructors produce *)

Section Scalars.
Import decimal.

Lemma quantize_ok (d r : Decimal) (q : Z) :
  quantize d q = Ok r → dexp r = q ∧ Z.abs (dcoeff r) < 10 ^ 28.
Proof.
  unfold quantize. destruct (dcoeff d =? 0).
  { intros [= <-]. cbn. split; [reflexivity|lia]. }
  destruct (context_prec <? _); [discriminate|].
  destruct (context_prec <? ndigits (dcoeff (_rescale d q))) eqn:Hnd; [discriminate|].
  intros [= <-]. split.
  - unfold _rescale. destruct (dcoeff d =? 0); [reflexivity|].
    destruct (q <=? dexp d); reflexivity.
  - apply Z.ltb_ge in Hnd. unfold context_prec in Hnd.
    pose proof (ndigits_lt_pow (dcoeff (_rescale d q))) as Hlt.
    pose proof (ndigits_pos (dcoeff (_rescale d q))).
    eapply Z.lt_le_trans; [exact Hlt|]. apply Z.pow_le_mono_r; lia.
Qed.

(** A Quantity as the constructor makes it: the value sits on the grid of
    the declared precision, is not negative and has at most 28 digits. *)
Definition Quantity_wf (q : Quantity.t) : Prop :=
  dexp (Quantity.value q) = quantum_exp (Quantity.precision q)
  ∧ 0 ≤ dcoeff (Quantity.value q) < 10 ^ 28.

Definition Price_wf (p : Price.t) : Prop :=
  dexp (Price.value p) = quantum_exp (Price.precision p)
  ∧ Z.abs (dcoeff (Price.value p)) < 10 ^ 28.

Lemma Quantity_new_wf (v : Decimal) (precision : Z) (q : Quantity.t) :
  Quantity.new v precision = Ok q → Quantity_wf q ∧ Quantity.precision q = precision.
Proof.
  unfold Quantity.new.
  destruct (quantize v (quantum_exp precision)) as [r|] eqn:Hq; munfold; [|discriminate].
  destruct (ltb r zero) eqn:Hlt; [discriminate|]. intros [= <-].
  apply quantize_ok in Hq as [He Hc]. destruct r as [c e]. cbn in *.
  rewrite ltb_zero_r in Hlt. apply Z.ltb_ge in Hlt.
  unfold Quantity_wf. cbn. repeat split; [exact He|lia|lia].
Qed.


(** Rebuilding a well-formed Quantity from a decimal of the same value. *)
Lemma Quantity_new_exact (d : Decimal) (q : Quantity.t) :
  Quantity_wf q → (to_Q d == to_Q (Quantity.value q))%Q →
  Quantity.new d (Quantity.precision q) = Ok q.
Proof.
  destruct q as [[c e] p]. unfold Quantity_wf. cbn. intros [He Hc] Hv. subst e.
  unfold Quantity.new. rewrite (quantize_exact d c) by (try exact Hv; lia).
  munfold. rewrite ltb_zero_r. destruct (Z.ltb_spec c 0); [lia|reflexivity].
Qed.

Lemma Quantity_new_zero (d : Decimal) (precision : Z) :
  (to_Q d == 0)%Q →
  Quantity.new d precision = Ok (Quantity.mk (mkDecimal 0 (quantum_exp precision)) precision).
Proof.
  intros Hv. apply to_Q_coeff_0 in Hv. unfold Quantity.new, quantize.
  rewrite Hv. cbn [Z.eqb]. munfold. rewrite ltb_zero_r. reflexivity.
Qed.

End Scalars.

Section PositionRoundTrip.
Import decimal.

Lemma gtb_zero_true (x : Decimal) : (0 < to_Q x)%Q → gtb x zero = true.
Proof. intros H. apply gtb_to_Q. rewrite to_Q_zero. exact H. Qed.

Lemma gtb_zero_false (x : Decimal) : (to_Q x <= 0)%Q → gtb x zero = false.
Proof.
  intros H. destruct (gtb x zero) eqn:E; [|reflexivity].
  apply gtb_to_Q in E. rewrite to_Q_zero in E.
  exfalso. exact (Qlt_not_le _ _ E H).
Qed.

Lemma ltb_zero_true (x : Decimal) : (to_Q x < 0)%Q → ltb x zero = true.
Proof. intros H. apply ltb_to_Q. rewrite to_Q_zero. exact H. Qed.

Lemma ltb_zero_false (x : Decimal) : (0 <= to_Q x)%Q → ltb x zero = false.
Proof.
  intros H. destruct (ltb x zero) eqn:E; [|reflexivity].
  apply ltb_to_Q in E. rewrite to_Q_zero in E.
  exfalso. exact (Qlt_not_le _ _ E H).
Qed.

Lemma eqb_zero_true (x : Decimal) : (to_Q x == 0)%Q → eqb x zero = true.
Proof. intros H. apply eqb_to_Q. rewrite to_Q_zero. exact H. Qed.

Lemma update_side_and_qty_eval (p : Position.t) (s : PositionSide) (q : Quantity.t) :
  s = (if gtb (Position.signed_qty p) zero then LONG
       else if ltb (Position.signed_qty p) zero then SHORT else FLAT) →
  Quantity.new (abs (Position.signed_qty p)) (Position._qty_precision p) = Ok q →
  Position._update_side_and_qty p
  = (Position.set_quantity q (Position.set_side s p), Ok tt).
Proof.
  intros -> Hq. unfold Position._update_side_and_qty. munfold.
  destruct (gtb (Position.signed_qty p) zero).
  - cbn. rewrite Hq. reflexivity.
  - destruct (ltb (Position.signed_qty p) zero); cbn; rewrite Hq; reflexivity.
Qed.

(** The position after the commission of a fill has been recorded. *)
Definition commission_recorded (fill : OrderFilled.t) (p : Position.t) : Position.t :=
  match OrderFilled.commission fill with
  | Some c =>
      Position.set_commissions
        (<[Money.currency c :=
             add (default zero (Position.commissions p !! Money.currency c))
                 (Money.amount c)]> (Position.commissions p)) p
  | None => p
  end.

Lemma apply_unfold (fill : OrderFilled.t) (p : Position.t) :
  Position.apply fill p
  = match (if bool_decide (OrderFilled.order_side fill = BUY)
           then Position._apply_buy (Quantity.value (OrderFilled.last_qty fill))
                  (Price.value (OrderFilled.last_px fill))
           else Position._apply_sell (Quantity.value (OrderFilled.last_qty fill))
                  (Price.value (OrderFilled.last_px fill)))
          (commission_recorded fill p) with
    | (p', Ok _) => (Position.set_events (Position._events p' ++ [fill]) p', Ok tt)
    | (p', Raise e) => (p', Raise e)
    end.
Proof.
  unfold Position.apply, commission_recorded. munfold.
  destruct (OrderFilled.commission fill); reflexivity.
Qed.

(** A fill of Q at P that opens a position from flat. *)
Lemma open_from_flat (p : Position.t) (side : OrderSide) (vq vp : Decimal) :
  Position.side p = FLAT → Position.signed_qty p = zero →
  Position.avg_px_open p = zero →
  Z.abs (dcoeff vq) < 10 ^ 28 → 0 < dcoeff vq → Z.abs (dcoeff vp) < 10 ^ 28 →
  fits (to_Q vp * to_Q vq) →
  ∃ a s,
    (to_Q a == to_Q vp)%Q
    ∧ (to_Q s == (if bool_decide (side = BUY) then to_Q vq else - to_Q vq))%Q
    ∧ (if bool_decide (side = BUY) then Position._apply_buy vq vp
       else Position._apply_sell vq vp) p
      = Position._update_side_and_qty
          (Position.set_signed_qty s (Position.set_avg_px_open a p)).
Proof.
  intros Hside Hs Ha Hq Hqpos Hp Hfit.
  assert (HQ : (0 < to_Q vq)%Q).
  { destruct vq as [c e]. unfold to_Q. cbn in *.
    apply Qmult_lt_0_compat; [|apply ten_pow_pos].
    change 0%Q with (inject_Z 0). rewrite <- Zlt_Qlt. exact Hqpos. }
  assert (Habs0 : abs zero = zero) by reflexivity.
  assert (HT : (to_Q (add zero vq) == to_Q vq)%Q).
  { rewrite add_to_Q; rewrite to_Q_zero, Qplus_0_l; [reflexivity|].
    destruct vq; apply fits_small; assumption. }
  assert (HN : (to_Q (add (mul zero zero) (mul vp vq)) == to_Q vp * to_Q vq)%Q).
  { change (mul zero zero) with zero.
    rewrite add_to_Q; rewrite to_Q_zero, Qplus_0_l, mul_to_Q by exact Hfit;
      [reflexivity|exact Hfit]. }
  assert (HT0 : dcoeff (add zero vq) ≠ 0).
  { intros E. assert (Hz : (to_Q (add zero vq) == 0)%Q).
    { destruct (add zero vq) as [c e]. cbn in E. subst c. apply to_Q_zero_coeff. }
    rewrite HT in Hz. rewrite Hz in HQ. discriminate HQ. }
  destruct (div_to_Q (add (mul zero zero) (mul vp vq)) (add zero vq) HT0)
    as (a & Hdiv & Hav).
  { rewrite HN, HT.
    assert (E : (to_Q vp * to_Q vq / to_Q vq == to_Q vp)%Q).
    { field. intros Hz. rewrite Hz in HQ. discriminate HQ. }
    rewrite E. destruct vp; apply fits_small; assumption. }
  assert (Hav' : (to_Q a == to_Q vp)%Q).
  { rewrite Hav, HN, HT. field. intros Hz. rewrite Hz in HQ. discriminate HQ. }
  destruct side.
  - exists a, (add zero vq). split; [exact Hav'|]. split; [exact HT|].
    cbn [bool_decide decide_rel]. rewrite bool_decide_eq_true_2 by reflexivity.
    unfold Position._apply_buy. munfold. rewrite Hside, Hs, Ha, Habs0.
    rewrite (gtb_zero_true (add zero vq)) by (rewrite HT; exact HQ).
    rewrite Hdiv. reflexivity.
  - exists a, (sub zero vq). split; [exact Hav'|]. split.
    { rewrite bool_decide_eq_false_2 by discriminate.
      rewrite sub_to_Q; rewrite to_Q_zero; [ring|].
      assert (E : (0 - to_Q vq == to_Q (mkDecimal (- dcoeff vq) (dexp vq)))%Q).
      { unfold to_Q. cbn. rewrite inject_Z_opp. ring. }
      rewrite E. apply fits_small. cbn. lia. }
    rewrite bool_decide_eq_false_2 by discriminate.
    unfold Position._apply_sell. munfold. rewrite Hside, Hs, Ha, Habs0.
    rewrite (gtb_zero_true (add zero vq)) by (rewrite HT; exact HQ).
    rewrite Hdiv. reflexivity.
Qed.


Lemma sub_to_Q_0 (x y : Decimal) : (to_Q x == to_Q y)%Q → (to_Q (sub x y) == 0)%Q.
Proof.
  intros H.
  assert (E : (to_Q x - to_Q y == 0)%Q) by (rewrite H; ring).
  rewrite sub_to_Q; [exact E|]. rewrite E. apply fits_0.
Qed.

Lemma add_to_Q_0 (x y : Decimal) : (to_Q x == - to_Q y)%Q → (to_Q (add x y) == 0)%Q.
Proof.
  intros H.
  assert (E : (to_Q x + to_Q y == 0)%Q) by (rewrite H; ring).
  rewrite add_to_Q; [exact E|]. rewrite E. apply fits_0.
Qed.

Lemma mul_to_Q_0_r (x y : Decimal) : (to_Q y == 0)%Q → (to_Q (mul x y) == 0)%Q.
Proof.
  intros H.
  assert (E : (to_Q x * to_Q y == 0)%Q) by (rewrite H; ring).
  rewrite mul_to_Q; [exact E|]. rewrite E. apply fits_0.
Qed.

Lemma abs_to_Q_eq (s v : Decimal) :
  fits (to_Q v) → (0 <= to_Q v)%Q →
  (to_Q s == to_Q v)%Q ∨ (to_Q s == - to_Q v)%Q →
  (to_Q (abs s) == to_Q v)%Q.
Proof.
  intros Hf Hv [H|H].
  - rewrite abs_to_Q by (rewrite H; exact Hf). rewrite H. apply Qabs_pos. exact Hv.
  - assert (Hfs : fits (to_Q s)).
    { destruct Hf as (m & t & Hm & E). exists (- m), t. split; [lia|].
      rewrite H, E. unfold to_Q. cbn [dcoeff dexp]. rewrite inject_Z_opp. ring. }
    rewrite abs_to_Q by exact Hfs. rewrite H, Qabs_opp. apply Qabs_pos. exact Hv.
Qed.

Lemma min_to_Q_same (a b : Decimal) :
  (to_Q a == to_Q b)%Q → (to_Q (min a b) == to_Q a)%Q.
Proof. intros H. destruct (min_cases a b) as [-> | ->]; [reflexivity|symmetry; exact H]. Qed.

(** A fill of Q at P on the opposite side of a position of size Q that was
    opened at P. *)
Lemma close_to_flat (p : Position.t) (side : OrderSide) (vq vp : Decimal) :
  Position.side p = (if bool_decide (side = BUY) then SHORT else LONG) →
  (to_Q (Position.signed_qty p)
   == (if bool_decide (side = BUY) then - to_Q vq else to_Q vq))%Q →
  (to_Q (Position.avg_px_open p) == to_Q vp)%Q →
  (to_Q (Position.realized_pnl p) == 0)%Q →
  fits (to_Q vq) → (0 <= to_Q vq)%Q →
  ∃ p',
    (if bool_decide (side = BUY) then Position._apply_buy vq vp
     else Position._apply_sell vq vp) p = (p', Ok tt)
    ∧ eqb (Position.realized_pnl p') zero = true
    ∧ Position.side p' = FLAT
    ∧ Position._events p' = Position._events p.
Proof.
  intros Hside Hs Ha Hr Hf Hq.
  set (s := Position.signed_qty p) in *.
  assert (Habs : (to_Q (abs s) == to_Q vq)%Q).
  { apply abs_to_Q_eq; [exact Hf|exact Hq|].
    destruct (bool_decide (side = BUY)); [right|left]; exact Hs. }
  assert (Hclose : (to_Q (min vq (abs s)) == to_Q vq)%Q).
  { apply min_to_Q_same. symmetry. exact Habs. }
  assert (Hrem : (to_Q (sub vq (min vq (abs s))) == 0)%Q).
  { apply sub_to_Q_0. symmetry. exact Hclose. }
  destruct side.
  - rewrite bool_decide_eq_true_2 in * by reflexivity.
    set (ns := add s vq).
    set (r := add (Position.realized_pnl p)
                (mul (min vq (abs s)) (sub (Position.avg_px_open p) vp))).
    assert (Hns : (to_Q ns == 0)%Q) by (apply add_to_Q_0; exact Hs).
    assert (Hr' : (to_Q r == 0)%Q).
    { apply add_to_Q_0. rewrite Hr, mul_to_Q_0_r; [ring|]. apply sub_to_Q_0. exact Ha. }
    set (p3 := Position.set_avg_px_close vp
                 (Position.set_signed_qty ns (Position.set_realized_pnl r p))).
    assert (Hstep : Position._apply_buy vq vp p = Position._update_side_and_qty p3).
    { unfold Position._apply_buy. munfold. rewrite Hside. fold s. fold ns.
      rewrite (gtb_zero_false _ ltac:(rewrite Hrem; apply Qle_refl)).
      rewrite (eqb_zero_true ns Hns). reflexivity. }
    eexists. rewrite Hstep.
    split; [apply (update_side_and_qty_eval p3 FLAT)|].
    + change (Position.signed_qty p3) with ns.
      rewrite (gtb_zero_false ns), (ltb_zero_false ns);
        [reflexivity|rewrite Hns; apply Qle_refl..].
    + change (Position.signed_qty p3) with ns. apply Quantity_new_zero.
      rewrite abs_to_Q by (rewrite Hns; apply fits_0). rewrite Hns. reflexivity.
    + cbn. split; [apply eqb_zero_true; exact Hr'|]. split; reflexivity.
  - rewrite bool_decide_eq_false_2 in * by discriminate.
    set (ns := sub s vq).
    set (r := add (Position.realized_pnl p)
                (mul (min vq (abs s)) (sub vp (Position.avg_px_open p)))).
    assert (Hns : (to_Q ns == 0)%Q) by (apply sub_to_Q_0; exact Hs).
    assert (Hr' : (to_Q r == 0)%Q).
    { apply add_to_Q_0. rewrite Hr, mul_to_Q_0_r; [ring|].
      apply sub_to_Q_0. symmetry. exact Ha. }
    set (p3 := Position.set_avg_px_close vp
                 (Position.set_signed_qty ns (Position.set_realized_pnl r p))).
    assert (Hstep : Position._apply_sell vq vp p = Position._update_side_and_qty p3).
    { unfold Position._apply_sell. munfold. rewrite Hside. fold s. fold ns.
      rewrite (gtb_zero_false _ ltac:(rewrite Hrem; apply Qle_refl)).
      rewrite (eqb_zero_true ns Hns). reflexivity. }
    eexists. rewrite Hstep.
    split; [apply (update_side_and_qty_eval p3 FLAT)|].
    + change (Position.signed_qty p3) with ns.
      rewrite (gtb_zero_false ns), (ltb_zero_false ns);
        [reflexivity|rewrite Hns; apply Qle_refl..].
    + change (Position.signed_qty p3) with ns. apply Quantity_new_zero.
      rewrite abs_to_Q by (rewrite Hns; apply fits_0). rewrite Hns. reflexivity.
    + cbn. split; [apply eqb_zero_true; exact Hr'|]. split; reflexivity.
Qed.

Lemma commission_recorded_fields (fill : OrderFilled.t) (p : Position.t) :
  Position.side (commission_recorded fill p) = Position.side p
  ∧ Position.signed_qty (commission_recorded fill p) = Position.signed_qty p
  ∧ Position.avg_px_open (commission_recorded fill p) = Position.avg_px_open p
  ∧ Position.realized_pnl (commission_recorded fill p) = Position.realized_pnl p
  ∧ Position._qty_precision (commission_recorded fill p) = Position._qty_precision p
  ∧ Position._events (commission_recorded fill p) = Position._events p.
Proof.
  unfold commission_recorded. destruct (OrderFilled.commission fill); repeat split.
Qed.

Definition position_fill (side : OrderSide) (q : Quantity.t) (p : Price.t)
    (commission : option Money.t) : OrderFilled.t :=
  OrderFilled.mk (Some "S-001") sample_instrument_id "O-001" (Some "V-001")
    (Some "SIM-001") (Some "T-001") (Some "P-001") side MARKET q p USD commission 0 0.

(** C6 (as amended): on a fresh position, an opening fill of Q > 0 at P
    followed by a fill of Q at P on the opposite side leaves realized_pnl
    equal to zero, side FLAT and is_closed true, in both orderings and
    whatever the commissions, provided the notional P * Q is representable
    in the 28 significant digits of the decimal context. *)
Theorem position_round_trip_flat (iid : InstrumentId.t) (pid : PositionId)
    (opening closing : OrderFilled.t) :
  let Q := OrderFilled.last_qty opening in
  let P := OrderFilled.last_px opening in
  OrderFilled.last_qty closing = Q →
  OrderFilled.last_px closing = P →
  OrderFilled.order_side closing ≠ OrderFilled.order_side opening →
  Quantity_wf Q → Price_wf P →
  0 < dcoeff (Quantity.value Q) →
  fits (to_Q (Price.value P) * to_Q (Quantity.value Q)) →
  ∃ p1 p2,
    Position.__init__ iid pid opening = Ok p1
    ∧ Position.apply closing p1 = (p2, Ok tt)
    ∧ eqb (Position.realized_pnl p2) zero = true
    ∧ Position.side p2 = FLAT
    ∧ Position.is_closed p2 = true.
Proof.
  intros Q P HQ HP Hopp [HQe HQc] [HPe HPc] Hpos Hfit.
  assert (HQpos : (0 < to_Q (Quantity.value Q))%Q).
  { unfold to_Q. apply Qmult_lt_0_compat; [|apply ten_pow_pos].
    change 0%Q with (inject_Z 0). rewrite <- Zlt_Qlt. exact Hpos. }
  assert (HQfit : fits (to_Q (Quantity.value Q))).
  { destruct (Quantity.value Q). apply fits_small. cbn in *. lia. }
  unfold Position.__init__. fold Q P.
  rewrite (Quantity_new_zero zero _ to_Q_zero). munfold.
  set (p0 := Position.mk _ _ _ _ _ _ _ _ _ _ _ _ _ _).
  rewrite apply_unfold. fold Q P.
  destruct (commission_recorded_fields opening p0) as (C1 & C2 & C3 & C4 & C5 & C6).
  destruct (open_from_flat (commission_recorded opening p0)
              (OrderFilled.order_side opening) (Quantity.value Q) (Price.value P))
    as (a & s & Ha & Hs & Hopen); try assumption; try lia.
  rewrite Hopen.
  set (pm := Position.set_signed_qty s _).
  set (sd := if bool_decide (OrderFilled.order_side opening = BUY) then LONG else SHORT).
  assert (Hupd : Position._update_side_and_qty pm
                 = (Position.set_quantity Q (Position.set_side sd pm), Ok tt)).
  { apply update_side_and_qty_eval.
    - change (Position.signed_qty pm) with s. unfold sd.
      destruct (bool_decide (OrderFilled.order_side opening = BUY)).
      + rewrite gtb_zero_true; [reflexivity|]. rewrite Hs. exact HQpos.
      + rewrite gtb_zero_false, ltb_zero_true; [reflexivity|..]; rewrite Hs.
        * apply (Qopp_lt_compat 0). exact HQpos.
        * apply Qlt_le_weak. apply (Qopp_lt_compat 0). exact HQpos.
    - change (Position.signed_qty pm) with s.
      change (Position._qty_precision pm)
        with (Position._qty_precision (commission_recorded opening p0)).
      rewrite C5. change (Position._qty_precision p0) with (Quantity.precision Q).
      apply Quantity_new_exact; [split; [exact HQe|lia]|].
      apply abs_to_Q_eq; [exact HQfit|apply Qlt_le_weak; exact HQpos|].
      destruct (bool_decide (OrderFilled.order_side opening = BUY)); [left|right]; exact Hs. }
  rewrite Hupd.
  set (p1 := Position.set_events _ _).
  exists p1. rewrite apply_unfold, HQ, HP. fold Q P.
  destruct (commission_recorded_fields closing p1) as (D1 & D2 & D3 & D4 & D5 & D6).
  assert (Hflip : bool_decide (OrderFilled.order_side closing = BUY)
                  = negb (bool_decide (OrderFilled.order_side opening = BUY))).
  { destruct (OrderFilled.order_side closing), (OrderFilled.order_side opening);
      try reflexivity; exfalso; apply Hopp; reflexivity. }
  destruct (close_to_flat (commission_recorded closing p1)
              (OrderFilled.order_side closing) (Quantity.value Q) (Price.value P))
    as (p' & Hclose & Hpnl & Hside & Hev).
  - rewrite D1, Hflip. change (Position.side p1) with sd. unfold sd.
    destruct (bool_decide (OrderFilled.order_side opening = BUY)); reflexivity.
  - rewrite D2, Hflip. change (Position.signed_qty p1) with s. rewrite Hs.
    destruct (bool_decide (OrderFilled.order_side opening = BUY)); cbn [negb]; reflexivity.
  - rewrite D3. exact Ha.
  - rewrite D4.
    change (Position.realized_pnl p1)
      with (Position.realized_pnl (commission_recorded opening p0)).
    rewrite C4. apply to_Q_zero.
  - exact HQfit.
  - apply Qlt_le_weak. exact HQpos.
  - rewrite Hclose. eexists. split; [reflexivity|]. split; [reflexivity|].
    split; [exact Hpnl|]. split; [exact Hside|].
    unfold Position.is_closed. cbn [Position.side Position.set_events Position._events].
    rewrite Hside, length_app. cbn [length].
    rewrite !bool_decide_eq_true_2 by (reflexivity || lia). reflexivity.
Qed.

Lemma position_round_trip_flat_witness :
  let opening := position_fill SELL (qty 100 0 0) (px 15000 (-2) 2)
                   (Some (money 150 (-2) USD)) in
  let closing := position_fill BUY (qty 100 0 0) (px 15000 (-2) 2) None in
  ∃ p1 p2,
    Position.__init__ sample_instrument_id "P-001" opening = Ok p1
    ∧ Position.apply closing p1 = (p2, Ok tt)
    ∧ eqb (Position.realized_pnl p2) zero = true
    ∧ Position.side p2 = FLAT
    ∧ Position.is_closed p2 = true.
Proof.
  intros opening closing.
  apply (position_round_trip_flat sample_instrument_id "P-001" opening closing).
  - reflexivity.
  - reflexivity.
  - discriminate.
  - split; [reflexivity|cbn; lia].
  - split; [reflexivity|cbn; lia].
  - cbn. lia.
  - exists 1500000, (-2). split; [lia|]. vm_compute. reflexivity.
Defined.

(** C6 as stated does not hold: with a price and a quantity of 8 decimals
    whose product has more than 28 digits, the average open price is rounded
    and the round trip realises a non-zero pnl. *)
Lemma position_round_trip_rounding :
  let Q := qty 54708321257442332 (-8) 8 in
  let P := px 8308397299876 (-8) 8 in
  ∃ p1 p2,
    Position.__init__ sample_instrument_id "P-001" (position_fill BUY Q P None) = Ok p1
    ∧ Position.avg_px_open p1 = mkDecimal 8308397299875999999999999999 (-23)
    ∧ Position.apply (position_fill SELL Q P None) p1 = (p2, Ok tt)
    ∧ Position.realized_pnl p2 = mkDecimal 54708321257442332 (-31)
    ∧ eqb (Position.realized_pnl p2) zero = false
    ∧ Position.side p2 = FLAT.
Proof.
  intros Q P. eexists. eexists.
  split; [vm_compute; reflexivity|].
  split; [vm_compute; reflexivity|].
  split; [vm_compute; reflexivity|].
  split; [vm_compute; reflexivity|].
  split; vm_compute; reflexivity.
Qed.

End PositionRoundTrip.

(** ** Inversion of the monadic operations *)

Section MonadInversion.
Context {S : Type}.

Lemma bind_Ok {A B} (m : M S A) (f : A → M S B) (s s' : S) (b : B) :
  (m ≫= f) s = (s', Ok b) → ∃ a s1, m s = (s1, Ok a) ∧ f a s1 = (s', Ok b).
Proof.
  unfold mbind, M_bind. destruct (m s) as [s1 [a|e]]; [eauto|discriminate].
Qed.

Lemma bind_eval {A B} (m : M S A) (f : A → M S B) (s s1 : S) (a : A) :
  m s = (s1, Ok a) → (m ≫= f) s = f a s1.
Proof. intros H. unfold mbind, M_bind. rewrite H. reflexivity. Qed.

Lemma bind_raise {A B} (m : M S A) (f : A → M S B) (s s1 : S) (e : Exception) :
  m s = (s1, Raise e) → (m ≫= f) s = (s1, Raise e).
Proof. intros H. unfold mbind, M_bind. rewrite H. reflexivity. Qed.

Lemma get_Ok (s s' a : S) : get s = (s', Ok a) → s' = s ∧ a = s.
Proof. intros [= <- <-]. auto. Qed.

Lemma modify_Ok (f : S → S) (s s' : S) (u : unit) :
  modify f s = (s', Ok u) → s' = f s.
Proof. intros [= <-]. reflexivity. Qed.

Lemma lift_Ok {A} (r : Result A) (s s' : S) (a : A) :
  lift r s = (s', Ok a) → s' = s ∧ r = Ok a.
Proof. intros [= <- ->]. auto. Qed.

Lemma skip_Ok (s s' : S) (u : unit) : skip s = (s', Ok u) → s' = s.
Proof. intros [= <-]. reflexivity. Qed.

End MonadInversion.

(** Take the next operation off a successful run [H]. *)
Ltac mstep H :=
  let a := fresh "a" in let s := fresh "s" in let H1 := fresh "H" in
  apply bind_Ok in H as (a & s & H1 & H);
  first
    [ apply get_Ok in H1 as [-> ->]
    | apply modify_Ok in H1 as ->
    | apply lift_Ok in H1 as [-> H1]
    | apply skip_Ok in H1 as ->
    | idtac ].

(** ** The quantities of an order *)

Section OrderQuantities.
Import decimal.

Lemma add_same_exp (a b e : Z) :
  add (mkDecimal a e) (mkDecimal b e) = _fix (mkDecimal (a + b) e).
Proof.
  unfold add, align. cbn [dcoeff dexp]. rewrite Z.min_id, Z.sub_diag.
  cbn [Z.pow]. rewrite !Z.mul_1_r. reflexivity.
Qed.

Lemma sub_same_exp (a b e : Z) :
  sub (mkDecimal a e) (mkDecimal b e) = _fix (mkDecimal (a - b) e).
Proof.
  unfold sub, align. cbn [dcoeff dexp]. rewrite Z.min_id, Z.sub_diag.
  cbn [Z.pow]. rewrite !Z.mul_1_r. reflexivity.
Qed.

(** Quantity.__init__ on a sum or difference of two coefficients at the
    quantum of the precision succeeds only with the exact result. *)
Lemma Quantity_new_fix (n precision : Z) (q : Quantity.t) :
  Quantity.new (_fix (mkDecimal n (quantum_exp precision))) precision = Ok q →
  q = Quantity.mk (mkDecimal n (quantum_exp precision)) precision
  ∧ 0 ≤ n < 10 ^ 28.
Proof.
  intros H. destruct (Z_lt_le_dec (Z.abs n) (10 ^ 28)) as [Hn|Hn].
  - rewrite fix_small in H by exact Hn. unfold Quantity.new in H.
    rewrite quantize_same_exp in H by exact Hn. munfold_in H.
    rewrite ltb_zero_r in H. cbn [dcoeff] in H.
    destruct (Z.ltb_spec n 0); [discriminate|]. injection H as <-.
    split; [reflexivity|lia].
  - unfold Quantity.new in H. rewrite quantize_fix_overflow in H by exact Hn.
    discriminate H.
Qed.

(** The quantities of the order are consistent: all three at the quantum of
    the order's precision, and the coefficients add up. *)
Record quantities_consistent (o : Order.t) : Prop := {
  qc_quantity : Quantity_wf (Order.quantity o);
  qc_filled :
    ∃ c, Order.filled_qty o
         = Quantity.mk (mkDecimal c (quantum_exp (Quantity.precision (Order.quantity o))))
             (Quantity.precision (Order.quantity o)) ∧ 0 ≤ c;
  qc_leaves :
    ∃ c, Order.leaves_qty o
         = Quantity.mk (mkDecimal c (quantum_exp (Quantity.precision (Order.quantity o))))
             (Quantity.precision (Order.quantity o)) ∧ 0 ≤ c;
  qc_sum :
    dcoeff (Quantity.value (Order.filled_qty o))
    + dcoeff (Quantity.value (Order.leaves_qty o))
    = dcoeff (Quantity.value (Order.quantity o)) }.

(** The quantity of the event is a Quantity of the given precision. *)
Definition event_precision (precision : Z) (ev : OrderEvent) : Prop :=
  match ev with
  | EvFilled e =>
      Quantity_wf (OrderFilled.last_qty e)
      ∧ Quantity.precision (OrderFilled.last_qty e) = precision
  | EvUpdated e =>
      match OrderUpdated.quantity e with
      | Some q => Quantity_wf q ∧ Quantity.precision q = precision
      | None => True
      end
  | _ => True
  end.

Lemma check_transition_Ok (st : OrderStatus) (o o' : Order.t) (u : unit) :
  Order._check_transition st o = (o', Ok u) → o' = o.
Proof.
  unfold Order._check_transition. munfold.
  destruct (bool_decide _); [|discriminate]. intros [= <-]. reflexivity.
Qed.

Lemma quantities_consistent_ext (o o' : Order.t) :
  Order.quantity o' = Order.quantity o →
  Order.filled_qty o' = Order.filled_qty o →
  Order.leaves_qty o' = Order.leaves_qty o →
  quantities_consistent o → quantities_consistent o'.
Proof.
  intros Hq Hf Hl [H1 H2 H3 H4]. split; rewrite ?Hq, ?Hf, ?Hl; assumption.
Qed.


Lemma apply_filled_consistent (e : OrderFilled.t) (o o' : Order.t) :
  quantities_consistent o →
  event_precision (Quantity.precision (Order.quantity o)) (EvFilled e) →
  Order._apply_filled e o = (o', Ok tt) →
  quantities_consistent o' ∧ Order.quantity o' = Order.quantity o.
Proof.
  intros [[Hqe Hqc] (cf & Hf & Hcf) (cl & Hl & Hcl) Hsum] [[Hxe Hxc] Hxp] H.
  destruct (Order.quantity o) as [[cq eq] p] eqn:Eq.
  destruct (OrderFilled.last_qty e) as [[cx ex] px'] eqn:Ex.
  cbn [Quantity.value Quantity.precision dcoeff dexp] in *. subst px' eq ex.
  unfold Order._apply_filled in H. mstep H. rewrite Eq, Ex, Hf in H.
  cbn [Quantity.value Quantity.precision] in H. rewrite add_same_exp in H.
  mstep H.
  assert (Hs : Order.quantity s = Order.quantity o).
  { destruct (gtb _ zero).
    - mstep H0. apply modify_Ok in H0 as ->. reflexivity.
    - apply skip_Ok in H0 as ->. reflexivity. }
  clear H0. mstep H. apply Quantity_new_fix in H0 as [-> Hnf].
  mstep H. rewrite fix_small, sub_same_exp in H by lia.
  mstep H. apply Quantity_new_fix in H0 as [-> Hnl].
  mstep H. mstep H. apply check_transition_Ok in H0 as ->. mstep H.
  assert (Hfin : Order.quantity o' = Order.quantity o
                 ∧ Order.filled_qty o'
                   = Quantity.mk (mkDecimal (cf + cx) (quantum_exp p)) p
                 ∧ Order.leaves_qty o'
                   = Quantity.mk (mkDecimal (cq - (cf + cx)) (quantum_exp p)) p).
  { destruct (OrderFilled.venue_order_id e).
    - apply modify_Ok in H as ->. cbn. rewrite Hs. auto.
    - apply skip_Ok in H as ->. cbn. rewrite Hs. auto. }
  destruct Hfin as (F1 & F2 & F3). split; [|rewrite F1; exact Eq].
  split; rewrite F1, ?F2, ?F3, Eq; cbn [Quantity.value Quantity.precision dcoeff dexp].
  - split; [reflexivity|exact Hqc].
  - exists (cf + cx). split; [reflexivity|lia].
  - exists (cq - (cf + cx)). split; [reflexivity|lia].
  - lia.
Qed.

Lemma apply_updated_consistent (e : OrderUpdated.t) (o o' : Order.t) :
  quantities_consistent o →
  event_precision (Quantity.precision (Order.quantity o)) (EvUpdated e) →
  Order._apply_updated e o = (o', Ok tt) →
  quantities_consistent o'
  ∧ Quantity.precision (Order.quantity o') = Quantity.precision (Order.quantity o).
Proof.
  intros Hc Hev H.
  unfold Order._apply_updated in H. mstep H. mstep H.
  assert (Hs : quantities_consistent s
               ∧ Quantity.precision (Order.quantity s)
                 = Quantity.precision (Order.quantity o)).
  { clear H. unfold Order._apply_updated_base in H0. mstep H0.
    mstep H0. apply check_transition_Ok in H1 as ->. apply modify_Ok in H0 as ->.
    cbn in Hev. destruct (OrderUpdated.quantity e) as [q|].
    - destruct Hc as [_ (cf & Hf & Hcf) _ _]. destruct Hev as [[Hqe Hqc] Hqp].
      destruct q as [[cq eq] p]. cbn [Quantity.value Quantity.precision dcoeff dexp] in *.
      subst eq. rewrite <- Hqp in Hf.
      mstep H. mstep H.
      cbn [Order.filled_qty Order.set_quantity Quantity.value Quantity.precision] in H.
      rewrite Hf in H. cbn [Quantity.value] in H.
      rewrite sub_same_exp in H. mstep H.
      apply Quantity_new_fix in H0 as [-> Hnl]. apply modify_Ok in H as ->.
      split; [|cbn; exact Hqp]. split; cbn.
      + split; [reflexivity|exact Hqc].
      + exists cf. split; [exact Hf|exact Hcf].
      + exists (cq - cf). split; [reflexivity|lia].
      + rewrite Hf. cbn. lia.
    - apply skip_Ok in H as ->. split; [|reflexivity].
      apply (quantities_consistent_ext o); auto. }
  destruct Hs as [Hs Hp]. rewrite <- Hp. clear H0. cbn in H.
  assert (Hfin : Order.quantity o' = Order.quantity s
                 ∧ Order.filled_qty o' = Order.filled_qty s
                 ∧ Order.leaves_qty o' = Order.leaves_qty s).
  { unfold Order.update_price, Order.update_trigger_price in H.
    destruct (Order.cls o).
    1,2: apply skip_Ok in H as ->; auto.
    - destruct (OrderUpdated.price e);
        [apply modify_Ok in H as ->|apply skip_Ok in H as ->]; auto.
    - destruct (OrderUpdated.trigger_price e);
        [apply modify_Ok in H as ->|apply skip_Ok in H as ->]; auto.
    - mstep H.
      destruct (OrderUpdated.price e);
        [apply modify_Ok in H0 as ->|apply skip_Ok in H0 as ->];
      (destruct (OrderUpdated.trigger_price e);
        [apply modify_Ok in H as ->|apply skip_Ok in H as ->]); auto. }
  destruct Hfin as (F1 & F2 & F3). rewrite F1. split; [|reflexivity].
  apply (quantities_consistent_ext s); assumption.
Qed.


Lemma apply_consistent (ev : OrderEvent) (o o' : Order.t) :
  quantities_consistent o →
  event_precision (Quantity.precision (Order.quantity o)) ev →
  Order.apply ev o = (o', Ok tt) →
  quantities_consistent o'
  ∧ Quantity.precision (Order.quantity o') = Quantity.precision (Order.quantity o).
Proof.
  intros Hc Hev H. unfold Order.apply in H.
  mstep H. mstep H. mstep H. apply modify_Ok in H as ->.
  assert (Hs : quantities_consistent s
               ∧ Quantity.precision (Order.quantity s)
                 = Quantity.precision (Order.quantity o)).
  { destruct a.
    destruct ev as [e|e|e|e|e|e|e|e|e];
      try (cbn in H0; mstep H0; apply check_transition_Ok in H as ->;
           mstep H0;
           assert (Hfin : Order.quantity s = Order.quantity o
                          ∧ Order.filled_qty s = Order.filled_qty o
                          ∧ Order.leaves_qty s = Order.leaves_qty o);
           [first [apply skip_Ok in H0 as ->
                  |destruct (OrderAccepted.venue_order_id e);
                   [apply modify_Ok in H0 as ->|apply skip_Ok in H0 as ->]]; auto
           |destruct Hfin as (F1 & F2 & F3); rewrite F1; split; [|reflexivity];
            apply (quantities_consistent_ext o); assumption]).
    - apply (apply_updated_consistent e); assumption.
    - destruct (apply_filled_consistent e o s Hc Hev H0) as [? ->]. auto. }
  destruct Hs as [Hs Hp]. split; [|exact Hp].
  apply (quantities_consistent_ext s); auto.
Qed.

(** The constructors of the order classes. *)
Definition constructed (init : OrderInitialized.t) (o : Order.t) : Prop :=
  (∃ c, Order.__init__ c init = Ok o)
  ∨ Order.new_market init = Ok o
  ∨ Order.new_limit init = Ok o
  ∨ Order.new_stop_market init = Ok o
  ∨ Order.new_stop_limit init = Ok o.

Lemma init_consistent (c : OrderClass) (init : OrderInitialized.t) (o : Order.t) :
  Quantity_wf (OrderInitialized.quantity init) →
  Order.__init__ c init = Ok o →
  quantities_consistent o ∧ Order.quantity o = OrderInitialized.quantity init.
Proof.
  intros Hwf H. unfold Order.__init__ in H.
  rewrite (Quantity_new_zero zero _ to_Q_zero) in H.
  rewrite (Quantity_new_exact _ _ Hwf) in H by reflexivity.
  munfold_in H. injection H as <-. cbn. split; [|reflexivity].
  destruct Hwf as [He Hc]. destruct (OrderInitialized.quantity init) as [[cq e] p].
  cbn in *. subst e. split; cbn.
  - split; [reflexivity|exact Hc].
  - exists 0. split; [reflexivity|lia].
  - exists cq. split; [reflexivity|lia].
  - lia.
Qed.

Lemma constructed_consistent (init : OrderInitialized.t) (o : Order.t) :
  Quantity_wf (OrderInitialized.quantity init) →
  constructed init o →
  quantities_consistent o ∧ Order.quantity o = OrderInitialized.quantity init.
Proof.
  intros Hwf [[c H]|[H|[H|[H|H]]]].
  - exact (init_consistent c init o Hwf H).
  - unfold Order.new_market in H. destruct (bool_decide _); [discriminate|].
    exact (init_consistent _ init o Hwf H).
  - unfold Order.new_limit in H. destruct (bool_decide _); [discriminate|].
    destruct (OrderInitialized.price init); [|discriminate].
    destruct (Order.__init__ LimitOrder init) as [o1|] eqn:E; [|discriminate].
    munfold_in H. injection H as <-.
    destruct (init_consistent _ init o1 Hwf E) as [Hc Hq]. split; [|exact Hq].
    apply (quantities_consistent_ext o1); auto.
  - unfold Order.new_stop_market in H. destruct (bool_decide _); [discriminate|].
    destruct (OrderInitialized.trigger_price init); [|discriminate].
    destruct (Order.__init__ StopMarketOrder init) as [o1|] eqn:E; [|discriminate].
    munfold_in H. injection H as <-.
    destruct (init_consistent _ init o1 Hwf E) as [Hc Hq]. split; [|exact Hq].
    apply (quantities_consistent_ext o1); auto.
  - unfold Order.new_stop_limit in H. destruct (bool_decide _); [discriminate|].
    destruct (OrderInitialized.trigger_price init); [|discriminate].
    destruct (OrderInitialized.price init); [|discriminate].
    destruct (Order.__init__ StopLimitOrder init) as [o1|] eqn:E; [|discriminate].
    munfold_in H. injection H as <-.
    destruct (init_consistent _ init o1 Hwf E) as [Hc Hq]. split; [|exact Hq].
    apply (quantities_consistent_ext o1); auto.
Qed.

Lemma apply_all_consistent (evs : list OrderEvent) (o o' : Order.t) :
  quantities_consistent o →
  Forall (event_precision (Quantity.precision (Order.quantity o))) evs →
  apply_all evs o = (o', Ok tt) →
  quantities_consistent o'.
Proof.
  revert o. induction evs as [|ev evs IH]; intros o Hc Hall H.
  - apply skip_Ok in H as ->. exact Hc.
  - cbn [apply_all] in H. mstep H. destruct a.
    apply Forall_cons in Hall as [Hev Hall].
    destruct (apply_consistent ev o s Hc Hev H0) as [Hs Hp].
    apply (IH s); [exact Hs|rewrite Hp; exact Hall|exact H].
Qed.

(** C3 (as amended): for an order built by one of the constructors from a
    well-formed quantity, and events whose quantities (the last_qty of a
    fill, the new quantity of an update) are well-formed quantities of the
    order's precision, filled_qty + leaves_qty = quantity holds after every
    sequence of events that Order.apply has accepted. *)
Theorem order_quantities_invariant (init : OrderInitialized.t)
    (evs : list OrderEvent) (o0 o : Order.t) :
  Quantity_wf (OrderInitialized.quantity init) →
  constructed init o0 →
  Forall (event_precision (Quantity.precision (OrderInitialized.quantity init))) evs →
  apply_all evs o0 = (o, Ok tt) →
  add (Quantity.value (Order.filled_qty o)) (Quantity.value (Order.leaves_qty o))
  = Quantity.value (Order.quantity o).
Proof.
  intros Hwf Hnew Hall H.
  destruct (constructed_consistent init o0 Hwf Hnew) as [Hc Hq].
  rewrite <- Hq in Hall.
  destruct (apply_all_consistent evs o0 o Hc Hall H)
    as [[Hqe Hqc] (cf & Hf & Hcf) (cl & Hl & Hcl) Hsum].
  rewrite Hf, Hl in *. cbn [Quantity.value dcoeff] in *.
  rewrite add_same_exp, Hsum, fix_small by lia.
  destruct (Order.quantity o) as [[cq e] p]. cbn in *. subst e. reflexivity.
Qed.

Lemma order_quantities_invariant_witness :
  ∃ o0 o,
    Order.new_market sample_init = Ok o0
    ∧ apply_all [sample_submitted; sample_accepted;
                 EvFilled (sample_fill (qty 40 0 0) (px 15000 (-2) 2));
                 EvFilled (sample_fill (qty 60 0 0) (px 15100 (-2) 2))] o0
      = (o, Ok tt)
    ∧ add (Quantity.value (Order.filled_qty o)) (Quantity.value (Order.leaves_qty o))
      = Quantity.value (Order.quantity o).
Proof.
  eexists. eexists.
  split; [vm_compute; reflexivity|]. split; [vm_compute; reflexivity|].
  eapply (order_quantities_invariant sample_init
            [sample_submitted; sample_accepted;
             EvFilled (sample_fill (qty 40 0 0) (px 15000 (-2) 2));
             EvFilled (sample_fill (qty 60 0 0) (px 15100 (-2) 2))]).
  - split; [reflexivity|cbn; lia].
  - right. left. vm_compute. reflexivity.
  - repeat constructor; cbn; lia.
  - vm_compute. reflexivity.
Defined.

(** C3 as stated does not hold: a fill whose quantity has one decimal more
    than the order's is accepted, and both filled_qty and leaves_qty are
    rounded half-up to the order's precision. *)
Lemma order_quantities_precision_mismatch :
  ∃ o0 o,
    Order.new_market sample_init = Ok o0
    ∧ apply_all [sample_submitted; sample_accepted;
                 EvFilled (sample_fill (qty 5 (-1) 1) (px 15000 (-2) 2))] o0
      = (o, Ok tt)
    ∧ Order.quantity o = qty 100 0 0
    ∧ Order.filled_qty o = qty 1 0 0
    ∧ Order.leaves_qty o = qty 100 0 0
    ∧ add (Quantity.value (Order.filled_qty o)) (Quantity.value (Order.leaves_qty o))
      = mkDecimal 101 0.
Proof.
  eexists. eexists.
  split; [vm_compute; reflexivity|]. split; [vm_compute; reflexivity|].
  repeat split.
Qed.

(** Once an application has raised, the sum can stay broken through later
    applications that are accepted: a second fill of 60 on an order for 100
    that is filled to 60 raises and leaves filled_qty at 120; the
    cancellation after it is accepted, and the order ends CANCELED with
    filled_qty 120 and leaves_qty 40. *)
Lemma order_quantities_after_refused_fill :
  ∃ o0 o1 o2 o3 e,
    Order.new_market sample_init = Ok o0
    ∧ apply_all [sample_submitted; sample_accepted;
                 EvFilled (sample_fill (qty 60 0 0) (px 15000 (-2) 2))] o0
      = (o1, Ok tt)
    ∧ Order.apply (EvFilled (sample_fill (qty 60 0 0) (px 15100 (-2) 2))) o1
      = (o2, Raise e)
    ∧ Order.apply sample_canceled o2 = (o3, Ok tt)
    ∧ Order.status o3 = CANCELED
    ∧ Order.quantity o3 = qty 100 0 0
    ∧ Order.filled_qty o3 = qty 120 0 0
    ∧ Order.leaves_qty o3 = qty 40 0 0.
Proof.
  eexists. eexists. eexists. eexists. eexists.
  split; [vm_compute; reflexivity|]. split; [vm_compute; reflexivity|].
  split; [vm_compute; reflexivity|]. split; [vm_compute; reflexivity|].
  repeat split.
Qed.

End OrderQuantities.

(** ** The average fill price of an order *)

Section OrderAveragePrice.
Import decimal.

(** What a fill that Order._apply_filled accepts does to filled_qty and
    avg_px. *)
Lemma apply_filled_avg_px (e : OrderFilled.t) (o o' : Order.t) :
  quantities_consistent o →
  event_precision (Quantity.precision (Order.quantity o)) (EvFilled e) →
  Order._apply_filled e o = (o', Ok tt) →
  let q := Quantity.value (OrderFilled.last_qty e) in
  let f := Quantity.value (Order.filled_qty o) in
  (to_Q (Quantity.value (Order.filled_qty o')) == to_Q f + to_Q q)%Q
  ∧ (to_Q (add f q) == to_Q f + to_Q q)%Q
  ∧ (if gtb (add f q) zero
     then div (add (mul (Order.avg_px o) f)
                   (mul (Price.value (OrderFilled.last_px e)) q)) (add f q)
          = Ok (Order.avg_px o')
     else Order.avg_px o' = Order.avg_px o).
Proof.
  intros [[Hqe Hqc] (cf & Hf & Hcf) (cl & Hl & Hcl) Hsum] [[Hxe Hxc] Hxp] H q f.
  subst q f.
  destruct (Order.quantity o) as [[cq eq] p] eqn:Eq.
  destruct (OrderFilled.last_qty e) as [[cx ex] px'] eqn:Ex.
  cbn [Quantity.value Quantity.precision dcoeff dexp] in *. subst px' eq ex.
  unfold Order._apply_filled in H. mstep H. rewrite Eq, Ex, Hf in H.
  cbn [Quantity.value Quantity.precision] in H.
  rewrite Hf. cbn [Quantity.value].
  set (nf := add _ _) in *.
  mstep H.
  assert (Hs : if gtb nf zero
               then ∃ a, div (add (mul (Order.avg_px o)
                                      (mkDecimal cf (quantum_exp p)))
                                  (mul (Price.value (OrderFilled.last_px e))
                                      (mkDecimal cx (quantum_exp p)))) nf = Ok a
                         ∧ s = Order.set_avg_px a o
               else s = o).
  { destruct (gtb nf zero).
    - mstep H0. apply modify_Ok in H0 as ->. eauto.
    - apply skip_Ok in H0 as ->. reflexivity. }
  clear H0. mstep H. unfold nf in H0. rewrite add_same_exp in H0.
  apply Quantity_new_fix in H0 as [-> Hnf].
  assert (Enf : nf = mkDecimal (cf + cx) (quantum_exp p)).
  { unfold nf. rewrite add_same_exp, fix_small by lia. reflexivity. }
  mstep H. mstep H. clear H0.
  mstep H. mstep H. apply check_transition_Ok in H0 as ->. mstep H.
  assert (Hfin : Order.filled_qty o'
                 = Quantity.mk (mkDecimal (cf + cx) (quantum_exp p)) p
                 ∧ Order.avg_px o' = Order.avg_px s).
  { destruct (OrderFilled.venue_order_id e).
    - apply modify_Ok in H as ->. cbn. auto.
    - apply skip_Ok in H as ->. cbn. auto. }
  destruct Hfin as [F1 F2]. rewrite F1, F2, Enf. cbn [Quantity.value].
  assert (Ev : (to_Q (mkDecimal (cf + cx) (quantum_exp p))
                == to_Q (mkDecimal cf (quantum_exp p))
                   + to_Q (mkDecimal cx (quantum_exp p)))%Q).
  { unfold to_Q. cbn [dcoeff dexp]. rewrite inject_Z_plus. ring. }
  split; [exact Ev|]. split; [exact Ev|].
  rewrite Enf in Hs. destruct (gtb _ zero).
  - destruct Hs as (av & Hd & ->). exact Hd.
  - rewrite Hs. reflexivity.
Qed.


Lemma to_Q_nonneg (d : Decimal) : 0 ≤ dcoeff d → (0 <= to_Q d)%Q.
Proof.
  intros H. unfold to_Q. apply Qmult_le_0_compat.
  - change 0%Q with (inject_Z 0). rewrite <- Zle_Qle. exact H.
  - apply Qlt_le_weak, ten_pow_pos.
Qed.

Lemma to_Q_coeff_neq_0 (d : Decimal) : ¬ (to_Q d == 0)%Q → dcoeff d ≠ 0.
Proof.
  intros H E. apply H. destruct d as [c e]. cbn in E. subst c.
  apply to_Q_zero_coeff.
Qed.

(** An event that is not a fill leaves filled_qty and avg_px alone. *)
Lemma apply_not_fill (ev : OrderEvent) (o o' : Order.t) :
  (∀ e, ev ≠ EvFilled e) →
  Order.apply ev o = (o', Ok tt) →
  Order.filled_qty o' = Order.filled_qty o ∧ Order.avg_px o' = Order.avg_px o.
Proof.
  intros Hev H. unfold Order.apply in H.
  mstep H. mstep H. mstep H. apply modify_Ok in H as ->.
  cbn [Order.filled_qty Order.avg_px Order.set_ts_last Order.set_events].
  destruct ev as [e|e|e|e|e|e|e|e|e];
    try (cbn in H0; mstep H0; apply check_transition_Ok in H as ->;
         mstep H0;
         first [apply skip_Ok in H0 as ->
               |destruct (OrderAccepted.venue_order_id e);
                [apply modify_Ok in H0 as ->|apply skip_Ok in H0 as ->]];
         auto).
  - unfold Order._apply_updated in H0. mstep H0. mstep H0.
    assert (Hs : Order.filled_qty s0 = Order.filled_qty o
                 ∧ Order.avg_px s0 = Order.avg_px o).
    { clear H0. unfold Order._apply_updated_base in H. mstep H.
      mstep H. apply check_transition_Ok in H1 as ->. apply modify_Ok in H as ->.
      destruct (OrderUpdated.quantity e).
      - mstep H0. mstep H0. mstep H0. apply modify_Ok in H0 as ->. auto.
      - apply skip_Ok in H0 as ->. auto. }
    destruct Hs as [<- <-]. clear H.
    unfold Order.update_price, Order.update_trigger_price in H0.
    destruct (Order.cls o).
    1,2: apply skip_Ok in H0 as ->; auto.
    + destruct (OrderUpdated.price e);
        [apply modify_Ok in H0 as ->|apply skip_Ok in H0 as ->]; auto.
    + destruct (OrderUpdated.trigger_price e);
        [apply modify_Ok in H0 as ->|apply skip_Ok in H0 as ->]; auto.
    + mstep H0.
      destruct (OrderUpdated.price e);
        [apply modify_Ok in H as ->|apply skip_Ok in H as ->];
      (destruct (OrderUpdated.trigger_price e);
        [apply modify_Ok in H0 as ->|apply skip_Ok in H0 as ->]); auto.
  - exfalso. exact (Hev e eq_refl).
Qed.

Lemma apply_fill (e : OrderFilled.t) (o o' : Order.t) :
  Order.apply (EvFilled e) o = (o', Ok tt) →
  ∃ s, Order._apply_filled e o = (s, Ok tt)
       ∧ Order.filled_qty o' = Order.filled_qty s
       ∧ Order.avg_px o' = Order.avg_px s.
Proof.
  intros H. unfold Order.apply in H.
  mstep H. mstep H. mstep H. apply modify_Ok in H as ->. destruct a.
  exists s. auto.
Qed.

(** The exact notional and volume of a fill, and of a list of fills. *)
Definition fill_notional (e : OrderFilled.t) : Q :=
  to_Q (Price.value (OrderFilled.last_px e))
  * to_Q (Quantity.value (OrderFilled.last_qty e)).

Definition fill_volume (e : OrderFilled.t) : Q :=
  to_Q (Quantity.value (OrderFilled.last_qty e)).

Fixpoint notional (fills : list OrderFilled.t) : Q :=
  match fills with
  | [] => 0
  | e :: rest => fill_notional e + notional rest
  end.

Fixpoint volume (fills : list OrderFilled.t) : Q :=
  match fills with
  | [] => 0
  | e :: rest => fill_volume e + volume rest
  end.

Fixpoint fills_of (evs : list OrderEvent) : list OrderFilled.t :=
  match evs with
  | [] => []
  | EvFilled e :: rest => e :: fills_of rest
  | _ :: rest => fills_of rest
  end.

(** Every intermediate result of the running average is representable in
    the 28 digits of the context: the notional of each fill, the running
    notional and the running mean.  [N] and [V] are the notional and the
    volume of the fills applied before. *)
Fixpoint representable (N V : Q) (fills : list OrderFilled.t) : Prop :=
  match fills with
  | [] => True
  | e :: rest =>
      fits (fill_notional e)
      ∧ fits (N + fill_notional e)
      ∧ fits ((N + fill_notional e) / (V + fill_volume e))
      ∧ representable (N + fill_notional e) (V + fill_volume e) rest
  end.


(** The order has been filled for the volume [V] and the notional [N], and
    its average price is their quotient. *)
Record mean_invariant (o : Order.t) (N V : Q) : Prop := {
  mi_consistent : quantities_consistent o;
  mi_volume : (to_Q (Quantity.value (Order.filled_qty o)) == V)%Q;
  mi_fits : fits N;
  mi_mean : (to_Q (Order.avg_px o) == N / V)%Q;
  mi_zero : (V == 0)%Q → (N == 0)%Q }.

Lemma fill_mean_invariant (e : OrderFilled.t) (o o' : Order.t) (N V : Q) :
  mean_invariant o N V →
  event_precision (Quantity.precision (Order.quantity o)) (EvFilled e) →
  fits (fill_notional e) →
  fits (N + fill_notional e) →
  fits ((N + fill_notional e) / (V + fill_volume e)) →
  Order.apply (EvFilled e) o = (o', Ok tt) →
  mean_invariant o' (N + fill_notional e) (V + fill_volume e).
Proof.
  intros [Hc HV HfN Hm Hz] Hev F1 F2 F3 H.
  destruct (apply_fill e o o' H) as (s & Hs & Ef & Ea).
  destruct (apply_filled_avg_px e o s Hc Hev Hs) as (A1 & A2 & A3).
  destruct (apply_consistent _ o o' Hc Hev H) as [Hc' _].
  unfold fill_notional, fill_volume in *.
  set (q := Quantity.value (OrderFilled.last_qty e)) in *.
  set (f := Quantity.value (Order.filled_qty o)) in *.
  set (px := Price.value (OrderFilled.last_px e)) in *.
  assert (Hq0 : (0 <= to_Q q)%Q).
  { apply to_Q_nonneg. destruct Hev as [[_ Hx] _]. fold q in Hx. lia. }
  assert (HV0 : (0 <= V)%Q).
  { rewrite <- HV. apply to_Q_nonneg. destruct Hc as [_ (c & Hf & Hc0) _ _].
    unfold f. rewrite Hf. exact Hc0. }
  assert (HavgF : (to_Q (Order.avg_px o) * to_Q f == N)%Q).
  { rewrite Hm, HV. destruct (Qeq_dec V 0) as [E|E].
    - rewrite (Hz E), E. unfold Qdiv. ring.
    - field. exact E. }
  split.
  - exact Hc'.
  - rewrite Ef, A1, HV. reflexivity.
  - exact F2.
  - rewrite Ea. destruct (gtb (add f q) zero) eqn:G.
    + apply gtb_to_Q in G. rewrite to_Q_zero, A2, HV in G.
      set (X := add (mul (Order.avg_px o) f) (mul px q)) in *.
      assert (HX : (to_Q X == N + to_Q px * to_Q q)%Q).
      { unfold X.
        assert (E1 : (to_Q (mul (Order.avg_px o) f) == N)%Q).
        { rewrite mul_to_Q; rewrite HavgF; [reflexivity|exact HfN]. }
        assert (E2 : (to_Q (mul px q) == to_Q px * to_Q q)%Q).
        { apply mul_to_Q. exact F1. }
        rewrite add_to_Q; rewrite E1, E2; [reflexivity|exact F2]. }
      destruct (div_to_Q X (add f q)) as (d & Hd & Hdv).
      * apply to_Q_coeff_neq_0. rewrite A2, HV. intros E. rewrite E in G.
        exact (Qlt_irrefl _ G).
      * rewrite HX, A2, HV. exact F3.
      * rewrite A3 in Hd. injection Hd as <-. rewrite Hdv, HX, A2, HV. reflexivity.
    + assert (G' : ¬ (0 < V + to_Q q)%Q).
      { intros L. rewrite <- HV, <- A2, <- to_Q_zero in L.
        apply gtb_to_Q in L. congruence. }
      apply Qnot_lt_le in G'.
      assert (Eq0 : (to_Q q == 0)%Q) by lra.
      assert (EV : (V == 0)%Q) by lra.
      rewrite A3, Hm, Eq0. apply Qdiv_comp; ring.
  - intros E.
    assert (Eq0 : (to_Q q == 0)%Q) by lra.
    assert (EV : (V == 0)%Q) by lra.
    rewrite (Hz EV), Eq0. ring.
Qed.

Lemma other_mean_invariant (ev : OrderEvent) (o o' : Order.t) (N V : Q) :
  (∀ e, ev ≠ EvFilled e) →
  mean_invariant o N V →
  event_precision (Quantity.precision (Order.quantity o)) ev →
  Order.apply ev o = (o', Ok tt) →
  mean_invariant o' N V.
Proof.
  intros Hev [Hc HV HfN Hm Hz] Hp H.
  destruct (apply_not_fill ev o o' Hev H) as [Ef Ea].
  destruct (apply_consistent _ o o' Hc Hp H) as [Hc' _].
  split; rewrite ?Ef, ?Ea; assumption.
Qed.

Lemma apply_all_mean (evs : list OrderEvent) (o o' : Order.t) (N V : Q) :
  mean_invariant o N V →
  Forall (event_precision (Quantity.precision (Order.quantity o))) evs →
  representable N V (fills_of evs) →
  apply_all evs o = (o', Ok tt) →
  (to_Q (Order.avg_px o')
   == (N + notional (fills_of evs)) / (V + volume (fills_of evs)))%Q.
Proof.
  revert o N V. induction evs as [|ev evs IH]; intros o N V Hinv Hall Hrep H.
  - apply skip_Ok in H as ->. cbn [fills_of notional volume].
    rewrite (mi_mean _ _ _ Hinv). apply Qdiv_comp; ring.
  - cbn [apply_all] in H. mstep H. destruct a.
    apply Forall_cons in Hall as [Hev Hall].
    destruct (apply_consistent ev o s (mi_consistent _ _ _ Hinv) Hev H0) as [_ Hp].
    rewrite <- Hp in Hall.
    assert (Hother : (∀ e, ev ≠ EvFilled e) → fills_of (ev :: evs) = fills_of evs →
                     (to_Q (Order.avg_px o')
                      == (N + notional (fills_of (ev :: evs)))
                         / (V + volume (fills_of (ev :: evs))))%Q).
    { intros Hne Hfs. rewrite Hfs in *.
      apply (IH s); try assumption.
      apply (other_mean_invariant ev o); assumption. }
    destruct ev as [e|e|e|e|e|e|e|e|e];
      try (apply Hother; [discriminate|reflexivity]).
    clear Hother. cbn [fills_of notional volume representable] in *.
    destruct Hrep as (F1 & F2 & F3 & Hrep).
    pose proof (fill_mean_invariant e o s N V Hinv Hev F1 F2 F3 H0) as Hs.
    rewrite (IH s _ _ Hs Hall Hrep H). apply Qdiv_comp; ring.
Qed.

Lemma constructed_unfilled (init : OrderInitialized.t) (o : Order.t) :
  constructed init o →
  dcoeff (Quantity.value (Order.filled_qty o)) = 0 ∧ Order.avg_px o = zero.
Proof.
  assert (Hinit : ∀ c o1, Order.__init__ c init = Ok o1 →
            dcoeff (Quantity.value (Order.filled_qty o1)) = 0 ∧ Order.avg_px o1 = zero).
  { intros c o1 H. unfold Order.__init__ in H.
    rewrite (Quantity_new_zero zero _ to_Q_zero) in H.
    destruct (Quantity.new _ _); munfold_in H; [|discriminate].
    injection H as <-. cbn. auto. }
  intros [[c H]|[H|[H|[H|H]]]].
  - exact (Hinit c o H).
  - unfold Order.new_market in H. destruct (bool_decide _); [discriminate|].
    exact (Hinit _ o H).
  - unfold Order.new_limit in H. destruct (bool_decide _); [discriminate|].
    destruct (OrderInitialized.price init); [|discriminate].
    destruct (Order.__init__ LimitOrder init) as [o1|] eqn:E; [|discriminate].
    munfold_in H. injection H as <-. exact (Hinit _ o1 E).
  - unfold Order.new_stop_market in H. destruct (bool_decide _); [discriminate|].
    destruct (OrderInitialized.trigger_price init); [|discriminate].
    destruct (Order.__init__ StopMarketOrder init) as [o1|] eqn:E; [|discriminate].
    munfold_in H. injection H as <-. exact (Hinit _ o1 E).
  - unfold Order.new_stop_limit in H. destruct (bool_decide _); [discriminate|].
    destruct (OrderInitialized.trigger_price init); [|discriminate].
    destruct (OrderInitialized.price init); [|discriminate].
    destruct (Order.__init__ StopLimitOrder init) as [o1|] eqn:E; [|discriminate].
    munfold_in H. injection H as <-. exact (Hinit _ o1 E).
Qed.

(** C5 (as amended): for an order built by one of the constructors, after
    every sequence of events that Order.apply has accepted, avg_px is the
    exact quantity-weighted mean of the prices of the fills applied,
    provided the quantities of the events have the order's precision and
    every intermediate result of the running average (the notional of each
    fill, the running notional, the running mean) is representable in the
    28 significant digits of the decimal context. *)
Theorem avg_px_weighted_mean (init : OrderInitialized.t)
    (evs : list OrderEvent) (o0 o : Order.t) :
  Quantity_wf (OrderInitialized.quantity init) →
  constructed init o0 →
  Forall (event_precision (Quantity.precision (OrderInitialized.quantity init))) evs →
  representable 0 0 (fills_of evs) →
  apply_all evs o0 = (o, Ok tt) →
  (to_Q (Order.avg_px o) == notional (fills_of evs) / volume (fills_of evs))%Q.
Proof.
  intros Hwf Hnew Hall Hrep H.
  destruct (constructed_consistent init o0 Hwf Hnew) as [Hc Hq].
  destruct (constructed_unfilled init o0 Hnew) as [Hf Ha].
  rewrite <- Hq in Hall.
  assert (Hinv : mean_invariant o0 0 0).
  { split.
    - exact Hc.
    - destruct (Quantity.value (Order.filled_qty o0)) as [c e]. cbn in Hf. subst c.
      apply to_Q_zero_coeff.
    - apply fits_0.
    - rewrite Ha. rewrite to_Q_zero. reflexivity.
    - reflexivity. }
  rewrite (apply_all_mean evs o0 o 0 0 Hinv Hall Hrep H). apply Qdiv_comp; ring.
Qed.


Lemma avg_px_weighted_mean_witness :
  let fills := [sample_fill (qty 40 0 0) (px 15000 (-2) 2);
                sample_fill (qty 60 0 0) (px 15100 (-2) 2)] in
  ∃ o0 o,
    Order.new_market sample_init = Ok o0
    ∧ apply_all ([sample_submitted; sample_accepted] ++ map EvFilled fills) o0
      = (o, Ok tt)
    ∧ Order.avg_px o = mkDecimal 15060 (-2)
    ∧ (to_Q (Order.avg_px o) == notional fills / volume fills)%Q.
Proof.
  intros fills. eexists. eexists.
  split; [vm_compute; reflexivity|]. split; [vm_compute; reflexivity|].
  split; [reflexivity|].
  eapply (avg_px_weighted_mean sample_init
            ([sample_submitted; sample_accepted] ++ map EvFilled fills)).
  - split; [reflexivity|cbn; lia].
  - right. left. vm_compute. reflexivity.
  - repeat constructor; cbn; lia.
  - cbn [fills app map fills_of sample_submitted sample_accepted representable].
    repeat split.
    + exists 6000, 0. split; [lia|vm_compute; reflexivity].
    + exists 6000, 0. split; [lia|vm_compute; reflexivity].
    + exists 150, 0. split; [lia|vm_compute; reflexivity].
    + exists 9060, 0. split; [lia|vm_compute; reflexivity].
    + exists 15060, 0. split; [lia|vm_compute; reflexivity].
    + exists 1506, (-1). split; [lia|vm_compute; reflexivity].
  - vm_compute. reflexivity.
Defined.

(** C5 as stated does not hold: the quotient is rounded to 28 significant
    digits, so a mean that is not a decimal of at most 28 digits is not
    what avg_px holds.  Fills of 1 at 1 and of 2 at 2 have the mean 5/3. *)
Lemma avg_px_rounded_mean :
  let fills := [sample_fill (qty 1 0 0) (px 1 0 0);
                sample_fill (qty 2 0 0) (px 2 0 0)] in
  ∃ o0 o,
    Order.new_market sample_init = Ok o0
    ∧ apply_all ([sample_submitted; sample_accepted] ++ map EvFilled fills) o0
      = (o, Ok tt)
    ∧ Order.avg_px o = mkDecimal 1666666666666666666666666667 (-27)
    ∧ (notional fills / volume fills == 5 # 3)%Q
    ∧ ¬ (to_Q (Order.avg_px o) == notional fills / volume fills)%Q.
Proof.
  intros fills. eexists. eexists.
  split; [vm_compute; reflexivity|]. split; [vm_compute; reflexivity|].
  split; [reflexivity|]. split; [vm_compute; reflexivity|].
  intros H. vm_compute in H. discriminate H.
Qed.

End OrderAveragePrice.

(** ** What an operation leaves alone *)

Section Preserves.
Context {S B : Type} (f : S → B).

(** The operation does not change the projection [f] of the state, whether
    it returns or raises. *)
Definition preserves {A} (m : M S A) : Prop :=
  ∀ s s' r, m s = (s', r) → f s' = f s.

Lemma preserves_ret {A} (a : A) : preserves (mret a).
Proof. intros s s' r [= <- _]. reflexivity. Qed.

Lemma preserves_skip : preserves skip.
Proof. apply preserves_ret. Qed.

Lemma preserves_get : preserves get.
Proof. intros s s' r [= <- _]. reflexivity. Qed.

Lemma preserves_lift {A} (x : Result A) : preserves (lift x).
Proof. intros s s' r [= <- _]. reflexivity. Qed.

Lemma preserves_raise {A} (e : Exception) : preserves (raise (A:=A) e).
Proof. intros s s' r [= <- _]. reflexivity. Qed.

Lemma preserves_modify (g : S → S) : (∀ s, f (g s) = f s) → preserves (modify g).
Proof. intros Hg s s' r [= <- _]. apply Hg. Qed.

Lemma preserves_bind {A C} (m : M S A) (k : A → M S C) :
  preserves m → (∀ a, preserves (k a)) → preserves (m ≫= k).
Proof.
  intros Hm Hk s s' r. unfold mbind, M_bind.
  destruct (m s) as [s1 [a|e]] eqn:E.
  - intros H. rewrite (Hk a _ _ _ H). exact (Hm _ _ _ E).
  - intros [= <- _]. exact (Hm _ _ _ E).
Qed.

End Preserves.

(** Decompose the goal [preserves f m] along the structure of [m]. *)
Ltac preserves_step :=
  first
    [ apply preserves_bind; [|intros ?]
    | apply preserves_ret
    | apply preserves_skip
    | apply preserves_get
    | apply preserves_lift
    | apply preserves_raise
    | apply preserves_modify; intros ?; reflexivity
    | match goal with
      | |- preserves _ (match ?x with _ => _ end) => destruct x
      | |- preserves _ (if ?b then _ else _) => destruct b
      end ].

Ltac preserves_auto := repeat preserves_step.

(** ** The attributes of an order that no event changes *)

Section OrderStatic.

Definition static (o : Order.t) :=
  (Order.cls o, Order.client_order_id o, Order.instrument_id o,
   Order.strategy_id o, Order.side o, Order.order_type o).

Lemma check_transition_static (st : OrderStatus) :
  preserves static (Order._check_transition st).
Proof. unfold Order._check_transition. preserves_auto. Qed.

Lemma apply_static (ev : OrderEvent) : preserves static (Order.apply ev).
Proof.
  unfold Order.apply. apply preserves_bind; [|intros ?; preserves_auto].
  destruct ev; cbn [Order._EVENT_TO_STATUS];
    try (apply preserves_bind; [apply check_transition_static|intros ?; preserves_auto]).
  - unfold Order._apply_updated. apply preserves_bind; [preserves_auto|intros self].
    apply preserves_bind.
    + unfold Order._apply_updated_base. apply preserves_bind; [preserves_auto|intros ?].
      apply preserves_bind; [apply check_transition_static|intros ?; preserves_auto].
    + intros ?. unfold Order.update_price, Order.update_trigger_price. preserves_auto.
  - unfold Order._apply_filled. preserves_auto.
Qed.

End OrderStatic.

(** ** The parts of the world that the matching of an order depends on *)

Section WorldView.
Import SimulatedExchange.
Variable v : Venue.

Definition exchange_view (e : SimulatedExchange.t) :=
  (_instruments e, _open_orders e, has_exec_engine e).

(** The order objects, the cache's primary order map and, of the exchange
    of the venue [v], its instruments, its resting orders and its link to
    the execution engine. *)
Definition view (w : World) :=
  (heap w, Cache._orders (cache w), exchange_view <$> (_venues w !! v)).

Lemma view_publish (topic : string) (msg : Message) :
  preserves view (publish topic msg).
Proof. unfold publish. preserves_auto. Qed.

Lemma view_modify_cache (f : Cache.t → Cache.t) :
  (∀ c, Cache._orders (f c) = Cache._orders c) →
  preserves view (modify_cache f).
Proof.
  intros Hf. apply preserves_modify. intros w. unfold view. cbn. rewrite Hf.
  reflexivity.
Qed.

Lemma view_get_exchange (v' : Venue) : preserves view (get_exchange v').
Proof. unfold get_exchange. preserves_auto. Qed.

Lemma view_modify_exchange (v' : Venue) (f : SimulatedExchange.t → SimulatedExchange.t) :
  (∀ e, exchange_view (f e) = exchange_view e) →
  preserves view (modify_exchange v' f).
Proof.
  intros Hf w w' r. unfold modify_exchange, get_exchange. munfold.
  destruct (_venues w !! v') as [e|] eqn:E; intros [= <- _]; [|reflexivity].
  unfold view. cbn. f_equal. destruct (decide (v' = v)) as [->|Hne].
  - rewrite lookup_insert_eq, E. cbn. rewrite Hf. reflexivity.
  - rewrite lookup_insert_ne by exact Hne. reflexivity.
Qed.

Lemma view_on_account {A} (v' : Venue) (m : M Account.t A) :
  preserves view (on_account v' m).
Proof.
  unfold on_account. apply preserves_bind; [apply view_get_exchange|intros self].
  destruct (m (account self)) as [acc r].
  apply preserves_bind; [|intros ?; apply preserves_lift].
  apply view_modify_exchange. intros e. reflexivity.
Qed.

Lemma view_position_apply (pid : PositionId) (fill : OrderFilled.t) :
  preserves view (position_apply pid fill).
Proof.
  intros w w' r. unfold position_apply.
  destruct (Cache._positions (cache w) !! pid) as [p|]; [|intros [= <- _]; reflexivity].
  destruct (Position.apply fill p) as [p' x]. intros [= <- _]. reflexivity.
Qed.

Lemma view_publish_position_update (event : OrderFilled.t) (order : Order.t)
    (position : Position.t) :
  preserves view (ExecutionEngine.publish_position_update event order position).
Proof.
  unfold ExecutionEngine.publish_position_update.
  apply preserves_bind; [apply view_modify_cache; intros c; reflexivity|intros ?].
  destruct (Position.is_closed position); apply view_publish.
Qed.

Lemma view_open_position (event : OrderFilled.t) (order : Order.t) :
  preserves view (ExecutionEngine._open_position event order).
Proof.
  unfold ExecutionEngine._open_position.
  apply preserves_bind; [apply preserves_get|intros w].
  apply preserves_bind; [apply preserves_modify; intros ?; reflexivity|intros ?].
  apply preserves_bind; [apply preserves_lift|intros position].
  apply preserves_bind; [|intros ?; apply view_publish].
  apply view_modify_cache. intros c. unfold Cache.add_position.
  destruct (Position.strategy_id position); reflexivity.
Qed.

Lemma view_fill_first_open_position (event : OrderFilled.t) (order : Order.t) :
  preserves view (ExecutionEngine.fill_first_open_position event order).
Proof.
  unfold ExecutionEngine.fill_first_open_position.
  apply preserves_bind; [apply preserves_get|intros w].
  destruct (Cache.positions_open _ _ _) as [|[pid p] rest].
  - apply view_open_position.
  - apply preserves_bind; [apply view_position_apply|intros ?].
    apply view_publish_position_update.
Qed.

Lemma view_handle_fill_hedging (event : OrderFilled.t) (order : Order.t) :
  preserves view (ExecutionEngine._handle_fill_hedging event order).
Proof.
  unfold ExecutionEngine._handle_fill_hedging.
  apply preserves_bind; [apply preserves_get|intros w].
  destruct (OrderFilled.position_id event) as [pid|];
    [|apply view_fill_first_open_position].
  destruct (Cache.position pid (cache w)); [|apply view_fill_first_open_position].
  apply preserves_bind; [apply view_position_apply|intros ?].
  apply view_publish_position_update.
Qed.


Lemma deref_Ok (l : loc) (w w' : World) (o : Order.t) :
  deref l w = (w', Ok o) → w' = w ∧ heap w !! l = Some o.
Proof.
  unfold deref. munfold. destruct (heap w !! l); [|discriminate].
  intros [= <- <-]. auto.
Qed.

Lemma get_exchange_Ok (v' : Venue) (w w' : World) (e : SimulatedExchange.t) :
  get_exchange v' w = (w', Ok e) → w' = w ∧ _venues w !! v' = Some e.
Proof.
  unfold get_exchange. munfold. destruct (_venues w !! v'); [|discriminate].
  intros [= <- <-]. auto.
Qed.

Lemma order_apply_Ok (l : loc) (ev : OrderEvent) (w w' : World) (u : unit) :
  order_apply l ev w = (w', Ok u) →
  ∃ o o', heap w !! l = Some o ∧ Order.apply ev o = (o', Ok tt)
          ∧ w' = set_heap (<[l := o']> (heap w)) w.
Proof.
  unfold order_apply. destruct (heap w !! l) as [o|]; [|discriminate].
  destruct (Order.apply ev o) as [o' r] eqn:E. intros [= <- ->].
  destruct u. eauto.
Qed.

Lemma view_eq (w w' : World) :
  view w' = view w →
  heap w' = heap w
  ∧ Cache._orders (cache w') = Cache._orders (cache w)
  ∧ exchange_view <$> (_venues w' !! v) = exchange_view <$> (_venues w !! v).
Proof. intros [= -> -> ->]. auto. Qed.

Lemma view_exchange (w w' : World) (e : SimulatedExchange.t) :
  view w' = view w → _venues w !! v = Some e →
  ∃ e', _venues w' !! v = Some e' ∧ exchange_view e' = exchange_view e.
Proof.
  intros Hv He. apply view_eq in Hv as (_ & _ & Hv). rewrite He in Hv.
  destruct (_venues w' !! v) as [e'|]; [|discriminate].
  cbn in Hv. exists e'. split; [reflexivity|congruence].
Qed.

(** The execution engine applies a fill to the order object that the cache
    holds under the fill's client order id, and changes nothing else of
    what [view] shows. *)
Lemma handle_fill_effect (ev : OrderFilled.t) (l : loc) (o : Order.t)
    (w w' : World) :
  Cache._orders (cache w) !! OrderFilled.client_order_id ev = Some l →
  heap w !! l = Some o →
  Order.client_order_id o = OrderFilled.client_order_id ev →
  ExecutionEngine._handle_fill ev w = (w', Ok tt) →
  ∃ o', Order.apply (EvFilled ev) o = (o', Ok tt)
        ∧ view w' = (<[l := o']> (heap w), Cache._orders (cache w),
                     exchange_view <$> (_venues w !! v)).
Proof.
  intros Hc Hl Hid H. unfold ExecutionEngine._handle_fill in H.
  apply bind_Ok in H as (w0 & s & H0 & H). apply get_Ok in H0 as [-> ->].
  unfold Cache.order in H. rewrite Hc in H.
  apply bind_Ok in H as ([] & w1 & H1 & H).
  apply order_apply_Ok in H1 as (o0 & o' & Hl' & Happ & ->).
  rewrite Hl in Hl'. injection Hl' as <-.
  apply bind_Ok in H as (order & w2 & H2 & H).
  apply deref_Ok in H2 as [-> H2]. cbn in H2. rewrite lookup_insert_eq in H2.
  injection H2 as <-.
  apply bind_Ok in H as ([] & w3 & H3 & H). apply modify_Ok in H3 as ->.
  apply bind_Ok in H as ([] & w4 & H4 & H). apply modify_Ok in H4 as ->.
  apply bind_Ok in H as (w5 & w6 & H5 & H). apply get_Ok in H5 as [-> ->].
  exists o'. split; [exact Happ|].
  assert (Hv : view w' = view (set_published
                 (published w ++ [(order_topic o', MsgOrderEvent (EvFilled ev))])
                 (set_cache (Cache.update_order l o' (cache w))
                    (set_heap (<[l := o']> (heap w)) w)))).
  { destruct (bool_decide _).
    - exact (view_fill_first_open_position _ _ _ _ _ H).
    - exact (view_handle_fill_hedging _ _ _ _ _ H). }
  rewrite Hv. unfold view. cbn. f_equal. f_equal.
  pose proof (apply_static _ _ _ _ Happ) as Hst. injection Hst as _ Hst _ _ _ _.
  rewrite Hst, Hid. apply insert_id. exact Hc.
Qed.


(** SimulatedExchange._fill_order: the fill is for the whole of leaves_qty,
    at the price given, and reaches the order object through the cache. *)
Lemma fill_order_effect (l : loc) (o : Order.t) (px : Price.t) (ts : Z)
    (ex : SimulatedExchange.t) (w w' : World) :
  heap w !! l = Some o →
  _venues w !! v = Some ex →
  has_exec_engine ex = true →
  Cache._orders (cache w) !! Order.client_order_id o = Some l →
  Exchange._fill_order v l px ts w = (w', Ok tt) →
  ∃ ev o',
    OrderFilled.last_qty ev = Order.leaves_qty o
    ∧ OrderFilled.last_px ev = px
    ∧ OrderFilled.ts_event ev = ts
    ∧ Order.apply (EvFilled ev) o = (o', Ok tt)
    ∧ view w' = (<[l := o']> (heap w), Cache._orders (cache w),
                 Some (exchange_view ex)).
Proof.
  intros Hl Hex Hee Hc H. unfold Exchange._fill_order in H.
  apply bind_Ok in H as (order & w0 & H0 & H).
  apply deref_Ok in H0 as [-> H0]. rewrite Hl in H0. injection H0 as <-.
  apply bind_Ok in H as (self & w0 & H0 & H).
  apply get_exchange_Ok in H0 as [-> H0]. rewrite Hex in H0. injection H0 as <-.
  apply bind_Ok in H as (commission & w0 & H0 & H).
  apply lift_Ok in H0 as [-> _].
  apply bind_Ok in H as ([] & w1 & H1 & H).
  assert (V1 : view w1 = view w).
  { eapply view_modify_exchange; [|exact H1]. intros ?. reflexivity. }
  apply bind_Ok in H as ([] & w2 & H2 & H).
  assert (V2 : view w2 = view w1).
  { destruct (bool_decide _);
      (destruct (Account.balance_free _ _);
       [exact (view_on_account _ _ _ _ _ H2)|exact (preserves_skip _ _ _ _ H2)]). }
  apply bind_Ok in H as ([] & w3 & H3 & H).
  apply view_on_account in H3. rewrite V2, V1 in H3. clear H1 H2 V1 V2 w1 w2.
  unfold Exchange.call_exec_engine in H.
  apply bind_Ok in H as (self & w0 & H0 & H).
  apply get_exchange_Ok in H0 as [-> H0].
  destruct (view_exchange _ _ _ H3 Hex) as (e' & He' & Hv').
  rewrite He' in H0. injection H0 as <-.
  assert (Hee' : has_exec_engine e' = true) by (injection Hv' as _ _ ->; exact Hee).
  rewrite Hee' in H. cbn [ExecutionEngine.process_event] in H.
  apply view_eq in H3 as (Vh & Vc & Ve).
  set (filled := OrderFilled.mk _ _ _ _ _ _ _ _ _ _ _ _ _ _ _) in H.
  destruct (handle_fill_effect filled l o w3 w') as (o' & Happ & Hv);
    [rewrite Vc; exact Hc|rewrite Vh; exact Hl|reflexivity|exact H|].
  exists filled, o'. repeat split; [exact Happ|].
  rewrite Hv, Vh, Vc, Ve, Hex. reflexivity.
Qed.


(** A resting order is the object the cache holds under its client order
    id. *)
Definition resting_cached (w : World) (l : loc) : Prop :=
  ∃ o, heap w !! l = Some o
       ∧ Cache._orders (cache w) !! Order.client_order_id o = Some l.

Lemma resting_cached_update (w w' : World) (l l' : loc) (o o' : Order.t) :
  heap w !! l = Some o →
  static o' = static o →
  heap w' = <[l := o']> (heap w) →
  Cache._orders (cache w') = Cache._orders (cache w) →
  resting_cached w l' → resting_cached w' l'.
Proof.
  intros Hl Hst Hh Hc (o1 & H1 & H2). unfold resting_cached. rewrite Hh, Hc.
  destruct (decide (l' = l)) as [->|Hne].
  - exists o'. rewrite lookup_insert_eq. split; [reflexivity|].
    rewrite Hl in H1. injection H1 as <-.
    injection Hst as _ -> _ _ _ _. exact H2.
  - exists o1. rewrite lookup_insert_ne by congruence. auto.
Qed.

Lemma check_fill_view (e e' : SimulatedExchange.t) (o : Order.t) (bar : Bar.t) :
  exchange_view e' = exchange_view e → _check_fill e' o bar = _check_fill e o bar.
Proof. intros [= E _ _]. unfold _check_fill. rewrite E. reflexivity. Qed.

(** What the matching of one bar does to the order object [r] found
    afterwards at the location of a resting order [o]. *)
Definition matched (ex : SimulatedExchange.t) (bar : Bar.t) (o : Order.t)
    (r : option Order.t) : Prop :=
  if InstrumentId.eqb (Order.instrument_id o) (Bar.instrument_id bar)
     && Order.is_open o
  then match _check_fill ex o bar with
       | Ok (Some px) =>
           ∃ ev o',
             OrderFilled.last_qty ev = Order.leaves_qty o
             ∧ OrderFilled.last_px ev = px
             ∧ OrderFilled.ts_event ev = Bar.ts_event bar
             ∧ Order.apply (EvFilled ev) o = (o', Ok tt)
             ∧ r = Some o'
       | Ok None => r = Some o
       | Raise _ => False
       end
  else r = Some o.

(** One turn of the loop of process_bar. *)
Lemma match_orders_cons (bar : Bar.t) (ex : SimulatedExchange.t) (l : loc)
    (rest acc : list loc) (w w' : World) (rem : list loc) :
  exchange_view <$> (_venues w !! v) = Some (exchange_view ex) →
  has_exec_engine ex = true →
  resting_cached w l →
  Exchange.match_orders v bar (l :: rest) acc w = (w', Ok rem) →
  ∃ o w1 acc1,
    heap w !! l = Some o
    ∧ Exchange.match_orders v bar rest acc1 w1 = (w', Ok rem)
    ∧ matched ex bar o (heap w1 !! l)
    ∧ Cache._orders (cache w1) = Cache._orders (cache w)
    ∧ exchange_view <$> (_venues w1 !! v) = Some (exchange_view ex)
    ∧ (∃ o1, heap w1 = <[l := o1]> (heap w) ∧ static o1 = static o)
    ∧ (acc1 = acc
       ∨ acc1 = acc ++ [l]
         ∧ InstrumentId.eqb (Order.instrument_id o) (Bar.instrument_id bar) = true).
Proof.
  intros Hx Hee (o & Hl & Hc) H. cbn [Exchange.match_orders] in H.
  apply bind_Ok in H as (order & w0 & H0 & H).
  apply deref_Ok in H0 as [-> H0]. rewrite Hl in H0. injection H0 as <-.
  exists o. unfold matched.
  assert (Hsame : ∀ acc1, Exchange.match_orders v bar rest acc1 w = (w', Ok rem) →
            acc1 = acc
            ∨ acc1 = acc ++ [l]
              ∧ InstrumentId.eqb (Order.instrument_id o) (Bar.instrument_id bar) = true →
            heap w !! l = Some o
            ∧ Exchange.match_orders v bar rest acc1 w = (w', Ok rem)
            ∧ heap w !! l = Some o
            ∧ Cache._orders (cache w) = Cache._orders (cache w)
            ∧ exchange_view <$> (_venues w !! v) = Some (exchange_view ex)
            ∧ (∃ o1, heap w = <[l := o1]> (heap w) ∧ static o1 = static o)
            ∧ (acc1 = acc
               ∨ acc1 = acc ++ [l]
                 ∧ InstrumentId.eqb (Order.instrument_id o) (Bar.instrument_id bar)
                   = true)).
  { intros acc1 Hm Hacc. repeat split; try assumption.
    exists o. split; [|reflexivity]. symmetry. apply insert_id. exact Hl. }
  destruct (InstrumentId.eqb _ _); cbn [negb andb] in *;
    [|exists w, acc; apply Hsame; [exact H|left; reflexivity]].
  destruct (Order.is_open o); cbn [negb] in *;
    [|exists w, (acc ++ [l]); apply Hsame; [exact H|right; split; reflexivity]].
  apply bind_Ok in H as (self & w0 & H0 & H).
  apply get_exchange_Ok in H0 as [-> H0].
  assert (Hxv : exchange_view self = exchange_view ex).
  { rewrite H0 in Hx. cbn in Hx. congruence. }
  rewrite <- (check_fill_view _ _ _ _ Hxv).
  apply bind_Ok in H as (fill_px & w0 & H1 & H).
  apply lift_Ok in H1 as [-> H1]. rewrite H1.
  destruct fill_px as [px|];
    [|exists w, acc; apply Hsame; [exact H|left; reflexivity]].
  apply bind_Ok in H as ([] & w1 & H2 & H).
  assert (Hee' : has_exec_engine self = true).
  { injection Hxv as _ _ ->. exact Hee. }
  destruct (fill_order_effect l o px (Bar.ts_event bar) self w w1 Hl H0 Hee' Hc H2)
    as (ev & o' & E1 & E2 & E3 & Happ & Hv).
  apply (f_equal (λ x, x.1.1)) in Hv as Vh. cbn in Vh.
  apply (f_equal (λ x, x.1.2)) in Hv as Vc. cbn in Vc.
  apply (f_equal (λ x, x.2)) in Hv as Ve. cbn in Ve.
  exists w1, (acc ++ [l]). split; [exact Hl|]. split; [exact H|].
  split; [|split; [exact Vc|split; [rewrite Ve, Hxv; reflexivity|split]]].
  - exists ev, o'. rewrite Vh, lookup_insert_eq. auto.
  - exists o'. split; [exact Vh|]. exact (apply_static _ _ _ _ Happ).
  - right. split; reflexivity.
Qed.

Section Matching.
Variables (bar : Bar.t) (ex : SimulatedExchange.t).
Hypothesis Hee : has_exec_engine ex = true.




End Matching.

End WorldView.

(** ** The fill rules of the matching engine *)

Section FillRules.
Import decimal SimulatedExchange.










(** A limit order to buy 100 at 100.12 ... *)
Definition sample_limit_order : Order.t :=
  Eval vm_compute in
    match Order.new_limit
            (OrderInitialized.mk (Some "S-001") sample_instrument_id "O-003" BUY
               LIMIT (qty 100 0 0) GTC (Some (px 10012 (-2) 2)) None 0 0) with
    | Ok o => o
    | Raise _ => sample_filled_order
    end.

(** ... submitted in a world, where it rests at the location 1. *)
Definition with_resting_limit_order (w : World) : World :=
  (ExecutionEngineCommands.submit_order 1%positive
     (with_order 1%positive sample_limit_order w)).1.


End FillRules.

(** ** Orders resting on an exchange *)

Section Resting.
Import SimulatedExchange.
Variable v : Venue.

(** The order object at [l] rests on the exchange of the venue [v], the
    exchange is linked to the execution engine, and each of its resting
    orders, listed once, is the object the cache holds under its client
    order id. *)
Definition resting (w : World) (l : loc) : Prop :=
  ∃ ex, _venues w !! v = Some ex
        ∧ has_exec_engine ex = true
        ∧ NoDup (_open_orders ex)
        ∧ Forall (resting_cached w) (_open_orders ex)
        ∧ l ∈ _open_orders ex.

Lemma modify_exchange_Ok (v' : Venue) (f : SimulatedExchange.t → SimulatedExchange.t)
    (w w' : World) (u : unit) :
  modify_exchange v' f w = (w', Ok u) →
  ∃ e, _venues w !! v' = Some e ∧ w' = set_venues (<[v' := f e]> (_venues w)) w.
Proof.
  unfold modify_exchange. intros H.
  apply bind_Ok in H as (e & w0 & H0 & H).
  apply get_exchange_Ok in H0 as [-> H0]. apply modify_Ok in H as ->. eauto.
Qed.

Lemma remove_first_sublist (x : loc) (ls : list loc) :
  Exchange.remove_first x ls `sublist_of` ls.
Proof.
  induction ls as [|y ls IH]; cbn; [reflexivity|].
  destruct (bool_decide (y = x)).
  - apply sublist_cons. reflexivity.
  - apply sublist_skip. exact IH.
Qed.

Lemma remove_orders_sublist (rem ls : list loc) :
  Exchange.remove_orders rem ls `sublist_of` ls.
Proof.
  unfold Exchange.remove_orders. revert ls.
  induction rem as [|x rem IH]; intros ls; cbn; [reflexivity|].
  etransitivity; [apply IH|].
  destruct (bool_decide _); [apply remove_first_sublist|reflexivity].
Qed.

Lemma elem_of_remove_first (x y : loc) (ls : list loc) :
  y ≠ x → y ∈ ls → y ∈ Exchange.remove_first x ls.
Proof.
  intros Hne. induction ls as [|z ls IH]; cbn; [auto|].
  intros Hin. destruct (bool_decide (z = x)) eqn:E.
  - apply bool_decide_eq_true in E as ->.
    apply elem_of_cons in Hin as [->|Hin]; [contradiction|exact Hin].
  - apply elem_of_cons in Hin as [->|Hin]; [apply list_elem_of_here|].
    apply list_elem_of_further, IH, Hin.
Qed.

Lemma elem_of_remove_orders (y : loc) (rem ls : list loc) :
  y ∉ rem → y ∈ ls → y ∈ Exchange.remove_orders rem ls.
Proof.
  unfold Exchange.remove_orders. revert ls.
  induction rem as [|x rem IH]; intros ls Hnin Hin; cbn; [exact Hin|].
  apply not_elem_of_cons in Hnin as [Hne Hnin]. apply IH; [exact Hnin|].
  destruct (bool_decide _); [apply elem_of_remove_first; assumption|exact Hin].
Qed.

(** The loop of process_bar passes over an order of another instrument. *)
Lemma match_orders_skip (bar : Bar.t) (ex : SimulatedExchange.t) (l : loc)
    (o : Order.t) (L : list loc) (orders acc : list loc) (w wm : World)
    (rem : list loc) :
  has_exec_engine ex = true →
  exchange_view <$> (_venues w !! v) = Some (exchange_view ex) →
  Forall (resting_cached w) orders →
  Forall (resting_cached w) L →
  heap w !! l = Some o →
  InstrumentId.eqb (Order.instrument_id o) (Bar.instrument_id bar) = false →
  l ∉ acc →
  Exchange.match_orders v bar orders acc w = (wm, Ok rem) →
  heap wm !! l = Some o
  ∧ (l ∉ rem)
  ∧ Forall (resting_cached wm) L
  ∧ exchange_view <$> (_venues wm !! v) = Some (exchange_view ex).
Proof.
  intros Hee. revert acc w.
  induction orders as [|l' rest IH]; intros acc w Hx Hall HL Hl Hi Hacc H.
  - injection H as <- <-. auto.
  - apply Forall_cons in Hall as [Hl' Hall].
    destruct (match_orders_cons v bar ex l' rest acc w wm rem Hx Hee Hl' H)
      as (o' & w1 & acc1 & Hlo & Hm & Hmat & Hc & Hx1 & (o1 & Hh & Hst) & Hacc1).
    assert (Hkeep : ∀ K, Forall (resting_cached w) K → Forall (resting_cached w1) K).
    { intros K HK. eapply Forall_impl; [exact HK|]. intros l2.
      exact (resting_cached_update w w1 l' l2 o' o1 Hlo Hst Hh Hc). }
    apply (IH acc1 w1); auto.
    + destruct (decide (l' = l)) as [->|Hne].
      * rewrite Hl in Hlo. injection Hlo as <-. unfold matched in Hmat.
        rewrite Hi in Hmat. exact Hmat.
      * rewrite Hh, lookup_insert_ne by exact Hne. exact Hl.
    + destruct Hacc1 as [->|[-> Hi']]; [exact Hacc|].
      apply not_elem_of_app. split; [exact Hacc|].
      intros Hin. apply list_elem_of_singleton in Hin as ->.
      rewrite Hl in Hlo. injection Hlo as <-. congruence.
Qed.

(** A bar of another instrument leaves the order resting as it was. *)
Lemma process_bar_skip (bar : Bar.t) (w w2 : World) (l : loc) (o : Order.t) :
  resting w l →
  heap w !! l = Some o →
  InstrumentId.eqb (Order.instrument_id o) (Bar.instrument_id bar) = false →
  Exchange.process_bar v bar w = (w2, Ok tt) →
  heap w2 !! l = Some o ∧ resting w2 l.
Proof.
  intros (ex & Hex & Hee & Hnd & Hall & Hin) Hl Hi H.
  unfold Exchange.process_bar in H.
  apply bind_Ok in H as (self & w0 & H0 & H).
  apply get_exchange_Ok in H0 as [-> H0]. rewrite Hex in H0. injection H0 as <-.
  apply bind_Ok in H as (rem & wm & Hm & H).
  destruct (match_orders_skip bar ex l o (_open_orders ex) (_open_orders ex) []
              w wm rem Hee) as (Hlm & Hrem & Hallm & Hxm); try assumption.
  { rewrite Hex. reflexivity. }
  { apply not_elem_of_nil. }
  apply modify_exchange_Ok in H as (e & He & ->).
  assert (Hxe : exchange_view e = exchange_view ex).
  { rewrite He in Hxm. cbn in Hxm. congruence. }
  injection Hxe as Xi Xo Xe.
  split; [exact Hlm|].
  exists (set_open_orders (Exchange.remove_orders rem (_open_orders e)) e).
  cbn. rewrite lookup_insert_eq, Xo.
  split; [reflexivity|]. split; [congruence|].
  split; [eapply sublist_NoDup; [exact Hnd|apply remove_orders_sublist]|].
  split; [|apply elem_of_remove_orders; assumption].
  rewrite Forall_forall in Hallm |- *. intros x Hx.
  apply (Hallm x). eapply elem_of_sublist; [exact Hx|apply remove_orders_sublist].
Qed.

End Resting.

(** ** Market orders rest until the next bar *)

Section MarketOrders.
Import decimal SimulatedExchange.






Lemma add_order_orders (l : loc) (o : Order.t) (c : Cache.t) :
  Cache._orders (Cache.add_order l o c)
  = <[Order.client_order_id o := l]> (Cache._orders c).
Proof. unfold Cache.add_order. destruct (Order.strategy_id o); reflexivity. Qed.








Definition sample_market_order : Order.t :=
  Eval vm_compute in
    match Order.new_market sample_init with
    | Ok o => o
    | Raise _ => sample_filled_order
    end.


End MarketOrders.

(** ** The engine with its subscribers, when the handlers leave it alone *)

Section LiveInversion.
Context {S : Type}.

Lemma live_bind_Ok {A B} (m : Live.D S A) (f : A → Live.D S B) (s s' : S) (b : B) :
  (m ≫= f) s = Some (s', Ok b) →
  ∃ a s1, m s = Some (s1, Ok a) ∧ f a s1 = Some (s', Ok b).
Proof.
  unfold mbind, Live.D_bind. destruct (m s) as [[s1 [a|e]]|]; [eauto|discriminate..].
Qed.

Lemma live_get_state_Ok (s s' a : S) :
  Live.get_state s = Some (s', Ok a) → s' = s ∧ a = s.
Proof. intros [= <- <-]. auto. Qed.

Lemma live_ret_Ok {A} (a b : A) (s s' : S) :
  (mret a : Live.D S A) s = Some (s', Ok b) → s' = s ∧ b = a.
Proof. intros [= <- <-]. auto. Qed.

End LiveInversion.

Section Simulation.
Context {Callable U : Type}.
Variable handler : Live.Handlers Callable U.

Lemma on_world_Ok {A} (m : M World A) (s s' : Live.State Callable U) (a : A) :
  Live.on_world m s = Some (s', Ok a) →
  m (Live.world s) = (Live.world s', Ok a)
  ∧ Live._subscriptions s' = Live._subscriptions s
  ∧ Live.user s' = Live.user s.
Proof.
  unfold Live.on_world. destruct (m (Live.world s)) as [w r].
  intros [= <- ->]. auto.
Qed.

(** Every call of a handler that returns leaves the world of the engine as
    it was. *)
Definition inert : Prop :=
  ∀ (h : Callable) (api : Live.Api Callable U) (msg : Message)
    (s s' : Live.State Callable U) (u : unit),
    handler h api msg s = Some (s', Ok u) → Live.world s' = Live.world s.

(** When the call [d] of the engine with its subscribers returns, the
    engine on its own does from the same world what [d] did to the
    world. *)
Definition sim {A} (d : Live.D (Live.State Callable U) A) (m : M World A) : Prop :=
  ∀ s s' a, d s = Some (s', Ok a) → m (Live.world s) = (Live.world s', Ok a).

Lemma sim_ret {A} (a : A) : sim (mret a) (mret a).
Proof. intros s s' b [= <- <-]. reflexivity. Qed.

Lemma sim_on_world {A} (m : M World A) : sim (Live.on_world m) m.
Proof. intros s s' a H. apply on_world_Ok in H as [H _]. exact H. Qed.

Lemma sim_bind {A B} (d : Live.D (Live.State Callable U) A)
    (k : A → Live.D (Live.State Callable U) B) (m : M World A) (k' : A → M World B) :
  sim d m → (∀ a, sim (k a) (k' a)) → sim (d ≫= k) (m ≫= k').
Proof.
  intros Hd Hk s s' b H. apply live_bind_Ok in H as (a & s1 & H1 & H2).
  rewrite (bind_eval _ _ _ _ _ (Hd _ _ _ H1)). exact (Hk a _ _ _ H2).
Qed.

End Simulation.

(** Decompose the goal [sim handler d m] along the common structure of
    [d] and [m]. *)
Ltac sim_step :=
  first
    [ apply sim_on_world
    | apply sim_ret
    | apply sim_bind; [|intros ?]
    | match goal with
      | |- sim (match ?x with _ => _ end) _ => destruct x
      | |- sim (if ?b then _ else _) _ => destruct b
      end ].

Ltac sim_using known := repeat (cbv zeta; first [known|sim_step]).

Ltac sim_auto := sim_using fail.

Section HandlersInert.
Context {Callable U : Type}.
Variable handler : Live.Handlers Callable U.
Hypothesis Hinert : inert handler.
Variable api : Live.Api Callable U.

Lemma sim_call_handlers (fuel : nat) (topic : string) (msg : Message) (i : nat) :
  sim (Live.MessageBus.call_handlers handler api fuel topic msg i) skip.
Proof.
  revert i. induction fuel as [|fuel IH]; intros i s s' u H; [discriminate|].
  cbn [Live.MessageBus.call_handlers] in H.
  apply live_bind_Ok in H as (s0 & s1 & H0 & H).
  apply live_get_state_Ok in H0 as [-> ->].
  destruct (default [] (Live._subscriptions s !! topic) !! i) as [h|].
  - apply live_bind_Ok in H as (u1 & s1 & H1 & H).
    apply IH in H. rewrite <- (Hinert _ _ _ _ _ _ H1). exact H.
  - apply live_ret_Ok in H as [-> ->]. reflexivity.
Qed.

Lemma sim_publish (fuel : nat) (topic : string) (msg : Message) :
  sim (Live.MessageBus.publish handler api fuel topic msg) (publish topic msg).
Proof.
  intros s s' u H. unfold Live.MessageBus.publish in H.
  apply live_bind_Ok in H as ([] & s1 & H1 & H).
  apply on_world_Ok in H1 as [H1 _].
  apply live_bind_Ok in H as (s0 & s2 & H0 & H).
  apply live_get_state_Ok in H0 as [-> ->].
  destruct (Live._subscriptions s1 !! topic).
  - apply sim_call_handlers in H. injection H as H. rewrite H1, <- H. destruct u.
    reflexivity.
  - apply live_ret_Ok in H as [-> ->]. exact H1.
Qed.

Variable fuel : nat.

Lemma sim_handle_order_event (event : OrderEvent) :
  sim (Live.ExecutionEngine._handle_order_event handler api fuel event)
      (ExecutionEngine._handle_order_event event).
Proof.
  unfold Live.ExecutionEngine._handle_order_event, ExecutionEngine._handle_order_event.
  sim_using ltac:(apply sim_publish).
Qed.

Lemma sim_publish_position_update (event : OrderFilled.t) (order : Order.t)
    (position : Position.t) :
  sim (Live.ExecutionEngine.publish_position_update handler api fuel event order position)
      (ExecutionEngine.publish_position_update event order position).
Proof.
  unfold Live.ExecutionEngine.publish_position_update,
    ExecutionEngine.publish_position_update.
  sim_using ltac:(apply sim_publish).
Qed.

Lemma sim_open_position (event : OrderFilled.t) (order : Order.t) :
  sim (Live.ExecutionEngine._open_position handler api fuel event order)
      (ExecutionEngine._open_position event order).
Proof.
  unfold Live.ExecutionEngine._open_position, ExecutionEngine._open_position.
  sim_using ltac:(apply sim_publish).
Qed.

Lemma sim_fill_first_open_position (event : OrderFilled.t) (order : Order.t) :
  sim (Live.ExecutionEngine.fill_first_open_position handler api fuel event order)
      (ExecutionEngine.fill_first_open_position event order).
Proof.
  unfold Live.ExecutionEngine.fill_first_open_position,
    ExecutionEngine.fill_first_open_position.
  apply sim_bind; [apply sim_on_world|intros w].
  destruct (Cache.positions_open _ _ _) as [|[pid p] rest].
  - apply sim_open_position.
  - apply sim_bind; [apply sim_on_world|intros position].
    apply sim_publish_position_update.
Qed.

Lemma sim_handle_fill_hedging (event : OrderFilled.t) (order : Order.t) :
  sim (Live.ExecutionEngine._handle_fill_hedging handler api fuel event order)
      (ExecutionEngine._handle_fill_hedging event order).
Proof.
  unfold Live.ExecutionEngine._handle_fill_hedging,
    ExecutionEngine._handle_fill_hedging.
  apply sim_bind; [apply sim_on_world|intros w].
  destruct (OrderFilled.position_id event) as [pid|];
    [|apply sim_fill_first_open_position].
  destruct (Cache.position pid (cache w)); [|apply sim_fill_first_open_position].
  apply sim_bind; [apply sim_on_world|intros position].
  apply sim_publish_position_update.
Qed.

End HandlersInert.

(** ** What the engine on its own leaves unchanged *)

Section EngineFrame.
Import SimulatedExchange.
Variable l : loc.

(** The attributes of the order object at [l] that no event changes, and
    the exchanges. *)
Definition frame (w : World) := (static <$> heap w !! l, _venues w).

Lemma frame_order_apply (l' : loc) (ev : OrderEvent) :
  preserves frame (order_apply l' ev).
Proof.
  intros w w' r. unfold order_apply.
  destruct (heap w !! l') as [o|] eqn:E; [|intros [= <- _]; reflexivity].
  destruct (Order.apply ev o) as [o' x] eqn:Ea. intros [= <- _].
  unfold frame. cbn. f_equal. destruct (decide (l = l')) as [->|Hne].
  - rewrite lookup_insert_eq, E. cbn. f_equal. exact (apply_static _ _ _ _ Ea).
  - rewrite lookup_insert_ne by congruence. reflexivity.
Qed.

Lemma frame_position_apply (pid : PositionId) (fill : OrderFilled.t) :
  preserves frame (position_apply pid fill).
Proof.
  intros w w' r. unfold position_apply.
  destruct (Cache._positions (cache w) !! pid) as [p|]; [|intros [= <- _]; reflexivity].
  destruct (Position.apply fill p) as [p' x]. intros [= <- _]. reflexivity.
Qed.

Ltac frame_auto :=
  repeat first
    [ apply frame_order_apply
    | apply frame_position_apply
    | progress unfold deref, modify_cache, publish
    | preserves_step ].

Lemma frame_handle_order_event (ev : OrderEvent) :
  preserves frame (ExecutionEngine._handle_order_event ev).
Proof. unfold ExecutionEngine._handle_order_event. frame_auto. Qed.

Lemma frame_fill_first_open_position (ev : OrderFilled.t) (o : Order.t) :
  preserves frame (ExecutionEngine.fill_first_open_position ev o).
Proof.
  unfold ExecutionEngine.fill_first_open_position,
    ExecutionEngine.publish_position_update, ExecutionEngine._open_position.
  frame_auto.
Qed.

Lemma frame_handle_fill (ev : OrderFilled.t) :
  preserves frame (ExecutionEngine._handle_fill ev).
Proof.
  unfold ExecutionEngine._handle_fill, ExecutionEngine._handle_fill_netting,
    ExecutionEngine._handle_fill_hedging.
  frame_auto; try apply frame_fill_first_open_position.
  all: unfold ExecutionEngine.publish_position_update; frame_auto.
Qed.

Lemma frame_process_event (ev : OrderEvent) :
  preserves frame (ExecutionEngine.process_event ev).
Proof.
  destruct ev; cbn [ExecutionEngine.process_event];
    first [apply frame_handle_fill|apply frame_handle_order_event|apply preserves_skip].
Qed.

Lemma frame_call_exec_engine (v : Venue) (ev : OrderEvent) :
  preserves frame (Exchange.call_exec_engine v ev).
Proof.
  unfold Exchange.call_exec_engine, get_exchange.
  frame_auto; apply frame_process_event.
Qed.

End EngineFrame.

Section Book.
Import SimulatedExchange.
Variable v : Venue.

(** The resting orders of the exchange of the venue [v]. *)
Definition book (w : World) : option (list loc) :=
  _open_orders <$> (_venues w !! v).

Lemma book_of_frame {A} (l : loc) (m : M World A) :
  preserves (frame l) m → preserves book m.
Proof.
  intros Hm w w' r H. apply Hm in H. unfold book. injection H as _ ->. reflexivity.
Qed.

Lemma book_of_view {A} (m : M World A) : preserves (view v) m → preserves book m.
Proof.
  intros Hm w w' r H. apply Hm in H. apply view_eq in H as (_ & _ & H).
  unfold book. destruct (_venues w' !! v), (_venues w !! v); try discriminate;
    [|reflexivity].
  cbn in *. injection H as _ -> _. reflexivity.
Qed.

Lemma book_fill_order (v' : Venue) (l : loc) (fill_px : Price.t) (ts : Z) :
  preserves book (Exchange._fill_order v' l fill_px ts).
Proof.
  unfold Exchange._fill_order.
  apply preserves_bind; [unfold deref; preserves_auto|intros order].
  apply preserves_bind; [unfold get_exchange; preserves_auto|intros self].
  apply preserves_bind; [apply preserves_lift|intros commission].
  apply preserves_bind;
    [apply book_of_view, view_modify_exchange; intros ?; reflexivity|intros ?].
  apply preserves_bind.
  { destruct (bool_decide _); destruct (Account.balance_free _ _);
      first [apply book_of_view, view_on_account|apply preserves_skip]. }
  intros ?. apply preserves_bind; [apply book_of_view, view_on_account|intros ?].
  apply (book_of_frame l), frame_call_exec_engine.
Qed.

End Book.

Section HandlersInertExchange.
Import SimulatedExchange.
Context {Callable U : Type}.
Variable handler : Live.Handlers Callable U.
Hypothesis Hinert : inert handler.
Variable api : Live.Api Callable U.
Variable fuel : nat.

(** Take the next operation off a run [H] of the engine with its
    subscribers that returned. *)
Tactic Notation "lstep" hyp(H) simple_intropattern(a) simple_intropattern(s)
    simple_intropattern(H1) :=
  apply live_bind_Ok in H as (a & s & H1 & H).

Lemma sim_handle_fill (event : OrderFilled.t) :
  sim (Live.ExecutionEngine._handle_fill handler api fuel event)
      (ExecutionEngine._handle_fill event).
Proof.
  intros s s' u H.
  unfold Live.ExecutionEngine._handle_fill in H. unfold ExecutionEngine._handle_fill.
  lstep H w s1 H1. apply on_world_Ok in H1 as [H1 _].
  rewrite (bind_eval _ _ _ _ _ H1). apply get_Ok in H1 as [_ ->].
  destruct (Cache.order _ _) as [l|]; [|apply live_ret_Ok in H as [-> ->]; reflexivity].
  lstep H u2 s2 H2. apply on_world_Ok in H2 as [H2 _].
  rewrite (bind_eval _ _ _ _ _ H2).
  lstep H order s3 H3. apply on_world_Ok in H3 as [H3 _].
  rewrite (bind_eval _ _ _ _ _ H3). apply deref_Ok in H3 as [E3 Hl].
  lstep H u4 s4 H4. apply on_world_Ok in H4 as [H4 _].
  rewrite (bind_eval _ _ _ _ _ H4). apply modify_Ok in H4.
  lstep H u5 s5 H5. apply (sim_publish handler Hinert) in H5.
  rewrite (bind_eval _ _ _ _ _ H5). apply modify_Ok in H5.
  lstep H order' s6 H6. apply on_world_Ok in H6 as [H6 _].
  apply deref_Ok in H6 as [E6 Hl'].
  rewrite H5, H4, E3 in Hl'. cbn in Hl'. rewrite Hl in Hl'. injection Hl' as <-.
  rewrite <- E6.
  lstep H w7 s7 H7. apply on_world_Ok in H7 as [H7 _].
  rewrite (bind_eval _ _ _ _ _ H7). apply get_Ok in H7 as [_ ->].
  destruct (bool_decide _).
  - exact (sim_fill_first_open_position handler Hinert api fuel _ _ _ _ _ H).
  - exact (sim_handle_fill_hedging handler Hinert api fuel _ _ _ _ _ H).
Qed.

Lemma sim_process_event (event : OrderEvent) :
  sim (Live.ExecutionEngine.process_event handler api fuel event)
      (ExecutionEngine.process_event event).
Proof.
  destruct event;
    first [apply sim_handle_fill
          |apply (sim_handle_order_event handler Hinert)
          |apply sim_ret].
Qed.

Lemma sim_call_exec_engine (v : Venue) (event : OrderEvent) :
  sim (Live.Exchange.call_exec_engine handler api fuel v event)
      (Exchange.call_exec_engine v event).
Proof.
  unfold Live.Exchange.call_exec_engine, Exchange.call_exec_engine.
  apply sim_bind; [apply sim_on_world|intros self].
  destruct (has_exec_engine self); [apply sim_process_event|apply sim_ret].
Qed.

Lemma sim_process_order (v : Venue) (l : loc) :
  sim (Live.Exchange.process_order handler api fuel v l) (Exchange.process_order v l).
Proof.
  intros s s' u H.
  unfold Live.Exchange.process_order in H. unfold Exchange.process_order.
  lstep H order s1 H1. apply on_world_Ok in H1 as [H1 _].
  rewrite (bind_eval _ _ _ _ _ H1). apply deref_Ok in H1 as [E1 Hl].
  lstep H self s2 H2. apply on_world_Ok in H2 as [H2 _].
  rewrite (bind_eval _ _ _ _ _ H2). apply get_exchange_Ok in H2 as [E2 _].
  cbv zeta in *.
  lstep H u3 s3 H3. apply on_world_Ok in H3 as [H3 _].
  rewrite (bind_eval _ _ _ _ _ H3).
  assert (F3 : heap (Live.world s3) = heap (Live.world s2)).
  { unfold modify_exchange in H3. apply bind_Ok in H3 as (e & w & G1 & G2).
    apply get_exchange_Ok in G1 as [-> _]. apply modify_Ok in G2.
    rewrite G2. reflexivity. }
  lstep H u4 s4 H4. apply sim_call_exec_engine in H4.
  rewrite (bind_eval _ _ _ _ _ H4). apply (frame_call_exec_engine l) in H4.
  lstep H order' s5 H5. apply on_world_Ok in H5 as [H5 _].
  apply deref_Ok in H5 as [E5 Hl'].
  assert (Hst : static order' = static order).
  { apply (f_equal fst) in H4. cbn in H4.
    rewrite F3, E2, E1, Hl, Hl' in H4. cbn in H4. congruence. }
  injection Hst as _ _ _ _ _ Hty. rewrite <- Hty, <- E5.
  destruct (Order.order_type order'); apply on_world_Ok in H as [H _]; exact H.
Qed.

Lemma sim_exchange_cancel_order (v : Venue) (l : loc) :
  sim (Live.Exchange.cancel_order handler api fuel v l) (Exchange.cancel_order v l).
Proof.
  unfold Live.Exchange.cancel_order, Exchange.cancel_order.
  sim_using ltac:(apply sim_call_exec_engine).
Qed.

Lemma sim_exchange_modify_order (v : Venue) (l : loc) (quantity : option Quantity.t)
    (price trigger_price : option Price.t) :
  sim (Live.Exchange.modify_order handler api fuel v l quantity price trigger_price)
      (Exchange.modify_order v l quantity price trigger_price).
Proof.
  unfold Live.Exchange.modify_order, Exchange.modify_order.
  sim_using ltac:(apply sim_call_exec_engine).
Qed.

Lemma sim_fill_order (v : Venue) (l : loc) (fill_px : Price.t) (ts : Z) :
  sim (Live.Exchange._fill_order handler api fuel v l fill_px ts)
      (Exchange._fill_order v l fill_px ts).
Proof.
  unfold Live.Exchange._fill_order, Exchange._fill_order.
  sim_using ltac:(apply sim_call_exec_engine).
Qed.

(** The loop of process_bar: while no handler changes the resting orders,
    the index walks the list that was there at the start. *)
Lemma sim_match_orders (n : nat) (v : Venue) (bar : Bar.t) (i : nat)
    (acc : list loc) (s s' : Live.State Callable U) (rem orders : list loc) :
  Live.Exchange.match_orders handler api fuel n v bar i acc s = Some (s', Ok rem) →
  book v (Live.world s) = Some orders →
  Exchange.match_orders v bar (drop i orders) acc (Live.world s)
  = (Live.world s', Ok rem).
Proof.
  revert i acc s. induction n as [|n IH]; intros i acc s H Hb; [discriminate|].
  cbn [Live.Exchange.match_orders] in H.
  lstep H self s1 H1. apply on_world_Ok in H1 as [H1 _].
  apply get_exchange_Ok in H1 as [E1 Hex].
  assert (Ho : _open_orders self = orders).
  { unfold book in Hb. rewrite Hex in Hb. injection Hb as Hb. exact Hb. }
  rewrite Ho in H.
  destruct (orders !! i) as [l|] eqn:Hi.
  2: { apply live_ret_Ok in H as [-> ->]. rewrite drop_ge, E1; [reflexivity|].
       apply lookup_ge_None. exact Hi. }
  rewrite (drop_S _ _ _ Hi). cbn [Exchange.match_orders].
  rewrite <- E1 in Hb |- *. clear E1 Hex Ho self.
  lstep H order s2 H2. apply on_world_Ok in H2 as [H2 _].
  rewrite (bind_eval _ _ _ _ _ H2). apply deref_Ok in H2 as [E2 _].
  rewrite <- E2 in Hb.
  destruct (negb (InstrumentId.eqb _ _)); [exact (IH _ _ _ H Hb)|].
  destruct (negb (Order.is_open order)); [exact (IH _ _ _ H Hb)|].
  lstep H self s3 H3. apply on_world_Ok in H3 as [H3 _].
  rewrite (bind_eval _ _ _ _ _ H3). apply get_exchange_Ok in H3 as [E3 _].
  rewrite <- E3 in Hb.
  lstep H fill_px s4 H4. apply on_world_Ok in H4 as [H4 _].
  rewrite (bind_eval _ _ _ _ _ H4). apply lift_Ok in H4 as [E4 _].
  rewrite <- E4 in Hb.
  destruct fill_px as [px|]; [|exact (IH _ _ _ H Hb)].
  lstep H u5 s5 H5. apply sim_fill_order in H5.
  rewrite (bind_eval _ _ _ _ _ H5). apply (book_fill_order v) in H5.
  rewrite <- H5 in Hb. exact (IH _ _ _ H Hb).
Qed.

Lemma sim_process_bar (v : Venue) (bar : Bar.t) :
  sim (Live.Exchange.process_bar handler api fuel v bar) (Exchange.process_bar v bar).
Proof.
  intros s s' u H.
  unfold Live.Exchange.process_bar in H. unfold Exchange.process_bar.
  lstep H rem s1 H1. apply on_world_Ok in H as [H _].
  destruct (_venues (Live.world s) !! v) as [self|] eqn:Hex.
  - assert (G : get_exchange v (Live.world s) = (Live.world s, Ok self)).
    { unfold get_exchange. munfold. rewrite Hex. reflexivity. }
    rewrite (bind_eval _ _ _ _ _ G).
    apply (sim_match_orders _ _ _ _ _ _ _ _ (_open_orders self)) in H1;
      [|unfold book; rewrite Hex; reflexivity].
    rewrite drop_0 in H1. rewrite (bind_eval _ _ _ _ _ H1). exact H.
  - exfalso. destruct fuel as [|n]; [discriminate|].
    cbn [Live.Exchange.match_orders] in H1.
    lstep H1 self s2 H2. apply on_world_Ok in H2 as [H2 _].
    apply get_exchange_Ok in H2 as [_ H2]. congruence.
Qed.

Lemma sim_submit_order (l : loc) :
  sim (Live.ExecutionEngineCommands.submit_order handler api fuel l)
      (ExecutionEngineCommands.submit_order l).
Proof.
  intros s s' u H.
  unfold Live.ExecutionEngineCommands.submit_order in H.
  unfold ExecutionEngineCommands.submit_order.
  lstep H order s1 H1. apply on_world_Ok in H1 as [H1 _].
  rewrite (bind_eval _ _ _ _ _ H1). apply deref_Ok in H1 as [E1 Hl].
  lstep H w s2 H2. apply on_world_Ok in H2 as [H2 _].
  rewrite (bind_eval _ _ _ _ _ H2). apply get_Ok in H2 as [E2 ->].
  destruct (match risk_engine _ with Some _ => _ | None => _ end) as [denied|].
  - lstep H u3 s3 H3. apply on_world_Ok in H3 as [H3 _].
    rewrite (bind_eval _ _ _ _ _ H3).
    lstep H u4 s4 H4. apply on_world_Ok in H4 as [H4 _].
    rewrite (bind_eval _ _ _ _ _ H4).
    exact (sim_publish handler Hinert api fuel _ _ _ _ _ H).
  - cbv zeta in *.
    lstep H u3 s3 H3. apply on_world_Ok in H3 as [H3 _].
    rewrite (bind_eval _ _ _ _ _ H3).
    pose proof (frame_order_apply l _ _ _ _ _ H3) as F3.
    lstep H u4 s4 H4. apply on_world_Ok in H4 as [H4 _].
    rewrite (bind_eval _ _ _ _ _ H4). apply modify_Ok in H4.
    lstep H u5 s5 H5. apply (sim_publish handler Hinert) in H5.
    rewrite (bind_eval _ _ _ _ _ H5). apply modify_Ok in H5.
    lstep H order' s6 H6. apply on_world_Ok in H6 as [H6 _].
    apply deref_Ok in H6 as [E6 Hl'].
    assert (Hst : static order' = static order).
    { apply (f_equal fst) in F3. cbn in F3.
      rewrite H5, H4 in Hl'. cbn in Hl'.
      rewrite Hl', E2, E1, Hl in F3. cbn in F3. congruence. }
    injection Hst as _ _ Hi _ _ _. rewrite <- Hi, <- E6.
    lstep H w7 s7 H7. apply on_world_Ok in H7 as [H7 _].
    rewrite (bind_eval _ _ _ _ _ H7). apply get_Ok in H7 as [_ ->].
    destruct (_venues _ !! _).
    + exact (sim_process_order _ _ _ _ _ H).
    + apply live_ret_Ok in H as [-> ->]. reflexivity.
Qed.

Lemma sim_cancel_order (l : loc) :
  sim (Live.ExecutionEngineCommands.cancel_order handler api fuel l)
      (ExecutionEngineCommands.cancel_order l).
Proof.
  unfold Live.ExecutionEngineCommands.cancel_order,
    ExecutionEngineCommands.cancel_order.
  sim_using ltac:(apply sim_exchange_cancel_order).
Qed.

Lemma sim_modify_order (l : loc) (quantity : option Quantity.t)
    (price trigger_price : option Price.t) :
  sim (Live.ExecutionEngineCommands.modify_order handler api fuel l quantity price
         trigger_price)
      (ExecutionEngineCommands.modify_order l quantity price trigger_price).
Proof.
  unfold Live.ExecutionEngineCommands.modify_order,
    ExecutionEngineCommands.modify_order.
  sim_using ltac:(apply sim_exchange_modify_order).
Qed.

End HandlersInertExchange.

(** ** The engine with its subscribers returns *)

Section Returns.
Import SimulatedExchange.
Context {Callable U : Type}.
Variable handler : Live.Handlers Callable U.

(** Every call of a handler returns or raises, and one that returns leaves
    the subscriptions of the bus as they were. *)
Definition returning : Prop :=
  ∀ (h : Callable) (api : Live.Api Callable U) (msg : Message)
    (s : Live.State Callable U),
    ∃ s' r, handler h api msg s = Some (s', r)
            ∧ (is_ok r = true → Live._subscriptions s' = Live._subscriptions s).

(** No topic has [n] handlers or more. *)
Definition subscribers_below (n : nat) (s : Live.State Callable U) : Prop :=
  ∀ topic subs, Live._subscriptions s !! topic = Some subs → (length subs < n)%nat.

(** From a state with less than [n] handlers on each topic, the call
    returns or raises, and when it returns the subscriptions are as they
    were. *)
Definition returns {A} (n : nat) (d : Live.D (Live.State Callable U) A) : Prop :=
  ∀ s, subscribers_below n s →
       ∃ s' r, d s = Some (s', r)
               ∧ (is_ok r = true → Live._subscriptions s' = Live._subscriptions s).

Lemma on_world_bind {A B} (m : M World A) (k : A → Live.D (Live.State Callable U) B)
    (s : Live.State Callable U) :
  Live.D_bind A B k (Live.on_world m) s
  = match m (Live.world s) with
    | (w, Ok a) => k a (Live.set_world w s)
    | (w, Raise e) => Some (Live.set_world w s, Raise e)
    end.
Proof.
  unfold Live.D_bind, Live.on_world.
  destruct (m (Live.world s)) as [w [a|e]]; reflexivity.
Qed.

Lemma returns_ret {A} (n : nat) (a : A) : returns n (mret a).
Proof. intros s _. exists s, (Ok a). auto. Qed.

Lemma returns_on_world {A} (n : nat) (m : M World A) : returns n (Live.on_world m).
Proof.
  intros s _. unfold Live.on_world. destruct (m (Live.world s)) as [w r].
  eexists. eexists. split; [reflexivity|]. reflexivity.
Qed.

Lemma returns_bind {A B} (n : nat) (d : Live.D (Live.State Callable U) A)
    (k : A → Live.D (Live.State Callable U) B) :
  returns n d → (∀ a, returns n (k a)) → returns n (d ≫= k).
Proof.
  intros Hd Hk s Hs. destruct (Hd s Hs) as (s1 & r1 & H1 & E1).
  unfold mbind, Live.D_bind. rewrite H1. destruct r1 as [a|e].
  - assert (Hs1 : subscribers_below n s1).
    { intros topic subs. rewrite (E1 eq_refl). apply Hs. }
    destruct (Hk a s1 Hs1) as (s' & r & H2 & E2).
    exists s', r. split; [exact H2|]. intros Hr. rewrite (E2 Hr). exact (E1 eq_refl).
  - exists s1, (Raise e). split; [reflexivity|discriminate].
Qed.

End Returns.

Ltac returns_step :=
  first
    [ apply returns_on_world
    | apply returns_ret
    | apply returns_bind; [|intros ?]
    | match goal with
      | |- returns _ (match ?x with _ => _ end) => destruct x
      | |- returns _ (if ?b then _ else _) => destruct b
      end ].

Ltac returns_using known := repeat (cbv zeta; first [known|returns_step]).

Section HandlersReturn.
Import SimulatedExchange.
Context {Callable U : Type}.
Variable handler : Live.Handlers Callable U.
Hypothesis Hinert : inert handler.
Hypothesis Hret : returning handler.
Variable api : Live.Api Callable U.

Lemma call_handlers_returns (fuel : nat) (topic : string) (msg : Message) (i : nat)
    (s : Live.State Callable U) :
  (length (default [] (Live._subscriptions s !! topic)) - i < fuel)%nat →
  ∃ s' r, Live.MessageBus.call_handlers handler api fuel topic msg i s = Some (s', r)
          ∧ (is_ok r = true → Live._subscriptions s' = Live._subscriptions s).
Proof.
  revert i s. induction fuel as [|fuel IH]; intros i s Hlen; [lia|].
  cbn [Live.MessageBus.call_handlers]. unfold mbind at 1, Live.D_bind at 1.
  cbn [Live.get_state].
  destruct (default [] (Live._subscriptions s !! topic) !! i) as [h|] eqn:E.
  - apply lookup_lt_Some in E.
    destruct (Hret h api msg s) as (s1 & r1 & H1 & E1).
    unfold mbind, Live.D_bind. rewrite H1. destruct r1 as [[]|e].
    + destruct (IH (S i) s1) as (s' & r & H2 & E2).
      { rewrite (E1 eq_refl). lia. }
      exists s', r. split; [exact H2|]. intros Hr.
      rewrite (E2 Hr). exact (E1 eq_refl).
    + exists s1, (Raise e). split; [reflexivity|discriminate].
  - exists s, (Ok tt). auto.
Qed.

Variable fuel : nat.

Lemma publish_returns (topic : string) (msg : Message) :
  returns fuel (Live.MessageBus.publish handler api fuel topic msg).
Proof.
  unfold Live.MessageBus.publish.
  apply returns_bind; [apply returns_on_world|intros ?].
  intros s Hs. unfold mbind, Live.D_bind. cbn [Live.get_state].
  destruct (Live._subscriptions s !! topic) as [subs|] eqn:E.
  - apply call_handlers_returns. rewrite E. cbn. specialize (Hs _ _ E). lia.
  - exists s, (Ok tt). auto.
Qed.

Lemma process_event_returns (event : OrderEvent) :
  returns fuel (Live.ExecutionEngine.process_event handler api fuel event).
Proof.
  destruct event; cbn [Live.ExecutionEngine.process_event];
    try apply returns_ret;
    unfold Live.ExecutionEngine._handle_order_event,
      Live.ExecutionEngine._handle_fill, Live.ExecutionEngine._handle_fill_netting,
      Live.ExecutionEngine._handle_fill_hedging,
      Live.ExecutionEngine.fill_first_open_position,
      Live.ExecutionEngine.publish_position_update,
      Live.ExecutionEngine._open_position;
    returns_using ltac:(apply publish_returns).
Qed.

Lemma call_exec_engine_returns (v : Venue) (event : OrderEvent) :
  returns fuel (Live.Exchange.call_exec_engine handler api fuel v event).
Proof.
  unfold Live.Exchange.call_exec_engine.
  returns_using ltac:(apply process_event_returns).
Qed.

Lemma process_order_returns (v : Venue) (l : loc) :
  returns fuel (Live.Exchange.process_order handler api fuel v l).
Proof.
  unfold Live.Exchange.process_order.
  returns_using ltac:(apply call_exec_engine_returns).
Qed.

Lemma fill_order_returns (v : Venue) (l : loc) (fill_px : Price.t) (ts : Z) :
  returns fuel (Live.Exchange._fill_order handler api fuel v l fill_px ts).
Proof.
  unfold Live.Exchange._fill_order.
  returns_using ltac:(apply call_exec_engine_returns).
Qed.

Lemma submit_order_returns (l : loc) :
  returns fuel (Live.ExecutionEngineCommands.submit_order handler api fuel l).
Proof.
  unfold Live.ExecutionEngineCommands.submit_order.
  returns_using ltac:(first [apply publish_returns|apply process_order_returns]).
Qed.

(** The loop of process_bar comes to the end of the list. *)
Lemma match_orders_returns (n : nat) (v : Venue) (bar : Bar.t) (i : nat)
    (acc : list loc) (s : Live.State Callable U) :
  subscribers_below fuel s →
  (length (default [] (book v (Live.world s))) - i < n)%nat →
  ∃ s' r, Live.Exchange.match_orders handler api fuel n v bar i acc s = Some (s', r)
          ∧ (is_ok r = true → Live._subscriptions s' = Live._subscriptions s).
Proof.
  revert i acc s. induction n as [|n IH]; intros i acc s Hs Hlen; [lia|].
  cbn [Live.Exchange.match_orders]. unfold mbind. rewrite on_world_bind.
  unfold book in Hlen. unfold get_exchange at 1. munfold.
  destruct (_venues (Live.world s) !! v) as [self|] eqn:Hex;
    [|eexists; eexists; split; [reflexivity|discriminate]].
  cbn in Hlen.
  assert (Hset : Live.set_world (Live.world s) s = s) by (destruct s; reflexivity).
  rewrite Hset.
  destruct (_open_orders self !! i) as [l|] eqn:Hi;
    [|exists s, (Ok acc); split; [reflexivity|reflexivity]].
  apply lookup_lt_Some in Hi.
  assert (Hnext : ∀ acc1 s1,
            subscribers_below fuel s1 →
            book v (Live.world s1) = Some (_open_orders self) →
            Live._subscriptions s1 = Live._subscriptions s →
            ∃ s' r,
              Live.Exchange.match_orders handler api fuel n v bar (S i) acc1 s1
              = Some (s', r)
              ∧ (is_ok r = true → Live._subscriptions s' = Live._subscriptions s)).
  { intros acc1 s1 Hs1 Hb1 Hsub1.
    destruct (IH (S i) acc1 s1 Hs1) as (s' & r & H & E).
    - rewrite Hb1. cbn. lia.
    - exists s', r. split; [exact H|]. intros Hr. rewrite (E Hr). exact Hsub1. }
  assert (Hb : book v (Live.world s) = Some (_open_orders self))
    by (unfold book; rewrite Hex; reflexivity).
  rewrite on_world_bind. unfold deref at 1. munfold.
  destruct (heap (Live.world s) !! l) as [order|];
    [|eexists; eexists; split; [reflexivity|discriminate]].
  rewrite Hset.
  destruct (negb (InstrumentId.eqb _ _)); [apply Hnext; auto|].
  destruct (negb (Order.is_open order)); [apply Hnext; auto|].
  rewrite on_world_bind. unfold get_exchange at 1. munfold. rewrite Hex, Hset.
  rewrite on_world_bind. munfold. rewrite Hset.
  destruct (_check_fill self order bar) as [[px|]|e];
    [| apply Hnext; auto | eexists; eexists; split; [reflexivity|discriminate]].
  destruct (fill_order_returns v l px (Bar.ts_event bar) s Hs) as (s1 & r1 & H1 & E1).
  unfold Live.D_bind at 1. rewrite H1. destruct r1 as [[]|e];
    [|exists s1, (Raise e); split; [reflexivity|discriminate]].
  apply Hnext.
  - intros topic subs. rewrite (E1 eq_refl). apply Hs.
  - pose proof (sim_fill_order handler Hinert api fuel v l px (Bar.ts_event bar)
                  _ _ _ H1) as Hsim.
    rewrite (book_fill_order v _ _ _ _ _ _ _ Hsim). exact Hb.
  - exact (E1 eq_refl).
Qed.

Lemma process_bar_returns (v : Venue) (bar : Bar.t) (s : Live.State Callable U) :
  subscribers_below fuel s →
  (length (default [] (book v (Live.world s))) < fuel)%nat →
  ∃ s' r, Live.Exchange.process_bar handler api fuel v bar s = Some (s', r).
Proof.
  intros Hs Hlen. unfold Live.Exchange.process_bar.
  destruct (match_orders_returns fuel v bar 0 [] s Hs) as (s1 & r1 & H1 & _); [lia|].
  unfold mbind, Live.D_bind. rewrite H1. destruct r1 as [rem|e]; [|eauto].
  unfold Live.on_world. destruct (modify_exchange _ _ _) as [w r]. eauto.
Qed.

End HandlersReturn.

Section LiveReturns.
Context {Callable U : Type}.
Variable handler : Live.Handlers Callable U.

(** With handlers that return and leave the engine and the subscriptions
    alone, a bound above the number of handlers of each topic and of the
    resting orders is enough for process_bar to return or raise ... *)
Lemma live_process_bar_returns (n : nat) (v : Venue) (bar : Bar.t)
    (s : Live.State Callable U) :
  inert handler →
  returning handler →
  subscribers_below n s →
  (length (default [] (book v (Live.world s))) < n)%nat →
  ∃ s' r, Live.process_bar handler n v bar s = Some (s', r).
Proof.
  intros Hinert Hret. apply (process_bar_returns handler Hinert Hret).
Qed.

(** ... and a bound above the number of handlers of each topic is enough
    for submit_order. *)
Lemma live_submit_order_returns (n : nat) (l : loc) (s : Live.State Callable U) :
  returning handler →
  subscribers_below n s →
  ∃ s' r, Live.submit_order handler n l s = Some (s', r).
Proof.
  intros Hret Hs.
  destruct (submit_order_returns handler Hret (Live.engine handler n) n l s Hs)
    as (s' & r & H & _).
  eauto.
Qed.

End LiveReturns.

(** ** The fill rules and the next-bar fill, with the subscribers called *)

(** A strategy whose handlers only count the messages they are called
    with ... *)
Definition counting_handler : Live.Handlers string nat :=
  λ _ _ _ s,
    Some (Live.mkState (Live.world s) (Live._subscriptions s) (S (Live.user s)),
          Ok tt).

(** ... subscribed as Strategy.register subscribes the strategy S-001. *)
Definition with_strategy (w : World) : Live.State string nat :=
  Live.mkState w
    {[ "events.order.S-001" := ["S-001._handle_order_event"];
       "events.position.S-001" := ["S-001._handle_position_event"] ]}
    0%nat.

Lemma counting_handler_inert : inert counting_handler.
Proof. intros h api msg s s' u [= <-]. reflexivity. Qed.

Section LiveMatching.
Import decimal SimulatedExchange.
Context {Callable U : Type}.
Variable handler : Live.Handlers Callable U.

Lemma sim_live_process_bar (n : nat) (v : Venue) (bar : Bar.t) :
  inert handler →
  sim (Live.process_bar handler n v bar) (Exchange.process_bar v bar).
Proof. intros Hinert. apply (sim_process_bar handler Hinert). Qed.

Lemma sim_live_submit_order (n : nat) (l : loc) :
  inert handler →
  sim (Live.submit_order handler n l) (ExecutionEngineCommands.submit_order l).
Proof. intros Hinert. apply (sim_submit_order handler Hinert). Qed.


End LiveMatching.


Section LiveMarketOrders.
Import decimal SimulatedExchange.
Context {Callable U : Type}.
Variable handler : Live.Handlers Callable U.


End LiveMarketOrders.


(** ** A handler that acts on the engine during the matching *)

Definition order_of (r : Result Order.t) : Order.t :=
  match r with
  | Ok o => o
  | Raise _ => sample_filled_order
  end.

Definition state_of {S A} (r : option (S * Result A)) (s : S) : S :=
  match r with
  | Some (s', _) => s'
  | None => s
  end.

(** The handler of a strategy whose on_order_filled answers the fill of
    the order [filled_id] by cancelling the order at [canceled]. *)
Definition cancel_on_fill (filled_id : ClientOrderId) (canceled : loc)
    : Live.Handlers string unit :=
  λ _ api msg,
    match msg with
    | MsgOrderEvent (EvFilled e) =>
        if String.eqb (OrderFilled.client_order_id e) filled_id
        then Live.api_cancel_order api canceled
        else mret tt
    | _ => mret tt
    end.

(** Three new orders of the strategy S-001: B, a limit order to buy at
    90.00, and the market orders A and X ... *)
Definition three_orders : Live.State string unit :=
  let order id :=
    order_of (Order.new_market
                (OrderInitialized.mk (Some "S-001") sample_instrument_id id BUY
                   MARKET (qty 100 0 0) GTC None None 0 0)) in
  let B :=
    order_of (Order.new_limit
                (OrderInitialized.mk (Some "S-001") sample_instrument_id "O-B" BUY
                   LIMIT (qty 100 0 0) GTC (Some (px 9000 (-2) 2)) None 0 0)) in
  Live.mkState
    (with_order 3%positive (order "O-X")
       (with_order 2%positive (order "O-A")
          (with_order 1%positive B sample_world)))
    {[ "events.order.S-001" := ["S-001._handle_order_event"] ]} tt.

(** ... submitted in this order, ... *)
Definition three_resting : Live.State string unit :=
  Eval vm_compute in
    state_of ((Live.submit_order (cancel_on_fill "O-A" 1%positive) 10 1%positive;;
               Live.submit_order (cancel_on_fill "O-A" 1%positive) 10 2%positive;;
               Live.submit_order (cancel_on_fill "O-A" 1%positive) 10 3%positive)
                three_orders) three_orders.

(** ... and the states after the next bar and after the bar after it. *)
Definition after_bar_1 : Live.State string unit :=
  Eval vm_compute in
    state_of (Live.process_bar (cancel_on_fill "O-A" 1%positive) 10 "SIM"
                (sample_bar 10005 10150 9950 10100 120) three_resting) three_resting.

Definition after_bar_2 : Live.State string unit :=
  Eval vm_compute in
    state_of (Live.process_bar (cancel_on_fill "O-A" 1%positive) 10 "SIM"
                (sample_bar 10200 10300 10100 10250 180) after_bar_1) after_bar_1.

(** The proviso on the handlers is needed: process_bar walks the list of
    resting orders that a handler can change under it.  B, A and X rest on
    SIM in this order, each the object the cache holds under its id.  The
    next bar (low 99.50) does not reach B's limit; it fills A, whose handler
    cancels B and so takes it off the list; the loop, past the first two
    places, finds the list at its end, and X, now in the second place, is
    not visited.  X is still ACCEPTED and resting after the bar, and is
    filled by the bar after it, at that bar's open. *)
Lemma market_order_skipped_when_handler_cancels :
  let handler := cancel_on_fill "O-A" 1%positive in
  let bar1 := sample_bar 10005 10150 9950 10100 120 in
  let bar2 := sample_bar 10200 10300 10100 10250 180 in
  ∃ ex0 ex1 x x2 filled,
    (Live.submit_order handler 10 1%positive;;
     Live.submit_order handler 10 2%positive;;
     Live.submit_order handler 10 3%positive) three_orders
    = Some (three_resting, Ok tt)
    ∧ _venues (Live.world three_resting) !! "SIM" = Some ex0
    ∧ SimulatedExchange.has_exec_engine ex0 = true
    ∧ SimulatedExchange._open_orders ex0 = [1%positive; 2%positive; 3%positive]
    ∧ Forall (resting_cached (Live.world three_resting))
             (SimulatedExchange._open_orders ex0)
    ∧ heap (Live.world three_resting) !! 3%positive = Some x
    ∧ Order.order_type x = MARKET
    ∧ Order.status x = ACCEPTED
    ∧ Live.process_bar handler 10 "SIM" bar1 three_resting = Some (after_bar_1, Ok tt)
    ∧ Order.status <$> heap (Live.world after_bar_1) !! 1%positive = Some CANCELED
    ∧ Order.status <$> heap (Live.world after_bar_1) !! 2%positive = Some FILLED
    ∧ heap (Live.world after_bar_1) !! 3%positive = Some x
    ∧ _venues (Live.world after_bar_1) !! "SIM" = Some ex1
    ∧ SimulatedExchange._open_orders ex1 = [3%positive]
    ∧ Live.process_bar handler 10 "SIM" bar2 after_bar_1 = Some (after_bar_2, Ok tt)
    ∧ heap (Live.world after_bar_2) !! 3%positive = Some x2
    ∧ Order.status x2 = FILLED
    ∧ Order.events x2 = Order.events x ++ [EvFilled filled]
    ∧ OrderFilled.last_px filled = Bar.open bar2
    ∧ OrderFilled.ts_event filled = 180.
Proof.
  intros handler bar1 bar2.
  eexists. eexists. eexists. eexists. eexists.
  split; [vm_compute; reflexivity|]. split; [vm_compute; reflexivity|].
  split; [reflexivity|]. split; [reflexivity|].
  split.
  { repeat apply Forall_cons_2; [..|apply Forall_nil_2];
      (eexists; split; vm_compute; reflexivity). }
  split; [vm_compute; reflexivity|]. split; [reflexivity|].
  split; [reflexivity|]. split; [vm_compute; reflexivity|].
  split; [vm_compute; reflexivity|]. split; [vm_compute; reflexivity|].
  split; [vm_compute; reflexivity|]. split; [vm_compute; reflexivity|].
  split; [reflexivity|]. split; [vm_compute; reflexivity|].
  split; [vm_compute; reflexivity|]. split; [reflexivity|].
  split; [reflexivity|]. split; reflexivity.
Qed.

Section LiveDenial.
Context {Callable U : Type}.
Variable handler : Live.Handlers Callable U.

(** The denial of an order new to the cache, with the handlers of the bus
    called: when every handler call that returns leaves the world of the
    engine as it was and submit_order returns, the world is the one the
    engine on its own leaves, and the queries of the cache answer as
    there. *)
Lemma denied_order_not_indexed_with_handlers (n : nat)
    (s s' : Live.State Callable U) (l : loc) (order : Order.t) (r : RiskEngine.t)
    (denied : OrderDenied.t) :
  inert handler →
  heap (Live.world s) !! l = Some order →
  Order.status order = INITIALIZED →
  risk_engine (Live.world s) = Some r →
  RiskEngine.validate_order r (cache (Live.world s)) order = Some denied →
  Cache._orders (cache (Live.world s)) !! Order.client_order_id order = None →
  (∀ oid, Cache._orders (cache (Live.world s)) !! oid ≠ Some l) →
  (∀ k ids, Cache._orders_by_instrument (cache (Live.world s)) !! k = Some ids →
            Order.client_order_id order ∉ ids) →
  (∀ k ids, Cache._orders_by_strategy (cache (Live.world s)) !! k = Some ids →
            Order.client_order_id order ∉ ids) →
  (∀ k ids, Cache._orders_by_venue (cache (Live.world s)) !! k = Some ids →
            Order.client_order_id order ∉ ids) →
  Live.submit_order handler n l s = Some (s', Ok tt) →
  Live.world s' = denied_world l denied order (Live.world s)
  ∧ Cache.order (Order.client_order_id order) (cache (Live.world s')) = Some l
  ∧ l ∈ Cache.orders None None (cache (Live.world s'))
  ∧ (∀ instrument_id strategy_id,
       l ∉ Cache.orders (Some instrument_id) strategy_id (cache (Live.world s')))
  ∧ (∀ strategy_id, l ∉ Cache.orders None (Some strategy_id) (cache (Live.world s')))
  ∧ (∀ venue, l ∉ Cache.orders_for_venue venue (cache (Live.world s'))).
Proof.
  intros Hinert Hl Hst Hr Hv Hfresh Hobj Hi Hs Hve H.
  apply (sim_live_submit_order handler n l Hinert) in H.
  rewrite (submit_order_denied _ l order r denied Hl Hst Hr Hv) in H.
  injection H as H.
  destruct (denied_world_queries (Live.world s) l order denied Hfresh Hobj Hi Hs Hve)
    as (Q1 & Q2 & _ & Q4 & Q5 & Q6 & _).
  rewrite <- H. auto 10.
Qed.

End LiveDenial.

(** * Further properties of the code *)

(** ** Operations that move the state along a preorder *)

Section Relates.
Context {S : Type} (R : S → S → Prop).
Hypothesis R_refl : ∀ s, R s s.
Hypothesis R_trans : ∀ s1 s2 s3, R s1 s2 → R s2 s3 → R s1 s3.

(** The state an operation leaves, whether it returns or raises, is related
    to the state it started from. *)
Definition relates {A} (m : M S A) : Prop :=
  ∀ s s' r, m s = (s', r) → R s s'.

Lemma relates_ret {A} (a : A) : relates (mret a).
Proof. intros s s' r [= <- _]. apply R_refl. Qed.

Lemma relates_skip : relates skip.
Proof. apply relates_ret. Qed.

Lemma relates_get : relates get.
Proof. intros s s' r [= <- _]. apply R_refl. Qed.

Lemma relates_lift {A} (x : Result A) : relates (lift x).
Proof. intros s s' r [= <- _]. apply R_refl. Qed.

Lemma relates_raise {A} (e : Exception) : relates (raise (A:=A) e).
Proof. intros s s' r [= <- _]. apply R_refl. Qed.

Lemma relates_modify (g : S → S) : (∀ s, R s (g s)) → relates (modify g).
Proof. intros Hg s s' r [= <- _]. apply Hg. Qed.

Lemma relates_bind {A C} (m : M S A) (k : A → M S C) :
  relates m → (∀ a, relates (k a)) → relates (m ≫= k).
Proof.
  intros Hm Hk s s' r. unfold mbind, M_bind.
  destruct (m s) as [s1 [a|e]] eqn:E.
  - intros H. exact (R_trans _ _ _ (Hm _ _ _ E) (Hk a _ _ _ H)).
  - intros [= <- _]. exact (Hm _ _ _ E).
Qed.

End Relates.

(** ** The life of an order *)

Section OrderLifecycle.
Import decimal.

(** X1: no event changes the class, the client order id, the instrument,
    the strategy, the side or the type of an order, whether Order.apply
    returns or raises. *)
Theorem order_identity_unchanged (ev : OrderEvent) (o : Order.t) :
  static (Order.apply ev o).1 = static o.
Proof.
  destruct (Order.apply ev o) as [o' r] eqn:E. exact (apply_static ev o o' r E).
Qed.

(** The statuses an event can give an order. *)
Definition event_statuses : list OrderStatus :=
  [INITIALIZED; DENIED; SUBMITTED; ACCEPTED; REJECTED; CANCELED; EXPIRED;
   PARTIALLY_FILLED; FILLED].

Definition status_step (o o' : Order.t) : Prop :=
  Order.status o' = Order.status o ∨ Order.status o' ∈ event_statuses.

Lemma status_step_refl (o : Order.t) : status_step o o.
Proof. left. reflexivity. Qed.

Lemma status_step_trans (o1 o2 o3 : Order.t) :
  status_step o1 o2 → status_step o2 o3 → status_step o1 o3.
Proof.
  unfold status_step. intros H12 [H23|H23]; [rewrite H23; exact H12|right; exact H23].
Qed.

Ltac status_step_auto :=
  repeat first
    [ apply (relates_bind _ status_step_trans); [|intros ?]
    | apply (relates_ret _ status_step_refl)
    | apply (relates_skip _ status_step_refl)
    | apply (relates_get _ status_step_refl)
    | apply (relates_lift _ status_step_refl)
    | apply (relates_raise _ status_step_refl)
    | apply relates_modify; intros ?; left; reflexivity
    | match goal with
      | |- relates _ (match ?x with _ => _ end) => destruct x
      | |- relates _ (if ?b then _ else _) => destruct b
      end ].

Lemma set_status_step (st : OrderStatus) :
  st ∈ event_statuses → relates status_step (modify (Order.set_status st)).
Proof. intros H. apply relates_modify. intros o. right. exact H. Qed.

(** Whatever Order.apply does, the status stays or becomes one of the nine
    statuses that events carry. *)
Lemma apply_status_step (ev : OrderEvent) : relates status_step (Order.apply ev).
Proof.
  unfold Order.apply. apply (relates_bind _ status_step_trans);
    [|intros ?; status_step_auto].
  destruct ev; cbn [Order._EVENT_TO_STATUS];
    unfold Order._apply_updated, Order._apply_updated_base, Order.update_price,
      Order.update_trigger_price, Order._apply_filled, Order._check_transition;
    status_step_auto;
    try (apply set_status_step; compute_done).
  apply relates_modify. intros o. right. cbn.
  destruct (eqb _ zero); compute_done.
Qed.


(** The order after the calls order.apply(ev) for the events in turn, a
    caller going on after an exception. *)
Definition apply_each (evs : list OrderEvent) (o : Order.t) : Order.t :=
  foldl (λ o ev, (Order.apply ev o).1) o evs.

Lemma constructed_status (init : OrderInitialized.t) (o : Order.t) :
  constructed init o → Order.status o = INITIALIZED.
Proof.
  assert (Hinit : ∀ c o1, Order.__init__ c init = Ok o1 →
                          Order.status o1 = INITIALIZED).
  { intros c o1 H. unfold Order.__init__ in H.
    destruct (Quantity.new _ _); munfold_in H; [|discriminate].
    destruct (Quantity.new _ _); munfold_in H; [|discriminate].
    injection H as <-. reflexivity. }
  intros [[c H]|[H|[H|[H|H]]]].
  - exact (Hinit c o H).
  - unfold Order.new_market in H. destruct (bool_decide _); [discriminate|].
    exact (Hinit _ o H).
  - unfold Order.new_limit in H. destruct (bool_decide _); [discriminate|].
    destruct (OrderInitialized.price init); [|discriminate].
    destruct (Order.__init__ LimitOrder init) as [o1|] eqn:E; [|discriminate].
    munfold_in H. injection H as <-. exact (Hinit _ o1 E).
  - unfold Order.new_stop_market in H. destruct (bool_decide _); [discriminate|].
    destruct (OrderInitialized.trigger_price init); [|discriminate].
    destruct (Order.__init__ StopMarketOrder init) as [o1|] eqn:E; [|discriminate].
    munfold_in H. injection H as <-. exact (Hinit _ o1 E).
  - unfold Order.new_stop_limit in H. destruct (bool_decide _); [discriminate|].
    destruct (OrderInitialized.trigger_price init); [|discriminate].
    destruct (OrderInitialized.price init); [|discriminate].
    destruct (Order.__init__ StopLimitOrder init) as [o1|] eqn:E; [|discriminate].
    munfold_in H. injection H as <-. exact (Hinit _ o1 E).
Qed.

Lemma apply_each_status (evs : list OrderEvent) (o : Order.t) :
  Order.status o ∈ event_statuses →
  Order.status (apply_each evs o) ∈ event_statuses.
Proof.
  revert o. induction evs as [|ev evs IH]; intros o Ho; [exact Ho|].
  cbn. apply IH. destruct (Order.apply ev o) as [o' r] eqn:E.
  destruct (apply_status_step ev o o' r E) as [H|H]; [cbn; rewrite H; exact Ho|exact H].
Qed.

Lemma event_status_not_pending (s : OrderStatus) :
  s ∈ event_statuses → s ∉ [TRIGGERED; PENDING_UPDATE; PENDING_CANCEL].
Proof.
  intros H.
  destruct s; try compute_done;
    apply (bool_decide_pack _) in H; vm_compute in H; destruct H.
Qed.

(** X2: an order made by one of the constructors never gets the status
    TRIGGERED, PENDING_UPDATE or PENDING_CANCEL, whatever events are applied
    to it and whether or not the applications raise. *)
Theorem order_never_pending_or_triggered (init : OrderInitialized.t)
    (o : Order.t) (evs : list OrderEvent) :
  constructed init o →
  Order.status (apply_each evs o) ∉ [TRIGGERED; PENDING_UPDATE; PENDING_CANCEL].
Proof.
  intros Hnew.
  apply event_status_not_pending, apply_each_status.
  rewrite (constructed_status init o Hnew). apply list_elem_of_here.
Qed.

Lemma order_never_pending_or_triggered_witness :
  constructed sample_init sample_market_order
  ∧ Order.status
      (apply_each [sample_submitted; sample_accepted; sample_canceled;
                   EvFilled (sample_fill (qty 100 0 0) (px 15000 (-2) 2))]
         sample_market_order)
    ∉ [TRIGGERED; PENDING_UPDATE; PENDING_CANCEL].
Proof.
  assert (H : constructed sample_init sample_market_order).
  { right. left. vm_compute. reflexivity. }
  split; [exact H|].
  exact (order_never_pending_or_triggered sample_init sample_market_order _ H).
Defined.

(** An update that Order.apply accepts found the order in a status from
    which ACCEPTED is allowed. *)
Lemma apply_updated_Ok (e : OrderUpdated.t) (o o' : Order.t) :
  Order.apply (EvUpdated e) o = (o', Ok tt) →
  ACCEPTED ∈ ORDER_STATUS_TRANSITIONS (Order.status o)
  ∧ Order.status o' = ACCEPTED.
Proof.
  intros H. unfold Order.apply in H.
  apply bind_Ok in H as ([] & s & H0 & H).
  apply bind_Ok in H as (self & s1 & H1 & H). apply get_Ok in H1 as [-> ->].
  apply bind_Ok in H as ([] & s1 & H1 & H). apply modify_Ok in H1 as ->.
  apply modify_Ok in H as ->.
  cbn [Order.status Order.set_ts_last Order.set_events].
  unfold Order._apply_updated in H0.
  apply bind_Ok in H0 as (self & s1 & H1 & H0). apply get_Ok in H1 as [-> ->].
  apply bind_Ok in H0 as ([] & s1 & H1 & H0).
  assert (Hs : Order.status s = Order.status s1).
  { unfold Order.update_price, Order.update_trigger_price in H0.
    destruct (Order.cls o).
    1,2: apply skip_Ok in H0 as ->; reflexivity.
    - destruct (OrderUpdated.price e);
        [apply modify_Ok in H0 as ->|apply skip_Ok in H0 as ->]; reflexivity.
    - destruct (OrderUpdated.trigger_price e);
        [apply modify_Ok in H0 as ->|apply skip_Ok in H0 as ->]; reflexivity.
    - apply bind_Ok in H0 as ([] & s2 & H2 & H0).
      destruct (OrderUpdated.price e);
        [apply modify_Ok in H2 as ->|apply skip_Ok in H2 as ->];
      (destruct (OrderUpdated.trigger_price e);
        [apply modify_Ok in H0 as ->|apply skip_Ok in H0 as ->]); reflexivity. }
  rewrite Hs. clear H0 Hs.
  unfold Order._apply_updated_base in H1.
  apply bind_Ok in H1 as ([] & s2 & H2 & H1).
  assert (Hs2 : Order.status s2 = Order.status o).
  { destruct (OrderUpdated.quantity e).
    - apply bind_Ok in H2 as ([] & s3 & H3 & H2). apply modify_Ok in H3 as ->.
      apply bind_Ok in H2 as (self & s3 & H3 & H2). apply get_Ok in H3 as [-> ->].
      apply bind_Ok in H2 as (lq & s3 & H3 & H2). apply lift_Ok in H3 as [-> _].
      apply modify_Ok in H2 as ->. reflexivity.
    - apply skip_Ok in H2 as ->. reflexivity. }
  apply bind_Ok in H1 as ([] & s3 & H3 & H1). apply modify_Ok in H1 as ->.
  unfold Order._check_transition in H3.
  apply bind_Ok in H3 as (self & s4 & H4 & H3). apply get_Ok in H4 as [-> ->].
  destruct (bool_decide _) eqn:Hd; [|discriminate].
  apply bool_decide_eq_true in Hd. rewrite Hs2 in Hd. split; [exact Hd|reflexivity].
Qed.

(** X3: for an order made by one of the constructors, whatever happened to
    it since, Order.apply accepts an OrderUpdated only in the status
    SUBMITTED, and the update makes the order ACCEPTED: an order that the
    venue has accepted cannot be updated any more. *)
Theorem order_update_needs_submitted (init : OrderInitialized.t) (o0 o' : Order.t)
    (evs : list OrderEvent) (e : OrderUpdated.t) :
  constructed init o0 →
  Order.apply (EvUpdated e) (apply_each evs o0) = (o', Ok tt) →
  Order.status (apply_each evs o0) = SUBMITTED ∧ Order.status o' = ACCEPTED.
Proof.
  intros Hnew H. apply apply_updated_Ok in H as [Hin Hst]. split; [|exact Hst].
  assert (Hr : Order.status (apply_each evs o0)
               ∉ [TRIGGERED; PENDING_UPDATE; PENDING_CANCEL]).
  { apply event_status_not_pending, apply_each_status.
    rewrite (constructed_status init o0 Hnew). apply list_elem_of_here. }
  destruct (Order.status (apply_each evs o0)); try reflexivity;
    try (apply (bool_decide_pack _) in Hin; vm_compute in Hin; destruct Hin);
    exfalso; apply Hr; compute_done.
Qed.

Lemma order_update_needs_submitted_witness :
  let e := OrderUpdated.mk "O-001" None (Some (qty 80 0 0)) None None 5 5 in
  constructed sample_init sample_market_order
  ∧ ∃ o', Order.apply (EvUpdated e) (apply_each [sample_submitted] sample_market_order)
          = (o', Ok tt)
          ∧ Order.status (apply_each [sample_submitted] sample_market_order) = SUBMITTED
          ∧ Order.status o' = ACCEPTED.
Proof.
  intros e.
  assert (H : constructed sample_init sample_market_order).
  { right. left. vm_compute. reflexivity. }
  split; [exact H|]. eexists. split; [vm_compute; reflexivity|].
  eapply (order_update_needs_submitted sample_init sample_market_order _
            [sample_submitted] e H).
  vm_compute. reflexivity.
Defined.


Lemma bind_Raise {S A B} (m : M S A) (f : A → M S B) (s s' : S) (e : Exception) :
  (m ≫= f) s = (s', Raise e) →
  m s = (s', Raise e) ∨ ∃ a s1, m s = (s1, Ok a) ∧ f a s1 = (s', Raise e).
Proof.
  unfold mbind, M_bind. destruct (m s) as [s1 [a|e1]]; [eauto|].
  intros [= <- <-]. auto.
Qed.

Lemma check_transition_inv (st : OrderStatus) (o o' : Order.t) (r : Result unit) :
  Order._check_transition st o = (o', r) →
  o' = o ∧ (r = Ok tt → st ∈ ORDER_STATUS_TRANSITIONS (Order.status o)).
Proof.
  unfold Order._check_transition. munfold.
  destruct (bool_decide _) eqn:Hd; intros [= <- <-]; split; try reflexivity.
  - intros _. apply bool_decide_eq_true in Hd. exact Hd.
  - discriminate.
Qed.

(** What the first part of Order.apply, before the event is recorded, does
    to the status. *)
Definition status_outcome (o o' : Order.t) (r : Result unit) : Prop :=
  match r with
  | Ok _ => Order.status o' ∈ ORDER_STATUS_TRANSITIONS (Order.status o)
  | Raise _ => Order.status o' = Order.status o
  end.

Lemma apply_filled_outcome (e : OrderFilled.t) (o o' : Order.t) (r : Result unit) :
  Order._apply_filled e o = (o', r) → status_outcome o o' r.
Proof.
  unfold Order._apply_filled, Order._check_transition. munfold.
  destruct (gtb _ zero).
  - destruct (div _ _) as [a|]; cbn beta iota; [|intros [= <- <-]; reflexivity].
    destruct (Quantity.new _ _) as [fq|]; [|intros [= <- <-]; reflexivity].
    destruct (Quantity.new _ _) as [lq|]; [|intros [= <- <-]; reflexivity].
    cbn [Order.status Order.set_leaves_qty Order.set_filled_qty Order.set_avg_px].
    destruct (bool_decide (_ ∈ _)) eqn:Hd.
    + apply bool_decide_eq_true in Hd.
      destruct (OrderFilled.venue_order_id e); intros [= <- <-]; exact Hd.
    + intros [= <- <-]. reflexivity.
  - munfold.
    destruct (Quantity.new _ _) as [fq|]; [|intros [= <- <-]; reflexivity].
    destruct (Quantity.new _ _) as [lq|]; [|intros [= <- <-]; reflexivity].
    munfold.
    destruct (bool_decide (_ ∈ _)) eqn:Hd.
    + apply bool_decide_eq_true in Hd.
      destruct (OrderFilled.venue_order_id e); intros [= <- <-]; exact Hd.
    + intros [= <- <-]. reflexivity.
Qed.

Lemma apply_updated_outcome (e : OrderUpdated.t) (o o' : Order.t) (r : Result unit) :
  Order._apply_updated e o = (o', r) → status_outcome o o' r.
Proof.
  unfold Order._apply_updated, Order._apply_updated_base, Order.update_price,
    Order.update_trigger_price, Order._check_transition. munfold.
  destruct (OrderUpdated.quantity e) as [q|].
  - destruct (Quantity.new _ _) as [lq|]; [|intros [= <- <-]; reflexivity].
    munfold.
    destruct (bool_decide (_ ∈ _)) eqn:Hd; [|intros [= <- <-]; reflexivity].
    apply bool_decide_eq_true in Hd.
    destruct (Order.cls o), (OrderUpdated.price e), (OrderUpdated.trigger_price e);
      intros [= <- <-]; exact Hd.
  - munfold.
    destruct (bool_decide (_ ∈ _)) eqn:Hd; [|intros [= <- <-]; reflexivity].
    apply bool_decide_eq_true in Hd.
    destruct (Order.cls o), (OrderUpdated.price e), (OrderUpdated.trigger_price e);
      intros [= <- <-]; exact Hd.
Qed.

Lemma apply_outcome (ev : OrderEvent) (o o' : Order.t) (r : Result unit) :
  Order.apply ev o = (o', r) → status_outcome o o' r.
Proof.
  intros H. unfold Order.apply in H. destruct r as [[]|x].
  - apply bind_Ok in H as ([] & s & H0 & H).
    apply bind_Ok in H as (self & s1 & H1 & H). apply get_Ok in H1 as [-> ->].
    apply bind_Ok in H as ([] & s1 & H1 & H). apply modify_Ok in H1 as ->.
    apply modify_Ok in H as ->.
    change (status_outcome o s (Ok tt)).
    destruct ev; try (apply (apply_updated_outcome _ _ _ _ H0));
      try (apply (apply_filled_outcome _ _ _ _ H0));
      cbn [Order._EVENT_TO_STATUS] in H0;
      (apply bind_Ok in H0 as ([] & s1 & H1 & H0);
       apply check_transition_inv in H1 as [-> Hin]; specialize (Hin eq_refl);
       apply bind_Ok in H0 as ([] & s2 & H2 & H0); apply modify_Ok in H2 as ->;
       first [apply skip_Ok in H0 as ->
             |destruct (OrderAccepted.venue_order_id e);
              [apply modify_Ok in H0 as ->|apply skip_Ok in H0 as ->]];
       exact Hin).
  - apply bind_Raise in H as [H|(a & s1 & H1 & H)].
    + destruct ev; try (apply (apply_updated_outcome _ _ _ _ H));
        try (apply (apply_filled_outcome _ _ _ _ H));
        cbn [Order._EVENT_TO_STATUS] in H;
        (apply bind_Raise in H as [H|([] & s1 & H1 & H)];
         [apply check_transition_inv in H as [-> _]; reflexivity|]);
        exfalso; revert H; munfold;
        try (destruct (OrderAccepted.venue_order_id e)); discriminate.
    + exfalso. revert H. munfold. discriminate.
Qed.

(** X4: whenever Order.apply returns, for a status event, a fill or an
    update alike, the order has moved along an allowed transition; and
    whenever it raises, the status is the one before. *)
Theorem apply_moves_along_transitions (ev : OrderEvent) (o : Order.t) :
  match Order.apply ev o with
  | (o', Ok _) => Order.status o' ∈ ORDER_STATUS_TRANSITIONS (Order.status o)
  | (o', Raise _) => Order.status o' = Order.status o
  end.
Proof.
  destruct (Order.apply ev o) as [o' r] eqn:E.
  exact (apply_outcome ev o o' r E).
Qed.

(** X5: an order that is closed (DENIED, REJECTED, CANCELED, EXPIRED or
    FILLED) accepts no event of any kind: Order.apply raises and the order
    stays closed in the same status. *)
Theorem closed_order_accepts_no_event (ev : OrderEvent) (o : Order.t) :
  Order.is_closed o = true →
  ∃ o' e, Order.apply ev o = (o', Raise e)
          ∧ Order.status o' = Order.status o
          ∧ Order.is_closed o' = true.
Proof.
  intros Hc. destruct (Order.apply ev o) as [o' [[]|e]] eqn:E.
  - apply apply_outcome in E. cbn in E. unfold Order.is_closed in Hc.
    apply bool_decide_eq_true in Hc. exfalso.
    destruct (Order.status o);
      try (apply (bool_decide_pack _) in Hc; vm_compute in Hc; destruct Hc);
      apply elem_of_nil in E; exact E.
  - exists o', e. apply apply_outcome in E. cbn in E.
    split; [reflexivity|]. split; [exact E|].
    unfold Order.is_closed in *. rewrite E. exact Hc.
Qed.

Lemma closed_order_accepts_no_event_witness :
  Order.is_closed sample_filled_order = true
  ∧ ∃ o' e, Order.apply sample_canceled sample_filled_order = (o', Raise e)
            ∧ Order.status o' = Order.status sample_filled_order
            ∧ Order.is_closed o' = true.
Proof.
  split; [reflexivity|].
  exact (closed_order_accepts_no_event sample_canceled sample_filled_order eq_refl).
Defined.


(** X6: an event that Order.apply accepts is appended to order.events and
    its ts_event becomes ts_last; an event that is refused, whatever else it
    changed, is not recorded. *)
Theorem apply_records_event (ev : OrderEvent) (o : Order.t) :
  match Order.apply ev o with
  | (o', Ok _) =>
      Order.events o' = Order.events o ++ [ev]
      ∧ Order.ts_last o' = event_ts_event ev
  | (o', Raise _) =>
      Order.events o' = Order.events o ∧ Order.ts_last o' = Order.ts_last o
  end.
Proof.
  set (record := λ o : Order.t, (Order.events o, Order.ts_last o)).
  assert (E : preserves record
                (match ev with
                 | EvFilled e => Order._apply_filled e
                 | EvUpdated e => Order._apply_updated e
                 | _ =>
                     match Order._EVENT_TO_STATUS ev with
                     | None => raise (ValueError "Unknown order event type")
                     | Some new_status =>
                         Order._check_transition new_status;;
                         modify (Order.set_status new_status);;
                         match ev with
                         | EvAccepted e =>
                             match OrderAccepted.venue_order_id e with
                             | Some v => modify (Order.set_venue_order_id (Some v))
                             | None => skip
                             end
                         | _ => skip
                         end
                     end
                 end)).
  { destruct ev; cbn [Order._EVENT_TO_STATUS];
      unfold Order._apply_updated, Order._apply_updated_base, Order.update_price,
        Order.update_trigger_price, Order._apply_filled, Order._check_transition;
      preserves_auto. }
  destruct (Order.apply ev o) as [o' r] eqn:H. unfold Order.apply in H.
  destruct r as [[]|x].
  - apply bind_Ok in H as ([] & s & H0 & H).
    apply bind_Ok in H as (self & s1 & H1 & H). apply get_Ok in H1 as [-> ->].
    apply bind_Ok in H as ([] & s1 & H1 & H). apply modify_Ok in H1 as ->.
    apply modify_Ok in H as ->. cbn.
    apply E in H0. injection H0 as -> _. auto.
  - apply bind_Raise in H as [H|(a & s1 & H1 & H)].
    + apply E in H. injection H as -> ->. auto.
    + exfalso. revert H. munfold. discriminate.
Qed.

End OrderLifecycle.

(** ** Commands of the execution engine *)

Section EngineCommands.
Import SimulatedExchange.

(** X7: ExecutionEngine.modify_order changes nothing at all: the exchange
    makes an OrderUpdated and hands it to ExecutionEngine.process_event,
    which has no branch for it; neither the order object nor the cache, the
    exchange or the message bus is touched. *)
Theorem modify_order_changes_nothing (w : World) (l : loc) (o : Order.t)
    (quantity : option Quantity.t) (price trigger_price : option Price.t) :
  heap w !! l = Some o →
  ExecutionEngineCommands.modify_order l quantity price trigger_price w
  = (w, Ok tt).
Proof.
  intros Hl.
  unfold ExecutionEngineCommands.modify_order, Exchange.modify_order,
    Exchange.call_exec_engine, get_exchange, deref.
  munfold. rewrite Hl. munfold.
  destruct (_venues w !! InstrumentId.venue (Order.instrument_id o)) as [ex|] eqn:E;
    [|reflexivity].
  munfold. rewrite Hl. munfold. rewrite E. munfold.
  destruct (has_exec_engine ex); reflexivity.
Qed.

Lemma modify_order_changes_nothing_witness :
  let w := with_resting_limit_order sample_world in
  heap (with_order 2%positive sample_limit_order w) !! 2%positive
  = Some sample_limit_order
  ∧ ExecutionEngineCommands.modify_order 2%positive (Some (qty 50 0 0))
      (Some (px 9900 (-2) 2)) None (with_order 2%positive sample_limit_order w)
    = (with_order 2%positive sample_limit_order w, Ok tt).
Proof.
  intros w.
  assert (H : heap (with_order 2%positive sample_limit_order w) !! 2%positive
              = Some sample_limit_order) by apply lookup_insert_eq.
  split; [exact H|].
  exact (modify_order_changes_nothing _ 2%positive sample_limit_order _ _ _ H).
Defined.

(** X8: ExecutionEngine.cancel_order on an order that does not rest on the
    exchange of its venue (never routed, already filled or canceled and
    taken off) changes nothing. *)
Theorem cancel_order_not_resting (w : World) (l : loc) (o : Order.t)
    (ex : SimulatedExchange.t) :
  heap w !! l = Some o →
  _venues w !! InstrumentId.venue (Order.instrument_id o) = Some ex →
  l ∉ _open_orders ex →
  ExecutionEngineCommands.cancel_order l w = (w, Ok tt).
Proof.
  intros Hl Hex Hnin.
  unfold ExecutionEngineCommands.cancel_order, Exchange.cancel_order, get_exchange,
    deref.
  munfold. rewrite Hl. munfold. rewrite Hex. munfold. rewrite Hl. munfold.
  rewrite Hex. munfold. rewrite bool_decide_eq_false_2 by exact Hnin. reflexivity.
Qed.

Lemma cancel_order_not_resting_witness :
  let w := with_order 1%positive sample_market_order sample_world in
  ∃ ex,
    (heap w !! 1%positive = Some sample_market_order
     ∧ _venues w !! "SIM" = Some ex
     ∧ _open_orders ex = [])
    ∧ ExecutionEngineCommands.cancel_order 1%positive w = (w, Ok tt).
Proof.
  intros w.
  assert (F : ∃ ex, _venues w !! "SIM" = Some ex ∧ _open_orders ex = []).
  { eexists. split; vm_compute; reflexivity. }
  destruct F as (ex & Hex & Hopen).
  assert (Hl : heap w !! 1%positive = Some sample_market_order)
    by apply lookup_insert_eq.
  exists ex. split; [auto|].
  apply (cancel_order_not_resting w 1%positive sample_market_order ex Hl Hex).
  rewrite Hopen. apply not_elem_of_nil.
Defined.







End EngineCommands.

(** ** Fills and the OMS type of a venue *)

Section OmsTypes.
Import SimulatedExchange.
Variable oms : gmap Venue OmsType.

(** The operation does the same whatever OMS types the venues are
    registered with, and leaves them as they are. *)
Definition oms_blind {A} (m : M World A) : Prop :=
  ∀ w, m (set_oms_types oms w) = (set_oms_types oms (m w).1, (m w).2).

Lemma oms_blind_ret {A} (a : A) : oms_blind (mret a).
Proof. intros w. reflexivity. Qed.

Lemma oms_blind_skip : oms_blind skip.
Proof. intros w. reflexivity. Qed.

Lemma oms_blind_lift {A} (x : Result A) : oms_blind (lift x).
Proof. intros w. reflexivity. Qed.

Lemma oms_blind_raise {A} (e : Exception) : oms_blind (raise (A:=A) e).
Proof. intros w. reflexivity. Qed.

Lemma oms_blind_modify (g : World → World) :
  (∀ w, g (set_oms_types oms w) = set_oms_types oms (g w)) → oms_blind (modify g).
Proof. intros Hg w. unfold modify. cbn. rewrite Hg. reflexivity. Qed.

Lemma oms_blind_bind {A C} (m : M World A) (k : A → M World C) :
  oms_blind m → (∀ a, oms_blind (k a)) → oms_blind (m ≫= k).
Proof.
  intros Hm Hk w. unfold mbind, M_bind. rewrite Hm.
  destruct (m w) as [w1 [a|e]]; cbn [fst snd]; [apply Hk|reflexivity].
Qed.

(** Reading the world, when what is done with it does not depend on the
    OMS types. *)
Lemma oms_blind_get_bind {A} (k : World → M World A) :
  (∀ w0 w, k (set_oms_types oms w0) w = k w0 w) →
  (∀ w0, oms_blind (k w0)) →
  oms_blind (get ≫= k).
Proof.
  intros H1 H2 w. unfold mbind, M_bind, get. rewrite H1. apply H2.
Qed.

Lemma oms_blind_ext {A} (m m' : M World A) :
  (∀ w, m w = m' w) → oms_blind m' → oms_blind m.
Proof. intros E H w. rewrite !E. apply H. Qed.

Lemma oms_blind_deref (l : loc) : oms_blind (deref l).
Proof.
  unfold deref. apply oms_blind_get_bind; [reflexivity|intros w0].
  destruct (heap w0 !! l); [apply oms_blind_ret|apply oms_blind_raise].
Qed.

Lemma oms_blind_order_apply (l : loc) (event : OrderEvent) :
  oms_blind (order_apply l event).
Proof.
  intros w. unfold order_apply. cbn [heap set_oms_types].
  destruct (heap w !! l) as [o|]; [|reflexivity].
  destruct (Order.apply event o) as [o' r]. reflexivity.
Qed.

Lemma oms_blind_position_apply (pid : PositionId) (fill : OrderFilled.t) :
  oms_blind (position_apply pid fill).
Proof.
  intros w. unfold position_apply. cbn [cache set_oms_types].
  destruct (Cache._positions (cache w) !! pid) as [p|]; [|reflexivity].
  destruct (Position.apply fill p) as [p' r]. reflexivity.
Qed.

Lemma oms_blind_modify_cache (f : Cache.t → Cache.t) : oms_blind (modify_cache f).
Proof. apply oms_blind_modify. reflexivity. Qed.

Lemma oms_blind_publish (topic : string) (msg : Message) :
  oms_blind (publish topic msg).
Proof. apply oms_blind_modify. reflexivity. Qed.

Lemma oms_blind_get_exchange (v : Venue) : oms_blind (get_exchange v).
Proof.
  unfold get_exchange. apply oms_blind_get_bind; [reflexivity|intros w0].
  destruct (_venues w0 !! v); [apply oms_blind_ret|apply oms_blind_raise].
Qed.

Lemma oms_blind_modify_exchange (v : Venue)
    (f : SimulatedExchange.t → SimulatedExchange.t) :
  oms_blind (modify_exchange v f).
Proof.
  unfold modify_exchange.
  apply oms_blind_bind; [apply oms_blind_get_exchange|intros self].
  apply oms_blind_modify. reflexivity.
Qed.

Lemma oms_blind_on_account {A} (v : Venue) (m : M Account.t A) :
  oms_blind (on_account v m).
Proof.
  unfold on_account.
  apply oms_blind_bind; [apply oms_blind_get_exchange|intros self].
  destruct (m (account self)) as [acc r].
  apply oms_blind_bind; [apply oms_blind_modify_exchange|intros ?].
  apply oms_blind_lift.
Qed.

Lemma oms_blind_publish_position_update (event : OrderFilled.t) (order : Order.t)
    (position : Position.t) :
  oms_blind (ExecutionEngine.publish_position_update event order position).
Proof.
  unfold ExecutionEngine.publish_position_update.
  apply oms_blind_bind; [apply oms_blind_modify_cache|intros ?].
  destruct (Position.is_closed position); apply oms_blind_publish.
Qed.

Lemma oms_blind_open_position (event : OrderFilled.t) (order : Order.t) :
  oms_blind (ExecutionEngine._open_position event order).
Proof.
  unfold ExecutionEngine._open_position.
  apply oms_blind_get_bind; [reflexivity|intros w0].
  apply oms_blind_bind; [apply oms_blind_modify; reflexivity|intros ?].
  apply oms_blind_bind; [apply oms_blind_lift|intros position].
  apply oms_blind_bind; [apply oms_blind_modify_cache|intros ?].
  apply oms_blind_publish.
Qed.

Lemma oms_blind_fill_first_open_position (event : OrderFilled.t) (order : Order.t) :
  oms_blind (ExecutionEngine.fill_first_open_position event order).
Proof.
  unfold ExecutionEngine.fill_first_open_position.
  apply oms_blind_get_bind; [reflexivity|intros w0].
  destruct (Cache.positions_open _ _ _) as [|[pid p] rest].
  - apply oms_blind_open_position.
  - apply oms_blind_bind; [apply oms_blind_position_apply|intros ?].
    apply oms_blind_publish_position_update.
Qed.

(** For a fill that names no position the hedging handler is the netting
    handler. *)
Lemma hedging_without_position_id (event : OrderFilled.t) (order : Order.t)
    (w : World) :
  OrderFilled.position_id event = None →
  ExecutionEngine._handle_fill_hedging event order w
  = ExecutionEngine.fill_first_open_position event order w.
Proof.
  intros H. unfold ExecutionEngine._handle_fill_hedging. munfold.
  rewrite H. reflexivity.
Qed.

Lemma oms_blind_handle_fill (event : OrderFilled.t) :
  OrderFilled.position_id event = None →
  oms_blind (ExecutionEngine._handle_fill event).
Proof.
  intros Hpid. unfold ExecutionEngine._handle_fill.
  apply oms_blind_get_bind; [reflexivity|intros w0].
  destruct (Cache.order _ _) as [l|]; [|apply oms_blind_skip].
  apply oms_blind_bind; [apply oms_blind_order_apply|intros ?].
  apply oms_blind_bind; [apply oms_blind_deref|intros order].
  apply oms_blind_bind; [apply oms_blind_modify_cache|intros ?].
  apply oms_blind_bind; [apply oms_blind_publish|intros ?].
  apply (oms_blind_ext _ (ExecutionEngine.fill_first_open_position event order));
    [|apply oms_blind_fill_first_open_position].
  intros w. unfold mbind, M_bind, get.
  destruct (bool_decide _); [reflexivity|].
  apply hedging_without_position_id, Hpid.
Qed.

(** X12: the fills of the simulated exchange name no position, and the
    execution engine handles such a fill in the same way whatever OMS type
    the venue is registered with, HEDGING or NETTING: _fill_order does the
    same to the orders, the positions, the account and the message bus
    under any registration of OMS types. *)
Theorem fill_order_ignores_oms_type (v : Venue) (l : loc) (fill_px : Price.t)
    (ts_event : Z) (w : World) :
  Exchange._fill_order v l fill_px ts_event (set_oms_types oms w)
  = (set_oms_types oms (Exchange._fill_order v l fill_px ts_event w).1,
     (Exchange._fill_order v l fill_px ts_event w).2).
Proof.
  revert w. change (oms_blind (Exchange._fill_order v l fill_px ts_event)).
  unfold Exchange._fill_order.
  apply oms_blind_bind; [apply oms_blind_deref|intros order].
  apply oms_blind_bind; [apply oms_blind_get_exchange|intros self].
  apply oms_blind_bind; [apply oms_blind_lift|intros commission].
  apply oms_blind_bind; [apply oms_blind_modify_exchange|intros ?].
  apply oms_blind_bind.
  { destruct (bool_decide _);
      (destruct (Account.balance_free _ _);
       [apply oms_blind_on_account|apply oms_blind_skip]). }
  intros ?.
  apply oms_blind_bind; [apply oms_blind_on_account|intros ?].
  unfold Exchange.call_exec_engine.
  apply oms_blind_bind; [apply oms_blind_get_exchange|intros self'].
  destruct (has_exec_engine self'); [|apply oms_blind_skip].
  apply oms_blind_handle_fill. reflexivity.
Qed.

End OmsTypes.

(** ** The resting orders after a bar *)

Section BookAfterBar.
Import SimulatedExchange.
Variable v : Venue.

(** Whether the first loop of process_bar puts a resting order on
    orders_to_remove: the order is of the bar's instrument and either is
    not open or is filled by the bar. *)
Definition removed (ex : SimulatedExchange.t) (bar : Bar.t) (o : Order.t) : bool :=
  InstrumentId.eqb (Order.instrument_id o) (Bar.instrument_id bar)
  && (negb (Order.is_open o)
      || match _check_fill ex o bar with Ok (Some _) => true | _ => false end).

Lemma match_orders_cons_removed (bar : Bar.t) (ex : SimulatedExchange.t) (l : loc)
    (rest acc : list loc) (w w' : World) (rem : list loc) :
  exchange_view <$> (_venues w !! v) = Some (exchange_view ex) →
  has_exec_engine ex = true →
  resting_cached w l →
  Exchange.match_orders v bar (l :: rest) acc w = (w', Ok rem) →
  ∃ o w1,
    heap w !! l = Some o
    ∧ Exchange.match_orders v bar rest
        (if removed ex bar o then acc ++ [l] else acc) w1 = (w', Ok rem)
    ∧ Cache._orders (cache w1) = Cache._orders (cache w)
    ∧ exchange_view <$> (_venues w1 !! v) = Some (exchange_view ex)
    ∧ (∃ o1, heap w1 = <[l := o1]> (heap w) ∧ static o1 = static o).
Proof.
  intros Hx Hee (o & Hl & Hc) H. cbn [Exchange.match_orders] in H.
  apply bind_Ok in H as (order & w0 & H0 & H).
  apply deref_Ok in H0 as [-> H0]. rewrite Hl in H0. injection H0 as <-.
  exists o. unfold removed.
  assert (Hsame : ∀ acc1, Exchange.match_orders v bar rest acc1 w = (w', Ok rem) →
            heap w !! l = Some o
            ∧ Exchange.match_orders v bar rest acc1 w = (w', Ok rem)
            ∧ Cache._orders (cache w) = Cache._orders (cache w)
            ∧ exchange_view <$> (_venues w !! v) = Some (exchange_view ex)
            ∧ (∃ o1, heap w = <[l := o1]> (heap w) ∧ static o1 = static o)).
  { intros acc1 Hm. repeat split; try assumption.
    exists o. split; [|reflexivity]. symmetry. apply insert_id. exact Hl. }
  destruct (InstrumentId.eqb _ _); cbn [negb andb orb] in *;
    [|exists w; apply Hsame; exact H].
  destruct (Order.is_open o); cbn [negb andb orb] in *;
    [|exists w; apply Hsame; exact H].
  apply bind_Ok in H as (self & w0 & H0 & H).
  apply get_exchange_Ok in H0 as [-> H0].
  assert (Hxv : exchange_view self = exchange_view ex).
  { rewrite H0 in Hx. cbn in Hx. congruence. }
  rewrite <- (check_fill_view _ _ _ _ Hxv).
  apply bind_Ok in H as (fill_px & w0 & H1 & H).
  apply lift_Ok in H1 as [-> H1]. rewrite H1.
  destruct fill_px as [px|]; [|exists w; apply Hsame; exact H].
  apply bind_Ok in H as ([] & w1 & H2 & H).
  assert (Hee' : has_exec_engine self = true).
  { injection Hxv as _ _ ->. exact Hee. }
  destruct (fill_order_effect v l o px (Bar.ts_event bar) self w w1 Hl H0 Hee' Hc H2)
    as (ev & o' & E1 & E2 & E3 & Happ & Hv).
  apply (f_equal (λ x, x.1.1)) in Hv as Vh. cbn in Vh.
  apply (f_equal (λ x, x.1.2)) in Hv as Vc. cbn in Vc.
  apply (f_equal (λ x, x.2)) in Hv as Ve. cbn in Ve.
  exists w1. split; [exact Hl|]. split; [exact H|].
  split; [exact Vc|split; [rewrite Ve, Hxv; reflexivity|]].
  exists o'. split; [exact Vh|]. exact (apply_static _ _ _ _ Happ).
Qed.

(** orders_to_remove after the first loop. *)
Lemma match_orders_removed (bar : Bar.t) (ex : SimulatedExchange.t)
    (orders acc : list loc) (w w' : World) (rem : list loc) :
  has_exec_engine ex = true →
  exchange_view <$> (_venues w !! v) = Some (exchange_view ex) →
  Forall (resting_cached w) orders →
  NoDup orders →
  Exchange.match_orders v bar orders acc w = (w', Ok rem) →
  exchange_view <$> (_venues w' !! v) = Some (exchange_view ex)
  ∧ ∀ l, l ∈ rem ↔
         l ∈ acc ∨ (l ∈ orders
                    ∧ ∃ o, heap w !! l = Some o ∧ removed ex bar o = true).
Proof.
  intros Hee. revert acc w.
  induction orders as [|l' rest IH]; intros acc w Hx Hall Hnd H.
  - injection H as <- <-. split; [exact Hx|]. intros l. split; [auto|].
    intros [Hl|[Hl _]]; [exact Hl|]. apply elem_of_nil in Hl as [].
  - apply Forall_cons in Hall as [Hl' Hall].
    apply NoDup_cons in Hnd as [Hnin Hnd].
    destruct (match_orders_cons_removed bar ex l' rest acc w w' rem Hx Hee Hl' H)
      as (o' & w1 & Hlo & Hm & Hc & Hx1 & (o1 & Hh & Hst)).
    assert (Hall1 : Forall (resting_cached w1) rest).
    { eapply Forall_impl; [exact Hall|]. intros l2.
      exact (resting_cached_update w w1 l' l2 o' o1 Hlo Hst Hh Hc). }
    destruct (IH _ w1 Hx1 Hall1 Hnd Hm) as [Hx' Hrem].
    split; [exact Hx'|]. intros l. rewrite Hrem. clear Hrem IH.
    assert (Hother : l ∈ rest → heap w1 !! l = heap w !! l).
    { intros Hin. rewrite Hh. apply lookup_insert_ne. intros ->. contradiction. }
    split.
    + intros [Hacc|[Hin (o & Hlo' & Hr)]].
      * destruct (removed ex bar o') eqn:Hr; [|left; exact Hacc].
        apply elem_of_app in Hacc as [Hacc|Hacc]; [left; exact Hacc|].
        apply list_elem_of_singleton in Hacc as ->. right.
        split; [apply list_elem_of_here|]. exists o'. auto.
      * right. split; [apply list_elem_of_further; exact Hin|].
        exists o. rewrite <- (Hother Hin). auto.
    + intros [Hacc|[Hin (o & Hlo' & Hr)]].
      * left. destruct (removed ex bar o'); [|exact Hacc].
        apply elem_of_app. left. exact Hacc.
      * apply elem_of_cons in Hin as [->|Hin].
        -- left. rewrite Hlo in Hlo'. injection Hlo' as ->. rewrite Hr.
           apply elem_of_app. right. apply list_elem_of_here.
        -- right. split; [exact Hin|]. exists o. rewrite (Hother Hin). auto.
Qed.

Lemma elem_of_remove_first_iff (x y : loc) (ls : list loc) :
  NoDup ls → y ∈ Exchange.remove_first x ls ↔ y ∈ ls ∧ y ≠ x.
Proof.
  induction ls as [|z ls IH]; cbn; intros Hnd.
  - split; [intros H; apply elem_of_nil in H as []|intros [H _]; exact H].
  - apply NoDup_cons in Hnd as [Hnin Hnd]. specialize (IH Hnd).
    destruct (bool_decide (z = x)) eqn:E.
    + apply bool_decide_eq_true in E as ->. rewrite elem_of_cons. split.
      * intros Hin. split; [right; exact Hin|]. intros ->. contradiction.
      * intros [[->|Hin] Hne]; [contradiction|exact Hin].
    + apply bool_decide_eq_false in E. rewrite !elem_of_cons, IH. split.
      * intros [->|[Hin Hne]]; [split; [left; reflexivity|exact E]|].
        split; [right; exact Hin|exact Hne].
      * intros [[->|Hin] Hne]; [left; reflexivity|right; auto].
Qed.

Lemma elem_of_remove_orders_iff (y : loc) (rem ls : list loc) :
  NoDup ls → y ∈ Exchange.remove_orders rem ls ↔ y ∈ ls ∧ y ∉ rem.
Proof.
  unfold Exchange.remove_orders. revert ls.
  induction rem as [|x rem IH]; intros ls Hnd; cbn.
  - split; [intros H; split; [exact H|apply not_elem_of_nil]|intros [H _]; exact H].
  - rewrite not_elem_of_cons. destruct (bool_decide (x ∈ ls)) eqn:E.
    + rewrite IH by (eapply sublist_NoDup; [exact Hnd|apply remove_first_sublist]).
      rewrite elem_of_remove_first_iff by exact Hnd. tauto.
    + apply bool_decide_eq_false in E. rewrite IH by exact Hnd.
      split; [|tauto]. intros [Hin Hnin]. repeat split; try assumption.
      intros ->. contradiction.
Qed.

(** The resting orders after a bar, on the engine on its own: a resting
    order is still among them exactly when it is of another instrument, or
    is open and was not filled by the bar; an order that the bar fills, and
    one that is not open, leaves the resting orders. *)
Lemma book_after_bar_engine_alone (bar : Bar.t) (w w' : World)
    (l : loc) (o : Order.t) :
  resting v w l →
  heap w !! l = Some o →
  Exchange.process_bar v bar w = (w', Ok tt) →
  ∃ ex ex',
    _venues w !! v = Some ex
    ∧ _venues w' !! v = Some ex'
    ∧ _open_orders ex' `sublist_of` _open_orders ex
    ∧ (l ∈ _open_orders ex' ↔ removed ex bar o = false).
Proof.
  intros (ex & Hex & Hee & Hnd & Hall & Hin) Hl H.
  unfold Exchange.process_bar in H.
  apply bind_Ok in H as (self & w0 & H0 & H).
  apply get_exchange_Ok in H0 as [-> H0]. rewrite Hex in H0. injection H0 as <-.
  apply bind_Ok in H as (rem & wm & Hm & H).
  destruct (match_orders_removed bar ex (_open_orders ex) [] w wm rem Hee)
    as [Hxm Hrem]; try assumption.
  { rewrite Hex. reflexivity. }
  apply modify_exchange_Ok in H as (e & He & ->).
  assert (Hxe : exchange_view e = exchange_view ex).
  { rewrite He in Hxm. cbn in Hxm. congruence. }
  injection Hxe as Xi Xo Xe.
  exists ex, (set_open_orders (Exchange.remove_orders rem (_open_orders e)) e).
  split; [exact Hex|]. cbn. rewrite lookup_insert_eq, Xo.
  split; [reflexivity|]. split; [apply remove_orders_sublist|].
  rewrite elem_of_remove_orders_iff by exact Hnd. rewrite Hrem.
  split.
  - intros [_ Hnot]. destruct (removed ex bar o) eqn:Hr; [|reflexivity].
    exfalso. apply Hnot. right. split; [exact Hin|]. exists o. auto.
  - intros Hr. split; [exact Hin|].
    intros [Hnil|[_ (o2 & Hl2 & Hr2)]]; [apply elem_of_nil in Hnil as []|].
    rewrite Hl in Hl2. injection Hl2 as <-. congruence.
Qed.

End BookAfterBar.

Section LiveBook.
Import SimulatedExchange.
Context {Callable U : Type}.
Variable handler : Live.Handlers Callable U.

(** X11: SimulatedExchange.process_bar with the handlers of the bus called.
    Provided that every handler call that returns leaves the world of the
    engine as it was, that the exchange is linked to the execution engine,
    that its list of resting orders holds each order once and each of them
    is the object the cache holds under its client order id, and that
    process_bar returns without raising: a resting order of another
    instrument than the bar's, of whatever type and status, is left exactly
    as it was and stays among the resting orders, of which the same
    still holds. *)
Theorem bar_of_other_instrument_skips_order (n : nat) (v : Venue) (bar : Bar.t)
    (s s' : Live.State Callable U) (l : loc) (o : Order.t) (ex : SimulatedExchange.t) :
  inert handler →
  _venues (Live.world s) !! v = Some ex →
  has_exec_engine ex = true →
  NoDup (_open_orders ex) →
  Forall (resting_cached (Live.world s)) (_open_orders ex) →
  l ∈ _open_orders ex →
  heap (Live.world s) !! l = Some o →
  InstrumentId.eqb (Order.instrument_id o) (Bar.instrument_id bar) = false →
  Live.process_bar handler n v bar s = Some (s', Ok tt) →
  heap (Live.world s') !! l = Some o
  ∧ ∃ ex', _venues (Live.world s') !! v = Some ex'
           ∧ has_exec_engine ex' = true
           ∧ NoDup (_open_orders ex')
           ∧ Forall (resting_cached (Live.world s')) (_open_orders ex')
           ∧ l ∈ _open_orders ex'.
Proof.
  intros Hinert Hex Hee Hnd Hall Hin Hl Hi H.
  apply (sim_live_process_bar handler n v bar Hinert) in H.
  assert (Hr : resting v (Live.world s) l) by (exists ex; auto).
  destruct (process_bar_skip v bar (Live.world s) (Live.world s') l o Hr Hl Hi H)
    as [H1 H2].
  split; [exact H1|exact H2].
Qed.

(** X13: SimulatedExchange.process_bar with the handlers of the bus
    called, under the same provisos: when process_bar returns, the resting
    orders are a sublist of those before, and a resting order is still among
    them exactly when it is of another instrument than the bar's, or is open
    and _check_fill gave no fill price for it. *)
Theorem process_bar_keeps_unfilled_open_orders (n : nat) (v : Venue) (bar : Bar.t)
    (s s' : Live.State Callable U) (l : loc) (o : Order.t) (ex : SimulatedExchange.t) :
  inert handler →
  _venues (Live.world s) !! v = Some ex →
  has_exec_engine ex = true →
  NoDup (_open_orders ex) →
  Forall (resting_cached (Live.world s)) (_open_orders ex) →
  l ∈ _open_orders ex →
  heap (Live.world s) !! l = Some o →
  Live.process_bar handler n v bar s = Some (s', Ok tt) →
  ∃ ex',
    _venues (Live.world s') !! v = Some ex'
    ∧ _open_orders ex' `sublist_of` _open_orders ex
    ∧ (l ∈ _open_orders ex' ↔ removed ex bar o = false).
Proof.
  intros Hinert Hex Hee Hnd Hall Hin Hl H.
  apply (sim_live_process_bar handler n v bar Hinert) in H.
  assert (Hr : resting v (Live.world s) l) by (exists ex; auto).
  destruct (book_after_bar_engine_alone v bar _ _ l o Hr Hl H)
    as (ex0 & ex' & H0 & H1 & H2 & H3).
  rewrite Hex in H0. injection H0 as <-. exists ex'. auto.
Qed.

End LiveBook.

Lemma bar_of_other_instrument_skips_order_witness :
  let s := with_strategy (with_resting_limit_order sample_world) in
  let bar := Bar.mk (InstrumentId.mk "MSFT" "SIM") (px 10005 (-2) 2)
               (px 10150 (-2) 2) (px 9950 (-2) 2) (px 10100 (-2) 2)
               (qty 1000 0 0) 120 120 in
  ∃ o ex s',
    (inert counting_handler
     ∧ _venues (Live.world s) !! "SIM" = Some ex
     ∧ SimulatedExchange.has_exec_engine ex = true
     ∧ SimulatedExchange._open_orders ex = [1%positive]
     ∧ resting_cached (Live.world s) 1%positive
     ∧ heap (Live.world s) !! 1%positive = Some o
     ∧ InstrumentId.eqb (Order.instrument_id o) (Bar.instrument_id bar) = false
     ∧ Live.process_bar counting_handler 10 "SIM" bar s = Some (s', Ok tt))
    ∧ heap (Live.world s') !! 1%positive = Some o
    ∧ ∃ ex', _venues (Live.world s') !! "SIM" = Some ex'
             ∧ SimulatedExchange.has_exec_engine ex' = true
             ∧ NoDup (SimulatedExchange._open_orders ex')
             ∧ Forall (resting_cached (Live.world s'))
                      (SimulatedExchange._open_orders ex')
             ∧ 1%positive ∈ SimulatedExchange._open_orders ex'.
Proof.
  intros s bar.
  assert (F : ∃ o ex s',
            heap (Live.world s) !! 1%positive = Some o
            ∧ _venues (Live.world s) !! "SIM" = Some ex
            ∧ SimulatedExchange.has_exec_engine ex = true
            ∧ SimulatedExchange._open_orders ex = [1%positive]
            ∧ Cache._orders (cache (Live.world s)) !! Order.client_order_id o
              = Some 1%positive
            ∧ InstrumentId.eqb (Order.instrument_id o) (Bar.instrument_id bar) = false
            ∧ Live.process_bar counting_handler 10 "SIM" bar s = Some (s', Ok tt)).
  { eexists. eexists. eexists.
    split; [vm_compute; reflexivity|]. split; [vm_compute; reflexivity|].
    split; [vm_compute; reflexivity|]. split; [vm_compute; reflexivity|].
    split; [vm_compute; reflexivity|]. split; vm_compute; reflexivity. }
  destruct F as (o & ex & s' & Hl & Hex & Hee & Hopen & Hc & Hi & Hpb).
  assert (Hrc : resting_cached (Live.world s) 1%positive)
    by (exists o; split; assumption).
  exists o, ex, s'.
  split; [repeat split; try assumption; exact counting_handler_inert|].
  apply (bar_of_other_instrument_skips_order counting_handler 10 "SIM" bar s s'
           1%positive o ex counting_handler_inert Hex Hee); try assumption.
  - rewrite Hopen. apply NoDup_singleton.
  - rewrite Hopen. apply Forall_singleton. exact Hrc.
  - rewrite Hopen. apply list_elem_of_here.
Defined.

Lemma process_bar_keeps_unfilled_open_orders_witness :
  let s := with_strategy (with_resting_limit_order sample_world) in
  let bar := Bar.mk sample_instrument_id (px 10005 (-2) 2)
               (px 10150 (-2) 2) (px 9950 (-2) 2) (px 10100 (-2) 2)
               (qty 1000 0 0) 120 120 in
  ∃ o ex s' ex',
    (inert counting_handler
     ∧ _venues (Live.world s) !! "SIM" = Some ex
     ∧ SimulatedExchange.has_exec_engine ex = true
     ∧ SimulatedExchange._open_orders ex = [1%positive]
     ∧ resting_cached (Live.world s) 1%positive
     ∧ heap (Live.world s) !! 1%positive = Some o
     ∧ Live.process_bar counting_handler 10 "SIM" bar s = Some (s', Ok tt))
    ∧ _venues (Live.world s') !! "SIM" = Some ex'
    ∧ SimulatedExchange._open_orders ex' `sublist_of` SimulatedExchange._open_orders ex
    ∧ (1%positive ∈ SimulatedExchange._open_orders ex' ↔ removed ex bar o = false).
Proof.
  intros s bar.
  assert (F : ∃ o ex s',
            heap (Live.world s) !! 1%positive = Some o
            ∧ _venues (Live.world s) !! "SIM" = Some ex
            ∧ SimulatedExchange.has_exec_engine ex = true
            ∧ SimulatedExchange._open_orders ex = [1%positive]
            ∧ Cache._orders (cache (Live.world s)) !! Order.client_order_id o
              = Some 1%positive
            ∧ Live.process_bar counting_handler 10 "SIM" bar s = Some (s', Ok tt)).
  { eexists. eexists. eexists.
    split; [vm_compute; reflexivity|]. split; [vm_compute; reflexivity|].
    split; [vm_compute; reflexivity|]. split; [vm_compute; reflexivity|].
    split; vm_compute; reflexivity. }
  destruct F as (o & ex & s' & Hl & Hex & Hee & Hopen & Hc & Hpb).
  assert (Hrc : resting_cached (Live.world s) 1%positive)
    by (exists o; split; assumption).
  destruct (process_bar_keeps_unfilled_open_orders counting_handler 10 "SIM" bar
              s s' 1%positive o ex counting_handler_inert Hex Hee)
    as (ex' & H1 & H2 & H3); try assumption.
  - rewrite Hopen. apply NoDup_singleton.
  - rewrite Hopen. apply Forall_singleton. exact Hrc.
  - rewrite Hopen. apply list_elem_of_here.
  - exists o, ex, s', ex'.
    split; [repeat split; try assumption; exact counting_handler_inert|].
    auto.
Defined.

(** ** Arithmetic on quantities, prices and money *)

Section ScalarArithmetic.
Import decimal.

Lemma Quantity_sub_eval (a b : Quantity.t) :
  Quantity_wf a → Quantity_wf b → Quantity.precision a = Quantity.precision b →
  Quantity.sub a b
  = if Quantity.lt a b
    then Raise (ValueError "Quantity value must be non-negative")
    else Ok (Quantity.mk
               (mkDecimal (dcoeff (Quantity.value a) - dcoeff (Quantity.value b))
                          (quantum_exp (Quantity.precision a)))
               (Quantity.precision a)).
Proof.
  destruct a as [[c1 e1] p1], b as [[c2 e2] p2]. unfold Quantity_wf. cbn.
  intros [-> H1] [-> H2] <-. unfold Quantity.sub, Quantity.lt.
  cbn [Quantity.value Quantity.precision].
  rewrite Z.max_id, sub_same_exp. unfold Quantity.new.
  rewrite fix_small by lia. rewrite quantize_same_exp by lia. munfold.
  rewrite ltb_zero_r. cbn [dcoeff].
  unfold ltb, compare, align. cbn [dcoeff dexp].
  rewrite Z.min_id, Z.sub_diag. cbn [Z.pow]. rewrite !Z.mul_1_r.
  destruct (Z.ltb_spec (c1 - c2) 0), (Z.compare_spec c1 c2); try lia; reflexivity.
Qed.

(** X14: for two quantities of the same precision, as the constructor makes
    them, a - b raises the ValueError of a negative quantity exactly when
    a < b, and is otherwise the quantity of the exact difference. *)
Theorem Quantity_sub_raises_iff_less (a b : Quantity.t) :
  Quantity_wf a → Quantity_wf b → Quantity.precision a = Quantity.precision b →
  (Quantity.lt a b = true
   ∧ Quantity.sub a b = Raise (ValueError "Quantity value must be non-negative"))
  ∨ (Quantity.lt a b = false
     ∧ ∃ d, Quantity.sub a b = Ok d
            ∧ Quantity_wf d
            ∧ Quantity.precision d = Quantity.precision a
            ∧ (to_Q (Quantity.value d)
               == to_Q (Quantity.value a) - to_Q (Quantity.value b))%Q).
Proof.
  intros Ha Hb Hp. rewrite (Quantity_sub_eval a b Ha Hb Hp).
  destruct (Quantity.lt a b) eqn:Hlt; [left; auto|right].
  split; [reflexivity|]. eexists. split; [reflexivity|].
  destruct a as [[c1 e1] p1], b as [[c2 e2] p2].
  unfold Quantity_wf, Quantity.lt in *. cbn in *.
  destruct Ha as [-> H1], Hb as [-> H2]. subst p2.
  unfold ltb, compare, align in Hlt. cbn [dcoeff dexp] in Hlt.
  rewrite Z.min_id, Z.sub_diag in Hlt. cbn [Z.pow] in Hlt.
  rewrite !Z.mul_1_r in Hlt.
  destruct (Z.compare_spec c1 c2); try discriminate;
    (split; [split; [reflexivity|lia]|]); (split; [reflexivity|]);
    apply exact_sub_to_Q.
Qed.

Lemma Quantity_sub_raises_iff_less_witness :
  let a := Quantity.mk (mkDecimal 150 (-2)) 2 in
  let b := Quantity.mk (mkDecimal 275 (-2)) 2 in
  (Quantity.lt a b = true
   ∧ Quantity.sub a b = Raise (ValueError "Quantity value must be non-negative"))
  ∨ (Quantity.lt a b = false
     ∧ ∃ d, Quantity.sub a b = Ok d
            ∧ Quantity_wf d
            ∧ Quantity.precision d = Quantity.precision a
            ∧ (to_Q (Quantity.value d)
               == to_Q (Quantity.value a) - to_Q (Quantity.value b))%Q).
Proof.
  intros a b.
  apply (Quantity_sub_raises_iff_less a b); [| |reflexivity];
    (split; [reflexivity|cbn; lia]).
Defined.

(** The quantum of the larger precision is the smaller exponent. *)
Lemma quantum_exp_max (p1 p2 : Z) :
  quantum_exp (Z.max p1 p2) = Z.min (quantum_exp p1) (quantum_exp p2).
Proof.
  unfold quantum_exp.
  destruct (Z.leb_spec 0 p1), (Z.leb_spec 0 p2), (Z.leb_spec 0 (Z.max p1 p2)); lia.
Qed.

Lemma Price_new_aligned (x y e precision : Z) (op : Z → Z → Z) :
  e = quantum_exp precision →
  Price.new (_fix (mkDecimal (op x y) e)) precision
  = if Z.abs (op x y) <? 10 ^ 28
    then Ok (Price.mk (mkDecimal (op x y) e) precision)
    else Raise InvalidOperation.
Proof.
  intros ->. unfold Price.new.
  destruct (Z.ltb_spec (Z.abs (op x y)) (10 ^ 28)) as [Hlt|Hge].
  - rewrite fix_small by lia. rewrite quantize_same_exp by lia. reflexivity.
  - rewrite quantize_fix_overflow by lia. reflexivity.
Qed.

(** X15: the sum and the difference of two prices, of any two precisions,
    are never rounded: either the result is a price of the larger of the
    two precisions whose value is the exact sum (difference), or the
    operation raises decimal.InvalidOperation. *)
Theorem Price_add_sub_exact (a b : Price.t) :
  Price_wf a → Price_wf b →
  match Price.add a b with
  | Ok r =>
      Price_wf r
      ∧ Price.precision r = Z.max (Price.precision a) (Price.precision b)
      ∧ (to_Q (Price.value r) == to_Q (Price.value a) + to_Q (Price.value b))%Q
  | Raise e => e = InvalidOperation
  end
  ∧ match Price.sub a b with
    | Ok r =>
        Price_wf r
        ∧ Price.precision r = Z.max (Price.precision a) (Price.precision b)
        ∧ (to_Q (Price.value r) == to_Q (Price.value a) - to_Q (Price.value b))%Q
    | Raise e => e = InvalidOperation
    end.
Proof.
  intros Ha Hb. destruct Ha as [Ea Ca], Hb as [Eb Cb].
  pose proof (align_to_Q (Price.value a) (Price.value b)) as HQ.
  unfold Price.add, Price.sub, add, sub.
  destruct (align (Price.value a) (Price.value b)) as [[x y] e] eqn:Hal.
  destruct HQ as [Qa Qb].
  assert (He : e = quantum_exp (Z.max (Price.precision a) (Price.precision b))).
  { unfold align in Hal. injection Hal as _ _ <-.
    rewrite quantum_exp_max, Ea, Eb. reflexivity. }
  rewrite (Price_new_aligned x y e _ Z.add He), (Price_new_aligned x y e _ Z.sub He).
  split.
  - destruct (Z.ltb_spec (Z.abs (x + y)) (10 ^ 28)); [|reflexivity].
    split; [split; [exact He|assumption]|]. split; [reflexivity|].
    cbn [Price.value]. rewrite Qa, Qb. apply exact_add_to_Q.
  - destruct (Z.ltb_spec (Z.abs (x - y)) (10 ^ 28)); [|reflexivity].
    split; [split; [exact He|assumption]|]. split; [reflexivity|].
    cbn [Price.value]. rewrite Qa, Qb. apply exact_sub_to_Q.
Qed.

Lemma Price_add_sub_exact_witness :
  let a := Price.mk (mkDecimal 10050 (-2)) 2 in
  let b := Price.mk (mkDecimal 125 (-3)) 3 in
  Price.add a b = Ok (Price.mk (mkDecimal 100625 (-3)) 3)
  ∧ match Price.add a b with
    | Ok r =>
        Price_wf r
        ∧ Price.precision r = Z.max (Price.precision a) (Price.precision b)
        ∧ (to_Q (Price.value r) == to_Q (Price.value a) + to_Q (Price.value b))%Q
    | Raise e => e = InvalidOperation
    end
  ∧ match Price.sub a b with
    | Ok r =>
        Price_wf r
        ∧ Price.precision r = Z.max (Price.precision a) (Price.precision b)
        ∧ (to_Q (Price.value r) == to_Q (Price.value a) - to_Q (Price.value b))%Q
    | Raise e => e = InvalidOperation
    end.
Proof.
  intros a b. split; [vm_compute; reflexivity|].
  apply (Price_add_sub_exact a b); (split; [reflexivity|cbn; lia]).
Defined.

(** A Money as the constructor makes it. *)
Definition Money_wf (m : Money.t) : Prop :=
  dexp (Money.amount m) = quantum_exp (Currency.precision (Money.currency m))
  ∧ Z.abs (dcoeff (Money.amount m)) < 10 ^ 28.

Lemma Money_new_aligned (n : Z) (c : Currency.t) :
  Money.new (_fix (mkDecimal n (quantum_exp (Currency.precision c)))) c
  = if Z.abs n <? 10 ^ 28
    then Ok (Money.mk (mkDecimal n (quantum_exp (Currency.precision c))) c)
    else Raise InvalidOperation.
Proof.
  unfold Money.new.
  destruct (Z.ltb_spec (Z.abs n) (10 ^ 28)) as [Hlt|Hge].
  - rewrite fix_small by lia. rewrite quantize_same_exp by lia. reflexivity.
  - rewrite quantize_fix_overflow by lia. reflexivity.
Qed.

(** X16: a sum of two amounts of money exists only for one currency, and
    then subtracting the second amount from it gives back the first. *)
Theorem Money_add_sub_round_trip (a b s : Money.t) :
  Money_wf a → Money_wf b →
  Money.add a b = Ok s →
  Money.currency a = Money.currency b
  ∧ Money.currency s = Money.currency a
  ∧ (to_Q (Money.amount s) == to_Q (Money.amount a) + to_Q (Money.amount b))%Q
  ∧ Money.sub s b = Ok a.
Proof.
  destruct a as [[c1 e1] cur], b as [[c2 e2] cur2]. unfold Money_wf. cbn.
  intros [-> H1] [-> H2]. unfold Money.add, Money.sub.
  cbn [Money.amount Money.currency].
  destruct (decide (cur = cur2)) as [<-|Hne].
  2:{ rewrite bool_decide_eq_true_2 by exact Hne. discriminate. }
  rewrite bool_decide_eq_false_2 by (intros H; apply H; reflexivity).
  rewrite add_same_exp, Money_new_aligned.
  destruct (Z.ltb_spec (Z.abs (c1 + c2)) (10 ^ 28)) as [Hlt|]; [|discriminate].
  intros [= <-]. cbn [Money.amount Money.currency].
  rewrite bool_decide_eq_false_2 by (intros H; apply H; reflexivity).
  split; [reflexivity|]. split; [reflexivity|].
  split; [apply exact_add_to_Q|].
  rewrite sub_same_exp, Money_new_aligned.
  replace (c1 + c2 - c2) with c1 by lia.
  destruct (Z.ltb_spec (Z.abs c1) (10 ^ 28)); [reflexivity|lia].
Qed.

Lemma Money_add_sub_round_trip_witness :
  let a := Money.mk (mkDecimal 150 (-2)) USD in
  let b := Money.mk (mkDecimal (-275) (-2)) USD in
  Money.add a b = Ok (Money.mk (mkDecimal (-125) (-2)) USD)
  ∧ Money.sub (Money.mk (mkDecimal (-125) (-2)) USD) b = Ok a.
Proof.
  intros a b.
  assert (H : Money.add a b = Ok (Money.mk (mkDecimal (-125) (-2)) USD))
    by (vm_compute; reflexivity).
  split; [exact H|].
  apply (Money_add_sub_round_trip a b _); [| |exact H];
    (split; [reflexivity|cbn; lia]).
Defined.

End ScalarArithmetic.

(** ** Positions *)

Section PositionFills.
Import decimal.

Lemma update_side_and_qty_Ok (p p' : Position.t) :
  Position._update_side_and_qty p = (p', Ok tt) →
  ∃ q, Quantity.new (abs (Position.signed_qty p)) (Position._qty_precision p) = Ok q
       ∧ p' = Position.set_quantity q
                (Position.set_side
                   (if gtb (Position.signed_qty p) zero then LONG
                    else if ltb (Position.signed_qty p) zero then SHORT else FLAT)
                   p).
Proof.
  intros H.
  destruct (Quantity.new (abs (Position.signed_qty p)) (Position._qty_precision p))
    as [q|e] eqn:Hq.
  - exists q. split; [reflexivity|].
    rewrite (update_side_and_qty_eval p _ q eq_refl Hq) in H. congruence.
  - exfalso. unfold Position._update_side_and_qty in H. munfold_in H.
    destruct (gtb (Position.signed_qty p) zero); cbn in H.
    + rewrite Hq in H. discriminate.
    + destruct (ltb (Position.signed_qty p) zero); cbn in H;
        rewrite Hq in H; discriminate.
Qed.

(** Either side of Position.apply ends in _update_side_and_qty, and nothing
    after it touches the quantity fields. *)
Lemma apply_ends_in_update (fill : OrderFilled.t) (p p' : Position.t) :
  Position.apply fill p = (p', Ok tt) →
  ∃ p1 p2,
    Position._update_side_and_qty p1 = (p2, Ok tt)
    ∧ p' = Position.set_events (Position._events p2 ++ [fill]) p2
    ∧ Position._qty_precision p1 = Position._qty_precision p.
Proof.
  rewrite apply_unfold.
  assert (Hq : Position._qty_precision (commission_recorded fill p)
               = Position._qty_precision p).
  { unfold commission_recorded. destruct (OrderFilled.commission fill); reflexivity. }
  revert Hq. generalize (commission_recorded fill p). intros p0 Hq.
  set (vq := Quantity.value (OrderFilled.last_qty fill)).
  set (vp := Price.value (OrderFilled.last_px fill)).
  destruct (bool_decide (OrderFilled.order_side fill = BUY)).
  - destruct (Position._apply_buy vq vp p0) as [p2 [[]|e]] eqn:H; [|discriminate].
    intros [= <-]. unfold Position._apply_buy in H.
    apply bind_Ok in H as (self & s0 & H0 & H). apply get_Ok in H0 as [-> ->].
    apply bind_Ok in H as ([] & p1 & H1 & H2). exists p1, p2.
    split; [exact H2|]. split; [reflexivity|]. rewrite <- Hq.
    destruct (Position.side p0); munfold_in H1.
    + destruct (gtb _ zero); [|injection H1 as <-; reflexivity].
      destruct (div _ _); [|discriminate]. injection H1 as <-. reflexivity.
    + destruct (gtb _ zero); [|injection H1 as <-; reflexivity].
      destruct (div _ _); [|discriminate]. injection H1 as <-. reflexivity.
    + destruct (gtb _ zero); [injection H1 as <-; reflexivity|].
      destruct (eqb _ zero); injection H1 as <-; reflexivity.
  - destruct (Position._apply_sell vq vp p0) as [p2 [[]|e]] eqn:H; [|discriminate].
    intros [= <-]. unfold Position._apply_sell in H.
    apply bind_Ok in H as (self & s0 & H0 & H). apply get_Ok in H0 as [-> ->].
    apply bind_Ok in H as ([] & p1 & H1 & H2). exists p1, p2.
    split; [exact H2|]. split; [reflexivity|]. rewrite <- Hq.
    destruct (Position.side p0); munfold_in H1.
    + destruct (gtb _ zero); [|injection H1 as <-; reflexivity].
      destruct (div _ _); [|discriminate]. injection H1 as <-. reflexivity.
    + destruct (gtb _ zero); [injection H1 as <-; reflexivity|].
      destruct (eqb _ zero); injection H1 as <-; reflexivity.
    + destruct (gtb _ zero); [|injection H1 as <-; reflexivity].
      destruct (div _ _); [|discriminate]. injection H1 as <-. reflexivity.
Qed.

(** X17: after every fill that Position.apply accepts, the side is LONG,
    SHORT or FLAT as signed_qty is positive, negative or zero, the position
    is open exactly when signed_qty is not zero, and quantity is
    |signed_qty| as a Quantity of the position's quantity precision. *)
Theorem position_side_follows_signed_qty (fill : OrderFilled.t)
    (p p' : Position.t) :
  Position.apply fill p = (p', Ok tt) →
  Position.side p'
  = (if gtb (Position.signed_qty p') zero then LONG
     else if ltb (Position.signed_qty p') zero then SHORT else FLAT)
  ∧ (Position.is_open p' = true ↔ ¬ (to_Q (Position.signed_qty p') == 0)%Q)
  ∧ Quantity.new (abs (Position.signed_qty p')) (Position._qty_precision p)
    = Ok (Position.quantity p').
Proof.
  intros H. apply apply_ends_in_update in H as (p1 & p2 & Hu & -> & Hprec).
  apply update_side_and_qty_Ok in Hu as (q & Hq & ->). cbn.
  rewrite <- Hprec. split; [reflexivity|]. split; [|exact Hq].
  unfold Position.is_open. cbn. rewrite bool_decide_eq_true.
  destruct (gtb (Position.signed_qty p1) zero) eqn:Hg.
  - apply gtb_to_Q in Hg. rewrite to_Q_zero in Hg.
    split; [|discriminate]. intros _ E. rewrite E in Hg.
    exact (Qlt_irrefl _ Hg).
  - destruct (ltb (Position.signed_qty p1) zero) eqn:Hl.
    + apply ltb_to_Q in Hl. rewrite to_Q_zero in Hl.
      split; [|discriminate]. intros _ E. rewrite E in Hl.
      exact (Qlt_irrefl _ Hl).
    + split; [intros Hc; contradiction|]. intros Hne. exfalso. apply Hne.
      destruct (Qlt_le_dec 0 (to_Q (Position.signed_qty p1))) as [Hpos|Hle].
      * rewrite (gtb_zero_true _ Hpos) in Hg. discriminate.
      * destruct (Qlt_le_dec (to_Q (Position.signed_qty p1)) 0) as [Hneg|Hge].
        -- rewrite (ltb_zero_true _ Hneg) in Hl. discriminate.
        -- apply Qle_antisym; assumption.
Qed.

Lemma position_side_follows_signed_qty_witness :
  let opening := position_fill BUY (qty 100 0 0) (px 15000 (-2) 2) None in
  let fill := position_fill SELL (qty 250 0 0) (px 15100 (-2) 2) None in
  ∃ p p',
    (Position.__init__ sample_instrument_id "P-001" opening = Ok p
     ∧ Position.apply fill p = (p', Ok tt))
    ∧ Position.side p' = SHORT
    ∧ Position.side p'
      = (if gtb (Position.signed_qty p') zero then LONG
         else if ltb (Position.signed_qty p') zero then SHORT else FLAT)
    ∧ (Position.is_open p' = true ↔ ¬ (to_Q (Position.signed_qty p') == 0)%Q)
    ∧ Quantity.new (abs (Position.signed_qty p')) (Position._qty_precision p)
      = Ok (Position.quantity p').
Proof.
  intros opening fill.
  assert (F : ∃ p p',
            Position.__init__ sample_instrument_id "P-001" opening = Ok p
            ∧ Position.apply fill p = (p', Ok tt)
            ∧ Position.side p' = SHORT).
  { eexists. eexists. split; [vm_compute; reflexivity|].
    split; vm_compute; reflexivity. }
  destruct F as (p & p' & Hi & Ha & Hs).
  exists p, p'. split; [auto|]. split; [exact Hs|].
  exact (position_side_follows_signed_qty fill p p' Ha).
Defined.

Lemma sub_self (a : Decimal) : sub a a = mkDecimal 0 (dexp a).
Proof.
  destruct a as [c e]. rewrite sub_same_exp, Z.sub_diag.
  apply fix_small. cbn. lia.
Qed.

Lemma min_of_leb (a b : Decimal) : leb a b = true → min a b = a.
Proof.
  intros H. unfold min. destruct (ltb b a) eqn:E; [|reflexivity].
  apply leb_to_Q in H. apply ltb_to_Q in E.
  exfalso. exact (Qlt_not_le _ _ E H).
Qed.

(** X18: a fill against an open position that is not larger than the
    position (a SELL on a LONG position, a BUY on a SHORT one) leaves
    avg_px_open as it was, and realises on the whole fill quantity the
    difference between the fill price and avg_px_open. *)
Theorem reducing_fill_keeps_avg_px_open (fill : OrderFilled.t)
    (p p' : Position.t) :
  let fq := Quantity.value (OrderFilled.last_qty fill) in
  let fp := Price.value (OrderFilled.last_px fill) in
  (Position.side p = LONG ∧ OrderFilled.order_side fill = SELL)
  ∨ (Position.side p = SHORT ∧ OrderFilled.order_side fill = BUY) →
  leb fq (abs (Position.signed_qty p)) = true →
  Position.apply fill p = (p', Ok tt) →
  Position.avg_px_open p' = Position.avg_px_open p
  ∧ Position.realized_pnl p'
    = add (Position.realized_pnl p)
          (mul fq (if bool_decide (Position.side p = LONG)
                   then sub fp (Position.avg_px_open p)
                   else sub (Position.avg_px_open p) fp))
  ∧ Position.signed_qty p'
    = (if bool_decide (Position.side p = LONG)
       then sub (Position.signed_qty p) fq
       else add (Position.signed_qty p) fq)
  ∧ Position._events p' = Position._events p ++ [fill].
Proof.
  intros fq fp Hside Hle H. rewrite apply_unfold in H. fold fq fp in H.
  destruct (commission_recorded_fields fill p) as (D1 & D2 & D3 & D4 & D5 & D6).
  revert D1 D2 D3 D4 D5 D6 H. generalize (commission_recorded fill p).
  intros p0 D1 D2 D3 D4 D5 D6 H.
  assert (Hmin : min fq (abs (Position.signed_qty p0)) = fq).
  { rewrite D2. apply min_of_leb. exact Hle. }
  assert (Hrem : gtb (sub fq fq) zero = false).
  { rewrite sub_self. apply gtb_zero_r. }
  destruct Hside as [[Hs Ho]|[Hs Ho]]; rewrite Ho in H; cbn [bool_decide] in H.
  - rewrite bool_decide_eq_false_2 in H by discriminate.
    destruct (Position._apply_sell fq fp p0) as [p2 [[]|e]] eqn:E; [|discriminate].
    injection H as <-. unfold Position._apply_sell in E.
    apply bind_Ok in E as (self & s0 & H0 & E). apply get_Ok in H0 as [-> ->].
    apply bind_Ok in E as ([] & p1 & H1 & H2).
    apply update_side_and_qty_Ok in H2 as (q & _ & ->).
    rewrite D1, Hs in H1. rewrite Hmin, Hrem in H1. munfold_in H1.
    rewrite Hs, bool_decide_eq_true_2 by reflexivity.
    destruct (eqb _ zero); injection H1 as <-; cbn;
      rewrite D2, D3, D4, D6; auto.
  - rewrite bool_decide_eq_true_2 in H by reflexivity.
    destruct (Position._apply_buy fq fp p0) as [p2 [[]|e]] eqn:E; [|discriminate].
    injection H as <-. unfold Position._apply_buy in E.
    apply bind_Ok in E as (self & s0 & H0 & E). apply get_Ok in H0 as [-> ->].
    apply bind_Ok in E as ([] & p1 & H1 & H2).
    apply update_side_and_qty_Ok in H2 as (q & _ & ->).
    rewrite D1, Hs in H1. rewrite Hmin, Hrem in H1. munfold_in H1.
    rewrite Hs, bool_decide_eq_false_2 by discriminate.
    destruct (eqb _ zero); injection H1 as <-; cbn;
      rewrite D2, D3, D4, D6; auto.
Qed.

Lemma reducing_fill_keeps_avg_px_open_witness :
  let opening := position_fill BUY (qty 100 0 0) (px 15000 (-2) 2) None in
  let fill := position_fill SELL (qty 40 0 0) (px 15100 (-2) 2) None in
  ∃ p p',
    (Position.__init__ sample_instrument_id "P-001" opening = Ok p
     ∧ Position.side p = LONG
     ∧ leb (Quantity.value (OrderFilled.last_qty fill))
           (abs (Position.signed_qty p)) = true
     ∧ Position.apply fill p = (p', Ok tt))
    ∧ Position.realized_pnl p' = mkDecimal 4000 (-2)
    ∧ Position.avg_px_open p' = Position.avg_px_open p
    ∧ Position.realized_pnl p'
      = add (Position.realized_pnl p)
            (mul (Quantity.value (OrderFilled.last_qty fill))
                 (if bool_decide (Position.side p = LONG)
                  then sub (Price.value (OrderFilled.last_px fill))
                           (Position.avg_px_open p)
                  else sub (Position.avg_px_open p)
                           (Price.value (OrderFilled.last_px fill))))
    ∧ Position.signed_qty p'
      = (if bool_decide (Position.side p = LONG)
         then sub (Position.signed_qty p) (Quantity.value (OrderFilled.last_qty fill))
         else add (Position.signed_qty p) (Quantity.value (OrderFilled.last_qty fill)))
    ∧ Position._events p' = Position._events p ++ [fill].
Proof.
  intros opening fill.
  assert (F : ∃ p p',
            Position.__init__ sample_instrument_id "P-001" opening = Ok p
            ∧ Position.side p = LONG
            ∧ leb (Quantity.value (OrderFilled.last_qty fill))
                  (abs (Position.signed_qty p)) = true
            ∧ Position.apply fill p = (p', Ok tt)
            ∧ Position.realized_pnl p' = mkDecimal 4000 (-2)).
  { eexists. eexists. split; [vm_compute; reflexivity|].
    split; [vm_compute; reflexivity|]. split; [vm_compute; reflexivity|].
    split; vm_compute; reflexivity. }
  destruct F as (p & p' & Hi & Hs & Hle & Ha & Hr).
  exists p, p'. split; [auto|]. split; [exact Hr|].
  apply (reducing_fill_keeps_avg_px_open fill p p'); [left; auto|exact Hle|exact Ha].
Defined.

(** Rounding to the context precision keeps the sign of a coefficient. *)
Lemma fix_sgn (d : Decimal) : Z.sgn (dcoeff (_fix d)) = Z.sgn (dcoeff d).
Proof.
  destruct d as [n e]. unfold _fix. cbn [dcoeff dexp]. unfold context_prec.
  destruct (Z.leb_spec (ndigits n) 28) as [|Hbig]; [reflexivity|].
  assert (Hn : 10 ^ 28 ≤ Z.abs n).
  { destruct (Z.le_gt_cases (10 ^ 28) (Z.abs n)) as [|Hlt]; [assumption|].
    pose proof (ndigits_le n 28 ltac:(lia) Hlt). lia. }
  assert (Hn0 : n ≠ 0) by (intros ->; cbn in Hn; lia).
  destruct (ndigits_bounds n Hn0) as (_ & Hlo & Hhi).
  set (k := ndigits n - 28) in *.
  assert (Hk : 0 < k) by lia.
  assert (Hp : 0 < 10 ^ k) by (apply pow10_pos; lia).
  assert (Hsplit : 10 ^ (ndigits n - 1) = 10 ^ 27 * 10 ^ k).
  { rewrite <- Z.pow_add_r by lia. f_equal. unfold k. lia. }
  assert (Hfloor : 10 ^ 27 ≤ Z.abs n / 10 ^ k).
  { apply Z.div_le_lower_bound; lia. }
  set (q := round_half_even_div (Z.abs n) k).
  assert (Hq : 10 ^ 27 ≤ q).
  { unfold q, round_half_even_div. cbv zeta. destruct (_ || _); lia. }
  assert (Hsgn : ∀ z, 0 < z → Z.sgn (Z.sgn n * z) = Z.sgn n).
  { intros z Hz. rewrite Z.sgn_mul, Z.sgn_sgn, (Z.sgn_pos z) by exact Hz. lia. }
  destruct (Z.ltb_spec 28 (ndigits q)) as [Hq28|_]; cbn [dcoeff].
  - apply Hsgn. assert (10 ^ 28 ≤ q).
    { destruct (Z.le_gt_cases (10 ^ 28) q) as [|Hlt]; [assumption|].
      pose proof (ndigits_le q 28 ltac:(lia) ltac:(lia)). lia. }
    apply Z.div_str_pos. lia.
  - apply Hsgn. lia.
Qed.

Lemma gtb_zero_sgn (d : Decimal) : gtb d zero = (0 <? Z.sgn (dcoeff d)).
Proof.
  destruct d as [c e]. rewrite gtb_zero_r. cbn [dcoeff].
  destruct c; reflexivity.
Qed.

Lemma ltb_zero_sgn (d : Decimal) : ltb d zero = (Z.sgn (dcoeff d) <? 0).
Proof.
  destruct d as [c e]. rewrite ltb_zero_r. cbn [dcoeff].
  destruct c; reflexivity.
Qed.

Lemma sub_sgn (a b : Decimal) :
  Z.sgn (dcoeff (sub a b))
  = match compare a b with Lt => -1 | Eq => 0 | Gt => 1 end.
Proof.
  unfold sub, compare. destruct (align a b) as [[x y] e].
  rewrite fix_sgn. cbn [dcoeff].
  destruct (Z.compare_spec x y); [subst; rewrite Z.sub_diag; reflexivity| |].
  - apply Z.sgn_neg. lia.
  - apply Z.sgn_pos. lia.
Qed.

Lemma mul_abs_sgn (a b : Decimal) :
  dcoeff a ≠ 0 → Z.sgn (dcoeff (mul (abs a) b)) = Z.sgn (dcoeff b).
Proof.
  intros Ha. unfold mul. rewrite fix_sgn. cbn [dcoeff].
  rewrite Z.sgn_mul. unfold abs. rewrite fix_sgn. cbn [dcoeff].
  rewrite (Z.sgn_pos (Z.abs (dcoeff a))) by lia. lia.
Qed.

Lemma compare_antisym (a b : Decimal) : compare a b = CompOpp (compare b a).
Proof. rewrite !compare_to_Q. symmetry. apply Qcompare_antisym. Qed.

(** X19: rounding never changes the sign of the unrealized pnl: a LONG
    position with a non-zero signed quantity shows a profit exactly when the
    last price is above avg_px_open and a loss exactly when it is below, a
    SHORT one the other way round, and a FLAT position shows zero. *)
Theorem unrealized_pnl_sign (last_price : Price.t) (p : Position.t) :
  dcoeff (Position.signed_qty p) ≠ 0 →
  let u := Position.unrealized_pnl last_price p in
  let last := Price.value last_price in
  match Position.side p with
  | LONG => gtb u zero = gtb last (Position.avg_px_open p)
            ∧ ltb u zero = ltb last (Position.avg_px_open p)
  | SHORT => gtb u zero = ltb last (Position.avg_px_open p)
             ∧ ltb u zero = gtb last (Position.avg_px_open p)
  | FLAT => u = zero
  end.
Proof.
  intros Hq u last. subst u last. unfold Position.unrealized_pnl.
  generalize (Price.value last_price). intros last.
  destruct (Position.side p); [reflexivity| |];
    rewrite gtb_zero_sgn, ltb_zero_sgn, (mul_abs_sgn _ _ Hq), sub_sgn;
    unfold gtb, ltb.
  - rewrite (compare_antisym (Position.avg_px_open p) last).
    destruct (compare last (Position.avg_px_open p)); cbn; auto.
  - rewrite (compare_antisym last (Position.avg_px_open p)).
    destruct (compare (Position.avg_px_open p) last); cbn; auto.
Qed.

Lemma unrealized_pnl_sign_witness :
  let opening := position_fill SELL (qty 100 0 0) (px 15000 (-2) 2) None in
  ∃ p,
    (Position.__init__ sample_instrument_id "P-001" opening = Ok p
     ∧ dcoeff (Position.signed_qty p) ≠ 0)
    ∧ Position.unrealized_pnl (px 14900 (-2) 2) p = mkDecimal 10000 (-2)
    ∧ match Position.side p with
      | LONG => gtb (Position.unrealized_pnl (px 14900 (-2) 2) p) zero
                = gtb (Price.value (px 14900 (-2) 2)) (Position.avg_px_open p)
                ∧ ltb (Position.unrealized_pnl (px 14900 (-2) 2) p) zero
                  = ltb (Price.value (px 14900 (-2) 2)) (Position.avg_px_open p)
      | SHORT => gtb (Position.unrealized_pnl (px 14900 (-2) 2) p) zero
                 = ltb (Price.value (px 14900 (-2) 2)) (Position.avg_px_open p)
                 ∧ ltb (Position.unrealized_pnl (px 14900 (-2) 2) p) zero
                   = gtb (Price.value (px 14900 (-2) 2)) (Position.avg_px_open p)
      | FLAT => Position.unrealized_pnl (px 14900 (-2) 2) p = zero
      end.
Proof.
  intros opening.
  assert (F : ∃ p,
            Position.__init__ sample_instrument_id "P-001" opening = Ok p
            ∧ dcoeff (Position.signed_qty p) = -100
            ∧ Position.unrealized_pnl (px 14900 (-2) 2) p = mkDecimal 10000 (-2)).
  { eexists. split; [vm_compute; reflexivity|]. split; vm_compute; reflexivity. }
  destruct F as (p & Hi & Hq & Hu).
  assert (Hne : dcoeff (Position.signed_qty p) ≠ 0) by (rewrite Hq; discriminate).
  exists p. split; [auto|]. split; [exact Hu|].
  exact (unrealized_pnl_sign (px 14900 (-2) 2) p Hne).
Defined.

End PositionFills.

(** ** The cache's indices *)

Section CacheRoundTrip.

Lemma setdefault_append_lookup {A} (k : string) (x : A) (d : gmap string (list A)) :
  Cache.setdefault_append k x d !! k = Some (default [] (d !! k) ++ [x]).
Proof. unfold Cache.setdefault_append. apply lookup_insert_eq. Qed.

Lemma setdefault_append_lookup_ne {A} (k k' : string) (x : A)
    (d : gmap string (list A)) :
  k ≠ k' → Cache.setdefault_append k x d !! k' = d !! k'.
Proof. intros H. unfold Cache.setdefault_append. apply lookup_insert_ne. exact H. Qed.

Lemma add_order_by_venue (l : loc) (o : Order.t) (c : Cache.t) :
  Cache._orders_by_venue (Cache.add_order l o c)
  = Cache.setdefault_append (InstrumentId.venue (Order.instrument_id o))
      (Order.client_order_id o) (Cache._orders_by_venue c).
Proof. unfold Cache.add_order. destruct (Order.strategy_id o); reflexivity. Qed.

Lemma add_order_by_instrument (l : loc) (o : Order.t) (c : Cache.t) :
  Cache._orders_by_instrument (Cache.add_order l o c)
  = Cache.setdefault_append (InstrumentId.value (Order.instrument_id o))
      (Order.client_order_id o) (Cache._orders_by_instrument c).
Proof. unfold Cache.add_order. destruct (Order.strategy_id o); reflexivity. Qed.

Lemma add_order_by_strategy (l : loc) (o : Order.t) (c : Cache.t) (s : StrategyId) :
  Order.strategy_id o = Some s →
  Cache._orders_by_strategy (Cache.add_order l o c)
  = Cache.setdefault_append s (Order.client_order_id o) (Cache._orders_by_strategy c).
Proof. intros H. unfold Cache.add_order. rewrite H. reflexivity. Qed.

Lemma orders_of_ids_last (l : loc) (id : ClientOrderId) (ids : list ClientOrderId)
    (c : Cache.t) :
  Cache._orders c !! id = Some l → l ∈ Cache.orders_of_ids (ids ++ [id]) c.
Proof.
  intros H. unfold Cache.orders_of_ids. apply list_elem_of_omap.
  exists id. split; [|exact H]. apply elem_of_app. right. apply list_elem_of_here.
Qed.

(** X20: after add_order the order is the one order() returns for its
    client order id, and the queries by instrument, by venue and by
    strategy list it; the entries of the other client order ids are as
    before. *)
Theorem cache_add_order_round_trip (l : loc) (o : Order.t) (c : Cache.t) :
  let c' := Cache.add_order l o c in
  Cache.order (Order.client_order_id o) c' = Some l
  ∧ l ∈ Cache.orders (Some (Order.instrument_id o)) None c'
  ∧ l ∈ Cache.orders_for_venue (InstrumentId.venue (Order.instrument_id o)) c'
  ∧ (∀ s, Order.strategy_id o = Some s → l ∈ Cache.orders None (Some s) c')
  ∧ (∀ id, id ≠ Order.client_order_id o → Cache.order id c' = Cache.order id c).
Proof.
  intros c'.
  assert (Hl : Cache._orders c' !! Order.client_order_id o = Some l).
  { unfold c'. rewrite add_order_orders. apply lookup_insert_eq. }
  split; [exact Hl|]. split; [|split; [|split]].
  - unfold Cache.orders. unfold c' at 1. rewrite add_order_by_instrument.
    rewrite setdefault_append_lookup. cbn [default].
    apply orders_of_ids_last. exact Hl.
  - unfold Cache.orders_for_venue. unfold c' at 1. rewrite add_order_by_venue.
    rewrite setdefault_append_lookup. cbn [default].
    apply orders_of_ids_last. exact Hl.
  - intros s Hs. unfold Cache.orders. unfold c' at 1.
    rewrite (add_order_by_strategy l o c s Hs).
    rewrite setdefault_append_lookup. cbn [default].
    apply orders_of_ids_last. exact Hl.
  - intros id Hne. unfold Cache.order, c'. rewrite add_order_orders.
    apply lookup_insert_ne. congruence.
Qed.

End CacheRoundTrip.

(** ** What the risk engine lets through *)

Section RiskRules.
Import decimal.

(** X21: an order that validate_order lets through is for an instrument
    the cache knows, trading is not HALTED, its quantity has the
    instrument's size precision and lies within the instrument's minimum
    and maximum where these are set and positive, and its price, if it has
    one, is positive and has the instrument's price precision. *)
Theorem validate_order_accepts_only_valid (r : RiskEngine.t) (c : Cache.t)
    (o : Order.t) :
  RiskEngine.validate_order r c o = None →
  RiskEngine.trading_state r ≠ HALTED
  ∧ ∃ instrument,
      Cache.instrument (Order.instrument_id o) c = Some instrument
      ∧ Quantity.precision (Order.quantity o) = Instrument.size_precision instrument
      ∧ (∀ m, Instrument.min_quantity instrument = Some m →
              Quantity.bool m = true → Quantity.lt (Order.quantity o) m = false)
      ∧ (∀ m, Instrument.max_quantity instrument = Some m →
              Quantity.bool m = true → Quantity.gt (Order.quantity o) m = false)
      ∧ (∀ p, Order.price o = Some p →
              gtb (Price.value p) zero = true
              ∧ Price.precision p = Instrument.price_precision instrument).
Proof.
  unfold RiskEngine.validate_order.
  destruct (bool_decide (RiskEngine.trading_state r = HALTED)) eqn:Hh; [discriminate|].
  apply bool_decide_eq_false in Hh.
  destruct (Cache.instrument (Order.instrument_id o) c) as [i|]; [|discriminate].
  destruct (bool_decide (Quantity.precision (Order.quantity o)
                         ≠ Instrument.size_precision i)) eqn:Hp; [discriminate|].
  apply bool_decide_eq_false in Hp.
  intros H. split; [exact Hh|]. exists i. split; [reflexivity|].
  split; [destruct (decide (Quantity.precision (Order.quantity o)
                            = Instrument.size_precision i)); [assumption|contradiction]|].
  destruct (Instrument.min_quantity i) as [mn|] eqn:Hmin.
  - destruct (Quantity.bool mn && Quantity.lt (Order.quantity o) mn) eqn:Hmn;
      [discriminate|].
    destruct (Instrument.max_quantity i) as [mx|] eqn:Hmax.
    + destruct (Quantity.bool mx && Quantity.gt (Order.quantity o) mx) eqn:Hmx;
        [discriminate|].
      split; [intros m [= <-] Hb; rewrite Hb in Hmn; exact Hmn|].
      split; [intros m [= <-] Hb; rewrite Hb in Hmx; exact Hmx|].
      intros p Hpx. rewrite Hpx in H.
      destruct (leb (Price.value p) zero) eqn:Hle; [discriminate|].
      destruct (bool_decide (Price.precision p ≠ Instrument.price_precision i)) eqn:Hpp;
        [discriminate|].
      apply bool_decide_eq_false in Hpp. split.
      * unfold gtb, ltb. rewrite compare_antisym. unfold leb in Hle.
        destruct (compare (Price.value p) zero); try discriminate; reflexivity.
      * destruct (decide (Price.precision p = Instrument.price_precision i));
          [assumption|contradiction].
    + split; [intros m [= <-] Hb; rewrite Hb in Hmn; exact Hmn|].
      split; [intros m [=]|].
      intros p Hpx. rewrite Hpx in H.
      destruct (leb (Price.value p) zero) eqn:Hle; [discriminate|].
      destruct (bool_decide (Price.precision p ≠ Instrument.price_precision i)) eqn:Hpp;
        [discriminate|].
      apply bool_decide_eq_false in Hpp. split.
      * unfold gtb, ltb. rewrite compare_antisym. unfold leb in Hle.
        destruct (compare (Price.value p) zero); try discriminate; reflexivity.
      * destruct (decide (Price.precision p = Instrument.price_precision i));
          [assumption|contradiction].
  - destruct (Instrument.max_quantity i) as [mx|] eqn:Hmax.
    + destruct (Quantity.bool mx && Quantity.gt (Order.quantity o) mx) eqn:Hmx;
        [discriminate|].
      split; [intros m [=]|].
      split; [intros m [= <-] Hb; rewrite Hb in Hmx; exact Hmx|].
      intros p Hpx. rewrite Hpx in H.
      destruct (leb (Price.value p) zero) eqn:Hle; [discriminate|].
      destruct (bool_decide (Price.precision p ≠ Instrument.price_precision i)) eqn:Hpp;
        [discriminate|].
      apply bool_decide_eq_false in Hpp. split.
      * unfold gtb, ltb. rewrite compare_antisym. unfold leb in Hle.
        destruct (compare (Price.value p) zero); try discriminate; reflexivity.
      * destruct (decide (Price.precision p = Instrument.price_precision i));
          [assumption|contradiction].
    + split; [intros m [=]|]. split; [intros m [=]|].
      intros p Hpx. rewrite Hpx in H.
      destruct (leb (Price.value p) zero) eqn:Hle; [discriminate|].
      destruct (bool_decide (Price.precision p ≠ Instrument.price_precision i)) eqn:Hpp;
        [discriminate|].
      apply bool_decide_eq_false in Hpp. split.
      * unfold gtb, ltb. rewrite compare_antisym. unfold leb in Hle.
        destruct (compare (Price.value p) zero); try discriminate; reflexivity.
      * destruct (decide (Price.precision p = Instrument.price_precision i));
          [assumption|contradiction].
Qed.

Lemma validate_order_accepts_only_valid_witness :
  RiskEngine.validate_order (RiskEngine.mk ACTIVE) (cache sample_world)
    sample_limit_order = None
  ∧ RiskEngine.trading_state (RiskEngine.mk ACTIVE) ≠ HALTED
  ∧ ∃ instrument,
      Cache.instrument (Order.instrument_id sample_limit_order) (cache sample_world)
      = Some instrument
      ∧ Quantity.precision (Order.quantity sample_limit_order)
        = Instrument.size_precision instrument
      ∧ (∀ m, Instrument.min_quantity instrument = Some m →
              Quantity.bool m = true
              → Quantity.lt (Order.quantity sample_limit_order) m = false)
      ∧ (∀ m, Instrument.max_quantity instrument = Some m →
              Quantity.bool m = true
              → Quantity.gt (Order.quantity sample_limit_order) m = false)
      ∧ (∀ p, Order.price sample_limit_order = Some p →
              gtb (Price.value p) zero = true
              ∧ Price.precision p = Instrument.price_precision instrument).
Proof.
  assert (H : RiskEngine.validate_order (RiskEngine.mk ACTIVE) (cache sample_world)
                sample_limit_order = None) by (vm_compute; reflexivity).
  split; [exact H|].
  exact (validate_order_accepts_only_valid _ _ _ H).
Defined.

(** X22: in the REDUCING trading state, with a net position of zero in the
    order's instrument, the risk engine denies every order: a BUY because
    the net position is not negative, a SELL because it is not positive. *)
Theorem reducing_and_flat_denies_every_order (r : RiskEngine.t) (c : Cache.t)
    (o : Order.t) :
  RiskEngine.trading_state r = REDUCING →
  eqb (Portfolio.net_position (Order.instrument_id o) c) zero = true →
  ∃ denied, RiskEngine.validate_order r c o = Some denied.
Proof.
  intros Hr Hnet. unfold RiskEngine.validate_order.
  rewrite Hr. rewrite bool_decide_eq_false_2 by discriminate.
  destruct (Cache.instrument _ c) as [i|]; [|eauto].
  destruct (bool_decide (_ ≠ Instrument.size_precision i)); [eauto|].
  destruct (match Instrument.min_quantity i with Some _ => _ | None => _ end); [eauto|].
  destruct (match Instrument.max_quantity i with Some _ => _ | None => _ end); [eauto|].
  destruct (match Order.price o with Some _ => _ | None => _ end); [eauto|].
  rewrite bool_decide_eq_true_2 by reflexivity.
  unfold geb, leb. rewrite (compare_antisym zero).
  unfold eqb in Hnet.
  destruct (compare (Portfolio.net_position (Order.instrument_id o) c) zero);
    try discriminate. cbn [CompOpp].
  destruct (Order.side o); cbn; eauto.
Qed.

Lemma reducing_and_flat_denies_every_order_witness :
  ∃ denied,
    RiskEngine.validate_order (RiskEngine.mk REDUCING) (cache sample_world)
      sample_limit_order = Some denied.
Proof.
  apply (reducing_and_flat_denies_every_order (RiskEngine.mk REDUCING)
           (cache sample_world) sample_limit_order).
  - reflexivity.
  - vm_compute. reflexivity.
Defined.

End RiskRules.

(** ** Account balances *)

Section AccountBalances.
Import decimal.

Lemma Money_new_on_grid (d : Decimal) (c : Currency.t) (m : Money.t) :
  dexp d = quantum_exp (Currency.precision c) →
  Money.new d c = Ok m →
  m = Money.mk d c ∧ Z.abs (dcoeff d) < 10 ^ 28.
Proof.
  destruct d as [n e]. cbn [dexp dcoeff]. intros -> H.
  destruct (Z_lt_le_dec (Z.abs n) (10 ^ 28)) as [Hn|Hn].
  - unfold Money.new in H. rewrite quantize_same_exp in H by exact Hn.
    injection H as <-. auto.
  - exfalso. unfold Money.new, quantize in H. cbn [dcoeff dexp] in H.
    destruct (Z.eqb_spec n 0) as [->|Hn0]; [cbn in Hn; lia|].
    pose proof (ndigits_gt n 28 ltac:(lia) Hn) as Hnd. unfold context_prec in H.
    destruct (Z.ltb_spec 28
                (quantum_exp (Currency.precision c) + ndigits n - 1
                 - quantum_exp (Currency.precision c) + 1)); [discriminate|lia].
Qed.

(** X23: update_balance with a total and a locked amount on the grid of the
    currency stores them as they are and stores free = total - locked
    exactly; the balances of the other currencies and the commissions are
    not touched. *)
Theorem update_balance_free_is_total_minus_locked (currency : Currency.t)
    (total locked : Decimal) (a a' : Account.t) :
  dexp total = quantum_exp (Currency.precision currency) →
  dexp locked = quantum_exp (Currency.precision currency) →
  Account.update_balance currency total locked a = (a', Ok tt) →
  ∃ free,
    Account.balances a' !! currency
    = Some (AccountBalance.mk (Money.mk total currency) (Money.mk locked currency)
              (Money.mk free currency))
    ∧ (to_Q free == to_Q total - to_Q locked)%Q
    ∧ Account.balance_total (Some currency) a' = Some (Money.mk total currency)
    ∧ (∀ c, c ≠ currency → Account.balances a' !! c = Account.balances a !! c)
    ∧ Account.commissions a' = Account.commissions a.
Proof.
  intros Ht Hl H. unfold Account.update_balance in H.
  mstep H. apply (Money_new_on_grid _ _ _ Ht) in H0 as [-> Ct].
  mstep H. apply (Money_new_on_grid _ _ _ Hl) in H0 as [-> Cl].
  mstep H.
  destruct total as [x e], locked as [y e2]. cbn [dexp dcoeff] in *. subst e e2.
  rewrite sub_same_exp, Money_new_aligned in H0.
  destruct (Z.ltb_spec (Z.abs (x - y)) (10 ^ 28)); [|discriminate].
  injection H0 as <-.
  mstep H. unfold AccountBalance.new in H0. cbn [Money.currency] in H0.
  rewrite !bool_decide_eq_false_2 in H0 by (intros Hc; apply Hc; reflexivity).
  injection H0 as <-.
  mstep H. apply modify_Ok in H as ->.
  eexists. cbn [Account.balances Account.set_balances Account.commissions].
  split; [apply lookup_insert_eq|]. split; [apply exact_sub_to_Q|].
  split; [unfold Account.balance_total; cbn; rewrite lookup_insert_eq; reflexivity|].
  split; [|reflexivity]. intros c Hc. apply lookup_insert_ne. congruence.
Qed.

Lemma update_balance_free_is_total_minus_locked_witness :
  let a := Account.mk "SIM-001" CASH USD ∅ ∅ in
  ∃ a' free,
    Account.update_balance USD (mkDecimal 1000000 (-2)) (mkDecimal 25050 (-2)) a
    = (a', Ok tt)
    ∧ Account.balances a' !! USD
      = Some (AccountBalance.mk (Money.mk (mkDecimal 1000000 (-2)) USD)
                (Money.mk (mkDecimal 25050 (-2)) USD) (Money.mk free USD))
    ∧ (to_Q free == to_Q (mkDecimal 1000000 (-2)) - to_Q (mkDecimal 25050 (-2)))%Q
    ∧ Account.balance_total (Some USD) a'
      = Some (Money.mk (mkDecimal 1000000 (-2)) USD)
    ∧ (∀ c, c ≠ USD → Account.balances a' !! c = Account.balances a !! c)
    ∧ Account.commissions a' = Account.commissions a.
Proof.
  intros a.
  assert (F : ∃ a', Account.update_balance USD (mkDecimal 1000000 (-2))
                      (mkDecimal 25050 (-2)) a = (a', Ok tt)).
  { eexists. vm_compute. reflexivity. }
  destruct F as (a' & H).
  destruct (update_balance_free_is_total_minus_locked USD (mkDecimal 1000000 (-2))
              (mkDecimal 25050 (-2)) a a' eq_refl eq_refl H) as (free & R).
  exists a', free. split; [exact H|exact R].
Defined.

End AccountBalances.

(** ** The data a run processes, and the drawdown of its balance curve *)

Section EngineData.
Import BacktestEngine decimal.

Definition in_range (start end_ : option Z) (t : Z) : bool :=
  match start with Some s => bool_decide (s ≤ t) | None => true end
  && match end_ with Some e => bool_decide (t ≤ e) | None => true end.

Definition ts_le (x y : Datum) : Prop := ts_event x ≤ ts_event y.

(** Every datum is followed by data of the same or a later ts_event only. *)
Fixpoint chronological (l : list Datum) : Prop :=
  match l with
  | [] => True
  | x :: rest => Forall (ts_le x) rest ∧ chronological rest
  end.

Lemma insert_datum_at (t : Z) (d : Datum) (l : list Datum) :
  filter (λ x, ts_event x = t) (insert_datum d l)
  = if decide (ts_event d = t)
    then d :: filter (λ x, ts_event x = t) l
    else filter (λ x, ts_event x = t) l.
Proof.
  induction l as [|x rest IH]; cbn [insert_datum].
  - rewrite filter_cons, filter_nil. reflexivity.
  - destruct (Z.leb_spec (ts_event d) (ts_event x)) as [Hle|Hgt].
    + rewrite filter_cons. reflexivity.
    + rewrite !(filter_cons _ x), IH.
      destruct (decide (ts_event x = t)) as [Hx|Hx]; [|reflexivity].
      destruct (decide (ts_event d = t)) as [Hd|Hd]; [lia|reflexivity].
Qed.

Lemma sort_at (t : Z) (data : list Datum) :
  filter (λ x, ts_event x = t) (sort data) = filter (λ x, ts_event x = t) data.
Proof.
  induction data as [|d data IH]; [reflexivity|].
  change (sort (d :: data)) with (insert_datum d (sort data)).
  rewrite insert_datum_at, IH, filter_cons. reflexivity.
Qed.

Lemma insert_datum_elem (d x : Datum) (l : list Datum) :
  x ∈ insert_datum d l → x = d ∨ x ∈ l.
Proof.
  induction l as [|y rest IH]; cbn [insert_datum].
  - intros H. apply list_elem_of_singleton in H. auto.
  - destruct (ts_event d <=? ts_event y).
    + intros H. apply elem_of_cons in H. exact H.
    + intros H. apply elem_of_cons in H as [->|H].
      * right. apply list_elem_of_here.
      * apply IH in H as [->|H]; [auto|]. right. apply list_elem_of_further, H.
Qed.

Lemma insert_datum_sorted (d : Datum) (l : list Datum) :
  chronological l → chronological (insert_datum d l).
Proof.
  induction l as [|y rest IH]; cbn [insert_datum]; intros Hs.
  - cbn. auto.
  - destruct Hs as [Hy Hrest].
    destruct (Z.leb_spec (ts_event d) (ts_event y)) as [Hle|Hgt].
    + cbn [chronological]. split; [|split; assumption].
      constructor; [exact Hle|].
      eapply Forall_impl; [exact Hy|]. unfold ts_le. intros z Hz. lia.
    + cbn [chronological]. split; [|apply IH, Hrest].
      rewrite Forall_forall in Hy |- *. intros z Hz.
      apply insert_datum_elem in Hz as [->|Hz]; [unfold ts_le; lia|auto].
Qed.

Lemma sort_sorted (data : list Datum) : chronological (sort data).
Proof.
  induction data as [|d data IH]; [exact I|].
  change (sort (d :: data)) with (insert_datum d (sort data)).
  apply insert_datum_sorted, IH.
Qed.

Lemma filter_sorted (P : Datum → Prop) `{∀ x, Decision (P x)} (l : list Datum) :
  chronological l → chronological (filter P l).
Proof.
  induction l as [|y rest IH]; intros Hs; [exact I|].
  destruct Hs as [Hy Hrest]. rewrite filter_cons.
  destruct (decide (P y)); [|apply IH, Hrest].
  split; [|apply IH, Hrest].
  rewrite Forall_forall in Hy |- *. intros z Hz.
  apply list_elem_of_filter in Hz as [_ Hz]. auto.
Qed.

Lemma filter_at_from (s t : Z) (l : list Datum) :
  filter (λ x, ts_event x = t) (filter (λ d, s ≤ ts_event d) l)
  = if bool_decide (s ≤ t) then filter (λ x, ts_event x = t) l else [].
Proof.
  induction l as [|y rest IH].
  - destruct (bool_decide (s ≤ t)); reflexivity.
  - rewrite (filter_cons (λ d, s ≤ ts_event d)).
    destruct (decide (s ≤ ts_event y)) as [Hy|Hy].
    + rewrite !(filter_cons _ y), IH.
      destruct (decide (ts_event y = t)) as [<-|]; [|reflexivity].
      rewrite bool_decide_eq_true_2 by exact Hy. reflexivity.
    + rewrite IH, (filter_cons _ y).
      destruct (decide (ts_event y = t)) as [<-|]; [|reflexivity].
      rewrite bool_decide_eq_false_2 by exact Hy. reflexivity.
Qed.

Lemma filter_at_until (e t : Z) (l : list Datum) :
  filter (λ x, ts_event x = t) (filter (λ d, ts_event d ≤ e) l)
  = if bool_decide (t ≤ e) then filter (λ x, ts_event x = t) l else [].
Proof.
  induction l as [|y rest IH].
  - destruct (bool_decide (t ≤ e)); reflexivity.
  - rewrite (filter_cons (λ d, ts_event d ≤ e)).
    destruct (decide (ts_event y ≤ e)) as [Hy|Hy].
    + rewrite !(filter_cons _ y), IH.
      destruct (decide (ts_event y = t)) as [<-|]; [|reflexivity].
      rewrite bool_decide_eq_true_2 by exact Hy. reflexivity.
    + rewrite IH, (filter_cons _ y).
      destruct (decide (ts_event y = t)) as [<-|]; [|reflexivity].
      rewrite bool_decide_eq_false_2 by exact Hy. reflexivity.
Qed.

(** X24: the data that run hands to the event loop are in non-decreasing
    order of ts_event, and for every timestamp t they hold the data of
    that timestamp exactly as the input has them, in their input order,
    when t is within [start, end], and none of them otherwise. *)
Theorem run_data_sorted_stable (data : list Datum) (start end_ : option Z) :
  let d := filter_range start end_ (sort data) in
  chronological d
  ∧ ∀ t, filter (λ x, ts_event x = t) d
         = if in_range start end_ t
           then filter (λ x, ts_event x = t) data
           else [].
Proof.
  intros d. subst d. unfold filter_range, in_range. split.
  - destruct start as [s|], end_ as [e|];
      repeat apply filter_sorted; apply sort_sorted.
  - intros t. destruct start as [s|], end_ as [e|]; cbn [andb].
    + rewrite filter_at_until, filter_at_from, sort_at.
      destruct (bool_decide (s ≤ t)), (bool_decide (t ≤ e)); reflexivity.
    + rewrite filter_at_from, sort_at, andb_true_r. reflexivity.
    + rewrite filter_at_until, sort_at. reflexivity.
    + apply sort_at.
Qed.

(** Each balance is at least the one before it, starting from [prev]. *)
Fixpoint non_decreasing (prev : Decimal) (balances : list Decimal) : Prop :=
  match balances with
  | [] => True
  | b :: rest => (to_Q prev <= to_Q b)%Q ∧ non_decreasing b rest
  end.

Lemma non_decreasing_from (a b : Decimal) (l : list Decimal) :
  (to_Q a == to_Q b)%Q → non_decreasing a l ↔ non_decreasing b l.
Proof. intros E. destruct l as [|x l]; cbn; [tauto|]. rewrite E. tauto. Qed.

Lemma to_Q_sgn_pos (d : Decimal) : Z.sgn (dcoeff d) = 1 → (0 < to_Q d)%Q.
Proof.
  intros H. rewrite <- to_Q_zero. apply gtb_to_Q.
  rewrite gtb_zero_sgn, H. reflexivity.
Qed.

Lemma to_Q_sgn_zero (d : Decimal) : Z.sgn (dcoeff d) = 0 → (to_Q d == 0)%Q.
Proof.
  destruct d as [[|n|n] e]; cbn [dcoeff Z.sgn]; intros H;
    [apply to_Q_zero_coeff|discriminate|discriminate].
Qed.

Lemma drawdown_step_eq (md peak bal : Decimal) (ts : Z) :
  drawdown_step (md, peak) (ts, bal)
  = let peak' := if gtb bal peak then bal else peak in
    (if gtb (sub peak' bal) md then sub peak' bal else md, peak').
Proof. reflexivity. Qed.

Lemma drawdown_fold (curve : list (Z * Decimal)) :
  ∀ md peak,
    (0 <= to_Q md)%Q →
    (to_Q md <= to_Q (foldl drawdown_step (md, peak) curve).1)%Q
    ∧ ((to_Q (foldl drawdown_step (md, peak) curve).1 == 0)%Q
       ↔ (to_Q md == 0)%Q ∧ non_decreasing peak curve.*2).
Proof.
  induction curve as [|[ts bal] rest IH]; intros md peak Hmd.
  - cbn. split; [apply Qle_refl|tauto].
  - change (foldl drawdown_step (md, peak) ((ts, bal) :: rest))
      with (foldl drawdown_step (drawdown_step (md, peak) (ts, bal)) rest).
    change (((ts, bal) :: rest).*2) with (bal :: rest.*2).
    cbn [non_decreasing]. rewrite drawdown_step_eq. cbv zeta.
    destruct (gtb bal peak) eqn:Hgt.
    + apply gtb_to_Q in Hgt.
      assert (Hdd : gtb (sub bal bal) md = false).
      { destruct (gtb (sub bal bal) md) eqn:E; [|reflexivity].
        apply gtb_to_Q in E. rewrite sub_self, to_Q_zero_coeff in E.
        exfalso. exact (Qlt_not_le _ _ E Hmd). }
      rewrite Hdd. destruct (IH md bal Hmd) as [I1 I2].
      split; [exact I1|]. rewrite I2.
      pose proof (Qlt_le_weak _ _ Hgt). tauto.
    + assert (Hle : (to_Q bal <= to_Q peak)%Q).
      { destruct (Qlt_le_dec (to_Q peak) (to_Q bal)) as [Hlt|]; [|assumption].
        apply gtb_to_Q in Hlt. congruence. }
      pose proof (sub_sgn peak bal) as Hs. rewrite compare_to_Q in Hs.
      destruct (to_Q peak ?= to_Q bal)%Q eqn:Hc.
      * apply Qeq_alt in Hc. apply to_Q_sgn_zero in Hs.
        assert (Hdd : gtb (sub peak bal) md = false).
        { destruct (gtb (sub peak bal) md) eqn:E; [|reflexivity].
          apply gtb_to_Q in E. rewrite Hs in E.
          exfalso. exact (Qlt_not_le _ _ E Hmd). }
        rewrite Hdd. destruct (IH md peak Hmd) as [I1 I2].
        split; [exact I1|]. rewrite I2.
        rewrite (non_decreasing_from bal peak) by (symmetry; exact Hc).
        rewrite Hc. pose proof (Qle_refl (to_Q bal)). tauto.
      * apply Qlt_alt in Hc. exfalso. exact (Qlt_not_le _ _ Hc Hle).
      * apply Qgt_alt in Hc. apply to_Q_sgn_pos in Hs.
        set (md1 := if gtb (sub peak bal) md then sub peak bal else md).
        assert (H1 : (to_Q md <= to_Q md1)%Q ∧ (0 < to_Q md1)%Q).
        { unfold md1. destruct (gtb (sub peak bal) md) eqn:E.
          - apply gtb_to_Q in E. split; [apply Qlt_le_weak, E|exact Hs].
          - split; [apply Qle_refl|].
            destruct (Qlt_le_dec (to_Q md) (to_Q (sub peak bal))) as [Hlt|Hge].
            + apply gtb_to_Q in Hlt. congruence.
            + eapply Qlt_le_trans; [exact Hs|exact Hge]. }
        destruct H1 as [H1 H2].
        destruct (IH md1 peak (Qlt_le_weak _ _ H2)) as [I1 I2].
        split; [eapply Qle_trans; [exact H1|exact I1]|].
        split.
        -- intros E. rewrite E in I1. exfalso. exact (Qlt_not_le _ _ H2 I1).
        -- intros [_ [Hbad _]]. exfalso. exact (Qlt_not_le _ _ Hc Hbad).
Qed.

(** X25: the maximum drawdown that _build_result computes is never
    negative, and it is zero exactly when the balance curve never drops:
    its first balance is at least the starting balance and each balance
    is at least the one before it. *)
Theorem max_drawdown_zero_iff_never_drops (starting_balance : Decimal)
    (balance_curve : list (Z * Decimal)) :
  (0 <= to_Q (max_drawdown starting_balance balance_curve))%Q
  ∧ ((to_Q (max_drawdown starting_balance balance_curve) == 0)%Q
     ↔ non_decreasing starting_balance balance_curve.*2).
Proof.
  unfold max_drawdown.
  assert (H0 : (0 <= to_Q zero)%Q) by (rewrite to_Q_zero; apply Qle_refl).
  destruct (drawdown_fold balance_curve zero starting_balance H0) as [I1 I2].
  split; [rewrite to_Q_zero in I1; exact I1|].
  rewrite I2. pose proof to_Q_zero. tauto.
Qed.

End EngineData.

(** ** The subscriptions of the message bus *)

Section BusSubscriptions.
Context {Callable : Type} `{EqDecision Callable}.

(** A call of subscribe or of unsubscribe. *)
Inductive BusCall :=
| CallSubscribe (topic : string) (handler : Callable)
| CallUnsubscribe (topic : string) (handler : Callable).

Definition bus_call (self : gmap string (list Callable)) (call : BusCall)
    : gmap string (list Callable) :=
  match call with
  | CallSubscribe topic handler => MessageBus.subscribe topic handler self
  | CallUnsubscribe topic handler => MessageBus.unsubscribe topic handler self
  end.

(** The bus after a sequence of calls on a new bus. *)
Definition bus_after (calls : list BusCall) : gmap string (list Callable) :=
  foldl bus_call MessageBus.__init__ calls.

Lemma list_remove_sublist (h : Callable) (l : list Callable) :
  MessageBus.list_remove h l `sublist_of` l.
Proof.
  induction l as [|x l IH]; cbn; [reflexivity|].
  destruct (bool_decide (x = h)).
  - apply sublist_cons. reflexivity.
  - apply sublist_skip. exact IH.
Qed.

Lemma filter_ne_absent (h : Callable) (l : list Callable) :
  h ∉ l → filter (λ x, x ≠ h) l = l.
Proof.
  induction l as [|y l IH]; intros Hnin; [reflexivity|].
  apply not_elem_of_cons in Hnin as [Hy Hnin]. rewrite filter_cons.
  destruct (decide (y ≠ h)) as [|Hn].
  - rewrite IH by exact Hnin. reflexivity.
  - exfalso. apply Hn. intros ->. apply Hy. reflexivity.
Qed.

Lemma list_remove_filter (h : Callable) (l : list Callable) :
  NoDup l → MessageBus.list_remove h l = filter (λ x, x ≠ h) l.
Proof.
  induction l as [|x l IH]; intros Hnd; [reflexivity|].
  apply NoDup_cons in Hnd as [Hnin Hnd]. cbn [MessageBus.list_remove].
  rewrite filter_cons. destruct (decide (x = h)) as [->|Hne].
  - rewrite bool_decide_eq_true_2 by reflexivity.
    destruct (decide (h ≠ h)); [contradiction|].
    symmetry. apply filter_ne_absent, Hnin.
  - rewrite bool_decide_eq_false_2 by exact Hne.
    destruct (decide (x ≠ h)); [|contradiction]. rewrite IH by exact Hnd.
    reflexivity.
Qed.

Definition all_unique (self : gmap string (list Callable)) : Prop :=
  ∀ topic, NoDup (MessageBus.subscriptions topic self).

Lemma subscriptions_insert (topic topic' : string) (l : list Callable)
    (self : gmap string (list Callable)) :
  MessageBus.subscriptions topic' (<[topic := l]> self)
  = if decide (topic = topic') then l else MessageBus.subscriptions topic' self.
Proof.
  unfold MessageBus.subscriptions. destruct (decide (topic = topic')) as [->|Hne].
  - rewrite lookup_insert_eq. reflexivity.
  - rewrite lookup_insert_ne by exact Hne. reflexivity.
Qed.

Lemma bus_call_unique (self : gmap string (list Callable)) (call : BusCall) :
  all_unique self → all_unique (bus_call self call).
Proof.
  intros Hu topic'. destruct call as [topic h|topic h]; cbn [bus_call].
  - unfold MessageBus.subscribe.
    destruct (bool_decide (h ∉ default [] (self !! topic))) eqn:E;
      rewrite subscriptions_insert; destruct (decide (topic = topic'));
      [|apply Hu|exact (Hu topic)|apply Hu].
    apply bool_decide_eq_true in E. apply NoDup_app.
    split; [exact (Hu topic)|]. split; [|apply NoDup_singleton].
    intros x Hx Hx'. apply list_elem_of_singleton in Hx' as ->. contradiction.
  - unfold MessageBus.unsubscribe. destruct (self !! topic) as [subs|] eqn:El;
      [|apply Hu].
    destruct (bool_decide (h ∈ subs)); [|apply Hu].
    rewrite subscriptions_insert. destruct (decide (topic = topic')); [|apply Hu].
    eapply sublist_NoDup; [|apply list_remove_sublist].
    specialize (Hu topic). unfold MessageBus.subscriptions in Hu.
    rewrite El in Hu. exact Hu.
Qed.

Lemma bus_after_unique (calls : list BusCall) : all_unique (bus_after calls).
Proof.
  unfold bus_after.
  assert (G : ∀ s, all_unique s → all_unique (foldl bus_call s calls)).
  { induction calls as [|c calls IH]; intros s Hs; [exact Hs|].
    cbn [foldl]. apply IH, bus_call_unique, Hs. }
  apply G. intros topic. unfold MessageBus.subscriptions, MessageBus.__init__.
  rewrite lookup_empty. apply NoDup_nil_2.
Qed.

(** X26: whatever subscribe and unsubscribe calls a bus has seen, a topic
    never lists a handler twice (publish calls each subscribed handler
    once per message), and subscribing a handler leaves it subscribed:
    last in the list if it was not there, where it was otherwise. *)
Theorem bus_subscribe_once (calls : list BusCall) (topic : string)
    (handler : Callable) :
  let before := MessageBus.subscriptions topic (bus_after calls) in
  let after := MessageBus.subscriptions topic
                 (MessageBus.subscribe topic handler (bus_after calls)) in
  NoDup before
  ∧ NoDup after
  ∧ after = (if decide (handler ∈ before) then before else before ++ [handler])
  ∧ MessageBus.has_subscribers topic
      (MessageBus.subscribe topic handler (bus_after calls)) = true.
Proof.
  intros before after.
  pose proof (bus_after_unique calls topic) as Hb.
  pose proof (bus_after_unique (calls ++ [CallSubscribe topic handler]) topic) as Ha.
  unfold bus_after in Ha. rewrite foldl_app in Ha. cbn [foldl bus_call] in Ha.
  fold (bus_after calls) in Ha.
  split; [exact Hb|]. split; [exact Ha|].
  assert (E : after = if decide (handler ∈ before) then before
                      else before ++ [handler]).
  { unfold after, before, MessageBus.subscribe.
    fold (MessageBus.subscriptions topic (bus_after calls)).
    destruct (decide (handler ∈ MessageBus.subscriptions topic (bus_after calls)))
      as [Hin|Hnin].
    - rewrite bool_decide_eq_false_2 by (intros Hc; contradiction).
      rewrite subscriptions_insert. destruct (decide (topic = topic)); congruence.
    - rewrite bool_decide_eq_true_2 by exact Hnin.
      rewrite subscriptions_insert. destruct (decide (topic = topic)); congruence. }
  split; [exact E|].
  assert (Hne : after ≠ []).
  { rewrite E. destruct (decide (handler ∈ before)) as [Hin|].
    - intros Hnil. rewrite Hnil in Hin. apply elem_of_nil in Hin as [].
    - destruct before; discriminate. }
  unfold after, MessageBus.subscriptions in Hne.
  unfold MessageBus.has_subscribers.
  destruct (MessageBus.subscribe topic handler (bus_after calls) !! topic)
    as [[|x l]|]; cbn in *; congruence.
Qed.

(** X27: unsubscribe removes the handler from the topic altogether, and
    leaves the other handlers of the topic in their order and the other
    topics as they were. *)
Theorem bus_unsubscribe_removes_handler (calls : list BusCall) (topic : string)
    (handler : Callable) :
  let after := MessageBus.unsubscribe topic handler (bus_after calls) in
  (handler ∉ MessageBus.subscriptions topic after)
  ∧ MessageBus.subscriptions topic after
    = filter (λ h, h ≠ handler) (MessageBus.subscriptions topic (bus_after calls))
  ∧ ∀ topic', topic' ≠ topic →
      MessageBus.subscriptions topic' after
      = MessageBus.subscriptions topic' (bus_after calls).
Proof.
  intros after.
  pose proof (bus_after_unique calls topic) as Hb.
  assert (E : MessageBus.subscriptions topic after
              = filter (λ h, h ≠ handler)
                  (MessageBus.subscriptions topic (bus_after calls))).
  { unfold after, MessageBus.unsubscribe.
    unfold MessageBus.subscriptions in Hb |- *.
    destruct (bus_after calls !! topic) as [subs|] eqn:El; cbn [default] in *.
    - destruct (decide (handler ∈ subs)) as [Hin|Hnin].
      + rewrite bool_decide_eq_true_2 by exact Hin.
        rewrite lookup_insert_eq. cbn [default].
        apply list_remove_filter, Hb.
      + rewrite bool_decide_eq_false_2 by exact Hnin. rewrite El. cbn [default].
        symmetry. apply filter_ne_absent, Hnin.
    - rewrite El. reflexivity. }
  split; [|split; [exact E|]].
  - rewrite E. intros Hin. apply list_elem_of_filter in Hin as [Hne _].
    apply Hne. reflexivity.
  - intros topic' Hne. unfold after, MessageBus.unsubscribe.
    destruct (bus_after calls !! topic) as [subs|]; [|reflexivity].
    destruct (bool_decide (handler ∈ subs)); [|reflexivity].
    rewrite subscriptions_insert.
    destruct (decide (topic = topic')); [congruence|reflexivity].
Qed.

End BusSubscriptions.

(** ** The client order ids of an order factory *)

Section FactoryIds.
Import OrderFactory.

(** A call of one of the four methods of the factory that create an
    order. *)
Inductive FactoryCall :=
| CallMarket (instrument_id : InstrumentId.t) (side : OrderSide)
    (quantity : Quantity.t) (time_in_force : TimeInForce) (ts_init : Z)
| CallLimit (instrument_id : InstrumentId.t) (side : OrderSide)
    (quantity : Quantity.t) (price : Price.t) (time_in_force : TimeInForce)
    (ts_init : Z)
| CallStopMarket (instrument_id : InstrumentId.t) (side : OrderSide)
    (quantity : Quantity.t) (trigger_price : Price.t)
    (time_in_force : TimeInForce) (ts_init : Z)
| CallStopLimit (instrument_id : InstrumentId.t) (side : OrderSide)
    (quantity : Quantity.t) (price trigger_price : Price.t)
    (time_in_force : TimeInForce) (ts_init : Z).

Definition factory_call (call : FactoryCall) : M OrderFactory.t Order.t :=
  match call with
  | CallMarket i s q tif ts => market i s q tif ts
  | CallLimit i s q p tif ts => limit i s q p tif ts
  | CallStopMarket i s q tp tif ts => stop_market i s q tp tif ts
  | CallStopLimit i s q p tp tif ts => stop_limit i s q p tp tif ts
  end.

(** The orders that successive calls on a factory return; a call that
    raises returns none. *)
Fixpoint created (calls : list FactoryCall) (self : OrderFactory.t) : list Order.t :=
  match calls with
  | [] => []
  | call :: rest =>
      match factory_call call self with
      | (self', Ok order) => order :: created rest self'
      | (self', Raise _) => created rest self'
      end
  end.

Definition order_id (strategy_id : StrategyId) (n : Z) : ClientOrderId :=
  "O-" +:+ strategy_id +:+ "-" +:+ pretty n.

Lemma order_id_inj (strategy_id : StrategyId) (n m : Z) :
  order_id strategy_id n = order_id strategy_id m → n = m.
Proof.
  unfold order_id. intros H.
  apply (inj (String.app "O-")) in H.
  apply (inj (String.app strategy_id)) in H.
  apply (inj (String.app "-")) in H.
  apply (inj pretty) in H. exact H.
Qed.

Lemma constructed_client_order_id (init : OrderInitialized.t) (o : Order.t) :
  constructed init o →
  Order.client_order_id o = OrderInitialized.client_order_id init
  ∧ Order.strategy_id o = OrderInitialized.strategy_id init.
Proof.
  assert (Hinit : ∀ c o1, Order.__init__ c init = Ok o1 →
            Order.client_order_id o1 = OrderInitialized.client_order_id init
            ∧ Order.strategy_id o1 = OrderInitialized.strategy_id init).
  { intros c o1 H. unfold Order.__init__ in H.
    destruct (Quantity.new _ _); munfold_in H; [|discriminate].
    destruct (Quantity.new _ _); munfold_in H; [|discriminate].
    injection H as <-. auto. }
  intros [[c H]|[H|[H|[H|H]]]].
  - exact (Hinit c o H).
  - unfold Order.new_market in H. destruct (bool_decide _); [discriminate|].
    exact (Hinit _ o H).
  - unfold Order.new_limit in H. destruct (bool_decide _); [discriminate|].
    destruct (OrderInitialized.price init); [|discriminate].
    destruct (Order.__init__ LimitOrder init) as [o1|] eqn:E; [|discriminate].
    munfold_in H. injection H as <-. exact (Hinit _ o1 E).
  - unfold Order.new_stop_market in H. destruct (bool_decide _); [discriminate|].
    destruct (OrderInitialized.trigger_price init); [|discriminate].
    destruct (Order.__init__ StopMarketOrder init) as [o1|] eqn:E; [|discriminate].
    munfold_in H. injection H as <-. exact (Hinit _ o1 E).
  - unfold Order.new_stop_limit in H. destruct (bool_decide _); [discriminate|].
    destruct (OrderInitialized.trigger_price init); [|discriminate].
    destruct (OrderInitialized.price init); [|discriminate].
    destruct (Order.__init__ StopLimitOrder init) as [o1|] eqn:E; [|discriminate].
    munfold_in H. injection H as <-. exact (Hinit _ o1 E).
Qed.

(** Every call takes the next number, whether or not the order can be
    built. *)
Lemma factory_call_spec (call : FactoryCall) (self self' : OrderFactory.t)
    (r : Result Order.t) :
  factory_call call self = (self', r) →
  self' = OrderFactory.mk (strategy_id self) (_counter self + 1)
  ∧ ∀ o, r = Ok o →
         Order.client_order_id o = order_id (strategy_id self) (_counter self + 1)
         ∧ Order.strategy_id o = Some (strategy_id self).
Proof.
  destruct call; cbn [factory_call];
    unfold market, limit, stop_market, stop_limit, _next_order_id; munfold;
    intros [= <- <-]; (split; [reflexivity|]); intros o Ho;
    cbn [strategy_id _counter] in Ho;
    match type of Ho with
    | ?f ?i = Ok _ =>
        assert (Hc : constructed i o) by (unfold constructed; tauto)
    end;
    apply constructed_client_order_id in Hc as [-> ->]; split; reflexivity.
Qed.

Lemma created_ids (calls : list FactoryCall) :
  ∀ self o, o ∈ created calls self →
    ∃ n, _counter self < n
         ∧ Order.client_order_id o = order_id (strategy_id self) n
         ∧ Order.strategy_id o = Some (strategy_id self).
Proof.
  induction calls as [|call rest IH]; intros self o Hin; cbn [created] in Hin.
  - apply elem_of_nil in Hin as [].
  - destruct (factory_call call self) as [self' r] eqn:E.
    apply factory_call_spec in E as [-> Hr].
    assert (Hrest : o ∈ created rest (mk (strategy_id self) (_counter self + 1)) →
              ∃ n, _counter self < n
                   ∧ Order.client_order_id o = order_id (strategy_id self) n
                   ∧ Order.strategy_id o = Some (strategy_id self)).
    { intros H. apply IH in H as (n & Hn & H1 & H2). cbn in *.
      exists n. split; [lia|auto]. }
    destruct r as [o1|e]; [|exact (Hrest Hin)].
    apply elem_of_cons in Hin as [->|Hin]; [|exact (Hrest Hin)].
    destruct (Hr o1 eq_refl) as [H1 H2].
    exists (_counter self + 1). split; [lia|auto].
Qed.

(** X28: the orders that one factory creates, by any sequence of calls of
    market, limit, stop_market and stop_limit, have pairwise different
    client order ids, each of the form O-<strategy id>-<n>, and carry the
    factory's strategy id. *)
Theorem factory_orders_have_distinct_ids (calls : list FactoryCall)
    (self : OrderFactory.t) :
  NoDup (Order.client_order_id <$> created calls self)
  ∧ ∀ o, o ∈ created calls self →
      Order.strategy_id o = Some (strategy_id self)
      ∧ ∃ n, _counter self < n
             ∧ Order.client_order_id o = order_id (strategy_id self) n.
Proof.
  split.
  - revert self. induction calls as [|call rest IH]; intros self; cbn [created].
    + apply NoDup_nil_2.
    + destruct (factory_call call self) as [self' r] eqn:E.
      apply factory_call_spec in E as [-> Hr].
      destruct r as [o1|e]; [|apply IH].
      rewrite fmap_cons. apply NoDup_cons. split; [|apply IH].
      intros Hin. apply list_elem_of_fmap in Hin as (o2 & Heq & Hin).
      apply created_ids in Hin as (n & Hn & H1 & _). cbn in Hn, H1.
      destruct (Hr o1 eq_refl) as [H2 _]. rewrite H2, H1 in Heq.
      apply order_id_inj in Heq. lia.
  - intros o Hin. apply created_ids in Hin as (n & Hn & H1 & H2).
    split; [exact H2|]. exists n. auto.
Qed.

End FactoryIds.

(** ** The timers of the test clock *)

Section ClockAdvance.
Context {Callable : Type}.
Import TestClock.

Definition timer_kept (timer timer' : Timer.t Callable) : Prop :=
  Timer.name timer' = Timer.name timer
  ∧ Timer.callback timer' = Timer.callback timer
  ∧ Timer.interval_ns timer' = Timer.interval_ns timer
  ∧ Timer.stop_time_ns timer' = Timer.stop_time_ns timer.

(** An event of the timer that is due at [to_time_ns]. *)
Definition event_of (to_time_ns : Z) (timer : Timer.t Callable)
    (e : TimeEvent.t Callable) : Prop :=
  TimeEvent.name e = Timer.name timer
  ∧ TimeEvent.callback e = Some (Timer.callback timer)
  ∧ TimeEvent.ts_init e = TimeEvent.ts_event e
  ∧ TimeEvent.ts_event e ≤ to_time_ns.

Lemma fire_spec (fuel : nat) :
  ∀ (to_time_ns : Z) (timer timer' : Timer.t Callable)
    (events events' : list (TimeEvent.t Callable)) (is_expired : bool),
    fire fuel to_time_ns timer events = Some (timer', events', is_expired) →
    timer_kept timer timer'
    ∧ (∃ new, events' = events ++ new ∧ Forall (event_of to_time_ns timer) new)
    ∧ (is_expired = false → to_time_ns < Timer.next_time_ns timer').
Proof.
  induction fuel as [|fuel IH]; intros to timer timer' events events' ex H;
    cbn [fire] in H;
    (destruct (Z.leb_spec (Timer.next_time_ns timer) to) as [Hle|Hgt];
     cbn [negb] in H;
     [|injection H as <- <- <-; split; [repeat split|];
       split; [exists []; rewrite app_nil_r; auto|intros _; exact Hgt]]);
    (destruct (match Timer.stop_time_ns timer with
               | Some stop => stop <? Timer.next_time_ns timer
               | None => false
               end);
     [injection H as <- <- <-; split; [repeat split|];
      split; [exists []; rewrite app_nil_r; auto|discriminate]|]).
  - discriminate.
  - apply IH in H as ((K1 & K2 & K3 & K4) & (new & -> & Hnew) & Hex).
    cbn in K1, K2, K3, K4. split; [repeat split; assumption|].
    split; [|exact Hex]. eexists. rewrite <- app_assoc. split; [reflexivity|].
    constructor; [repeat split; cbn; auto|].
    eapply Forall_impl; [exact Hnew|]. intros e (E1 & E2 & E3 & E4).
    repeat split; assumption.
Qed.

Lemma fire_mono (fuel : nat) :
  ∀ (fuel' : nat) (to_time_ns : Z) (timer : Timer.t Callable)
    (events : list (TimeEvent.t Callable)) r,
    (fuel ≤ fuel')%nat →
    fire fuel to_time_ns timer events = Some r →
    fire fuel' to_time_ns timer events = Some r.
Proof.
  induction fuel as [|fuel IH]; intros fuel' to timer events r Hle H;
    destruct fuel' as [|fuel']; try lia; cbn [fire] in H |- *;
    destruct (negb (Timer.next_time_ns timer <=? to)); try exact H;
    destruct (match Timer.stop_time_ns timer with
              | Some stop => stop <? Timer.next_time_ns timer
              | None => false
              end); try exact H; try discriminate.
  apply (IH fuel'); [lia|exact H].
Qed.

Lemma fire_returns (fuel : nat) :
  ∀ (to_time_ns : Z) (timer : Timer.t Callable)
    (events : list (TimeEvent.t Callable)),
    0 < Timer.interval_ns timer →
    (Z.to_nat (to_time_ns - Timer.next_time_ns timer + 1) ≤ fuel)%nat →
    ∃ r, fire fuel to_time_ns timer events = Some r.
Proof.
  induction fuel as [|fuel IH]; intros to timer events Hi Hf; cbn [fire];
    (destruct (Z.leb_spec (Timer.next_time_ns timer) to) as [Hle|Hgt];
     cbn [negb]; [|eauto]);
    (destruct (match Timer.stop_time_ns timer with
               | Some stop => stop <? Timer.next_time_ns timer
               | None => false
               end); [eauto|]).
  - lia.
  - apply IH; cbn; [exact Hi|lia].
Qed.

Lemma fire_runs_on (fuel : nat) :
  ∀ (to_time_ns : Z) (timer : Timer.t Callable)
    (events : list (TimeEvent.t Callable)),
    Timer.interval_ns timer ≤ 0 →
    Timer.next_time_ns timer ≤ to_time_ns →
    match Timer.stop_time_ns timer with
    | Some stop => Timer.next_time_ns timer ≤ stop
    | None => True
    end →
    fire fuel to_time_ns timer events = None.
Proof.
  induction fuel as [|fuel IH]; intros to timer events Hi Hn Hs; cbn [fire];
    (destruct (Z.leb_spec (Timer.next_time_ns timer) to) as [_|Hgt];
     [cbn [negb]|lia]);
    (assert (Hstop : match Timer.stop_time_ns timer with
                     | Some stop => stop <? Timer.next_time_ns timer
                     | None => false
                     end = false)
       by (destruct (Timer.stop_time_ns timer) as [s|]; [|reflexivity];
           apply Z.ltb_ge; exact Hs));
    rewrite Hstop; [reflexivity|].
  apply IH; cbn; [exact Hi|lia|].
  destruct (Timer.stop_time_ns timer); [lia|exact I].
Qed.

Lemma fire_timers_mono (timers : list (string * Timer.t Callable)) :
  ∀ (fuel fuel' : nat) (to_time_ns : Z) (events : list (TimeEvent.t Callable))
    (expired : list string) r,
    (fuel ≤ fuel')%nat →
    fire_timers fuel to_time_ns timers events expired = Some r →
    fire_timers fuel' to_time_ns timers events expired = Some r.
Proof.
  induction timers as [|[name timer] rest IH];
    intros fuel fuel' to events expired r Hle H; cbn [fire_timers] in H |- *;
    [exact H|].
  destruct (fire fuel to timer events) as [[[timer1 events1] ex]|] eqn:E;
    [|discriminate].
  rewrite (fire_mono fuel fuel' to timer events _ Hle E).
  destruct (fire_timers fuel to rest events1 _) as [[[rest1 events2] expired2]|] eqn:E2;
    [|discriminate].
  rewrite (IH fuel fuel' to events1 _ _ Hle E2). exact H.
Qed.

Lemma fire_timers_returns (timers : list (string * Timer.t Callable)) :
  ∀ (to_time_ns : Z) (events : list (TimeEvent.t Callable))
    (expired : list string),
    Forall (λ kt, 0 < Timer.interval_ns kt.2) timers →
    ∃ fuel r, fire_timers fuel to_time_ns timers events expired = Some r.
Proof.
  induction timers as [|[name timer] rest IH]; intros to events expired Hall.
  - exists O. cbn. eauto.
  - apply Forall_cons in Hall as [Hi Hall]. cbn in Hi.
    destruct (fire_returns _ to timer events Hi (le_n _)) as ([[timer1 events1] ex] & E).
    destruct (IH to events1 (if ex then expired ++ [name] else expired) Hall)
      as (fuel2 & [[rest1 events2] expired2] & E2).
    exists (Nat.max (Z.to_nat (to - Timer.next_time_ns timer + 1)) fuel2).
    eexists. cbn [fire_timers].
    rewrite (fire_mono _ _ to timer events _ (Nat.le_max_l _ _) E).
    rewrite (fire_timers_mono rest _ _ to events1 _ _ (Nat.le_max_r _ _) E2).
    reflexivity.
Qed.

Lemma fire_timers_spec (timers : list (string * Timer.t Callable)) :
  ∀ (fuel : nat) (to_time_ns : Z) (events events' : list (TimeEvent.t Callable))
    (expired expired' : list string) timers',
    fire_timers fuel to_time_ns timers events expired
    = Some (timers', events', expired') →
    (∃ new, events' = events ++ new
            ∧ Forall (λ e, ∃ kt, kt ∈ timers ∧ event_of to_time_ns kt.2 e) new)
    ∧ (∃ more, expired' = expired ++ more)
    ∧ Forall (λ kt, kt.1 ∈ expired' ∨ to_time_ns < Timer.next_time_ns kt.2) timers'.
Proof.
  induction timers as [|[name timer] rest IH];
    intros fuel to events events' expired expired' timers' H;
    cbn [fire_timers] in H.
  - injection H as <- <- <-. split; [exists []; rewrite app_nil_r; auto|].
    split; [exists []; rewrite app_nil_r; auto|constructor].
  - destruct (fire fuel to timer events) as [[[timer1 events1] ex]|] eqn:E;
      [|discriminate].
    destruct (fire_timers fuel to rest events1 _) as [[[rest1 events2] expired2]|] eqn:E2;
      [|discriminate].
    injection H as <- <- <-.
    apply fire_spec in E as (_ & (new1 & -> & Hnew1) & Hex).
    apply IH in E2 as ((new2 & -> & Hnew2) & (more & Hmore) & Hrest).
    split; [|split].
    + exists (new1 ++ new2). rewrite app_assoc. split; [reflexivity|].
      apply Forall_app. split.
      * eapply Forall_impl; [exact Hnew1|]. intros e He.
        exists (name, timer). split; [apply list_elem_of_here|exact He].
      * eapply Forall_impl; [exact Hnew2|]. intros e (kt & Hkt & He).
        exists kt. split; [apply list_elem_of_further, Hkt|exact He].
    + destruct ex; [|exists more; exact Hmore].
      exists ([name] ++ more). rewrite Hmore, <- app_assoc. reflexivity.
    + constructor; [|exact Hrest]. cbn [fst snd].
      destruct ex; [left|right; apply Hex; reflexivity].
      rewrite Hmore. apply elem_of_app. left. apply elem_of_app. right.
      apply list_elem_of_here.
Qed.

Lemma elem_of_dict_pops {A} (kt : string * A) (names : list string) :
  ∀ d, kt ∈ foldl (λ d name, dict_pop name d) d names → kt ∈ d ∧ kt.1 ∉ names.
Proof.
  induction names as [|n names IH]; intros d H; cbn [foldl] in H.
  - split; [exact H|apply not_elem_of_nil].
  - apply IH in H as [H Hnin]. unfold dict_pop in H.
    apply list_elem_of_filter in H as [Hne H].
    split; [exact H|]. apply not_elem_of_cons. split; assumption.
Qed.

(** events is in non-decreasing order of ts_event. *)
Fixpoint events_in_order (l : list (TimeEvent.t Callable)) : Prop :=
  match l with
  | [] => True
  | x :: rest =>
      Forall (λ y, TimeEvent.ts_event x ≤ TimeEvent.ts_event y) rest
      ∧ events_in_order rest
  end.

Lemma insert_event_elem (e x : TimeEvent.t Callable) (l : list (TimeEvent.t Callable)) :
  x ∈ insert_event e l → x = e ∨ x ∈ l.
Proof.
  induction l as [|y rest IH]; cbn [insert_event].
  - intros H. apply list_elem_of_singleton in H. auto.
  - destruct (TimeEvent.ts_event e <=? TimeEvent.ts_event y).
    + intros H. apply elem_of_cons in H. exact H.
    + intros H. apply elem_of_cons in H as [->|H].
      * right. apply list_elem_of_here.
      * apply IH in H as [->|H]; [auto|]. right. apply list_elem_of_further, H.
Qed.

Lemma insert_event_in_order (e : TimeEvent.t Callable)
    (l : list (TimeEvent.t Callable)) :
  events_in_order l → events_in_order (insert_event e l).
Proof.
  induction l as [|y rest IH]; cbn [insert_event]; intros Hs.
  - cbn. auto.
  - destruct Hs as [Hy Hrest].
    destruct (Z.leb_spec (TimeEvent.ts_event e) (TimeEvent.ts_event y)) as [Hle|Hgt].
    + cbn [events_in_order]. split; [|split; assumption].
      constructor; [exact Hle|].
      eapply Forall_impl; [exact Hy|]. intros z Hz. cbn in Hz. lia.
    + cbn [events_in_order]. split; [|apply IH, Hrest].
      rewrite Forall_forall in Hy |- *. intros z Hz.
      apply insert_event_elem in Hz as [->|Hz]; [lia|auto].
Qed.

Lemma sort_events_in_order (l : list (TimeEvent.t Callable)) :
  events_in_order (sort_events l).
Proof.
  induction l as [|e l IH]; [exact I|].
  change (sort_events (e :: l)) with (insert_event e (sort_events l)).
  apply insert_event_in_order, IH.
Qed.

Lemma sort_events_elem (x : TimeEvent.t Callable) (l : list (TimeEvent.t Callable)) :
  x ∈ sort_events l → x ∈ l.
Proof.
  induction l as [|e l IH]; [auto|].
  change (sort_events (e :: l)) with (insert_event e (sort_events l)).
  intros H. apply insert_event_elem in H as [->|H];
    [apply list_elem_of_here|apply list_elem_of_further, IH, H].
Qed.

(** X29: when every timer has a positive interval, advance_time returns
    (with enough fuel the model gives the same result whatever the fuel):
    the clock is at to_time_ns, the events come in non-decreasing order of
    ts_event, each is the event of one of the timers, with the timer's
    name and callback and a ts_event not after to_time_ns, and every timer
    that is left is next due after to_time_ns. *)
Theorem advance_time_fires_due_timers (to_time_ns : Z) (self : TestClock.t Callable) :
  Forall (λ kt, 0 < Timer.interval_ns kt.2) (_timers self) →
  ∃ fuel0 self' events,
    (∀ fuel, (fuel0 ≤ fuel)%nat →
             advance_time fuel to_time_ns self = Some (self', events))
    ∧ _time_ns self' = to_time_ns
    ∧ events_in_order events
    ∧ Forall (λ e, ∃ kt, kt ∈ _timers self ∧ event_of to_time_ns kt.2 e) events
    ∧ Forall (λ kt, to_time_ns < Timer.next_time_ns kt.2) (_timers self').
Proof.
  intros Hall.
  destruct (fire_timers_returns (_timers self) to_time_ns [] [] Hall)
    as (fuel0 & [[timers1 events1] expired1] & E).
  exists fuel0. eexists. eexists. split.
  { intros fuel Hle. unfold advance_time.
    rewrite (fire_timers_mono _ _ _ _ _ _ _ Hle E). reflexivity. }
  apply fire_timers_spec in E as ((new & -> & Hnew) & _ & Hleft).
  cbn [_time_ns _timers]. split; [reflexivity|].
  split; [apply sort_events_in_order|]. split.
  - rewrite Forall_forall in Hnew |- *. intros e He.
    apply sort_events_elem in He. auto.
  - rewrite Forall_forall in Hleft |- *. intros kt Hkt.
    apply elem_of_dict_pops in Hkt as [Hkt Hnin].
    destruct (Hleft kt Hkt) as [Hex|Hnext]; [contradiction|exact Hnext].
Qed.

(** X30: a timer with an interval of zero or less that is due, and is not
    past its stop time, keeps advance_time in its while loop for ever:
    the call returns for no amount of fuel. *)
Theorem advance_time_never_returns (to_time_ns : Z) (self : TestClock.t Callable)
    (name : string) (timer : Timer.t Callable) :
  (name, timer) ∈ _timers self →
  Timer.interval_ns timer ≤ 0 →
  Timer.next_time_ns timer ≤ to_time_ns →
  match Timer.stop_time_ns timer with
  | Some stop => Timer.next_time_ns timer ≤ stop
  | None => True
  end →
  ∀ fuel, advance_time fuel to_time_ns self = None.
Proof.
  intros Hin Hi Hn Hs fuel. unfold advance_time.
  assert (G : ∀ timers events expired,
            (name, timer) ∈ timers →
            fire_timers fuel to_time_ns timers events expired = None).
  { induction timers as [|[k t] rest IH]; intros events expired Hk.
    - apply elem_of_nil in Hk as [].
    - cbn [fire_timers]. apply elem_of_cons in Hk as [[= <- <-]|Hk].
      + rewrite (fire_runs_on fuel to_time_ns timer events Hi Hn Hs). reflexivity.
      + destruct (fire fuel to_time_ns t events) as [[[t1 ev1] ex]|]; [|reflexivity].
        rewrite (IH _ _ Hk). reflexivity. }
  rewrite (G _ _ _ Hin). reflexivity.
Qed.

End ClockAdvance.

Lemma advance_time_fires_due_timers_witness :
  let self := TestClock.set_timer "bar" 10 tt None None (TestClock.__init__ 0) in
  ∃ fuel0 self' events,
    (∀ fuel, (fuel0 ≤ fuel)%nat →
             TestClock.advance_time fuel 35 self = Some (self', events))
    ∧ TestClock._time_ns self' = 35
    ∧ events_in_order events
    ∧ Forall (λ e, ∃ kt, kt ∈ TestClock._timers self ∧ event_of 35 kt.2 e) events
    ∧ Forall (λ kt, 35 < Timer.next_time_ns kt.2) (TestClock._timers self').
Proof.
  intros self.
  apply (advance_time_fires_due_timers 35 self).
  apply Forall_singleton. cbn. lia.
Defined.

Lemma advance_time_never_returns_witness :
  let self := TestClock.set_timer "stuck" 0 tt (Some 5) None (TestClock.__init__ 0) in
  TestClock.advance_time 1000 35 self = None.
Proof.
  intros self.
  apply (advance_time_never_returns 35 self "stuck"
           (Timer.mk "stuck" tt 0 5 5 None)).
  - apply list_elem_of_here.
  - cbn. lia.
  - cbn. lia.
  - exact I.
Defined.
